(* ===== verification/_CoqProject ===== *)
-Q . S2P
Prelude.v
Words.v
Arena.v
ArenaFacts.v
LRUCache.v
SimpleFS.v
SimpleFSFacts.v
BlockMap.v
Extents.v
BlockStore.v
BlockStoreFacts.v
BlockStoreRace.v
Json.v
Crypto.v
Paths.v
Volume.v
ObjectStore.v
FileBackend.v
FileBackendFacts.v
S3Backend.v
S3BackendFacts.v
WAL.v
Chunk.v
Read.v
ChunkFacts.v
CommitFacts.v
Blocks.v
Inherit.v
Content.v
Requests.v
ReadFacts.v
Checkpoint.v
CheckpointFacts.v
SeqNum.v
Frames.v
Footprint.v
Engine.v
GC.v
Background.v
Snapshot.v
Lifecycle.v
Nbd.v
NbdPlugin.v
Import.v
Sfs.v
Vblock.v
SeqNumFacts.v
Writers.v
Instances.v
FlatFacts.v
Backends.v
WALFacts.v
VolInv.v
WriteFacts.v
FlushFacts.v
UploadFacts.v
DrainFacts.v
GCFacts.v
Refinement.v
Durability.v
Nonces.v
RoundTrips.v
Device.v
PartialFlush.v
NbdFacts.v
ImportFacts.v
Restart.v
Clones.v
Isolation.v
Replay.v
Recovery.v
Sweep.v
Backpressure.v
BackgroundFacts.v
ImportImage.v
