(* ===== verification/Prelude.v ===== *)
(** * Viperblock: a verification library for the WAL-backed block store

    Viperblock serves a virtual disk.  Writes are buffered in memory, appended
    to a local write-ahead log (WAL) on flush, consolidated into chunk objects
    that a backend (files or S3) stores, and indexed by a run-length block map
    whose checkpoints are saved beside the chunks.  A unified in-memory block
    store answers reads while blocks move from buffer to log to chunk.  Volumes
    may be encrypted (AES-256-GCM with a SeqNum in every nonce), snapshotted
    and cloned; unreferenced chunks are collected.  An nbdkit plugin exports a
    volume as a network disk, an importer copies disk images into volumes, and
    a small file system and an arena allocator live beside the engine.

    ** Parts of the program and their models

    All sources are Go, under [src/].  Definitions keep the names of the
    functions they translate.

    - Shared: [Prelude] (results, tactics), [Words] (machine integers with
      their wrap-around, big-endian codecs, CRC-32, [utils/utils.go]).
    - Naming ([types/types.go], [parseChunkObjectID]): [Paths].
    - Block map ([BlocksToObject] in [viperblock/viperblock.go]): [BlockMap] is
      the model, [Extents] its invariant, lookup and reference counts.
    - Unified block store ([viperblock/blockstore.go]): [BlockStore] is the
      model, [BlockStoreFacts] its well-formedness, [BlockStoreRace] a step
      relation that interleaves writers, flushes, a drain and a reader.
    - Cryptography ([viperblock/crypto.go], [masterkey_load.go]): [Crypto], over
      [Json], the part of [encoding/json] that decodes the metadata envelope.
    - The volume ([VB], its errors, local files, the backend as an object
      store, and the error and state monad [M]): [Volume].  The world carries a
      plan that says, call by call, whether the operating system or the
      backend works, fails after some bytes took effect, or answers short.
    - Engine ([viperblock/viperblock.go]): [WAL] (record formats, appends, the
      three log readers), [Chunk] (deduplication, chunk files, uploads in any
      completion order, commit), [Read], [Checkpoint], [SeqNum] (state
      persistence, SeqNum windows, UUID minting; [reserveSeqNum] and
      [SaveState] as programs of atomic actions), [Engine] (WriteAt, flush,
      drain, backpressure), [GC], [Background] (the goroutines that sync the
      log, upload chunks and collect garbage, with their Start and Stop
      functions, as events), [Snapshot] ([viperblock/snapshot.go]),
      [Lifecycle] (New, recovery, Close), [LRUCache] (sizing the optional
      cache).
    - Facts of the engine, component by component: [ChunkFacts], [CommitFacts],
      [Blocks], [Inherit] (the layers of other volumes a clone reads from),
      [Content], [Requests] and [ReadFacts] (what a volume's bytes are and that
      reads return them), [CheckpointFacts], [Frames], [Footprint] (the objects
      an operation may touch), [SeqNumFacts], [WALFacts], [VolInv] (the
      volume's invariant, for clones too, the exact reference counts of the
      collector included), [WriteFacts], [FlushFacts], [UploadFacts],
      [DrainFacts], [GCFacts], [FlatFacts] (the encoding of the layers in a
      snapshot's checkpoint).
    - Backends: [ObjectStore] states what a backend promises the engine (class
      [BackendImpl]); [FileBackend] and [FileBackendFacts] model
      [backends/file/file.go] over a failing file system and discharge it;
      [S3Backend] and [S3BackendFacts] model [backends/s3/s3.go] over an SDK
      client that keeps the laws of S3 ([S3Laws]) and discharge it.
    - Front ends: [Nbd], [NbdFacts], [NbdPlugin] (the package globals)
      ([nbd/viperblock.go]); [Import], [ImportFacts],
      [ImportImage] ([viperblock/v_utils/v_utils.go]); [Vblock]
      ([cmd/vblock/main.go]); [Sfs] ([cmd/sfs/sfs.go]).
    - Beside the engine: [Arena], [ArenaFacts] ([viperblock/arena.go]);
      [SimpleFS], [SimpleFSFacts] ([simplefs/simplefs.go]).
    - [Instances] has concrete instances of every class parameter (hash, AEAD,
      JSON codecs), so that each law can hold and witnesses evaluate.

    ** What the theorems show

    - The engine is a disk.  [Refinement] defines an abstract byte-array
      device; [Device] proves that every run of reads, writes, flushes,
      drains and sweeps is a run of it, whatever the backend does, and that
      acknowledged writes read back; [NbdFacts] carries this to the requests of
      an nbd connection.  Runs are admissible: requests in range and below the
      backpressure mark, flushes and drains on a working local disk.  The
      invariant [vol_inv] is preserved by every operation.
    - Durability.  [Durability]: recovery of a log returns exactly the
      acknowledged appends, through torn writes and failed ones that were
      rolled back, and only sealed records.  [Restart]: after a drain of a
      volume with no block left over from a failed upload, and any sweeps after
      it, the backend alone suffices to restart.  [Replay] and [Recovery]: after a crash,
      replaying the local log restores every flushed write of a volume that
      has not drained since it was opened, and the case after a drain in which
      a flushed write is dropped.  [PartialFlush]: the schedule in which a
      failed flush loses the newer of two writes of a block.
      [RoundTrips]: checkpoints reload exactly, truncated ones are refused.
    - Snapshots and clones.  [Clones]: a volume opened on a snapshot holds the
      bytes its source had (no block left over from a failed upload), through
      any chain of clones.  [Isolation]: volumes
      and clones of each other that share a backend each behave as a device of
      their own, in every interleaving.
    - Garbage collection.  [Sweep]: a sweep spares every chunk of a volume
      with a snapshot, collects exactly the unreferenced chunks otherwise, and
      the schedule in which a sweep beside a drain deletes a fresh chunk.
    - Goroutines.  [BackgroundFacts]: starting and stopping is safe in every
      interleaving; a Stop that waits is never deadlocked, and its goroutine
      stays only as long as its select keeps choosing other cases.
    - Nonces.  [Nonces], over the histories of [SeqNumFacts] and the
      interleavings of [Writers]: through crashes, failures and concurrent
      reservations no SeqNum is handed out twice; and the three ways in which
      [SaveState] or [LoadState] breaks that (a save that interleaves with a
      reservation, a save that mints the UUID and fails, a reopen that cannot
      read the local state).  [Crypto]: nonces and AADs bind what they should,
      and the metadata envelope round trips through the JSON decoder.
    - Concurrency of the block store.  [BlockStoreRace]: a reader sees the
      newest write of a block in every interleaving with a drain.
    - Index correctness.  [Extents]: insertion, coalescing and the reference
      counts of the block map.
    - Progress.  [Backpressure]: a blocked writer is released by one drain, and
      the accounting error after which it never is.
    - Backends.  [Backends]: every sequence of calls on the file or the S3
      backend is one of the object store the engine is verified against;
      initialisation, descriptors and listings.
    - The arena refines independent arrays and [Compact] is exact; SimpleFS
      refines a directory with a capacity.  [ImportImage]: an imported volume
      reads as the image; [ImportFacts]: the importer's progress is bounded.

    ** Bounds and fuel

    Go integers are [Z] with the wrap-around written out ([u64], [u32],
    [u16]); theorems state the ranges they need (counters below [2^64], ranges
    below 4 GiB).  Loops that are not structural take fuel: the log readers use
    the length of the file, every record being at least a byte long;
    the JSON scanner takes three times the length of the text ([enough], with a
    lemma that more changes nothing);
    [advance_loop] uses the number of windows to the target; the backpressure
    loop takes fuel as an argument and its theorems say how much is enough
    (one round) or that no amount is; the listing loop of the S3 backend needs
    as many rounds as the server has pages.

    ** Not modelled

    Locks appear only where interleaving is the subject ([BlockStoreRace],
    [Writers], [Background], [Sweep]); elsewhere an operation is one step.  In
    particular a drain's upload and commit of a chunk are one step except in
    [Sweep], and a tick of [Background] is one step.  The
    legacy read path is modelled with the LRU cache off, as by default.
    AES-GCM, SHA-256, the JSON texts of VBState and SnapshotState, the LRU
    library, the AWS SDK and the
    key-file library are class or record parameters with their documented laws.
    Not modelled at all: log and metric output ([telemetry]), the nbdkit
    bindings ([nbd/libguestfs.org]), the daemon stub [cmd/vbd],
    the memory backend (empty bodies), test servers and benchmarks. *)

From stdpp Require Export base tactics gmap list strings sorting.
From Stdlib Require Export ZArith Lia.
From Stdlib Require Import Strings.Byte.

#[global] Open Scope Z_scope.
#[export] Set Warnings "-clear-no-such-hyp".

(** ** Results of fallible code *)

(** Go functions that return [(value, error)] return [result A]. *)
Inductive result (E A : Type) : Type :=
| Ok (a : A)
| Err (e : E).
Arguments Ok {E A} _.
Arguments Err {E A} _.

Definition rbind {E A B} (r : result E A) (k : A -> result E B) : result E B :=
  match r with Ok a => k a | Err e => Err e end.

Declare Scope go_scope.
Delimit Scope go_scope with go.
Notation "'let?' x ':=' r 'in' k" := (rbind r (fun x => k))
  (at level 10, x pattern, r at level 100, k at level 200) : go_scope.
Open Scope go_scope.

(** ** Tactics shared by the components *)

(** Case analysis on the boolean comparisons of [Z] in goal and hypotheses. *)
Ltac zcase :=
  repeat match goal with
  | |- context [?a <? ?b] => destruct (Z.ltb_spec a b)
  | |- context [?a <=? ?b] => destruct (Z.leb_spec a b)
  | |- context [?a =? ?b] => destruct (Z.eqb_spec a b)
  | H : context [?a <? ?b] |- _ => destruct (Z.ltb_spec a b)
  | H : context [?a <=? ?b] |- _ => destruct (Z.leb_spec a b)
  | H : context [?a =? ?b] |- _ => destruct (Z.eqb_spec a b)
  end.

(** Case analysis, then linear arithmetic or congruence. *)
Ltac zcrush := zcase; try lia; try congruence; simplify_eq; try done; try lia.

Create HintDb vb.

(** ** Decidability *)

(** A proposition equivalent to a decidable one is decidable. *)
Definition dec_iff {P Q : Prop} (H : P <-> Q) (d : Decision Q) : Decision P :=
  match d with
  | left q => left (proj2 H q)
  | right n => right (fun p => n (proj1 H p))
  end.
