(* ===== verification/Words.v ===== *)
(** * Machine integers, bytes and checksums

    The integer widths of Go as [Z] with the wrap-around written out, the
    saturating conversions of [utils/utils.go], [encoding/binary.BigEndian],
    and [hash/crc32] (IEEE polynomial) as the code uses them. *)

From S2P Require Import Prelude.
From Stdlib Require Import Strings.Byte.

(** ** Fixed-width unsigned integers *)

Definition wrap (w z : Z) : Z := z mod 2 ^ w.
Definition u64 (z : Z) : Z := wrap 64 z.
Definition u32 (z : Z) : Z := wrap 32 z.
Definition u16 (z : Z) : Z := wrap 16 z.

Definition in_u (w z : Z) : Prop := 0 <= z < 2 ^ w.
Abbreviation in_u64 := (in_u 64).
Abbreviation in_u32 := (in_u 32).
Abbreviation in_u16 := (in_u 16).

Definition MaxUint16 : Z := 65535.
Definition MaxUint32 : Z := 4294967295.
Definition MaxInt64 : Z := 9223372036854775807.
(** [int] is 64 bits wide on the supported platforms. *)
Definition MaxInt : Z := MaxInt64.

(** ** utils: saturating conversions *)

Definition SafeInt64ToUint64 (v : Z) : Z := if v <? 0 then 0 else v.
Definition SafeIntToUint64 (v : Z) : Z := if v <? 0 then 0 else v.
Definition SafeUint64ToInt64 (v : Z) : Z := if MaxInt64 <? v then MaxInt64 else v.
Definition SafeUint64ToUint32 (v : Z) : Z := if MaxUint32 <? v then MaxUint32 else v.
Definition SafeUint64ToInt (v : Z) : Z := if MaxInt <? v then MaxInt else v.
Definition SafeInt64ToUint32 (v : Z) : Z :=
  if v <? 0 then 0 else if MaxUint32 <? v then MaxUint32 else v.
Definition SafeIntToUint32 (v : Z) : Z :=
  if v <? 0 then 0 else if MaxUint32 <? v then MaxUint32 else v.
Definition SafeIntToUint16 (v : Z) : Z :=
  if v <? 0 then 0 else if MaxUint16 <? v then MaxUint16 else v.

(** ** Bytes *)

Abbreviation byte := Byte.byte.
Abbreviation bytes := (list Byte.byte).

#[global] Instance byte_eq_dec : EqDecision Byte.byte := Byte.byte_eq_dec.

Definition Z_of_byte (b : byte) : Z := Z.of_N (Byte.to_N b).
Definition byte_of_Z (z : Z) : byte :=
  match Byte.of_N (Z.to_N (z mod 256)) with Some b => b | None => x00 end.

(** Text with the double quotes written as apostrophes. *)
Definition lit (s : string) : bytes :=
  (fun b : byte => if decide (b = x27) then x22 else b) <$> String.list_byte_of_string s.

(** [make([]byte, n)]: [n] zero bytes. *)
Definition zeros (n : Z) : bytes := replicate (Z.to_nat n) x00.

(** [len(s)] for a slice. *)
Definition blen (bs : bytes) : Z := Z.of_nat (length bs).

(** The slice expression [bs[lo:hi]] on in-range indices. *)
Definition slice {A} (bs : list A) (lo hi : Z) : list A :=
  take (Z.to_nat (hi - lo)) (drop (Z.to_nat lo) bs).

(** ** encoding/binary, BigEndian *)

Fixpoint be_put (n : nat) (z : Z) : bytes :=
  match n with
  | O => []
  | S n' => byte_of_Z (Z.shiftr z (8 * Z.of_nat n')) :: be_put n' z
  end.

Fixpoint be_get_acc (acc : Z) (bs : bytes) : Z :=
  match bs with
  | [] => acc
  | b :: bs' => be_get_acc (acc * 256 + Z_of_byte b) bs'
  end.
Definition be_get (bs : bytes) : Z := be_get_acc 0 bs.

Definition PutUint64 (z : Z) : bytes := be_put 8 z.
Definition PutUint32 (z : Z) : bytes := be_put 4 z.
Definition PutUint16 (z : Z) : bytes := be_put 2 z.

(** ** hash/crc32, IEEE polynomial *)

Definition ieee_poly : Z := 0xEDB88320.

Definition crc_step (c : Z) : Z :=
  if Z.odd c then Z.lxor (Z.shiftr c 1) ieee_poly else Z.shiftr c 1.

Definition crc_byte (c : Z) (b : byte) : Z :=
  Nat.iter 8 crc_step (Z.lxor c (Z_of_byte b)).

(** [crc32.Update(crc, IEEETable, p)] *)
Definition crc32_update (crc : Z) (p : bytes) : Z :=
  Z.lxor (fold_left crc_byte p (Z.lxor crc MaxUint32)) MaxUint32.

(** [crc32.ChecksumIEEE(p)] *)
Definition ChecksumIEEE (p : bytes) : Z := crc32_update 0 p.

(** ** The unit HumanBytes prints in *)

(** The loop of [HumanBytes]: the divisor and the index of the unit letter. *)
Fixpoint human_loop (fuel : nat) (n div exp : Z) : Z * Z :=
  match fuel with
  | O => (div, exp)
  | S fuel' => if 1024 <=? n then human_loop fuel' (n / 1024) (wrap 64 (div * 1024)) (exp + 1) else (div, exp)
  end.

(** [None]: below 1024 the count is printed in bytes. A 64-bit count takes at
    most five rounds. *)
Definition HumanBytes (b : Z) : option (Z * Z) :=
  if b <? 1024 then None else Some (human_loop 7 (b / 1024) 1024 0).

(** ** Lemmas on widths *)

Lemma wrap_small w z : in_u w z -> wrap w z = z.
Proof. unfold wrap, in_u. intros. by apply Z.mod_small. Qed.

Lemma wrap_range w z : 0 <= w -> in_u w (wrap w z).
Proof. intros. unfold wrap, in_u. apply Z.mod_pos_bound. lia. Qed.

Lemma u64_small z : in_u64 z -> u64 z = z.
Proof. apply wrap_small. Qed.
Lemma u32_small z : in_u32 z -> u32 z = z.
Proof. apply wrap_small. Qed.
Lemma u16_small z : in_u16 z -> u16 z = z.
Proof. apply wrap_small. Qed.

(** Unfolds the width predicates so that [lia] sees the bounds. *)
Ltac unfold_widths :=
  unfold in_u, MaxUint16, MaxUint32, MaxInt, MaxInt64 in *.
Ltac wsolve := unfold_widths; lia.
(** Removes a wrap-around that [lia] can show not to happen. *)
Ltac unwrap :=
  repeat match goal with
  | |- context [u64 ?x] => rewrite (u64_small x) by wsolve
  | |- context [u32 ?x] => rewrite (u32_small x) by wsolve
  | |- context [u16 ?x] => rewrite (u16_small x) by wsolve
  end.

(** The conversions are clamps to the target range. *)
Lemma SafeIntToUint16_clamp v : SafeIntToUint16 v = Z.max 0 (Z.min v MaxUint16).
Proof. unfold SafeIntToUint16. unfold_widths. zcrush. Qed.
Lemma SafeIntToUint32_clamp v : SafeIntToUint32 v = Z.max 0 (Z.min v MaxUint32).
Proof. unfold SafeIntToUint32. unfold_widths. zcrush. Qed.
Lemma SafeUint64ToInt_small v : v <= MaxInt -> SafeUint64ToInt v = v.
Proof. unfold SafeUint64ToInt. intros. zcrush. Qed.
Lemma SafeIntToUint16_small v : in_u16 v -> SafeIntToUint16 v = v.
Proof. intros. rewrite SafeIntToUint16_clamp. wsolve. Qed.
Lemma SafeIntToUint32_small v : in_u32 v -> SafeIntToUint32 v = v.
Proof. intros. rewrite SafeIntToUint32_clamp. wsolve. Qed.

(** ** Lemmas on bytes *)

Lemma Z_of_byte_range b : 0 <= Z_of_byte b < 256.
Proof.
  unfold Z_of_byte. pose proof (Byte.to_N_bounded b). lia.
Qed.

Lemma Z_of_byte_of_Z z : Z_of_byte (byte_of_Z z) = z mod 256.
Proof.
  unfold byte_of_Z, Z_of_byte.
  pose proof (Z.mod_pos_bound z 256 ltac:(lia)).
  destruct (Byte.of_N (Z.to_N (z mod 256))) eqn:E.
  - apply Byte.to_of_N in E. rewrite E. lia.
  - apply Byte.of_N_None_iff in E. lia.
Qed.

Lemma byte_of_Z_of_byte b : byte_of_Z (Z_of_byte b) = b.
Proof.
  unfold byte_of_Z. rewrite Z.mod_small by apply Z_of_byte_range.
  unfold Z_of_byte. rewrite N2Z.id, Byte.of_to_N. done.
Qed.

Lemma Z_of_byte_inj b1 b2 : Z_of_byte b1 = Z_of_byte b2 -> b1 = b2.
Proof.
  intros H. by rewrite <-(byte_of_Z_of_byte b1), <-(byte_of_Z_of_byte b2), H.
Qed.

Lemma length_be_put n z : length (be_put n z) = n.
Proof. induction n as [|n IH]; simpl; auto. Qed.

Lemma be_get_acc_app acc a b :
  be_get_acc acc (a ++ b) = be_get_acc (be_get_acc acc a) b.
Proof. revert acc. induction a as [|x a IH]; intros acc; simpl; auto. Qed.

Lemma be_get_acc_range acc bs :
  acc * 256 ^ Z.of_nat (length bs) <= be_get_acc acc bs
  < (acc + 1) * 256 ^ Z.of_nat (length bs).
Proof.
  revert acc. induction bs as [|b bs IH]; intros acc.
  - simpl. lia.
  - cbn [be_get_acc length]. specialize (IH (acc * 256 + Z_of_byte b)).
    pose proof (Z_of_byte_range b).
    rewrite Nat2Z.inj_succ, Z.pow_succ_r by lia.
    assert (0 < 256 ^ Z.of_nat (length bs)) by lia. nia.
Qed.

Lemma be_get_range bs : 0 <= be_get bs < 256 ^ Z.of_nat (length bs).
Proof. unfold be_get. pose proof (be_get_acc_range 0 bs). lia. Qed.

Lemma be_get_acc_put n acc z :
  be_get_acc acc (be_put n z) = acc * 256 ^ Z.of_nat n + z mod 256 ^ Z.of_nat n.
Proof.
  revert acc. induction n as [|n IH]; intros acc.
  - simpl. rewrite Z.mod_1_r. lia.
  - cbn [be_get_acc be_put]. rewrite IH, Z_of_byte_of_Z.
    rewrite Nat2Z.inj_succ, Z.pow_succ_r by lia.
    rewrite Z.shiftr_div_pow2 by lia.
    assert (2 ^ (8 * Z.of_nat n) = 256 ^ Z.of_nat n) as ->
      by (rewrite Z.pow_mul_r by lia; done).
    assert (0 < 256 ^ Z.of_nat n) by lia.
    rewrite (Z.mul_comm 256), Z.rem_mul_r by lia. lia.
Qed.

(** Decoding what was encoded gives the value back. *)
Lemma be_get_put n z : 0 <= z < 256 ^ Z.of_nat n -> be_get (be_put n z) = z.
Proof.
  intros. unfold be_get. rewrite be_get_acc_put, Z.mod_small by lia. lia.
Qed.

Lemma be_put_inj n z1 z2 :
  0 <= z1 < 256 ^ Z.of_nat n -> 0 <= z2 < 256 ^ Z.of_nat n ->
  be_put n z1 = be_put n z2 -> z1 = z2.
Proof.
  intros H1 H2 H. rewrite <-(be_get_put n z1), <-(be_get_put n z2) by lia.
  by rewrite H.
Qed.

(** Decoding is injective on byte strings of one length. *)
Lemma be_get_acc_inj acc1 acc2 a b :
  length a = length b -> be_get_acc acc1 a = be_get_acc acc2 b ->
  acc1 = acc2 /\ a = b.
Proof.
  revert acc1 acc2 b. induction a as [|x a IH]; intros acc1 acc2 [|y b] Hl H;
    simpl in *; try lia; [done|].
  apply IH in H as [H ->]; [|lia].
  pose proof (Z_of_byte_range x). pose proof (Z_of_byte_range y).
  assert (Z_of_byte x = Z_of_byte y) by lia.
  split; [lia|]. f_equal. by apply Z_of_byte_inj.
Qed.

Lemma be_get_inj a b : length a = length b -> be_get a = be_get b -> a = b.
Proof. intros Hl H. by apply (be_get_acc_inj 0 0 a b Hl H). Qed.

(** Re-encoding what was decoded gives the bytes back. *)
Lemma be_put_get bs : be_put (length bs) (be_get bs) = bs.
Proof.
  apply be_get_inj; [by rewrite length_be_put|].
  apply be_get_put, be_get_range.
Qed.

(** ** Lemmas on slices *)

Lemma length_zeros n : length (zeros n) = Z.to_nat n.
Proof. apply length_replicate. Qed.

Lemma slice_app_l {A} (a b : list A) n :
  Z.of_nat (length a) = n -> slice (a ++ b) 0 n = a.
Proof.
  intros. unfold slice. rewrite drop_0.
  by rewrite take_app_length' by lia.
Qed.

Lemma slice_app_r {A} (a b : list A) n m :
  Z.of_nat (length a) = n -> n + Z.of_nat (length b) <= m -> slice (a ++ b) n m = b.
Proof.
  intros. unfold slice. rewrite drop_app_length' by lia.
  by rewrite take_ge by lia.
Qed.

(** Slicing past a prefix. *)
Lemma slice_app_skip {A} (a b : list A) n lo hi :
  Z.of_nat (length a) = n -> n <= lo -> slice (a ++ b) lo hi = slice b (lo - n) (hi - n).
Proof.
  intros. unfold slice.
  rewrite drop_app_ge by lia.
  f_equal; [lia|]. f_equal. lia.
Qed.

Lemma slice_0_0 {A} (a : list A) lo : slice a lo lo = [].
Proof. unfold slice. by rewrite Z.sub_diag. Qed.

(** ** Fixed-width fields *)

Lemma be_get_put8 z : in_u64 z -> be_get (PutUint64 z) = z.
Proof. apply (be_get_put 8). Qed.
Lemma be_get_put4 z : in_u32 z -> be_get (PutUint32 z) = z.
Proof. apply (be_get_put 4). Qed.
Lemma be_get_put2 z : in_u16 z -> be_get (PutUint16 z) = z.
Proof. apply (be_get_put 2). Qed.

Lemma len8 z : Z.of_nat (length (PutUint64 z)) = 8.
Proof. unfold PutUint64. by rewrite length_be_put. Qed.
Lemma len4 z : Z.of_nat (length (PutUint32 z)) = 4.
Proof. unfold PutUint32. by rewrite length_be_put. Qed.
Lemma len2 z : Z.of_nat (length (PutUint16 z)) = 2.
Proof. unfold PutUint16. by rewrite length_be_put. Qed.

(** Slicing a field out of a concatenation of fixed-width fields. *)
Ltac field_slice :=
  repeat first
    [ rewrite slice_app_l by (rewrite ?len8, ?len4, ?len2; reflexivity)
    | rewrite (slice_app_skip (PutUint64 _) _ 8) by (rewrite ?len8; lia)
    | rewrite (slice_app_skip (PutUint32 _) _ 4) by (rewrite ?len4; lia)
    | rewrite (slice_app_skip (PutUint16 _) _ 2) by (rewrite ?len2; lia) ];
  cbn [Z.sub Z.add Z.opp Z.pos_sub Pos.pred_double Z.pred_double].

Lemma slice_all {A} (l : list A) n : Z.of_nat (length l) = n -> slice l 0 n = l.
Proof. intros. unfold slice. rewrite drop_0. apply take_ge. lia. Qed.

(** ** Lemmas on the checksum *)

Lemma crc32_update_app c a b :
  crc32_update (crc32_update c a) b = crc32_update c (a ++ b).
Proof.
  unfold crc32_update. rewrite fold_left_app.
  by rewrite Z.lxor_assoc, Z.lxor_nilpotent, Z.lxor_0_r.
Qed.

Lemma lxor_range w a b : 0 <= w -> in_u w a -> in_u w b -> in_u w (Z.lxor a b).
Proof.
  unfold in_u. intros Hw Ha Hb.
  assert (0 <= Z.lxor a b) by (apply Z.lxor_nonneg; lia).
  split; [done|].
  destruct (Z.eq_dec (Z.lxor a b) 0) as [->|Hz]; [lia|].
  apply Z.log2_lt_pow2; [lia|].
  pose proof (Z.log2_lxor a b ltac:(lia) ltac:(lia)).
  assert (forall x, 0 <= x < 2 ^ w -> Z.log2 x < w \/ x = 0) as Hlog.
  { intros x Hx. destruct (Z.eq_dec x 0); [by right|left].
    apply Z.log2_lt_pow2; lia. }
  destruct (Hlog a Ha) as [? | ->], (Hlog b Hb) as [? | ->];
    rewrite ?Z.lxor_0_l, ?Z.lxor_0_r in *; try lia.
Qed.

Lemma shiftr1_range w a : 0 <= w -> in_u w a -> in_u w (Z.shiftr a 1).
Proof.
  unfold in_u. intros. rewrite Z.shiftr_div_pow2 by lia.
  change (2 ^ 1) with 2. split; [apply Z.div_pos; lia|].
  apply Z.div_lt_upper_bound; lia.
Qed.

Lemma crc_step_range c : in_u32 c -> in_u32 (crc_step c).
Proof.
  intros. unfold crc_step. destruct (Z.odd c).
  - apply lxor_range; [lia|by apply shiftr1_range|done].
  - by apply shiftr1_range.
Qed.

Lemma crc_byte_range c b : in_u32 c -> in_u32 (crc_byte c b).
Proof.
  intros. unfold crc_byte.
  assert (in_u32 (Z.lxor c (Z_of_byte b))) as Hx.
  { apply lxor_range; [lia|done|]. pose proof (Z_of_byte_range b). wsolve. }
  cbn [Nat.iter nat_rect]. by repeat apply crc_step_range.
Qed.

Lemma crc32_update_range c p : in_u32 c -> in_u32 (crc32_update c p).
Proof.
  intros Hc. unfold crc32_update. apply lxor_range; [lia| |done].
  assert (in_u32 (Z.lxor c MaxUint32)) as H by (apply lxor_range; done).
  revert H. generalize (Z.lxor c MaxUint32). induction p as [|b p IH]; simpl; auto.
  intros. by apply IH, crc_byte_range.
Qed.

Lemma ChecksumIEEE_range p : in_u32 (ChecksumIEEE p).
Proof. by apply crc32_update_range. Qed.

(** The standard check value of CRC-32/ISO-HDLC: the checksum of the ASCII
    digits 1 to 9. *)
Example crc32_check_value :
  ChecksumIEEE (byte_of_Z <$> [49;50;51;52;53;54;55;56;57]) = 0xCBF43926.
Proof. vm_compute. reflexivity. Qed.

(** ** HumanBytes *)

Lemma human_loop_spec fuel : forall b n div exp,
  0 <= exp -> div = 1024 ^ (exp + 1) -> n = b / div -> div <= b < 2 ^ 64 -> exp + Z.of_nat fuel <= 7 ->
  b < 1024 ^ (exp + 2 + Z.of_nat fuel) ->
  exists e, human_loop fuel n div exp = (1024 ^ (e + 1), e) /\ 0 <= e /\ 1024 ^ (e + 1) <= b < 1024 * 1024 ^ (e + 1).
Proof.
  induction fuel as [|fuel IH]; intros b n div exp He Hdiv Hn Hb Hf Hlt; cbn [human_loop].
  { exists exp. rewrite Hdiv. split; [done|]. split; [done|]. rewrite <-Hdiv.
    replace (exp + 2 + Z.of_nat 0) with (Z.succ (exp + 1)) in Hlt by lia. rewrite Z.pow_succ_r, <-Hdiv in Hlt by lia. lia. }
  assert (0 < div) as Hpos by (rewrite Hdiv; apply Z.pow_pos_nonneg; lia).
  destruct (Z.leb_spec 1024 n) as [Hle|Hgt].
  - assert (1024 * div <= b) as Hbig.
    { pose proof (Z.mul_div_le b div Hpos). rewrite <-Hn in *. nia. }
    apply (IH b); try lia.
    + rewrite wrap_small; [|unfold in_u; lia]. rewrite Hdiv. replace (exp + 1 + 1) with (Z.succ (exp + 1)) by lia.
      rewrite Z.pow_succ_r by lia. lia.
    + rewrite wrap_small by (unfold in_u; lia). rewrite Hn, Z.div_div by lia. done.
    + rewrite wrap_small by (unfold in_u; lia). lia.
    + by replace (exp + 1 + 2 + Z.of_nat fuel) with (exp + 2 + Z.of_nat (S fuel)) by lia.
  - exists exp. rewrite <-Hdiv. split; [done|]. split; [done|].
    split; [lia|]. rewrite Hn in Hgt. apply (Z.div_lt_upper_bound b div 1024 Hpos) || idtac.
    pose proof (Z.mul_succ_div_gt b div Hpos). nia.
Qed.

(** The unit is the largest one not above the count, its letter exists and the
    divisor does not overflow. *)
Lemma HumanBytes_unit b : 1024 <= b < 2 ^ 64 ->
  exists exp, HumanBytes b = Some (1024 ^ (exp + 1), exp) /\ 0 <= exp <= 5 /\
    1024 ^ (exp + 1) <= b < 1024 * 1024 ^ (exp + 1).
Proof.
  intros Hb. unfold HumanBytes. destruct (Z.ltb_spec b 1024); [lia|].
  destruct (human_loop_spec 7 b (b / 1024) 1024 0) as (e & -> & He & Hr); try done; try lia.
  exists e. split; [done|]. split; [|done]. split; [done|].
  destruct (Z.le_gt_cases e 5) as [|Hgt]; [done|]. exfalso.
  assert (1024 ^ 7 <= 1024 ^ (e + 1)) by (apply Z.pow_le_mono_r; lia). lia.
Qed.
