(* ===== verification/Arena.v ===== *)
(** * The arena allocator ([viperblock/arena.go])

    [Arena] hands out block-sized buffers cut from large slabs by a bump
    pointer.  Buffers are slices, so they alias the slab's memory: the model
    has an explicit heap of memory regions, a slab owns one region, and a
    buffer is a region with a start and a length.  Slabs are pointers; a slab
    is identified by the region it owns, and a slab that the arena forgets
    ([Reset], [Compact]) stays in the heap because buffers may still refer to
    it.  All offsets are [uint32], with the wrap-around written out, and a
    slice expression that is out of range panics. *)

From S2P Require Import Prelude Words.
From Stdlib Require Import Strings.Byte.

(** ** Data *)

Record ArenaSlab := mkSlab { slab_len : Z; slab_offset : Z; slab_refs : Z }.

(** The heap: memory regions, and the slab headers by the region they own. *)
Record heap := mkHeap { mem : list bytes; headers : gmap nat ArenaSlab }.

Record Arena := mkArena {
  slabSize : Z; blockSize : Z;
  slabs : list nat; active : nat;
  totalAllocs : Z; totalBytes : Z }.

(** A slice: region, start and length. *)
Record buf := mkBuf { b_region : nat; b_start : Z; b_len : Z }.

#[export] Instance buf_eq_dec : EqDecision buf.
Proof. solve_decision. Defined.

(** [atomic.Int32.Add] wraps around. *)
Definition i32 (z : Z) : Z := u32 (z + 2 ^ 31) - 2 ^ 31.

Definition DefaultSlabSize : Z := 4 * 1024 * 1024.

(** [make([]byte, n)]: a fresh region of zeros. *)
Definition make_region (h : heap) (n : Z) : heap * nat :=
  (mkHeap (mem h ++ [zeros n]) (headers h), length (mem h)).

(** A new slab object around a fresh region of [n] bytes. *)
Definition put_slab (h : heap) (n off refs : Z) : heap * nat :=
  let (h, r) := make_region h n in
  (mkHeap (mem h) (<[r := mkSlab n off refs]> (headers h)), r).

(** ** Operations *)

Definition newSlab (h : heap) (a : Arena) : heap * Arena * nat :=
  let (h, r) := put_slab h (slabSize a) 0 1 in
  (h, mkArena (slabSize a) (blockSize a) (slabs a ++ [r]) (active a)
        (totalAllocs a) (totalBytes a), r).

Definition set_active (a : Arena) (r : nat) : Arena :=
  mkArena (slabSize a) (blockSize a) (slabs a) r (totalAllocs a) (totalBytes a).

Definition NewArenaWithSlabSize (h : heap) (bs ss : Z) : heap * Arena :=
  let '(h, a, r) := newSlab h (mkArena ss bs [] 0 0 0) in (h, set_active a r).

Definition NewArena (h : heap) (bs : Z) : heap * Arena :=
  NewArenaWithSlabSize h bs DefaultSlabSize.

(** The counters of an allocation of [size] bytes. *)
Definition count (a : Arena) (size : Z) : Arena :=
  mkArena (slabSize a) (blockSize a) (slabs a) (active a)
    (u64 (totalAllocs a + 1)) (u64 (totalBytes a + size)).

(** The slab header behind a pointer (a pointer held by the arena is live). *)
Definition header (h : heap) (r : nat) : ArenaSlab :=
  default (mkSlab 0 0 0) (headers h !! r).

(** The slice expression [slab.data[lo:hi]]; [None] is the run-time panic. *)
Definition slice_of (h : heap) (r : nat) (lo hi : Z) : option buf :=
  if bool_decide (lo <= hi /\ hi <= slab_len (header h r))
  then Some (mkBuf r lo (hi - lo)) else None.

(** The common tail of [Alloc] and [AllocN]: rotate the slab when the request
    does not fit, bump the pointer, count, slice. *)
Definition alloc_from (h : heap) (a : Arena) (size : Z) : heap * Arena * option buf :=
  let '(h, a) :=
    if slabSize a <? u32 (slab_offset (header h (active a)) + size) then
      let '(h, a, r) := newSlab h a in (h, set_active a r)
    else (h, a) in
  let s := header h (active a) in
  let start := slab_offset s in
  let h := mkHeap (mem h)
             (<[active a := mkSlab (slab_len s) (u32 (start + size)) (i32 (slab_refs s + 1))]>
                (headers h)) in
  let a := count a size in
  (h, a, slice_of h (active a) start (u32 (start + size))).

Definition Alloc (h : heap) (a : Arena) : heap * Arena * option buf :=
  alloc_from h a (blockSize a).

(** [copy(region[start:start+len], src)] *)
Definition splice (dst : bytes) (start len : Z) (src : bytes) : bytes :=
  let n := Z.min len (blen src) in
  slice dst 0 start ++ take (Z.to_nat n) src ++ drop (Z.to_nat (start + n)) dst.

Definition copy_into (h : heap) (b : buf) (src : bytes) : heap :=
  mkHeap (alter (fun d => splice d (b_start b) (b_len b) src) (b_region b) (mem h))
         (headers h).

(** The bytes a slice shows. *)
Definition read_buf (h : heap) (b : buf) : bytes :=
  slice (default [] (mem h !! b_region b)) (b_start b) (b_start b + b_len b).

Definition AllocCopy (h : heap) (a : Arena) (data : bytes) : heap * Arena * option buf :=
  let '(h, a, b) := Alloc h a in
  match b with
  | Some b => (copy_into h b data, a, Some b)
  | None => (h, a, None)
  end.

(** The size computation of [AllocN]. *)
Definition alloc_size (a : Arena) (n : Z) : Z :=
  u32 (SafeIntToUint32 n * blockSize a).

Definition AllocN (h : heap) (a : Arena) (n : Z) : heap * Arena * option buf :=
  let size := alloc_size a n in
  if slabSize a <? size then
    let (h, r) := put_slab h size size 2 in
    let a := mkArena (slabSize a) (blockSize a) (slabs a ++ [r]) (active a)
               (totalAllocs a) (totalBytes a) in
    (h, count a size, Some (mkBuf r 0 size))
  else alloc_from h a size.

(** [Release]: [None] is the nil pointer. *)
Definition Release (h : heap) (slab : option nat) : heap :=
  match slab with
  | None => h
  | Some r =>
      mkHeap (mem h)
        (alter (fun s => mkSlab (slab_len s) (slab_offset s) (i32 (slab_refs s - 1))) r (headers h))
  end.

Definition Reset (h : heap) (a : Arena) : heap * Arena :=
  let a := mkArena (slabSize a) (blockSize a) [] (active a)
             (totalAllocs a) (totalBytes a) in
  let '(h, a, r) := newSlab h a in (h, set_active a r).

(** The test of the loop of [Compact]. *)
Definition keep_slab (h : heap) (a : Arena) (r : nat) : bool :=
  bool_decide (r = active a) || (1 <? slab_refs (header h r)).

Definition Compact (h : heap) (a : Arena) : Arena * Z :=
  let kept := filter (fun r => keep_slab h a r = true) (slabs a) in
  (mkArena (slabSize a) (blockSize a) kept (active a) (totalAllocs a) (totalBytes a),
   Z.of_nat (length (slabs a)) - Z.of_nat (length kept)).

Definition Stats (a : Arena) : Z * Z * Z :=
  (Z.of_nat (length (slabs a)), totalAllocs a, totalBytes a).

Definition SlabCount (a : Arena) : Z := Z.of_nat (length (slabs a)).

Definition ActiveSlabUsage (h : heap) (a : Arena) : Z * Z :=
  (slab_offset (header h (active a)), slabSize a).

(** ** PooledArena *)

(** [sync.Pool] may return any pooled item or none, and may drop items: the
    choice is an argument of [Get]. *)
Record PooledArena := mkPooled { arena : Arena; pool : list buf }.

Definition NewPooledArena (h : heap) (bs : Z) : heap * PooledArena :=
  let (h, a) := NewArena h bs in (h, mkPooled a []).

Definition Get (h : heap) (p : PooledArena) (pick : option nat)
    : heap * PooledArena * buf :=
  match (i ← pick; b ← pool p !! i; Some (i, b)) with
  | Some (i, b) => (h, mkPooled (arena p) (delete i (pool p)), b)
  | None =>
      let (h, r) := make_region h (blockSize (arena p)) in
      (h, p, mkBuf r 0 (blockSize (arena p)))
  end.

(** [Put]: [clear(b)], then the pool. *)
Definition Put (h : heap) (p : PooledArena) (b : buf) : heap * PooledArena :=
  (copy_into h b (zeros (b_len b)), mkPooled (arena p) (pool p ++ [b])).

Definition AllocPermanent (h : heap) (p : PooledArena)
    : heap * PooledArena * option buf :=
  let '(h, a, b) := Alloc h (arena p) in (h, mkPooled a (pool p), b).

Definition AllocCopyPermanent (h : heap) (p : PooledArena) (data : bytes)
    : heap * PooledArena * option buf :=
  let '(h, a, b) := AllocCopy h (arena p) data in (h, mkPooled a (pool p), b).

(** ** What a client of the arena does

    A client asks for buffers, writes into the buffers it got and releases the
    slab of a buffer once.  The abstract view is a list of independent arrays,
    one per allocation. *)

Inductive arena_op :=
| OAlloc
| OAllocCopy (data : bytes)
| OAllocN (n : Z)
| OWrite (i : nat) (data : bytes)
| ORelease (r : nat)
| OReset
| OCompact.

(** The concrete run: heap, arena, the buffers handed out so far and the
    regions of the allocations not yet released. *)
Record client := mkClient {
  c_heap : heap; c_arena : Arena; c_issued : list buf; c_live : list nat }.

Definition grant (c : client) (r : heap * Arena * option buf) : option client :=
  match r with
  | (h, a, Some b) => Some (mkClient h a (c_issued c ++ [b]) (c_live c ++ [b_region b]))
  | (_, _, None) => None
  end.

Definition drop_one (r : nat) (l : list nat) : list nat :=
  match list_find (r =.) l with
  | Some (i, _) => delete i l
  | None => l
  end.

Definition client_step (c : client) (op : arena_op) : option client :=
  let h := c_heap c in let a := c_arena c in
  match op with
  | OAlloc => grant c (Alloc h a)
  | OAllocCopy d => grant c (AllocCopy h a d)
  | OAllocN n => grant c (AllocN h a n)
  | OWrite i d =>
      match c_issued c !! i with
      | Some b => Some (mkClient (copy_into h b d) a (c_issued c) (c_live c))
      | None => Some c
      end
  | ORelease r =>
      Some (mkClient (Release h (Some r)) a (c_issued c) (drop_one r (c_live c)))
  | OReset => let (h, a) := Reset h a in Some (mkClient h a (c_issued c) (c_live c))
  | OCompact => Some (mkClient h (Compact h a).1 (c_issued c) (c_live c))
  end.

Fixpoint client_run (c : client) (ops : list arena_op) : option client :=
  match ops with
  | [] => Some c
  | op :: ops => c' ← client_step c op; client_run c' ops
  end.

(** [copy] between independent arrays. *)
Definition overlay (dst src : bytes) : bytes :=
  take (length dst) src ++ drop (length src) dst.

Definition arrays_step (bs : Z) (l : list bytes) (op : arena_op) : list bytes :=
  match op with
  | OAlloc => l ++ [zeros bs]
  | OAllocCopy d => l ++ [overlay (zeros bs) d]
  | OAllocN n => l ++ [zeros (n * bs)]
  | OWrite i d => alter (fun x => overlay x d) i l
  | _ => l
  end.

(** What the client must respect: the byte count of a multi-block request
    fits a [uint32], and a slab is released at most once per allocation. *)
Definition op_ok (c : client) (op : arena_op) : Prop :=
  match op with
  | OAllocN n => 0 <= n /\ n * blockSize (c_arena c) < 2 ^ 32
  | ORelease r => r ∈ c_live c
  | _ => True
  end.

Fixpoint ops_ok (c : client) (ops : list arena_op) : Prop :=
  match ops with
  | [] => True
  | op :: ops =>
      op_ok c op /\ match client_step c op with Some c' => ops_ok c' ops | None => True end
  end.

#[export] Instance op_ok_dec c op : Decision (op_ok c op).
Proof. destruct op; cbn; apply _. Defined.

#[export] Instance ops_ok_dec ops : forall c, Decision (ops_ok c ops).
Proof.
  induction ops as [|op ops IH]; intros c; cbn; [apply _|].
  apply and_dec; [apply _|]. destruct (client_step c op); [apply IH|apply _].
Defined.

(** The client of a fresh arena. *)
Definition new_client (bs ss : Z) : client :=
  let (h, a) := NewArenaWithSlabSize (mkHeap [] ∅) bs ss in mkClient h a [] [].
