(* ===== verification/ArenaFacts.v ===== *)
(** * Facts on the arena allocator

    The arena refines a heap of independent arrays: buffers never overlap,
    stay inside their slab, start zeroed, and keep what was written to them;
    [Compact] forgets exactly the slabs no outstanding allocation uses. *)

From S2P Require Import Prelude Words Arena.
From Stdlib Require Import Strings.Byte.

(** ** Slices and copies by index *)

Lemma lookup_slice {A} (l : list A) lo hi i : 0 <= lo ->
  slice l lo hi !! i =
    if bool_decide (lo + Z.of_nat i < hi) then l !! Z.to_nat (lo + Z.of_nat i) else None.
Proof.
  intros. unfold slice. case_bool_decide.
  - rewrite lookup_take_lt by lia. rewrite lookup_drop. f_equal. lia.
  - by rewrite lookup_take_ge by lia.
Qed.

Lemma length_slice {A} (l : list A) lo hi : 0 <= lo -> lo <= hi ->
  hi <= Z.of_nat (length l) -> length (slice l lo hi) = Z.to_nat (hi - lo).
Proof. intros. unfold slice. rewrite length_take, length_drop. lia. Qed.

Lemma lookup_splice d st len src i : 0 <= st -> 0 <= len -> st + len <= blen d ->
  splice d st len src !! i =
    if bool_decide (st <= Z.of_nat i < st + Z.min len (blen src))
    then src !! Z.to_nat (Z.of_nat i - st) else d !! i.
Proof.
  unfold blen, splice. intros. set (n := Z.min len (blen src)).
  assert (0 <= n <= len /\ n <= blen src) by (unfold n, blen; lia).
  assert (length (slice d 0 st) = Z.to_nat st) as Hl by (rewrite length_slice; lia).
  unfold blen in *. fold n. case_bool_decide.
  - rewrite lookup_app_r by lia. rewrite Hl, lookup_app_l by (rewrite length_take; lia).
    rewrite lookup_take_lt by lia. f_equal. lia.
  - destruct (decide (Z.of_nat i < st)).
    + rewrite lookup_app_l by lia. rewrite lookup_slice by lia.
      rewrite bool_decide_true by lia. f_equal. lia.
    + rewrite lookup_app_r by lia. rewrite lookup_app_r by (rewrite length_take; lia).
      rewrite length_take, lookup_drop, Hl. f_equal. lia.
Qed.

Lemma length_splice d st len src : 0 <= st -> 0 <= len -> st + len <= blen d ->
  length (splice d st len src) = length d.
Proof.
  unfold splice, blen. intros. rewrite !length_app, length_take, length_drop, length_slice by lia.
  lia.
Qed.

(** A copy reads back through the slice it was made through. *)
Lemma slice_splice_same d st len src : 0 <= st -> 0 <= len -> st + len <= blen d ->
  slice (splice d st len src) st (st + len) = overlay (slice d st (st + len)) src.
Proof.
  intros. apply list_eq. intros i. rewrite lookup_slice by lia. unfold overlay, blen in *.
  assert (length (slice d st (st + len)) = Z.to_nat len) as Hl by (rewrite length_slice; lia).
  rewrite Hl. case_bool_decide.
  - rewrite lookup_splice by (unfold blen; lia). unfold blen. case_bool_decide.
    + rewrite lookup_app_l by (rewrite length_take; lia).
      rewrite lookup_take_lt by lia. f_equal. lia.
    + rewrite lookup_app_r by (rewrite length_take; lia).
      rewrite length_take, lookup_drop, lookup_slice by lia.
      rewrite bool_decide_true by lia. f_equal. lia.
  - symmetry. apply lookup_ge_None_2.
    rewrite length_app, length_take, length_drop, Hl. lia.
Qed.

(** ... and leaves every range that does not meet it alone. *)
Lemma slice_splice_other d st len src lo hi : 0 <= st -> 0 <= len -> st + len <= blen d ->
  0 <= lo -> hi <= st \/ st + len <= lo ->
  slice (splice d st len src) lo hi = slice d lo hi.
Proof.
  intros. apply list_eq. intros i. rewrite !lookup_slice by lia. case_bool_decide; [|done].
  rewrite lookup_splice by lia. case_bool_decide; [lia|done].
Qed.

Lemma drop_splice d st len src k : 0 <= st -> 0 <= len -> st + len <= blen d ->
  st + len <= Z.of_nat k -> drop k (splice d st len src) = drop k d.
Proof.
  intros. apply list_eq. intros i. rewrite !lookup_drop.
  rewrite lookup_splice by lia. case_bool_decide; [lia|done].
Qed.

Lemma alter_out_of_range {A} (f : A -> A) i l : (length l <= i)%nat -> alter f i l = l.
Proof.
  intros H. apply list_eq. intros j. rewrite list_lookup_alter. case_decide; [|done].
  subst. by rewrite lookup_ge_None_2.
Qed.

(** ** The heap invariant *)

Definition disjoint (b c : buf) : Prop :=
  b_region b <> b_region c \/ b_start b + b_len b <= b_start c
  \/ b_start c + b_len c <= b_start b.

(** A slab owns a region of its size, and the part past the bump pointer has
    never been written. *)
Definition slab_ok (h : heap) (r : nat) (s : ArenaSlab) : Prop :=
  exists d, mem h !! r = Some d /\ blen d = slab_len s
    /\ 0 <= slab_offset s <= slab_len s
    /\ drop (Z.to_nat (slab_offset s)) d = zeros (slab_len s - slab_offset s).

(** A buffer lies below its slab's bump pointer and shows [x]. *)
Definition buf_ok (h : heap) (b : buf) (x : bytes) : Prop :=
  (exists s, headers h !! b_region b = Some s /\ 0 <= b_start b /\ 0 <= b_len b
     /\ b_start b + b_len b <= slab_offset s)
  /\ read_buf h b = x.

Definition occ (r : nat) (l : list nat) : Z := Z.of_nat (length (filter (r =.) l)).

Record heap_inv (h : heap) (issued : list buf) (arr : list bytes) (live : list nat) : Prop := {
  hi_slab : forall r s, headers h !! r = Some s -> slab_ok h r s;
  hi_bufs : Forall2 (buf_ok h) issued arr;
  hi_disj : forall i j b c, i <> j -> issued !! i = Some b -> issued !! j = Some c ->
              disjoint b c;
  hi_refs : forall r s, headers h !! r = Some s -> slab_refs s = 1 + occ r live;
  hi_live : Forall (fun r => is_Some (headers h !! r)) live;
  hi_many : Z.of_nat (length live) < 2 ^ 31 - 2 }.

Lemma occ_app r l k : occ r (l ++ k) = occ r l + occ r k.
Proof. unfold occ. rewrite filter_app, length_app. lia. Qed.

Lemma occ_one r q : occ r [q] = if decide (r = q) then 1 else 0.
Proof. unfold occ. rewrite filter_cons, filter_nil. by case_decide. Qed.

Lemma occ_le r l : 0 <= occ r l <= Z.of_nat (length l).
Proof. unfold occ. pose proof (length_filter (r =.) l). lia. Qed.

Lemma occ_zero r l : r ∉ l -> occ r l = 0.
Proof.
  unfold occ. induction l as [|q l IH]; [done|]. intros H. rewrite filter_cons.
  rewrite not_elem_of_cons in H. destruct H. rewrite decide_False by done. auto.
Qed.

Lemma i32_small z : - 2 ^ 31 <= z < 2 ^ 31 -> i32 z = z.
Proof. intros. unfold i32. rewrite u32_small; [lia|]. wsolve. Qed.

(** Regions above the heap's end own no slab. *)
Lemma fresh_header h : (forall r s, headers h !! r = Some s -> slab_ok h r s) ->
  headers h !! length (mem h) = None.
Proof.
  intros H. destruct (headers h !! length (mem h)) eqn:E; [|done].
  apply H in E as (d & Hd & _). apply lookup_lt_Some in Hd. lia.
Qed.

(** A fresh, unused slab keeps the invariant. *)
Lemma put_slab_inv h issued arr live n : 0 <= n -> heap_inv h issued arr live ->
  heap_inv (put_slab h n 0 1).1 issued arr live.
Proof.
  intros Hn I. destruct I as [Hs Hb Hd Hr Hl Hm].
  pose proof (fresh_header h Hs) as Hf.
  assert (forall r d, mem h !! r = Some d -> (mem h ++ [zeros n]) !! r = Some d) as Hext.
  { intros r d E. apply lookup_app_l_Some, E. }
  assert (forall r s, headers h !! r = Some s -> r <> length (mem h)) as Hne by congruence.
  unfold put_slab, make_region. cbn. split; cbn; auto.
  - intros r s. rewrite lookup_insert_Some. intros [[<- <-]|[Hn' E]].
    + exists (zeros n). cbn. rewrite lookup_app_r, Nat.sub_diag by lia.
      split; [done|]. unfold blen. rewrite length_zeros.
      rewrite drop_0, Z.sub_0_r. split; [lia|]. split; [lia|done].
    + apply Hs in E as (d & ? & ?). exists d. cbn. auto.
  - eapply Forall2_impl; [exact Hb|]. intros b x [(s & E & ?) Hx]. split.
    + exists s. cbn. rewrite lookup_insert_ne by (intros Q; by apply (Hne _ _ E)). done.
    + rewrite <-Hx. unfold read_buf. cbn.
      destruct (Hs _ _ E) as (d & E' & _). by rewrite E', (Hext _ _ E').
  - intros r s. rewrite lookup_insert_Some. intros [[<- <-]|[? E]]; cbn; [|auto].
    rewrite occ_zero; [done|]. intros Hin.
    rewrite Forall_forall in Hl. apply Hl in Hin as [? Hin]. congruence.
  - eapply Forall_impl; [exact Hl|]. intros r [s E]. rewrite lookup_insert_is_Some.
    destruct (decide (length (mem h) = r)); [by left|right; eauto].
Qed.

(** The bump: [size] more bytes of slab [r] become a buffer of zeros. *)
Definition advance (h : heap) (r : nat) (size : Z) : heap :=
  let s := header h r in
  mkHeap (mem h) (<[r := mkSlab (slab_len s) (slab_offset s + size) (slab_refs s + 1)]> (headers h)).

Lemma drop_zeros k n : drop k (zeros n) = zeros (n - Z.of_nat k).
Proof. unfold zeros. rewrite drop_replicate. f_equal. lia. Qed.

Lemma take_zeros k n : 0 <= k <= n -> take (Z.to_nat k) (zeros n) = zeros k.
Proof. intros. unfold zeros. rewrite take_replicate. f_equal. lia. Qed.

Lemma advance_inv h issued arr live r s size :
  heap_inv h issued arr live -> headers h !! r = Some s ->
  0 <= size -> slab_offset s + size <= slab_len s ->
  Z.of_nat (length live) + 1 < 2 ^ 31 - 2 ->
  heap_inv (advance h r size) (issued ++ [mkBuf r (slab_offset s) size])
    (arr ++ [zeros size]) (live ++ [r]).
Proof.
  intros [Hs Hb Hd Hr Hl Hm] E Hsz Hfit Hlen. unfold advance, header. rewrite E. cbn [from_option default id].
  destruct (Hs _ _ E) as (d & Ed & Hdl & Ho & Hz).
  set (b := mkBuf r (slab_offset s) size).
  split; cbn [mem headers].
  - intros q t. rewrite lookup_insert_Some. intros [[<- <-]|[? Eq]]; [|by apply Hs].
    exists d. cbn. repeat (split; [done || lia|]).
    replace (Z.to_nat (slab_offset s + size)) with (Z.to_nat (slab_offset s) + Z.to_nat size)%nat by lia.
    rewrite <-drop_drop, Hz, drop_zeros. f_equal. lia.
  - apply Forall2_app.
    + eapply Forall2_impl; [exact Hb|]. intros c x [(t & Et & ?) Hx]. split; [|done]. cbn.
      destruct (decide (b_region c = r)) as [Q|Q].
      * rewrite Q, lookup_insert_eq. eexists. split; [done|]. cbn. rewrite Q, E in Et. simplify_eq. lia.
      * rewrite lookup_insert_ne by done. eauto.
    + constructor; [|done]. split; cbn.
      * rewrite lookup_insert_eq. eexists. split; [done|]. cbn. lia.
      * unfold read_buf, slice. cbn. rewrite Ed. cbn. rewrite Hz.
        replace (slab_offset s + size - slab_offset s) with size by lia.
        rewrite take_zeros by lia. done.
  - assert (forall i c, issued !! i = Some c -> disjoint c b) as Hnew.
    { intros i c Ei. destruct (Forall2_lookup_l _ _ _ _ _ Hb Ei) as (x & _ & (t & Et & ?) & _).
      unfold disjoint, b. cbn. destruct (decide (b_region c = r)) as [Q|Q]; [|by left].
      rewrite Q, E in Et. simplify_eq. right. left. lia. }
    assert (forall c, disjoint c b -> disjoint b c) as Hsym by (unfold disjoint; intros; intuition).
    intros i j c1 c2 Hij E1 E2.
    apply lookup_app_Some in E1 as [E1|[? E1]]; apply lookup_app_Some in E2 as [E2|[? E2]];
      rewrite ?list_lookup_singleton_Some in *; destruct_and?; subst; eauto.
    lia.
  - intros q t. rewrite occ_app, occ_one, lookup_insert_Some.
    intros [[<- <-]|[? Eq]]; cbn; rewrite ?(Hr _ _ E), ?(Hr _ _ Eq).
    + rewrite decide_True by done. lia.
    + rewrite decide_False by done. lia.
  - apply Forall_app. split.
    + eapply Forall_impl; [exact Hl|]. intros q Hq. cbn. by rewrite lookup_insert_is_Some'; right.
    + constructor; [|done]. rewrite lookup_insert_eq. eauto.
  - rewrite length_app. cbn. lia.
Qed.

(** A write through one buffer changes that buffer's array only. *)
Lemma copy_into_inv h issued arr live i b d :
  heap_inv h issued arr live -> issued !! i = Some b ->
  heap_inv (copy_into h b d) issued (alter (fun x => overlay x d) i arr) live.
Proof.
  intros [Hs Hb Hd Hr Hl Hm] Ei.
  destruct (Forall2_lookup_l _ _ _ _ _ Hb Ei) as (x & Ex & (s & Es & H0 & Hn & Hoff) & Hx).
  destruct (Hs _ _ Es) as (m & Em & Hml & Ho & Hz).
  split; cbn [copy_into mem headers]; auto.
  - intros r t Et. destruct (Hs _ _ Et) as (m' & Em' & Hml' & Ho' & Hz').
    destruct (decide (r = b_region b)) as [->|Q].
    + rewrite Em in Em'. rewrite Es in Et. simplify_eq.
      exists (splice m' (b_start b) (b_len b) d). cbn.
      rewrite list_lookup_alter_eq, Em. cbn. split; [done|].
      unfold blen. rewrite length_splice by lia. fold (blen m').
      split; [done|]. split; [done|]. by rewrite drop_splice by lia.
    + exists m'. cbn. by rewrite list_lookup_alter_ne by done.
  - apply Forall2_same_length_lookup_2.
    { rewrite length_alter. by eapply Forall2_length. }
    intros j c y Ec Ey. destruct (decide (i = j)) as [<-|Q].
    + rewrite list_lookup_alter_eq, Ex in Ey. simplify_eq/=. split; [eauto|].
      unfold read_buf. cbn. rewrite list_lookup_alter_eq, Em. cbn.
      by rewrite slice_splice_same by lia.
    + rewrite list_lookup_alter_ne in Ey by done.
      destruct (Forall2_lookup_lr _ _ _ _ _ _ Hb Ec Ey) as [Hc Hy]. split; [exact Hc|].
      rewrite <-Hy. unfold read_buf. cbn.
      destruct (decide (b_region c = b_region b)) as [Q'|Q'].
      * rewrite Q', list_lookup_alter_eq, Em. cbn.
        destruct Hc as (t & Et & ? & ? & ?).
        destruct (Hd _ _ _ _ Q Ei Ec) as [?|Hdis]; [congruence|].
        apply slice_splice_other; lia.
      * by rewrite list_lookup_alter_ne by done.
Qed.

Lemma drop_one_perm r l : r ∈ l -> l ≡ₚ r :: drop_one r l.
Proof.
  intros H. unfold drop_one. destruct (list_find (r =.) l) as [[i x]|] eqn:E.
  - apply list_find_Some in E as (E & <- & _). by apply delete_Permutation.
  - apply list_find_None in E. rewrite Forall_forall in E. by apply E in H.
Qed.

Lemma occ_perm r l k : l ≡ₚ k -> occ r l = occ r k.
Proof. intros H. unfold occ. by rewrite H. Qed.

Lemma occ_cons r q l : occ r (q :: l) = (if decide (r = q) then 1 else 0) + occ r l.
Proof. change (q :: l) with ([q] ++ l). by rewrite occ_app, occ_one. Qed.

Lemma Release_inv h issued arr live r : heap_inv h issued arr live -> r ∈ live ->
  heap_inv (Release h (Some r)) issued arr (drop_one r live).
Proof.
  intros [Hs Hb Hd Hr Hl Hm] Hin. pose proof (drop_one_perm r live Hin) as Hp.
  pose proof (Permutation_length Hp) as Hpl. cbn in Hpl.
  split; cbn [Release mem headers]; auto.
  - intros q t. rewrite lookup_alter_Some. intros [(<- & s & E & ->)|[? E]].
    + destruct (Hs _ _ E) as (d & ?). exists d. done.
    + by apply Hs.
  - eapply Forall2_impl; [exact Hb|]. intros b x [(s & E & ?) Hx]. split; [|done]. cbn.
    rewrite lookup_alter. case_decide as Q; [rewrite Q|]; rewrite E; eexists; by (split; [reflexivity|]).
  - intros q t. rewrite lookup_alter_Some. intros [(<- & s & E & ->)|[? E]].
    + cbn. rewrite (Hr _ _ E), (occ_perm _ _ _ Hp), occ_cons, decide_True by done.
      pose proof (occ_le r (drop_one r live)). rewrite i32_small by lia. lia.
    + rewrite (Hr _ _ E), (occ_perm _ _ _ Hp), occ_cons, decide_False by done. lia.
  - rewrite Hp, Forall_cons in Hl. destruct Hl as [_ Hl].
    eapply Forall_impl; [exact Hl|]. intros q [t E]. cbn.
    rewrite lookup_alter. case_decide as Q; [rewrite Q|]; rewrite E; by eexists.
  - lia.
Qed.

(** ** The client invariant *)

Record client_inv (c : client) (arr : list bytes) : Prop := {
  ci_heap : heap_inv (c_heap c) (c_issued c) arr (c_live c);
  ci_size : 0 <= blockSize (c_arena c) <= slabSize (c_arena c);
  ci_slab : 2 * slabSize (c_arena c) < 2 ^ 32;
  ci_active : exists s, headers (c_heap c) !! active (c_arena c) = Some s
                /\ slab_len s = slabSize (c_arena c) }.

(** The allocation functions succeed and hand out [size] zero bytes. *)
Definition granted (c : client) (arr : list bytes) (x : bytes)
    (r : heap * Arena * option buf) : Prop :=
  exists h a b, r = (h, a, Some b) /\
    client_inv (mkClient h a (c_issued c ++ [b]) (c_live c ++ [b_region b])) (arr ++ [x])
    /\ blockSize a = blockSize (c_arena c) /\ b_len b = blen x.

Lemma newSlab_inv c arr : client_inv c arr -> forall h a r,
  newSlab (c_heap c) (c_arena c) = (h, a, r) ->
  client_inv (mkClient h (set_active a r) (c_issued c) (c_live c)) arr
  /\ headers h !! r = Some (mkSlab (slabSize a) 0 1)
  /\ slabSize a = slabSize (c_arena c) /\ blockSize a = blockSize (c_arena c).
Proof.
  intros [Hh Hb Hs Ha] h a r E.
  apply (put_slab_inv _ _ _ _ (slabSize (c_arena c)) ltac:(lia)) in Hh.
  unfold newSlab, put_slab, make_region in *. cbn in *. simplify_eq. cbn.
  rewrite lookup_insert_eq. split; [|done]. split; cbn; auto.
  exists (mkSlab (slabSize (c_arena c)) 0 1). by rewrite lookup_insert_eq.
Qed.

Lemma count_inv c a arr size : client_inv c arr -> c_arena c = a ->
  client_inv (mkClient (c_heap c) (count a size) (c_issued c) (c_live c)) arr.
Proof. intros [] <-. by split. Qed.

Lemma advance_granted c arr s size :
  client_inv c arr -> headers (c_heap c) !! active (c_arena c) = Some s ->
  0 <= size -> slab_offset s + size <= slab_len s ->
  Z.of_nat (length (c_live c)) + 1 < 2 ^ 31 - 2 ->
  granted c arr (zeros size)
    (advance (c_heap c) (active (c_arena c)) size, count (c_arena c) size,
     Some (mkBuf (active (c_arena c)) (slab_offset s) size)).
Proof.
  intros [Hh Hb Hsl (s' & E' & Hs')] E Hz Hf Hl. rewrite E in E'. simplify_eq.
  eexists _, _, _. split; [done|]. split; [|split; [done|]].
  - split; cbn; auto; [by apply advance_inv|]. unfold advance, header. rewrite E. cbn.
    rewrite lookup_insert_eq. eexists. split; [done|]. done.
  - cbn. unfold blen. rewrite length_zeros. lia.
Qed.

(** The bump when the request fits. *)
Lemma alloc_from_fits h a size s : headers h !! active a = Some s ->
  0 <= size -> 0 <= slab_offset s -> slab_offset s + size <= slab_len s ->
  slab_len s = slabSize a -> 2 * slabSize a < 2 ^ 32 ->
  -1 < slab_refs s < 2 ^ 31 - 1 ->
  alloc_from h a size = (advance h (active a) size, count a size,
                   Some (mkBuf (active a) (slab_offset s) size)).
Proof.
  intros E Hz Ho Hf Hl H2 Hr. unfold alloc_from, advance, header. rewrite E. cbn.
  rewrite (u32_small (slab_offset s + size)) by wsolve.
  destruct (Z.ltb_spec (slabSize a) (slab_offset s + size)); [lia|]. cbn. rewrite E. cbn.
  rewrite (u32_small (slab_offset s + size)) by wsolve. rewrite i32_small by lia.
  unfold slice_of, header. cbn. rewrite lookup_insert_eq. cbn.
  rewrite bool_decide_true by lia. do 3 f_equal. lia.
Qed.

Lemma refs_bound c arr r s : client_inv c arr -> headers (c_heap c) !! r = Some s ->
  -1 < slab_refs s < 2 ^ 31 - 1.
Proof.
  intros [[_ _ _ Hr _ Hm] _ _ _] E. rewrite (Hr _ _ E).
  pose proof (occ_le r (c_live c)). lia.
Qed.

Lemma alloc_from_granted c arr size : client_inv c arr -> 0 <= size <= slabSize (c_arena c) ->
  Z.of_nat (length (c_live c)) + 1 < 2 ^ 31 - 2 ->
  granted c arr (zeros size) (alloc_from (c_heap c) (c_arena c) size).
Proof.
  intros I Hsz Hl. pose proof I as [Hh Hb Hsl (s & E & Hs)].
  pose proof (hi_slab _ _ _ _ Hh _ _ E) as (_ & _ & _ & Ho & _).
  destruct (decide (slab_offset s + size <= slab_len s)) as [Hfit|Hfull].
  - rewrite (alloc_from_fits _ _ _ s) by (try done; try lia; by eapply refs_bound).
    apply advance_granted; auto; lia.
  - destruct (newSlab (c_heap c) (c_arena c)) as [[h a] r] eqn:En.
    destruct (newSlab_inv c arr I _ _ _ En) as (I' & Er & Hss & Hbs).
    assert (alloc_from (c_heap c) (c_arena c) size = alloc_from h (set_active a r) size) as ->.
    { unfold alloc_from. unfold header at 1. rewrite E. cbn [default from_option id].
      rewrite u32_small by wsolve.
      destruct (Z.ltb_spec (slabSize (c_arena c)) (slab_offset s + size)); [|lia].
      rewrite En. cbn [set_active active slabSize].
      assert (header h r = mkSlab (slabSize a) 0 1) as -> by (unfold header; by rewrite Er).
      cbn [slab_offset]. rewrite Z.add_0_l, (u32_small size) by wsolve.
      destruct (Z.ltb_spec (slabSize a) size); [lia|]. cbn [active set_active].
      unfold header. rewrite Er. cbn [default from_option id slab_offset].
      by rewrite Z.add_0_l, (u32_small size) by wsolve. }
    rewrite (alloc_from_fits _ _ _ (mkSlab (slabSize a) 0 1)); cbn; try done; try lia.
    destruct (advance_granted _ arr _ size I' Er) as (h' & a' & b & Eb & Hr & Hbs' & Hlen);
      cbn in *; try lia.
    exists h', a', b. split; [exact Eb|]. split; [exact Hr|]. split; [congruence|done].
Qed.

(** A slab dedicated to one allocation is a fresh slab bumped to its end. *)
Lemma put_slab_dedicated h size : put_slab h size size 2 =
  (advance (put_slab h size 0 1).1 (length (mem h)) size, length (mem h)).
Proof.
  unfold put_slab, advance, header, make_region. cbn. rewrite lookup_insert_eq. cbn.
  by rewrite insert_insert_eq.
Qed.

Lemma AllocN_granted c arr n : client_inv c arr ->
  0 <= n -> n * blockSize (c_arena c) < 2 ^ 32 ->
  Z.of_nat (length (c_live c)) + 1 < 2 ^ 31 - 2 ->
  granted c arr (zeros (n * blockSize (c_arena c))) (AllocN (c_heap c) (c_arena c) n).
Proof.
  intros I Hn Hfit Hl. pose proof (ci_size _ _ I) as Hb.
  assert (alloc_size (c_arena c) n = n * blockSize (c_arena c)) as E.
  { unfold alloc_size. destruct (decide (n < 2 ^ 32)).
    - rewrite SafeIntToUint32_small by wsolve. apply u32_small. wsolve.
    - assert (blockSize (c_arena c) = 0) as -> by nia. by rewrite !Z.mul_0_r. }
  unfold AllocN. rewrite E. set (size := n * blockSize (c_arena c)) in *.
  assert (0 <= size) by (unfold size; nia).
  destruct (Z.ltb_spec (slabSize (c_arena c)) size); [|by apply alloc_from_granted; auto; lia].
  rewrite put_slab_dedicated. destruct I as [Hh _ Hsl (s & Es & Hs)].
  set (r := length (mem (c_heap c))).
  pose proof (fresh_header _ (hi_slab _ _ _ _ Hh)) as Hf.
  apply (put_slab_inv _ _ _ _ size ltac:(lia)) in Hh.
  assert (headers (put_slab (c_heap c) size 0 1).1 !! r = Some (mkSlab size 0 1)) as Er
    by (cbn; by rewrite lookup_insert_eq).
  apply (advance_inv _ _ _ _ r _ size Hh Er) in Hl; cbn; try lia.
  eexists _, _, _. split; [done|]. split; [|split; [done|]].
  - split; cbn; auto. exists s. unfold advance, header. cbn. rewrite !lookup_insert_eq. cbn.
    rewrite insert_insert_eq, lookup_insert_ne by (intros Q; unfold r in Q; congruence). done.
  - cbn. unfold blen. rewrite length_zeros. lia.
Qed.

Lemma copy_granted c arr x r d : granted c arr x r ->
  granted c arr (overlay x d)
    match r with (h, a, Some b) => (copy_into h b d, a, Some b) | (h, a, None) => (h, a, None) end.
Proof.
  intros (h & a & b & -> & [Hh Hb Hs Ha] & Hbs & Hx). cbn in *.
  eexists _, _, _. split; [done|]. split; [|split; [done|]].
  - split; cbn; auto.
    assert (length arr = length (c_issued c)) as Hlen.
    { pose proof (Forall2_length _ _ _ (hi_bufs _ _ _ _ Hh)) as Q. rewrite !length_app in Q. cbn in Q. lia. }
    apply (copy_into_inv _ _ _ _ (length (c_issued c)) b d) in Hh.
    + rewrite <-Hlen, alter_app_r_alt, Nat.sub_diag in Hh by lia. exact Hh.
    + by rewrite lookup_app_r, Nat.sub_diag by lia.
  - rewrite Hx. unfold blen, overlay. rewrite length_app, length_take, length_drop. lia.
Qed.

(** Every operation a client may do succeeds and does to the buffers what it
    does to the independent arrays. *)
Lemma client_step_ok c arr op : client_inv c arr -> op_ok c op ->
  Z.of_nat (length (c_live c)) + 1 < 2 ^ 31 - 2 ->
  exists c', client_step c op = Some c'
    /\ client_inv c' (arrays_step (blockSize (c_arena c)) arr op)
    /\ blockSize (c_arena c') = blockSize (c_arena c)
    /\ (length (c_live c') <= S (length (c_live c)))%nat.
Proof.
  intros I Hop Hl. pose proof (ci_size _ _ I) as Hb.
  assert (forall x r, granted c arr x r -> exists c', grant c r = Some c'
    /\ client_inv c' (arr ++ [x]) /\ blockSize (c_arena c') = blockSize (c_arena c)
    /\ (length (c_live c') <= S (length (c_live c)))%nat) as G.
  { intros x r (h & a & b & -> & I' & ? & _). cbn. eexists. split; [done|].
    cbn. rewrite length_app. cbn. split; [done|]. split; [done|]. lia. }
  destruct op as [|d|n|i d|r| |]; cbn [client_step arrays_step].
  - apply G, alloc_from_granted; auto; lia.
  - apply G. unfold AllocCopy, Alloc.
    pose proof (alloc_from_granted c arr (blockSize (c_arena c)) I ltac:(lia) Hl) as Hg.
    apply (copy_granted _ _ _ _ d) in Hg.
    by destruct (alloc_from _ _ _) as [[h a] [b|]].
  - destruct Hop. apply G, AllocN_granted; auto.
  - destruct (c_issued c !! i) as [b|] eqn:Ei.
    + eexists. split; [done|]. cbn. split; [|split; [done|lia]].
      destruct I as [Hh ? ? ?]. split; cbn; auto. by apply copy_into_inv.
    + exists c. split; [done|]. split; [|split; [done|lia]].
      rewrite alter_out_of_range; [done|].
      rewrite <-(Forall2_length _ _ _ (hi_bufs _ _ _ _ (ci_heap _ _ I))).
      by apply lookup_ge_None.
  - eexists. split; [done|]. cbn. split; [|split; [done|]].
    + destruct I as [Hh ? ? (s & E & ?)]. split; cbn -[Release]; auto; [by apply Release_inv|].
      cbn. rewrite lookup_alter. case_decide as Q; [rewrite Q|]; rewrite E; eexists; by (split; [reflexivity|]).
    + pose proof (Permutation_length (drop_one_perm r (c_live c) Hop)) as Q. cbn in Q. lia.
  - unfold Reset. destruct (newSlab _ _) as [[h a] r] eqn:E.
    assert (client_inv (mkClient (c_heap c) (mkArena (slabSize (c_arena c)) (blockSize (c_arena c))
      [] (active (c_arena c)) (totalAllocs (c_arena c)) (totalBytes (c_arena c)))
      (c_issued c) (c_live c)) arr) as I' by (destruct I; by split).
    apply (newSlab_inv _ _ I') in E as (I'' & _ & _ & Hbs).
    eexists. split; [done|]. split; [exact I''|]. cbn in *. split; [done|lia].
  - eexists. split; [done|]. cbn. split; [|split; [done|lia]]. destruct I. by split.
Qed.

Lemma new_client_inv bs ss : 0 <= bs <= ss -> 2 * ss < 2 ^ 32 ->
  client_inv (new_client bs ss) [] /\ blockSize (c_arena (new_client bs ss)) = bs
  /\ c_live (new_client bs ss) = [].
Proof.
  intros Hb Hs. split; [|done]. unfold new_client, NewArenaWithSlabSize, newSlab. cbn.
  assert (heap_inv (mkHeap [] ∅) [] [] []) as H0.
  { split; cbn; try done; try constructor. }
  apply (put_slab_inv _ _ _ _ ss ltac:(lia)) in H0.
  split; cbn; auto. exists (mkSlab ss 0 1). by rewrite lookup_insert_eq.
Qed.

Lemma client_run_ok ops c arr : client_inv c arr -> ops_ok c ops ->
  Z.of_nat (length (c_live c)) + Z.of_nat (length ops) < 2 ^ 31 - 2 ->
  exists c', client_run c ops = Some c'
    /\ client_inv c' (fold_left (arrays_step (blockSize (c_arena c))) ops arr).
Proof.
  revert c arr. induction ops as [|op ops IH]; intros c arr I; [by exists c|].
  intros [Hop Hops] Hl. cbn [length] in Hl.
  destruct (client_step_ok c arr op I Hop) as (c' & E & I' & Hbs & Hlen); [lia|].
  cbn [client_run fold_left]. rewrite E in Hops |- *. cbn.
  specialize (IH c' _ I' Hops). rewrite Hbs in IH. apply IH. lia.
Qed.

Lemma bufs_read h l arr : Forall2 (buf_ok h) l arr -> read_buf h <$> l = arr.
Proof. induction 1 as [|b x l arr [_ Hx]]; [done|]. cbn. by f_equal. Qed.

(** ** Properties *)

(** C31. The arena refines a heap of independent arrays: whatever a client does
    with it (allocations of one or many blocks, copies, writes into buffers it
    holds, releases, [Reset], [Compact]), no call panics, the buffers handed
    out have exactly the requested length, never overlap, and each shows
    exactly what was written through it, zeros elsewhere. *)
Theorem arena_refines_arrays bs ss ops :
  0 <= bs <= ss -> 2 * ss < 2 ^ 32 -> ops_ok (new_client bs ss) ops ->
  Z.of_nat (length ops) < 2 ^ 31 - 2 ->
  exists c, client_run (new_client bs ss) ops = Some c
    /\ read_buf (c_heap c) <$> c_issued c = fold_left (arrays_step bs) ops []
    /\ forall i j b b', i <> j -> c_issued c !! i = Some b -> c_issued c !! j = Some b' ->
         disjoint b b'.
Proof.
  intros Hb Hs Hops Hl. destruct (new_client_inv bs ss Hb Hs) as (I & Hbs & Hlive).
  destruct (client_run_ok ops _ _ I Hops) as (c & E & [Hh _ _ _]); [rewrite Hlive; cbn; lia|].
  exists c. rewrite Hbs in Hh. split; [done|]. split; [|apply Hh].
  apply bufs_read, Hh.
Qed.

Definition sample_ops : list arena_op :=
  [OAllocCopy [x01; x02]; OAlloc; OWrite 1 [x03]; OAllocN 3; OCompact; OAllocN 9; OReset;
   ORelease 0; OAlloc; OWrite 0 [x07; x07; x07; x07; x07]].

Lemma arena_refines_arrays_witness :
  exists c, client_run (new_client 4 16) sample_ops = Some c
    /\ read_buf (c_heap c) <$> c_issued c = fold_left (arrays_step 4) sample_ops []
    /\ forall i j b b', i <> j -> c_issued c !! i = Some b -> c_issued c !! j = Some b' ->
         disjoint b b'.
Proof.
  apply arena_refines_arrays; [lia|lia|by apply (bool_decide_unpack _); vm_compute|cbn; lia].
Defined.

(** [Compact] is exact: after any client run it keeps, of the slabs the
    arena holds, the active one and those with an allocation not yet
    released, and drops every other. *)
Theorem Compact_exact bs ss ops c r :
  0 <= bs <= ss -> 2 * ss < 2 ^ 32 -> ops_ok (new_client bs ss) ops ->
  Z.of_nat (length ops) < 2 ^ 31 - 2 ->
  client_run (new_client bs ss) ops = Some c ->
  is_Some (headers (c_heap c) !! r) ->
  r ∈ slabs (Compact (c_heap c) (c_arena c)).1 <->
    r ∈ slabs (c_arena c) /\ (r = active (c_arena c) \/ r ∈ c_live c).
Proof.
  intros Hb Hs Hops Hl E [s Es]. destruct (new_client_inv bs ss Hb Hs) as (I & _ & Hlive).
  destruct (client_run_ok ops _ _ I Hops) as (c' & E' & [Hh _ _ _]); [rewrite Hlive; cbn; lia|].
  rewrite E in E'. injection E' as <-.
  unfold Compact. cbn. rewrite list_elem_of_filter. unfold keep_slab, header. rewrite Es. cbn.
  rewrite orb_true_iff, bool_decide_eq_true, Z.ltb_lt, (hi_refs _ _ _ _ Hh _ _ Es).
  destruct (decide (r ∈ c_live c)) as [Hin|Hout].
  - pose proof (occ_perm r _ _ (drop_one_perm r _ Hin)) as Q. rewrite occ_cons, decide_True in Q by done.
    pose proof (occ_le r (drop_one r (c_live c))). intuition lia.
  - rewrite (occ_zero _ _ Hout). intuition lia.
Qed.

Definition compact_ops : list arena_op := [OAllocN 4; OAllocN 4; OAlloc; ORelease 0].

Lemma Compact_exact_witness : exists c,
  client_run (new_client 4 16) compact_ops = Some c /\ slabs (c_arena c) = [0; 1; 2]%nat
  /\ slabs (Compact (c_heap c) (c_arena c)).1 = [1; 2]%nat
  /\ (1%nat ∈ slabs (Compact (c_heap c) (c_arena c)).1 <->
       1%nat ∈ slabs (c_arena c) /\ (1%nat = active (c_arena c) \/ 1%nat ∈ c_live c)).
Proof.
  eexists. split; [vm_compute; reflexivity|]. split; [reflexivity|]. split; [reflexivity|].
  apply (Compact_exact 4 16 compact_ops); 
    [lia|lia|by apply (bool_decide_unpack _); vm_compute|cbn; lia|vm_compute; reflexivity|vm_compute; eauto].
Defined.

(** The byte count of [AllocN] is a 32-bit product: a request for
    1048576 blocks of the default 4096 bytes wraps to zero and is answered
    with an empty buffer instead of 4 GiB or a failure. *)
Theorem AllocN_wraps : exists h a,
  NewArena (mkHeap [] ∅) 4096 = (h, a)
  /\ alloc_size a 1048576 = 0
  /\ exists h' a', AllocN h a 1048576 = (h', a', Some (mkBuf (active a) 0 0)).
Proof.
  eexists _, _. split; [reflexivity|]. split; [reflexivity|].
  unfold AllocN. change (alloc_size _ _) with 0.
  cbn [slabSize set_active]. change (DefaultSlabSize <? 0) with false. cbn iota.
  rewrite (alloc_from_fits _ _ 0 (mkSlab DefaultSlabSize 0 1)); try done; eauto.
Qed.
