(* ===== verification/LRUCache.v ===== *)
(** * The LRU cache of a volume: configuration (viperblock.go)

    Sizing, resizing and switching off the optional cache of the legacy read
    path. The LRU itself is a library: a cache handle and its constructor are
    parameters, with the constructor's documented contract. Readers use the
    handle, without a check, whenever the configured size is above zero: that
    is the invariant. *)

From S2P Require Import Prelude Words.

Section cache.
Context (lru : Type) (capacity : lru -> Z) (lru_New : Z -> option lru).

Record CacheConfig := mkCacheConfig {
  Size : Z;
  UseSystemMemory : bool;
  SystemMemoryPercent : Z
}.

Record LRU := mkLRU { handle : option lru; cache_Config : CacheConfig }.

(** [None]: the division by a zero block size panics. [systemMemory] is what
    [getSystemMemory] reports. *)
Definition calculateCacheSize (systemMemory blockSize percent : Z) : option Z :=
  let percent := if (percent <=? 0) || (100 <? percent) then 30 else percent in
  let cacheMemory := u64 (systemMemory * SafeIntToUint64 percent) / 100 in
  if blockSize =? 0 then None else Some (SafeUint64ToInt (cacheMemory / blockSize)).

Definition SetCacheSize (size percentage : Z) (c : LRU) : result string LRU :=
  if size <? 0 then Err "cache size must be greater than 0"%string
  else if size =? 0 then Ok (mkLRU (handle c) (mkCacheConfig 0 false 0))
  else
    match lru_New size with
    | None => Err "failed to create new LRU cache"%string
    | Some newCache =>
        Ok (mkLRU (Some newCache)
              (if 0 <? percentage then mkCacheConfig size true percentage else mkCacheConfig size false 0))
    end.

(** [None] is the panic of [calculateCacheSize]. *)
Definition SetCacheSystemMemory (systemMemory blockSize percent : Z) (c : LRU) : option (result string LRU) :=
  if (percent <=? 0) || (100 <? percent) then Some (Err "system memory percentage must be between 1 and 100"%string)
  else match calculateCacheSize systemMemory blockSize percent with
       | None => None
       | Some size => Some (SetCacheSize size percent c)
       end.

(** The cache of [New]; [None] is its panic when the LRU cannot be made. *)
Definition new_cache (config : CacheConfig) : option LRU :=
  if Size config =? 0 then Some (mkLRU None (mkCacheConfig 0 false 0))
  else match lru_New (Size config) with
       | Some h => Some (mkLRU (Some h) config)
       | None => None
       end.

(** ** Invariant *)

(** When the size is above zero there is a handle, of that capacity. *)
Definition cache_ok (c : LRU) : Prop :=
  0 < Size (cache_Config c) -> exists h, handle c = Some h /\ capacity h = Size (cache_Config c).

(** The library's contract: a positive size gives a cache of that size, any
    other an error. *)
Definition lru_contract : Prop :=
  forall size, match lru_New size with
               | Some h => 0 < size /\ capacity h = size
               | None => size <= 0
               end.

Context (HL : lru_contract).

Lemma new_cache_ok config c : new_cache config = Some c -> cache_ok c.
Proof.
  unfold new_cache. destruct (Z.eqb_spec (Size config) 0) as [E|E]; [intros [= <-] ?; cbn in *; lia|].
  pose proof (HL (Size config)) as H. destruct (lru_New (Size config)) as [h|]; [|done]. destruct H as [_ H]. intros [= <-] _. exists h. by cbn.
Qed.

Lemma SetCacheSize_spec size percentage c :
  cache_ok c -> match SetCacheSize size percentage c with
                | Ok c' => 0 <= size /\ cache_ok c' /\ Size (cache_Config c') = size /\
                           (UseSystemMemory (cache_Config c') = true <-> 0 < size /\ 0 < percentage)
                | Err _ => size < 0
                end.
Proof.
  intros Hc. unfold SetCacheSize. destruct (Z.ltb_spec size 0); [done|]. destruct (Z.eqb_spec size 0) as [->|Hne].
  { cbn. split; [done|]. split; [intros ?; cbn in *; lia|]. split; [done|]. split; [done|lia]. }
  pose proof (HL size) as H'. destruct (lru_New size) as [h|]; [|lia]. destruct H' as [_ Hcap].
  split; [lia|]. destruct (Z.ltb_spec 0 percentage); cbn; (split; [intros _; exists h; done|]); (split; [done|]); split; try done; lia.
Qed.

(** Resizing by memory: below [2^64 / 100] bytes of memory nothing wraps, the
    cache holds the given share of the memory, rounded down to blocks, and is
    switched off when that is less than a block. *)
Lemma SetCacheSystemMemory_spec systemMemory blockSize percent c :
  cache_ok c -> 1 <= percent <= 100 -> 0 <= systemMemory -> systemMemory * 100 < 2 ^ 63 -> 0 < blockSize ->
  exists c', SetCacheSystemMemory systemMemory blockSize percent c = Some (Ok c') /\ cache_ok c' /\
    Size (cache_Config c') = systemMemory * percent / 100 / blockSize.
Proof.
  intros Hc Hp Hm Hlt Hb. unfold SetCacheSystemMemory, calculateCacheSize.
  destruct (Z.leb_spec percent 0); [lia|]. destruct (Z.ltb_spec 100 percent); [lia|]. cbn [orb].
  destruct (Z.eqb_spec blockSize 0); [lia|].
  assert (SafeIntToUint64 percent = percent) as -> by (unfold SafeIntToUint64; zcrush).
  assert (systemMemory * percent <= systemMemory * 100) by nia.
  rewrite u64_small by (unfold_widths; nia).
  assert (0 <= systemMemory * percent / 100 <= systemMemory * percent).
  { split; [apply Z.div_pos; nia|]. apply Z.div_le_upper_bound; nia. }
  assert (0 <= systemMemory * percent / 100 / blockSize <= systemMemory * percent / 100).
  { split; [apply Z.div_pos; lia|]. apply Z.div_le_upper_bound; nia. }
  rewrite SafeUint64ToInt_small by (unfold_widths; lia).
  pose proof (SetCacheSize_spec (systemMemory * percent / 100 / blockSize) percent c Hc) as Hs.
  destruct (SetCacheSize _ _ c) as [c'|e]; [|lia]. destruct Hs as (_ & Hok & Hsz & _). by exists c'.
Qed.

(** Every sequence of calls on a new cache. *)
Inductive cache_call := CallSize (size percentage : Z) | CallMemory (systemMemory percent : Z).

Definition cache_step (blockSize : Z) (c : LRU) (x : cache_call) : LRU :=
  match x with
  | CallSize size percentage => match SetCacheSize size percentage c with Ok c' => c' | Err _ => c end
  | CallMemory mem percent =>
      match SetCacheSystemMemory mem blockSize percent c with Some (Ok c') => c' | _ => c end
  end.

Lemma SetCacheSize_ok size percentage c c' : cache_ok c -> SetCacheSize size percentage c = Ok c' -> cache_ok c'.
Proof. intros Hc E. pose proof (SetCacheSize_spec size percentage c Hc) as H. rewrite E in H. apply H. Qed.

Lemma cache_run_ok blockSize config c calls :
  new_cache config = Some c -> cache_ok (fold_left (cache_step blockSize) calls c).
Proof.
  intros Hn. apply new_cache_ok in Hn. revert c Hn. induction calls as [|x calls IH]; intros c Hc; [done|].
  cbn [fold_left]. apply IH. destruct x as [size pct|mem pct]; cbn [cache_step].
  - destruct (SetCacheSize size pct c) eqn:E; [by eapply SetCacheSize_ok|done].
  - unfold SetCacheSystemMemory. destruct (_ || _); [done|]. destruct (calculateCacheSize _ _ _) as [sz|]; [|done].
    destruct (SetCacheSize sz pct c) eqn:E; [by eapply SetCacheSize_ok|done].
Qed.
End cache.

(** The library as a parameter of what opens a volume. *)
Class LRULib := {
  lru_handle : Type;
  lru_capacity : lru_handle -> Z;
  lru_New : Z -> option lru_handle
}.
Class LRULaws (L : LRULib) : Prop := lru_documented : lru_contract lru_handle lru_capacity lru_New.

(** A cache whose size is its handle. *)
Definition size_lru : LRULib :=
  {| lru_handle := Z; lru_capacity := id; lru_New := fun size => if 0 <? size then Some size else None |}.

(** The contract can be met. *)
Lemma lru_contract_satisfiable :
  lru_contract Z id (fun size => if 0 <? size then Some size else None).
Proof. intros size. destruct (Z.ltb_spec 0 size); [done|lia]. Qed.

Lemma size_lru_laws : LRULaws size_lru.
Proof. exact lru_contract_satisfiable. Qed.
