(* ===== verification/SimpleFS.v ===== *)
(** * SimpleFS ([simplefs/simplefs.go])

    A toy file system over the block device: a volume of numbered blocks with
    a free list and a set of used blocks, and a table of files.  The state is
    saved as a JSON document; [json.Unmarshal] into a live value merges maps,
    which the model writes out. *)

From S2P Require Import Prelude Words.

(** ** Data *)

(** [Used] is a Go map: [None] is the nil map. *)
Record SimpleVolume := mkSimpleVolume {
  Used : option (gmap Z bool); Free : list Z; Size : Z; Name : string }.

Record SimpleBlock := mkSimpleBlock {
  Filename : string; FileSize : Z; FileBlocks : list Z }.

(** [Blocks] is the file table; [None] is the nil map. *)
Record SimpleFS := mkSimpleFS {
  Volume : SimpleVolume; Blocks : option (gmap string SimpleBlock); Blocksize : Z }.

(** The errors the code returns; [Panic] is a run-time panic. *)
Inductive sfs_error :=
| SizeNotMultiple | NotEnoughFree | FileNotFound | IOError | BadJSON | Panic.

Definition DefaultBlockSize : Z := 4096.

(** Lookup and deletion work on a nil map; a store panics. *)
Definition map_get {K A} `{Countable K} (m : option (gmap K A)) (k : K) : option A :=
  m ≫= fun m => m !! k.
Definition map_del {K A} `{Countable K} (m : option (gmap K A)) (k : K) : option (gmap K A) :=
  delete k <$> m.

Definition New : SimpleFS :=
  mkSimpleFS (mkSimpleVolume None [] 0 EmptyString) (Some ∅) DefaultBlockSize.

(** [for i := range n { Free[i] = i }] on a slice of [n] elements. *)
Definition all_free (n : Z) : list Z := seqZ 0 n.

(** [make([]uint64, n)] panics when the slice cannot be addressed
    (48-bit addresses, 8-byte elements). *)
Definition max_slice_len : Z := 2 ^ 45.

Definition CreateVolume (sfs : SimpleFS) (name : string) (size : Z)
    : SimpleFS * result sfs_error unit :=
  if Blocksize sfs =? 0 then (sfs, Err Panic)
  else if negb (size mod Blocksize sfs =? 0) then (sfs, Err SizeNotMultiple)
  else
    let totalBlocks := size / Blocksize sfs in
    if max_slice_len <? totalBlocks then
      (mkSimpleFS (mkSimpleVolume (Some ∅) (Free (Volume sfs)) totalBlocks name)
         (Blocks sfs) (Blocksize sfs), Err Panic)
    else
      (mkSimpleFS (mkSimpleVolume (Some ∅) (all_free totalBlocks) totalBlocks name)
         (Blocks sfs) (Blocksize sfs), Ok tt).

Definition FormatVolume (sfs : SimpleFS) : SimpleFS * result sfs_error unit :=
  let v := Volume sfs in
  if max_slice_len <? Size v then
    (mkSimpleFS (mkSimpleVolume (Some ∅) (Free v) (Size v) (Name v)) (Blocks sfs) (Blocksize sfs),
     Err Panic)
  else
    (mkSimpleFS (mkSimpleVolume (Some ∅) (all_free (Size v)) (Size v) (Name v))
       (Some ∅) (Blocksize sfs), Ok tt).

(** The marking loop of [AllocateBlocks]. *)
Definition mark_used (u : gmap Z bool) (l : list Z) : gmap Z bool :=
  fold_left (fun u b => <[b := true]> u) l u.

Definition AllocateBlocks (sfs : SimpleFS) (size : Z)
    : SimpleFS * result sfs_error (list Z) :=
  let v := Volume sfs in
  if max_slice_len <? size then (sfs, Err Panic)
  else if Z.of_nat (length (Free v)) <? SafeUint64ToInt size then (sfs, Err NotEnoughFree)
  else
    let blocks := take (Z.to_nat size) (Free v) in
    match Used v, blocks with
    | None, _ :: _ => (sfs, Err Panic)
    | u, _ =>
        (mkSimpleFS
           (mkSimpleVolume ((fun u => mark_used u blocks) <$> u)
              (drop (Z.to_nat size) (Free v)) (Size v) (Name v))
           (Blocks sfs) (Blocksize sfs), Ok blocks)
    end.

(** One round of the loop of [FreeBlocks]. *)
Definition free_block (v : SimpleVolume) (block : Z) : SimpleVolume :=
  mkSimpleVolume (map_del (Used v) block) (Free v ++ [block]) (Size v) (Name v).

Definition FreeBlocks (sfs : SimpleFS) (blocks : list Z) : SimpleFS :=
  mkSimpleFS (fold_left free_block blocks (Volume sfs)) (Blocks sfs) (Blocksize sfs).

(** The number of blocks [CreateFile] asks for, in [uint64] arithmetic. *)
Definition num_blocks (sfs : SimpleFS) (dataLen : Z) : Z :=
  u64 (u64 (dataLen + Blocksize sfs) - 1) / Blocksize sfs.

Definition with_table (sfs : SimpleFS) (b : option (gmap string SimpleBlock)) : SimpleFS :=
  mkSimpleFS (Volume sfs) b (Blocksize sfs).

(** The first step of [CreateFile]: drop a file of that name. *)
Definition unlink (sfs : SimpleFS) (pathname : string) : SimpleFS :=
  match map_get (Blocks sfs) pathname with
  | Some f =>
      let sfs := FreeBlocks sfs (FileBlocks f) in with_table sfs (map_del (Blocks sfs) pathname)
  | None => sfs
  end.

Definition CreateFile (sfs : SimpleFS) (pathname : string) (dataLen : Z)
    : SimpleFS * result sfs_error (list Z) :=
  if Blocksize sfs =? 0 then (sfs, Err Panic)
  else
    let numBlocks := num_blocks sfs dataLen in
    let sfs := unlink sfs pathname in
    match AllocateBlocks sfs numBlocks with
    | (sfs, Err e) => (sfs, Err e)
    | (sfs, Ok blocks) =>
        match Blocks sfs with
        | None => (sfs, Err Panic)
        | Some m =>
            (with_table sfs (Some (<[pathname := mkSimpleBlock pathname dataLen blocks]> m)), Ok blocks)
        end
    end.

Definition DeleteFile (sfs : SimpleFS) (pathname : string) : SimpleFS * result sfs_error unit :=
  match map_get (Blocks sfs) pathname with
  | None => (sfs, Err FileNotFound)
  | Some f =>
      let sfs := FreeBlocks sfs (FileBlocks f) in
      (with_table sfs (map_del (Blocks sfs) pathname), Ok tt)
  end.

(** ** The state file *)

(** A file holds a JSON document with the exported fields, or something else. *)
Inductive state_file := Document (d : SimpleFS) | NotJSON.
Abbreviation state_disk := (gmap string state_file).

(** [os.WriteFile] may fail ([io = false]). *)
Definition SaveState (disk : state_disk) (io : bool) (sfs : SimpleFS) (filename : string)
    : state_disk * result sfs_error unit :=
  if io then (<[filename := Document sfs]> disk, Ok tt) else (disk, Err IOError).

(** Decoding an object into a Go map: [null] makes it nil, an object adds its
    keys to the map that is there. *)
Definition merge_map {K A} `{Countable K} (old new : option (gmap K A)) : option (gmap K A) :=
  match new with
  | None => None
  | Some n => Some (n ∪ default ∅ old)
  end.

Definition LoadState (disk : state_disk) (sfs : SimpleFS) (filename : string)
    : SimpleFS * result sfs_error unit :=
  match disk !! filename with
  | None => (sfs, Err IOError)
  | Some NotJSON => (sfs, Err BadJSON)
  | Some (Document d) =>
      (mkSimpleFS
         (mkSimpleVolume (merge_map (Used (Volume sfs)) (Used (Volume d)))
            (Free (Volume d)) (Size (Volume d)) (Name (Volume d)))
         (merge_map (Blocks sfs) (Blocks d)) (Blocksize d), Ok tt)
  end.

(** ** The abstract directory: file names and sizes, and a capacity *)

Inductive sfs_op :=
| OpCreate (name : string) (len : Z)
| OpDelete (name : string)
| OpFormat.

Definition step_fs (sfs : SimpleFS) (op : sfs_op) : SimpleFS * bool :=
  match op with
  | OpCreate n l =>
      let (s, r) := CreateFile sfs n l in (s, match r with Ok _ => true | Err _ => false end)
  | OpDelete n =>
      let (s, r) := DeleteFile sfs n in (s, match r with Ok _ => true | Err _ => false end)
  | OpFormat =>
      let (s, r) := FormatVolume sfs in (s, match r with Ok _ => true | Err _ => false end)
  end.

(** Blocks a file of [len] bytes needs. *)
Definition need (bs len : Z) : Z := (len + bs - 1) / bs.

Definition sum (l : list Z) : Z := foldr Z.add 0 l.

Definition in_use (bs : Z) (dir : gmap string Z) : Z :=
  sum ((fun p => need bs p.2) <$> map_to_list dir).

Definition step_dir (bs cap : Z) (dir : gmap string Z) (op : sfs_op) : gmap string Z * bool :=
  match op with
  | OpCreate n l =>
      let dir := delete n dir in
      if bool_decide (need bs l <= cap - in_use bs dir) then (<[n := l]> dir, true)
      else (dir, false)
  | OpDelete n =>
      match dir !! n with Some _ => (delete n dir, true) | None => (dir, false) end
  | OpFormat => (∅, true)
  end.

Fixpoint run_fs (sfs : SimpleFS) (ops : list sfs_op) : SimpleFS * list bool :=
  match ops with
  | [] => (sfs, [])
  | op :: ops =>
      let (s, b) := step_fs sfs op in let (s', bs) := run_fs s ops in (s', b :: bs)
  end.

Fixpoint run_dir (bs cap : Z) (dir : gmap string Z) (ops : list sfs_op)
    : gmap string Z * list bool :=
  match ops with
  | [] => (dir, [])
  | op :: ops =>
      let (d, b) := step_dir bs cap dir op in
      let (d', l) := run_dir bs cap d ops in (d', b :: l)
  end.

(** The directory of a file system. *)
Definition dir_of (sfs : SimpleFS) : gmap string Z :=
  FileSize <$> default ∅ (Blocks sfs).

(** All blocks that belong to files. *)
Definition file_blocks (m : gmap string SimpleBlock) : list Z :=
  mjoin ((fun p => FileBlocks p.2) <$> map_to_list m).
