(* ===== verification/SimpleFSFacts.v ===== *)
(** * Facts on SimpleFS

    The free list, the used set and the files partition the volume, and the
    file operations refine an abstract directory with a capacity. *)

From S2P Require Import Prelude Words SimpleFS.

(** ** The loops *)

Lemma free_blocks_fold l v :
  fold_left free_block l v =
    mkSimpleVolume (fold_left map_del l (Used v)) (Free v ++ l) (Size v) (Name v).
Proof.
  revert v. induction l as [|b l IH]; intros v; cbn.
  - rewrite app_nil_r. by destruct v.
  - rewrite IH. cbn. by rewrite <-(assoc_L app).
Qed.

Lemma map_del_fold l (u : gmap Z bool) b :
  map_get (fold_left map_del l (Some u)) b = if decide (b ∈ l) then None else u !! b.
Proof.
  revert u. induction l as [|c l IH]; intros u; cbn [fold_left]; [done|]; change (map_del (Some u) c) with (Some (delete c u)).
  rewrite IH. destruct (decide (b ∈ l)), (decide (b ∈ c :: l)) as [Hc|Hc]; try done.
  - by rewrite elem_of_cons in Hc; naive_solver.
  - apply elem_of_cons in Hc as [->|?]; [by rewrite lookup_delete_eq|done].
  - rewrite lookup_delete_ne; [done|]. intros ->. apply Hc. left.
Qed.

Lemma map_del_fold_some l (u : gmap Z bool) :
  exists u', fold_left map_del l (Some u) = Some u'.
Proof. revert u. induction l as [|c l IH]; intros u; cbn; eauto. Qed.

Lemma mark_used_lookup l u b :
  mark_used u l !! b = if decide (b ∈ l) then Some true else u !! b.
Proof.
  unfold mark_used. revert u. induction l as [|c l IH]; intros u; cbn; [done|].
  rewrite IH. destruct (decide (b ∈ l)), (decide (b ∈ c :: l)) as [Hc|Hc]; try done.
  - by rewrite elem_of_cons in Hc; naive_solver.
  - apply elem_of_cons in Hc as [->|?]; [by rewrite lookup_insert_eq|done].
  - rewrite lookup_insert_ne; [done|]. intros ->. apply Hc. left.
Qed.

(** ** Blocks of the file table *)

Lemma file_blocks_insert m n f : m !! n = None ->
  file_blocks (<[n := f]> m) ≡ₚ FileBlocks f ++ file_blocks m.
Proof. intros H. unfold file_blocks. by rewrite (map_to_list_insert m n f H). Qed.

Lemma file_blocks_delete m n f : m !! n = Some f ->
  file_blocks m ≡ₚ FileBlocks f ++ file_blocks (delete n m).
Proof.
  intros H. rewrite <-(insert_id m n f H) at 1. rewrite <-insert_delete_eq.
  apply file_blocks_insert, lookup_delete_eq.
Qed.

Lemma file_blocks_empty : file_blocks ∅ = [].
Proof. unfold file_blocks. by rewrite map_to_list_empty. Qed.

Lemma elem_of_file_blocks m b :
  b ∈ file_blocks m <-> exists n f, m !! n = Some f /\ b ∈ FileBlocks f.
Proof.
  unfold file_blocks. rewrite list_elem_of_join. split.
  - intros (l & Hb & Hl). apply list_elem_of_fmap in Hl as ([n f] & -> & Hm).
    apply elem_of_map_to_list in Hm. eauto.
  - intros (n & f & Hm & Hb). exists (FileBlocks f). split; [done|].
    apply list_elem_of_fmap. exists (n, f). split; [done|]. by apply elem_of_map_to_list.
Qed.

Lemma sum_perm l k : l ≡ₚ k -> sum l = sum k.
Proof. unfold sum. induction 1; cbn; lia. Qed.

Lemma in_use_insert bs dir n l : dir !! n = None ->
  in_use bs (<[n := l]> dir) = need bs l + in_use bs dir.
Proof.
  intros H. unfold in_use.
  rewrite (sum_perm _ _ (fmap_Permutation _ _ _ (map_to_list_insert dir n l H))). done.
Qed.

Lemma in_use_blocks bs (m : gmap string SimpleBlock) :
  (forall n f, m !! n = Some f -> Z.of_nat (length (FileBlocks f)) = need bs (FileSize f)) ->
  in_use bs (FileSize <$> m) = Z.of_nat (length (file_blocks m)).
Proof.
  induction m as [|n f m Hn IH] using map_ind; intros H.
  - by rewrite fmap_empty, file_blocks_empty.
  - rewrite fmap_insert, in_use_insert by (by rewrite lookup_fmap, Hn).
    rewrite (file_blocks_insert m n f Hn), length_app, Nat2Z.inj_add, IH.
    + rewrite (H n f) by apply lookup_insert_eq. done.
    + intros k g E. apply (H k g). rewrite lookup_insert_ne; [done|]. congruence.
Qed.

(** ** The invariant *)

(** Free list and files partition the blocks of the volume; the used set is
    the set of blocks of files; every file has the blocks it needs. *)
Record fs_parts (s : SimpleFS) (m : gmap string SimpleBlock) (u : gmap Z bool) : Prop := {
  fp_blocks : Blocks s = Some m;
  fp_used : Used (Volume s) = Some u;
  fp_bs : 0 < Blocksize s;
  fp_size : 0 <= Size (Volume s) <= max_slice_len;
  fp_perm : Free (Volume s) ++ file_blocks m ≡ₚ seqZ 0 (Size (Volume s));
  fp_mark : forall b, u !! b = if decide (b ∈ file_blocks m) then Some true else None;
  fp_file : forall n f, m !! n = Some f ->
    Filename f = n /\ Z.of_nat (length (FileBlocks f)) = need (Blocksize s) (FileSize f) }.

Definition sfs_inv (s : SimpleFS) : Prop := exists m u, fs_parts s m u.

Lemma parts_nodup s m u : fs_parts s m u -> NoDup (Free (Volume s) ++ file_blocks m).
Proof. intros H. rewrite (fp_perm _ _ _ H). apply NoDup_seqZ. Qed.

Lemma parts_free s m u : fs_parts s m u ->
  Z.of_nat (length (Free (Volume s)))
  = Size (Volume s) - in_use (Blocksize s) (dir_of s).
Proof.
  intros H. pose proof (Permutation_length (fp_perm _ _ _ H)) as Hl.
  rewrite length_app, length_seqZ in Hl. pose proof (fp_size _ _ _ H).
  unfold dir_of. rewrite (fp_blocks _ _ _ H). cbn [default from_option id].
  rewrite in_use_blocks by (intros; eapply fp_file; eauto). lia.
Qed.

(** [CreateVolume] on a new instance establishes it. *)
Lemma CreateVolume_inv name size :
  0 <= size -> size mod DefaultBlockSize = 0 -> size / DefaultBlockSize <= max_slice_len ->
  exists s, CreateVolume New name size = (s, Ok tt) /\ sfs_inv s
    /\ dir_of s = ∅ /\ Size (Volume s) = size / DefaultBlockSize
    /\ Blocksize s = DefaultBlockSize.
Proof.
  intros H0 Hm Hs. unfold CreateVolume. change (Blocksize New) with DefaultBlockSize.
  rewrite Hm. cbn -[Z.div DefaultBlockSize max_slice_len].
  destruct (Z.ltb_spec max_slice_len (size / DefaultBlockSize)); [lia|].
  eexists. split; [reflexivity|]. split; [|done].
  assert (0 <= size / DefaultBlockSize) by (apply Z.div_pos; [lia|done]).
  exists ∅, ∅. split; cbn -[Z.div DefaultBlockSize max_slice_len]; try done.
  by rewrite file_blocks_empty, app_nil_r.
Qed.

(** The blocks of a removed file go back to the free list. *)
Lemma remove_parts s m u n f : fs_parts s m u -> m !! n = Some f ->
  exists u', fs_parts (with_table (FreeBlocks s (FileBlocks f)) (map_del (Blocks s) n))
               (delete n m) u'.
Proof.
  intros H E. pose proof (parts_nodup _ _ _ H) as Hnd. destruct H as [Hb Hu Hbs Hsz Hp Hk Hf].
  pose proof (file_blocks_delete m n f E) as Hd.
  destruct (map_del_fold_some (FileBlocks f) u) as [u' Hu'].
  exists u'. unfold FreeBlocks. rewrite free_blocks_fold. split; cbn; auto.
  - by rewrite Hb.
  - by rewrite Hu.
  - by rewrite <-(assoc_L app), <-Hd.
  - intros b. pose proof (map_del_fold (FileBlocks f) u b) as Q. rewrite Hu' in Q. cbn in Q.
    rewrite Q, Hk.
    assert (b ∈ file_blocks m <-> b ∈ FileBlocks f \/ b ∈ file_blocks (delete n m)) as Hel
      by (rewrite Hd; apply elem_of_app).
    assert (b ∈ FileBlocks f -> b ∉ file_blocks (delete n m)) as Hex.
    { rewrite Hd in Hnd. apply NoDup_app in Hnd as (_ & _ & Hnd).
      apply NoDup_app in Hnd as (_ & Hnd & _). apply Hnd. }
    repeat case_decide; naive_solver.
  - intros k g Hg. apply lookup_delete_Some in Hg as [? ?]. auto.
Qed.

Lemma unlink_parts s m u n : fs_parts s m u ->
  exists u', fs_parts (unlink s n) (delete n m) u'.
Proof.
  intros H. unfold unlink, map_get. rewrite (fp_blocks _ _ _ H). cbn.
  destruct (m !! n) as [f|] eqn:E.
  - apply (remove_parts s m u n f H E).
  - exists u. by rewrite delete_id.
Qed.

Lemma unlink_frame s n : Blocksize (unlink s n) = Blocksize s
  /\ Size (Volume (unlink s n)) = Size (Volume s).
Proof.
  unfold unlink. destruct (map_get _ _); [|done]. unfold FreeBlocks.
  by rewrite free_blocks_fold.
Qed.

(** Taking the first [k] free blocks for a new file. *)
Lemma allocate_parts s m u n k len : fs_parts s m u -> m !! n = None ->
  0 <= k <= Z.of_nat (length (Free (Volume s))) -> k = need (Blocksize s) len ->
  exists s' u', AllocateBlocks s k = (s', Ok (take (Z.to_nat k) (Free (Volume s))))
    /\ Blocks s' = Some m /\ Blocksize s' = Blocksize s
    /\ Size (Volume s') = Size (Volume s)
    /\ fs_parts (with_table s' (Some (<[n := mkSimpleBlock n len (take (Z.to_nat k) (Free (Volume s)))]> m)))
         (<[n := mkSimpleBlock n len (take (Z.to_nat k) (Free (Volume s)))]> m) u'.
Proof.
  intros H Hn Hk Hneed. destruct H as [Hb Hu Hbs Hsz Hp Hm Hf].
  pose proof (Permutation_length Hp) as Hl. rewrite length_app, length_seqZ in Hl.
  unfold AllocateBlocks.
  destruct (Z.ltb_spec max_slice_len k); [lia|].
  rewrite SafeUint64ToInt_small by (unfold max_slice_len in *; unfold_widths; lia).
  destruct (Z.ltb_spec (Z.of_nat (length (Free (Volume s)))) k); [lia|].
  rewrite Hu. set (bl := take (Z.to_nat k) (Free (Volume s))).
  eexists _, (mark_used u bl). split; [reflexivity|].
  split; [done|]. split; [done|]. split; [done|].
  pose proof (file_blocks_insert m n (mkSimpleBlock n len bl) Hn) as Hins. cbn in Hins.
  split; cbn; auto.
  - rewrite Hins, (assoc_L app), (comm app (drop _ _)). unfold bl. by rewrite take_drop.
  - intros b. rewrite mark_used_lookup, Hm.
    assert (b ∈ file_blocks (<[n := mkSimpleBlock n len bl]> m) <-> b ∈ bl \/ b ∈ file_blocks m) as Hel
      by (rewrite Hins; apply elem_of_app).
    repeat case_decide; naive_solver.
  - intros q f E. apply lookup_insert_Some in E as [[<- <-]|[? E]]; [|by apply Hf]. cbn.
    split; [done|]. unfold bl. rewrite length_take. lia.
Qed.

(** What a caller must respect: sizes for which the block count does not wrap
    around and can be allocated as a slice. *)
Definition op_fits (bs : Z) (op : sfs_op) : Prop :=
  match op with
  | OpCreate _ l => 0 <= l /\ l + bs <= 2 ^ 64 - 1 /\ need bs l <= max_slice_len
  | _ => True
  end.

Lemma num_blocks_need s len : 0 < Blocksize s -> 0 <= len -> len + Blocksize s <= 2 ^ 64 - 1 ->
  num_blocks s len = need (Blocksize s) len.
Proof.
  intros. unfold num_blocks, need. rewrite (u64_small (len + _)) by wsolve.
  rewrite u64_small by wsolve. done.
Qed.

Lemma need_nonneg bs len : 0 < bs -> 0 <= len -> 0 <= need bs len.
Proof. intros. unfold need. apply Z.div_pos; lia. Qed.

Lemma dir_of_some s m : Blocks s = Some m -> dir_of s = FileSize <$> m.
Proof. intros E. unfold dir_of. by rewrite E. Qed.

(** One operation: the invariant is preserved and the directory moves as the
    abstract one, with the same answer. *)
Lemma step_fs_refines s op : sfs_inv s -> op_fits (Blocksize s) op ->
  sfs_inv (step_fs s op).1
  /\ Blocksize (step_fs s op).1 = Blocksize s
  /\ Size (Volume (step_fs s op).1) = Size (Volume s)
  /\ step_dir (Blocksize s) (Size (Volume s)) (dir_of s) op
     = (dir_of (step_fs s op).1, (step_fs s op).2).
Proof.
  intros (m & u & H) Hop. pose proof (fp_bs _ _ _ H) as Hbs.
  destruct op as [n len|n|]; cbn [step_fs step_dir].
  - destruct Hop as (H0 & Hw & Hmax). pose proof (need_nonneg _ _ Hbs H0) as Hnn.
    destruct (unlink_parts s m u n H) as (u1 & H1).
    destruct (unlink_frame s n) as [Fb Fs].
    assert (delete n (dir_of s) = dir_of (unlink s n)) as ->.
    { rewrite (dir_of_some _ _ (fp_blocks _ _ _ H)), (dir_of_some _ _ (fp_blocks _ _ _ H1)).
      by rewrite fmap_delete. }
    unfold CreateFile. destruct (Z.eqb_spec (Blocksize s) 0); [lia|].
    rewrite num_blocks_need by done.
    pose proof (parts_free _ _ _ H1) as Hfree. rewrite Fb, Fs in Hfree.
    case_bool_decide.
    + destruct (allocate_parts (unlink s n) (delete n m) u1 n (need (Blocksize s) len) len H1)
        as (s' & u' & E & Eb & Ebs & Esz & HP); [apply lookup_delete_eq|lia|congruence|].
      rewrite E, Eb. cbn. split; [by eexists _, _|]. rewrite <-Fb, <-Fs. split; [done|]. split; [done|].
      f_equal. rewrite (dir_of_some _ _ (fp_blocks _ _ _ H1)). unfold dir_of. cbn.
      by rewrite fmap_insert.
    + assert (AllocateBlocks (unlink s n) (need (Blocksize s) len)
              = (unlink s n, Err NotEnoughFree)) as ->.
      { unfold AllocateBlocks. destruct (Z.ltb_spec max_slice_len (need (Blocksize s) len)); [lia|].
        rewrite SafeUint64ToInt_small by (unfold max_slice_len in *; unfold_widths; lia).
        destruct (Z.ltb_spec (Z.of_nat (length (Free (Volume (unlink s n)))))
                    (need (Blocksize s) len)); [done|lia]. }
      cbn. split; [by eexists _, _|done].
  - unfold DeleteFile, map_get. rewrite (fp_blocks _ _ _ H). cbn.
    rewrite (dir_of_some _ _ (fp_blocks _ _ _ H)), lookup_fmap.
    destruct (m !! n) as [f|] eqn:E; cbn.
    + destruct (remove_parts s m u n f H E) as (u' & H').
      rewrite (fp_blocks _ _ _ H) in H' |- *.
      split; [by eexists _, _|]. split; [done|]. rewrite free_blocks_fold. cbn.
      split; [done|]. by rewrite fmap_delete.
    + split; [by eexists _, _|]. split; [done|]. split; [done|].
      by rewrite (dir_of_some _ _ (fp_blocks _ _ _ H)).
  - unfold FormatVolume. pose proof (fp_size _ _ _ H) as Hsz.
    destruct (Z.ltb_spec max_slice_len (Size (Volume s))); [lia|]. cbn.
    split; [|split; [done|split; [done|]]].
    + exists ∅, ∅. split; cbn; try done. by rewrite file_blocks_empty, app_nil_r.
    + unfold dir_of. cbn. by rewrite fmap_empty.
Qed.

Lemma run_fs_refines ops s : sfs_inv s -> Forall (op_fits (Blocksize s)) ops ->
  sfs_inv (run_fs s ops).1
  /\ run_dir (Blocksize s) (Size (Volume s)) (dir_of s) ops
     = (dir_of (run_fs s ops).1, (run_fs s ops).2).
Proof.
  revert s. induction ops as [|op ops IH]; intros s I Hops; [done|].
  inversion_clear Hops as [|? ? Hop Hrest].
  destruct (step_fs_refines s op I Hop) as (I' & Hbs & Hsz & Hd).
  cbn [run_fs run_dir]. rewrite Hd. destruct (step_fs s op) as [s' b]. cbn in *.
  rewrite <-Hbs in Hrest. destruct (IH s' I' Hrest) as [I'' Hd'].
  rewrite Hbs, Hsz in Hd'. rewrite Hd'. by destruct (run_fs s' ops).
Qed.

(** What the invariant says of the files: each has the blocks it needs, all on
    the volume, none free, and no block is in two files or twice in one. *)
Definition files_apart (s : SimpleFS) : Prop :=
  forall n f, map_get (Blocks s) n = Some f ->
    Z.of_nat (length (FileBlocks f)) = need (Blocksize s) (FileSize f)
    /\ NoDup (FileBlocks f)
    /\ (forall b, b ∈ FileBlocks f ->
         0 <= b < Size (Volume s) /\ (b ∉ Free (Volume s))
         /\ map_get (Used (Volume s)) b = Some true
         /\ (forall n' f', map_get (Blocks s) n' = Some f' -> b ∈ FileBlocks f' -> n' = n)).

Lemma inv_files_apart s : sfs_inv s -> files_apart s.
Proof.
  intros (m & u & H) n f E. pose proof (parts_nodup _ _ _ H) as Hnd.
  destruct H as [Hb Hu Hbs Hsz Hp Hm Hf]. rewrite Hb in E. cbn in E.
  destruct (Hf _ _ E) as [_ Hl]. split; [done|].
  pose proof (file_blocks_delete m n f E) as Hd.
  rewrite Hd in Hnd. apply NoDup_app in Hnd as (_ & Hfree & Hnd).
  apply NoDup_app in Hnd as (Hndf & Hdis & _). split; [done|]. intros b Hin.
  assert (b ∈ file_blocks m) as Hbm by (apply elem_of_file_blocks; eauto).
  assert (b ∈ seqZ 0 (Size (Volume s))) as Hs by (rewrite <-Hp, elem_of_app; by right).
  apply elem_of_seqZ in Hs. split; [lia|]. split.
  { intros Hfr. apply (Hfree b Hfr). rewrite elem_of_app. by left. }
  split; [rewrite Hu; cbn; by rewrite Hm, decide_True|].
  intros n' f' E' Hin'. rewrite Hb in E'. cbn in E'.
  destruct (decide (n' = n)) as [|Hne]; [done|]. exfalso. apply (Hdis b Hin).
  apply elem_of_file_blocks. exists n', f'. by rewrite lookup_delete_ne.
Qed.

(** ** Properties *)

(** C32. SimpleFS refines a directory with a capacity: after [CreateVolume] on
    a new instance, any sequence of file creations, deletions and formats
    answers each call as a directory of names and sizes whose files may not
    need more blocks than the volume has, holds exactly that directory, and
    gives every file its own blocks: enough of them, on the volume, marked
    used, not free and in no other file. *)
Theorem sfs_refines_directory name size ops :
  0 <= size -> size mod DefaultBlockSize = 0 -> size / DefaultBlockSize <= max_slice_len ->
  Forall (op_fits DefaultBlockSize) ops ->
  exists s, CreateVolume New name size = (s, Ok tt)
    /\ run_dir DefaultBlockSize (size / DefaultBlockSize) ∅ ops
       = (dir_of (run_fs s ops).1, (run_fs s ops).2)
    /\ files_apart (run_fs s ops).1.
Proof.
  intros H0 Hm Hs Hops.
  destruct (CreateVolume_inv name size H0 Hm Hs) as (s & E & I & Hd & Hsz & Hbs).
  exists s. split; [done|]. rewrite <-Hbs in Hops.
  destruct (run_fs_refines ops s I Hops) as [I' Hr].
  rewrite Hd, Hsz, Hbs in Hr. split; [done|]. by apply inv_files_apart.
Qed.

Definition sample_fs_ops : list sfs_op :=
  [OpCreate "a" 5000; OpCreate "b" 1; OpCreate "a" 12000; OpDelete "c"; OpCreate "c" 4097].

Lemma sfs_refines_directory_witness :
  exists s, CreateVolume New "v" 16384 = (s, Ok tt)
    /\ run_dir DefaultBlockSize 4 ∅ sample_fs_ops
       = (dir_of (run_fs s sample_fs_ops).1, (run_fs s sample_fs_ops).2)
    /\ files_apart (run_fs s sample_fs_ops).1.
Proof.
  change 4 with (16384 / DefaultBlockSize).
  apply (sfs_refines_directory "v" 16384 sample_fs_ops); [done|done|done|].
  repeat constructor; done.
Defined.

(** Rewriting a file that does not fit destroys it: [CreateFile] frees and
    forgets the file of that name before it knows that the new one can be
    allocated, so the failed call leaves neither. *)
Theorem CreateFile_failure_loses_file s n len f :
  sfs_inv s -> map_get (Blocks s) n = Some f ->
  op_fits (Blocksize s) (OpCreate n len) ->
  Size (Volume s) - in_use (Blocksize s) (delete n (dir_of s)) < need (Blocksize s) len ->
  (CreateFile s n len).2 = Err NotEnoughFree
  /\ map_get (Blocks (CreateFile s n len).1) n = None.
Proof.
  intros (m & u & H) E (H0 & Hw & Hmax) Hfull. pose proof (fp_bs _ _ _ H) as Hbs.
  destruct (unlink_parts s m u n H) as (u1 & H1). destruct (unlink_frame s n) as [Fb Fs].
  pose proof (parts_free _ _ _ H1) as Hfree. rewrite Fb, Fs in Hfree.
  rewrite (dir_of_some _ _ (fp_blocks _ _ _ H)), <-fmap_delete in Hfull.
  rewrite (dir_of_some _ _ (fp_blocks _ _ _ H1)) in Hfree.
  unfold CreateFile. destruct (Z.eqb_spec (Blocksize s) 0); [lia|].
  rewrite num_blocks_need by done. unfold AllocateBlocks.
  destruct (Z.ltb_spec max_slice_len (need (Blocksize s) len)); [lia|].
  rewrite SafeUint64ToInt_small by (unfold max_slice_len in *; unfold_widths; lia).
  destruct (Z.ltb_spec (Z.of_nat (length (Free (Volume (unlink s n))))) (need (Blocksize s) len)); [|lia].
  cbn. split; [done|]. rewrite (fp_blocks _ _ _ H1). cbn. apply lookup_delete_eq.
Qed.

(** A volume of four blocks with one file of one block. *)
Definition small_fs : SimpleFS := (run_fs (CreateVolume New "v" 16384).1 [OpCreate "a" 10]).1.

Lemma CreateFile_failure_loses_file_witness :
  (CreateFile small_fs "a" 20000).2 = Err NotEnoughFree
  /\ map_get (Blocks (CreateFile small_fs "a" 20000).1) "a" = None.
Proof.
  apply (CreateFile_failure_loses_file small_fs "a" 20000 (mkSimpleBlock "a" 10 [0])).
  - apply run_fs_refines.
    + destruct (CreateVolume_inv "v" 16384) as (s & -> & I & _); try (vm_compute; congruence). exact I.
    + constructor; [|constructor]. vm_compute. intuition congruence.
  - vm_compute. reflexivity.
  - vm_compute. intuition congruence.
  - vm_compute. reflexivity.
Defined.

(** A saved file system reads back: loading the state file into a new
    instance gives the state that was saved, whatever it was. *)
Theorem LoadState_SaveState disk s name :
  exists disk', SaveState disk true s name = (disk', Ok tt)
    /\ LoadState disk' New name = (s, Ok tt).
Proof.
  eexists. split; [reflexivity|]. unfold LoadState. rewrite lookup_insert_eq.
  destruct s as [[u fr sz nm] bl bs]. unfold merge_map. cbn.
  destruct u, bl; by rewrite ?map_union_empty.
Qed.

(** [CreateVolume] does not clear the file table: on an instance that
    already has a file, every block of that file is also on the new free list,
    and the next file created shares a block with it. *)
Theorem CreateVolume_keeps_files : exists s f g,
  s = (CreateFile (CreateVolume small_fs "w" 16384).1 "b" 10).1
  /\ map_get (Blocks s) "a" = Some f /\ map_get (Blocks s) "b" = Some g
  /\ FileBlocks f = [0] /\ FileBlocks g = [0].
Proof. eexists _, _, _. split; [reflexivity|]. vm_compute. repeat split. Qed.

(** The block count of [CreateFile] wraps around: a file of [2^64 - 1]
    bytes is created with no blocks at all. *)
Theorem CreateFile_size_wraps : CreateFile small_fs "big" (2 ^ 64 - 1) =
  (with_table small_fs
     (Some (<["big" := mkSimpleBlock "big" (2 ^ 64 - 1) []]> (default ∅ (Blocks small_fs)))), Ok []).
Proof. vm_compute. reflexivity. Qed.
