(* ===== verification/BlockMap.v ===== *)
(** * The block-to-object map (viperblock.go: BlockLookup, BlocksToObject)

    Extents keyed by their first block, lookup through an extent, insertion
    with fracture of what it overwrites, the chunk reference counts kept
    beside it, and the merge of a flat one-record-per-block map into extents. *)

From S2P Require Import Prelude Words.

(** ** Data *)

Record BlockLookup := mkBL {
  bl_SeqNums : list Z;
  bl_StartBlock : Z;
  bl_ObjectID : Z;
  bl_SeqNum : Z;
  bl_ObjectOffset : Z;
  bl_NumBlocks : Z
}.

#[global] Instance BlockLookup_eq_dec : EqDecision BlockLookup.
Proof. solve_decision. Defined.

(** [BlockLookup{}], the zero value. *)
Definition BL0 : BlockLookup := mkBL [] 0 0 0 0 0.

(** ** Operations on one extent *)

Definition bl_end (bl : BlockLookup) : Z := u64 (bl_StartBlock bl + bl_NumBlocks bl).

Definition seqNumAt (bl : BlockLookup) (i : Z) : Z :=
  if (0 <=? i) && (i <? Z.of_nat (length (bl_SeqNums bl)))
  then default 0 (bl_SeqNums bl !! Z.to_nat i)
  else bl_SeqNum bl.

Definition offsetAt (bl : BlockLookup) (i stride : Z) : Z :=
  u32 (bl_ObjectOffset bl + u32 (SafeIntToUint32 i * stride)).

Definition sliceSeqNums (bl : BlockLookup) (from to : Z) : list Z :=
  if to <=? from then [] else seqNumAt bl <$> seqZ from (to - from).

Definition expandBlockLookup (bl : BlockLookup) (stride : Z) : list BlockLookup :=
  (fun i => mkBL [] (u64 (bl_StartBlock bl + i)) (bl_ObjectID bl) (seqNumAt bl i)
              (offsetAt bl i stride) 1) <$> seqZ 0 (bl_NumBlocks bl).

(** ** Lookup *)

Definition covers_after (block : Z) (bl : BlockLookup) : bool :=
  (bl_StartBlock bl <? block) && (block <? bl_end bl).

(** The containment scan visits the extents in an arbitrary order (a Go map
    range); [order] is that order. *)
Definition resolve_in (order : list BlockLookup) (m : gmap Z BlockLookup) (block : Z)
    : option (BlockLookup * Z) :=
  match m !! block with
  | Some bl => Some (bl, 0)
  | None =>
      match List.find (covers_after block) order with
      | Some bl => Some (bl, SafeUint64ToInt (u64 (block - bl_StartBlock bl)))
      | None => None
      end
  end.

Definition resolveBlockLookup (m : gmap Z BlockLookup) (block : Z) :=
  resolve_in (map_to_list m).*2 m block.

(** [LookupBlockToObject]: the object, offset and SeqNum of a block;
    [None] is [ErrZeroBlock]. *)
Definition LookupBlockToObject (stride : Z) (m : gmap Z BlockLookup) (block : Z)
    : option (Z * Z * Z) :=
  match resolveBlockLookup m block with
  | Some (bl, pos) => Some (bl_ObjectID bl, offsetAt bl pos stride, seqNumAt bl pos)
  | None => None
  end.

(** ** Insertion *)

(** [gcRefcount] is [None] when chunk GC is disabled. *)
Abbreviation refcount := (option (gmap Z Z)).

Definition rc_dec (rc : refcount) (id : Z) : refcount :=
  match rc with
  | None => None
  | Some g => let n := default 0 (g !! id) in
              Some (if 0 <? n then <[id := n - 1]> g else g)
  end.

Definition rc_inc (rc : refcount) (id : Z) : refcount :=
  match rc with
  | None => None
  | Some g => Some (<[id := u64 (default 0 (g !! id) + 1)]> g)
  end.

Definition head_of (existing : BlockLookup) (newStart : Z) : BlockLookup :=
  let headLen := SafeUint64ToInt (u64 (newStart - bl_StartBlock existing)) in
  mkBL (sliceSeqNums existing 0 headLen) (bl_StartBlock existing) (bl_ObjectID existing)
       (seqNumAt existing 0) (bl_ObjectOffset existing) (SafeIntToUint16 headLen).

Definition tail_of (existing : BlockLookup) (newEnd stride : Z) : BlockLookup :=
  let tailOffset := SafeUint64ToInt (u64 (newEnd - bl_StartBlock existing)) in
  let tailLen := SafeUint64ToInt (u64 (bl_end existing - newEnd)) in
  mkBL (sliceSeqNums existing tailOffset (tailOffset + tailLen)) newEnd
       (bl_ObjectID existing) (seqNumAt existing tailOffset)
       (offsetAt existing tailOffset stride) (SafeIntToUint16 tailLen).

Definition put_entry (st : gmap Z BlockLookup * refcount) (bl : BlockLookup) :=
  (<[bl_StartBlock bl := bl]> st.1, rc_inc st.2 (bl_ObjectID bl)).

(** One iteration of the fracture loop, for key [k]. *)
Definition fracture_step (new : BlockLookup) (stride : Z)
    (st : gmap Z BlockLookup * refcount) (k : Z) : gmap Z BlockLookup * refcount :=
  match st.1 !! k with
  | None => st
  | Some existing =>
      let newStart := bl_StartBlock new in
      let newEnd := bl_end new in
      let exStart := bl_StartBlock existing in
      let exEnd := bl_end existing in
      if (exEnd <=? newStart) || (newEnd <=? exStart) then st
      else
        let st1 := (delete k st.1, rc_dec st.2 (bl_ObjectID existing)) in
        let st2 := if exStart <? newStart
                   then put_entry st1 (head_of existing newStart) else st1 in
        if newEnd <? exEnd then put_entry st2 (tail_of existing newEnd stride) else st2
  end.

(** The keys are snapshotted in an arbitrary order before the loop. *)
Definition insert_over (keys : list Z) (new : BlockLookup) (stride : Z)
    (st : gmap Z BlockLookup * refcount) : gmap Z BlockLookup * refcount :=
  put_entry (fold_left (fracture_step new stride) keys st) new.

Definition insertCoalescedLocked (new : BlockLookup) (stride : Z)
    (st : gmap Z BlockLookup * refcount) : gmap Z BlockLookup * refcount :=
  insert_over (map_to_list st.1).*1 new stride st.

(** ** Coalescing a flat map *)

Definition adjacent (stride : Z) (first prev cand : BlockLookup) : bool :=
  (bl_StartBlock cand =? u64 (bl_StartBlock prev + 1)) &&
  (bl_ObjectID cand =? bl_ObjectID first) &&
  (bl_ObjectOffset cand =? u32 (bl_ObjectOffset prev + stride)).

Definition merged (first : BlockLookup) (seqNums : list Z) : BlockLookup :=
  mkBL seqNums (bl_StartBlock first) (bl_ObjectID first) (bl_SeqNum first)
       (bl_ObjectOffset first) (SafeIntToUint16 (Z.of_nat (length seqNums))).

Fixpoint coalesce_from (stride : Z) (first prev : BlockLookup) (seqNums : list Z)
    (rest : list BlockLookup) (out : gmap Z BlockLookup) : gmap Z BlockLookup :=
  match rest with
  | [] => <[bl_StartBlock first := merged first seqNums]> out
  | cand :: rest' =>
      if adjacent stride first prev cand
      then coalesce_from stride first cand (seqNums ++ [bl_SeqNum cand]) rest' out
      else coalesce_from stride cand cand [bl_SeqNum cand] rest'
             (<[bl_StartBlock first := merged first seqNums]> out)
  end.

Definition sorted_entries (flat : gmap Z BlockLookup) : list BlockLookup :=
  (fun k => default BL0 (flat !! k)) <$> merge_sort Z.le (map_to_list flat).*1.

Definition coalesceBlockLookup (flat : gmap Z BlockLookup) (stride : Z)
    : gmap Z BlockLookup :=
  match sorted_entries flat with
  | [] => ∅
  | first :: rest => coalesce_from stride first first [bl_SeqNum first] rest ∅
  end.

(** ** Well-formedness *)

(** An extent that fits its chunk and the integer widths, with one SeqNum per
    block (a single-block extent may leave [SeqNums] unset). *)
Record bl_wf (stride : Z) (bl : BlockLookup) : Prop := {
  blw_start : 0 <= bl_StartBlock bl;
  blw_num : 1 <= bl_NumBlocks bl <= MaxUint16;
  blw_end : bl_StartBlock bl + bl_NumBlocks bl < 2 ^ 64;
  blw_off : 0 <= bl_ObjectOffset bl;
  blw_bytes : bl_ObjectOffset bl + bl_NumBlocks bl * stride < 2 ^ 32;
  blw_seqs : Z.of_nat (length (bl_SeqNums bl)) = bl_NumBlocks bl
             \/ (bl_SeqNums bl = [] /\ bl_NumBlocks bl = 1);
  blw_seq : bl_SeqNum bl = seqNumAt bl 0
}.

Definition bl_disjoint (a b : BlockLookup) : Prop :=
  bl_StartBlock a + bl_NumBlocks a <= bl_StartBlock b
  \/ bl_StartBlock b + bl_NumBlocks b <= bl_StartBlock a.

(** The invariant of [BlocksToObject]: extents are keyed by their first block,
    well formed, and pairwise disjoint. *)
Record map_wf (stride : Z) (m : gmap Z BlockLookup) : Prop := {
  mw_key : forall k bl, m !! k = Some bl -> bl_StartBlock bl = k;
  mw_wf : forall k bl, m !! k = Some bl -> bl_wf stride bl;
  mw_disj : forall k1 k2 b1 b2, m !! k1 = Some b1 -> m !! k2 = Some b2 ->
            k1 <> k2 -> bl_disjoint b1 b2
}.

Definition covers (bl : BlockLookup) (b : Z) : Prop :=
  bl_StartBlock bl <= b < bl_StartBlock bl + bl_NumBlocks bl.

(** The location of the block at position [i] of an extent. *)
Definition loc_at (stride : Z) (bl : BlockLookup) (i : Z) : Z * Z * Z :=
  (bl_ObjectID bl, offsetAt bl i stride, seqNumAt bl i).

(** Specification of lookup: some extent of the map covers the block. *)
Definition locates (stride : Z) (m : gmap Z BlockLookup) (b : Z) (l : Z * Z * Z) : Prop :=
  exists k bl, m !! k = Some bl /\ covers bl b /\ l = loc_at stride bl (b - bl_StartBlock bl).

(** ** One extent *)

Section extent.
Context (stride : Z) (Hstride : 0 < stride).

Lemma bl_end_wf bl : bl_wf stride bl -> bl_end bl = bl_StartBlock bl + bl_NumBlocks bl.
Proof. intros []. unfold bl_end. apply u64_small. unfold_widths. lia. Qed.

Lemma offsetAt_wf bl i :
  bl_wf stride bl -> 0 <= i < bl_NumBlocks bl ->
  offsetAt bl i stride = bl_ObjectOffset bl + i * stride.
Proof.
  intros [] Hi. unfold offsetAt.
  assert (i <= i * stride < bl_NumBlocks bl * stride) by nia.
  unfold_widths.
  rewrite SafeIntToUint32_small by wsolve. unwrap. lia.
Qed.

Lemma length_sliceSeqNums bl from to :
  from <= to -> Z.of_nat (length (sliceSeqNums bl from to)) = to - from.
Proof.
  intros. unfold sliceSeqNums. zcase; [assert (from = to) as -> by lia; simpl; lia|].
  rewrite length_fmap, length_seqZ. lia.
Qed.

Lemma lookup_sliceSeqNums bl from to i :
  0 <= i < to - from ->
  sliceSeqNums bl from to !! Z.to_nat i = Some (seqNumAt bl (from + i)).
Proof.
  intros. unfold sliceSeqNums. zcase; [lia|].
  rewrite list_lookup_fmap, lookup_seqZ_lt by lia. simpl. do 2 f_equal. lia.
Qed.

(** A run cut out of an extent keeps each block's SeqNum. *)
Lemma seqNumAt_slice bl from to start id sn off num i :
  0 <= i < to - from ->
  seqNumAt (mkBL (sliceSeqNums bl from to) start id sn off num) i = seqNumAt bl (from + i).
Proof.
  intros. unfold seqNumAt at 1. cbn [bl_SeqNums].
  rewrite length_sliceSeqNums by lia.
  destruct (Z.leb_spec 0 i), (Z.ltb_spec i (to - from)); try lia.
  cbn [andb]. by rewrite lookup_sliceSeqNums by lia.
Qed.

Lemma covers_pos bl b : bl_wf stride bl -> covers bl b -> 0 <= b - bl_StartBlock bl < bl_NumBlocks bl.
Proof. unfold covers. lia. Qed.

(** *** The surviving head and tail *)

Section fracture.
Context (ex : BlockLookup) (Hex : bl_wf stride ex).

Section head.
Context (ns : Z) (Hns : bl_StartBlock ex < ns < bl_StartBlock ex + bl_NumBlocks ex).

Lemma head_len : SafeUint64ToInt (u64 (ns - bl_StartBlock ex)) = ns - bl_StartBlock ex.
Proof. destruct Hex. unfold_widths. unwrap. apply SafeUint64ToInt_small. wsolve. Qed.

Lemma head_fields :
  bl_StartBlock (head_of ex ns) = bl_StartBlock ex /\
  bl_NumBlocks (head_of ex ns) = ns - bl_StartBlock ex /\
  bl_ObjectID (head_of ex ns) = bl_ObjectID ex /\
  bl_ObjectOffset (head_of ex ns) = bl_ObjectOffset ex.
Proof.
  destruct Hex. unfold_widths. unfold head_of. rewrite head_len. cbn.
  rewrite SafeIntToUint16_small by wsolve. done.
Qed.

Lemma head_seqNumAt i :
  0 <= i < ns - bl_StartBlock ex -> seqNumAt (head_of ex ns) i = seqNumAt ex i.
Proof.
  intros. unfold head_of. rewrite head_len, seqNumAt_slice by lia. done.
Qed.

Lemma head_wf : bl_wf stride (head_of ex ns).
Proof.
  destruct head_fields as (Hs & Hn & Hid & Ho).
  assert (seqNumAt (head_of ex ns) 0 = seqNumAt ex 0) as H0 by (apply head_seqNumAt; lia).
  destruct Hex. unfold_widths. constructor; rewrite ?Hs, ?Hn, ?Ho; try wsolve; try nia.
  - left. unfold head_of. rewrite head_len. cbn.
    rewrite length_sliceSeqNums by lia. lia.
  - rewrite H0. done.
Qed.

Lemma head_loc i :
  0 <= i < ns - bl_StartBlock ex -> loc_at stride (head_of ex ns) i = loc_at stride ex i.
Proof.
  intros. destruct head_fields as (Hs & Hn & Hid & Ho).
  unfold loc_at. rewrite Hid, head_seqNumAt by lia.
  rewrite !offsetAt_wf by (first [exact head_wf | exact Hex | lia]).
  by rewrite Ho.
Qed.
End head.

Section tail.
Context (ne : Z) (Hne : bl_StartBlock ex < ne < bl_StartBlock ex + bl_NumBlocks ex).

Lemma tail_lens :
  SafeUint64ToInt (u64 (ne - bl_StartBlock ex)) = ne - bl_StartBlock ex /\
  SafeUint64ToInt (u64 (bl_end ex - ne)) = bl_StartBlock ex + bl_NumBlocks ex - ne.
Proof.
  rewrite bl_end_wf by done. destruct Hex. unfold_widths.
  split; unwrap; apply SafeUint64ToInt_small; wsolve.
Qed.

Lemma tail_fields :
  bl_StartBlock (tail_of ex ne stride) = ne /\
  bl_NumBlocks (tail_of ex ne stride) = bl_StartBlock ex + bl_NumBlocks ex - ne /\
  bl_ObjectID (tail_of ex ne stride) = bl_ObjectID ex /\
  bl_ObjectOffset (tail_of ex ne stride) = bl_ObjectOffset ex + (ne - bl_StartBlock ex) * stride.
Proof.
  destruct tail_lens as [H1 H2]. unfold tail_of. rewrite H1, H2. cbn.
  rewrite offsetAt_wf by (first [done | lia]).
  destruct Hex. unfold_widths. rewrite SafeIntToUint16_small by wsolve. done.
Qed.

Lemma tail_seqNumAt i :
  0 <= i < bl_StartBlock ex + bl_NumBlocks ex - ne ->
  seqNumAt (tail_of ex ne stride) i = seqNumAt ex (ne - bl_StartBlock ex + i).
Proof.
  intros. destruct tail_lens as [H1 H2]. unfold tail_of. rewrite H1, H2.
  apply seqNumAt_slice. lia.
Qed.

Lemma tail_wf : bl_wf stride (tail_of ex ne stride).
Proof.
  destruct tail_fields as (Hs & Hn & Hid & Ho).
  pose proof (tail_seqNumAt 0 ltac:(lia)) as H0.
  destruct tail_lens as [H1 H2].
  destruct Hex. unfold_widths. constructor; rewrite ?Hs, ?Hn, ?Ho; try wsolve; try nia.
  - left. unfold tail_of. rewrite H1, H2. cbn.
    rewrite length_sliceSeqNums by lia. lia.
  - rewrite H0. unfold tail_of. rewrite H1. cbn. f_equal. lia.
Qed.

Lemma tail_loc i :
  0 <= i < bl_StartBlock ex + bl_NumBlocks ex - ne ->
  loc_at stride (tail_of ex ne stride) i = loc_at stride ex (ne - bl_StartBlock ex + i).
Proof.
  intros. destruct tail_fields as (Hs & Hn & Hid & Ho).
  unfold loc_at. rewrite Hid, tail_seqNumAt by lia.
  rewrite !offsetAt_wf by (first [exact tail_wf | exact Hex | lia]).
  rewrite Ho. f_equal. f_equal. lia.
Qed.
End tail.
End fracture.
End extent.

(** ** Lookup *)

Section lookup.
Context (stride : Z) (Hstride : 0 < stride).

Lemma covers_inj m k1 k2 b1 b2 b :
  map_wf stride m -> m !! k1 = Some b1 -> m !! k2 = Some b2 ->
  covers b1 b -> covers b2 b -> k1 = k2 /\ b1 = b2.
Proof.
  intros Hm H1 H2 C1 C2.
  destruct (decide (k1 = k2)) as [->|Hne]; [split; congruence|].
  pose proof (mw_disj _ _ Hm _ _ _ _ H1 H2 Hne) as D.
  unfold covers, bl_disjoint in *. lia.
Qed.

Lemma locates_inj m b l1 l2 :
  map_wf stride m -> locates stride m b l1 -> locates stride m b l2 -> l1 = l2.
Proof.
  intros Hm (k1 & b1 & H1 & C1 & ->) (k2 & b2 & H2 & C2 & ->).
  destruct (covers_inj m k1 k2 b1 b2 b) as [_ ->]; auto.
Qed.

Lemma covers_after_spec bl b :
  bl_wf stride bl -> b <> bl_StartBlock bl -> covers_after b bl = true <-> covers bl b.
Proof.
  intros Hw Hb. unfold covers_after, covers. rewrite (bl_end_wf stride) by done.
  rewrite andb_true_iff, Z.ltb_lt, Z.ltb_lt. lia.
Qed.

(** Any visiting order of the containment scan finds the covering extent. *)
Lemma resolve_in_spec order m b bl i :
  map_wf stride m -> (forall e, e ∈ order <-> exists k, m !! k = Some e) ->
  resolve_in order m b = Some (bl, i) <->
  m !! bl_StartBlock bl = Some bl /\ covers bl b /\ i = b - bl_StartBlock bl.
Proof.
  intros Hm Hord. unfold resolve_in.
  assert (forall k e, m !! k = Some e -> covers e b ->
    SafeUint64ToInt (u64 (b - bl_StartBlock e)) = b - bl_StartBlock e) as Hpos.
  { intros k e He Hc. destruct (mw_wf _ _ Hm _ _ He). unfold covers in *. unfold_widths.
    unwrap. apply SafeUint64ToInt_small. wsolve. }
  destruct (m !! b) as [e|] eqn:Eb.
  - pose proof (mw_key _ _ Hm _ _ Eb) as Hk. pose proof (mw_wf _ _ Hm _ _ Eb) as [].
    assert (covers e b) as Hc by (unfold covers; lia).
    split.
    + intros [= <- <-]. rewrite Hk. repeat split; [done|unfold covers in *; lia..].
    + intros (He & Hcov & ->). destruct (covers_inj m b _ e bl b Hm Eb He Hc Hcov) as [_ ->].
      do 2 f_equal. lia.
  - destruct (List.find (covers_after b) order) as [e|] eqn:Ef.
    + apply List.find_some in Ef as [Hin Hc]. apply list_elem_of_In, Hord in Hin as [k He].
      pose proof (mw_key _ _ Hm _ _ He) as Hk. pose proof (mw_wf _ _ Hm _ _ He) as Hw.
      assert (b <> bl_StartBlock e) by (intros ->; congruence).
      apply covers_after_spec in Hc; [|done..]. rewrite (Hpos k e He Hc).
      split.
      * intros [= <- <-]. rewrite Hk. done.
      * intros (He' & Hcov & ->). by destruct (covers_inj m k _ e bl b Hm He He' Hc Hcov) as [_ ->].
    + split; [done|]. intros (He & Hcov & ->). exfalso.
      assert (covers_after b bl = true) as Hc.
      { apply covers_after_spec; [by eapply mw_wf|intros ->; congruence|done]. }
      eapply List.find_none in Ef; [|apply list_elem_of_In, Hord; eauto]. congruence.
Qed.

Lemma map_order_spec (m : gmap Z BlockLookup) e :
  e ∈ (map_to_list m).*2 <-> exists k, m !! k = Some e.
Proof.
  rewrite list_elem_of_fmap. split.
  - intros ([k e'] & -> & H). apply elem_of_map_to_list in H. eauto.
  - intros [k H]. exists (k, e). by rewrite elem_of_map_to_list.
Qed.

Lemma resolve_spec m b bl i :
  map_wf stride m ->
  resolveBlockLookup m b = Some (bl, i) <->
  m !! bl_StartBlock bl = Some bl /\ covers bl b /\ i = b - bl_StartBlock bl.
Proof. intros. apply resolve_in_spec; [done|apply map_order_spec]. Qed.

Lemma lookup_locates m b l :
  map_wf stride m -> LookupBlockToObject stride m b = Some l <-> locates stride m b l.
Proof.
  intros Hm. unfold LookupBlockToObject, locates. split.
  - destruct (resolveBlockLookup m b) as [[bl i]|] eqn:E; [|done].
    apply resolve_spec in E as (He & Hc & ->); [|done].
    intros [= <-]. by exists (bl_StartBlock bl), bl.
  - intros (k & bl & He & Hc & ->).
    pose proof (mw_key _ _ Hm _ _ He) as <-.
    assert (resolveBlockLookup m b = Some (bl, b - bl_StartBlock bl)) as ->
      by (apply resolve_spec; auto). done.
Qed.

Lemma lookup_none m b :
  map_wf stride m ->
  LookupBlockToObject stride m b = None <-> (forall l, ~ locates stride m b l).
Proof.
  intros Hm. split.
  - intros H l Hl. apply lookup_locates in Hl; [congruence|done].
  - intros H. destruct (LookupBlockToObject stride m b) as [l|] eqn:E; [|done].
    apply lookup_locates in E; [|done]. by apply H in E.
Qed.

(** Lookup through equal locations. *)
Lemma lookup_ext m1 m2 b1 b2 :
  map_wf stride m1 -> map_wf stride m2 ->
  (forall l, locates stride m1 b1 l <-> locates stride m2 b2 l) ->
  LookupBlockToObject stride m1 b1 = LookupBlockToObject stride m2 b2.
Proof.
  intros H1 H2 H. apply option_eq. intros l. rewrite !lookup_locates by done. apply H.
Qed.

(** *** Adding an extent that overlaps nothing *)

Lemma locates_insert_fresh m bl b l :
  (forall k e, m !! k = Some e -> bl_disjoint e bl) -> 1 <= bl_NumBlocks bl ->
  (forall k e, m !! k = Some e -> bl_StartBlock e = k /\ bl_wf stride e) ->
  locates stride (<[bl_StartBlock bl := bl]> m) b l <->
  (covers bl b /\ l = loc_at stride bl (b - bl_StartBlock bl)) \/ locates stride m b l.
Proof.
  intros Hd Hn Hw. unfold locates. split.
  - intros (k & e & He & Hc & ->). apply lookup_insert_Some in He as [[<- <-]|[Hk He]].
    + by left.
    + right. eauto.
  - intros [[Hc ->]|(k & e & He & Hc & ->)].
    + exists (bl_StartBlock bl), bl. by rewrite lookup_insert_eq.
    + exists k, e. rewrite lookup_insert_ne; [done|]. intros <-.
      apply Hw in He as Hwe. destruct Hwe as [Hk []]. apply Hd in He.
      unfold bl_disjoint, MaxUint16 in *. lia.
Qed.

Lemma map_wf_insert_fresh m bl :
  map_wf stride m -> bl_wf stride bl ->
  (forall k e, m !! k = Some e -> bl_disjoint e bl) ->
  map_wf stride (<[bl_StartBlock bl := bl]> m).
Proof.
  intros Hm Hb Hd. constructor.
  - intros k e [[<- <-]|[_ He]]%lookup_insert_Some; [done|by eapply mw_key].
  - intros k e [[<- <-]|[_ He]]%lookup_insert_Some; [done|by eapply mw_wf].
  - intros k1 k2 b1 b2 [[<- <-]|[N1 H1]]%lookup_insert_Some
      [[<- <-]|[N2 H2]]%lookup_insert_Some Hne.
    + done.
    + apply Hd in H2. unfold bl_disjoint in *. lia.
    + by apply Hd in H1.
    + by eapply (mw_disj _ _ Hm).
Qed.

Lemma map_wf_delete m k : map_wf stride m -> map_wf stride (delete k m).
Proof.
  intros Hm. constructor.
  - intros j e [_ He]%lookup_delete_Some. by eapply mw_key.
  - intros j e [_ He]%lookup_delete_Some. by eapply mw_wf.
  - intros k1 k2 b1 b2 [_ H1]%lookup_delete_Some [_ H2]%lookup_delete_Some.
    by eapply (mw_disj _ _ Hm).
Qed.

Lemma map_wf_empty : map_wf stride ∅.
Proof. constructor; intros *; rewrite lookup_empty; done. Qed.

Lemma locates_delete m k ex b l :
  map_wf stride m -> m !! k = Some ex ->
  locates stride (delete k m) b l <-> locates stride m b l /\ ~ covers ex b.
Proof.
  intros Hm Hk. unfold locates. split.
  - intros (j & e & [Hj He]%lookup_delete_Some & Hc & ->). split; [eauto|].
    intros Hc'. destruct (covers_inj m j k e ex b) as [-> _]; done.
  - intros [(j & e & He & Hc & ->) Hn]. exists j, e. split; [|done].
    apply lookup_delete_Some. split; [|done]. intros ->. congruence.
Qed.
End lookup.

(** *** Adding several extents that overlap nothing *)

Section put_all.
Context (stride : Z) (Hstride : 0 < stride).

Lemma put_all_map ps st :
  map_wf stride st.1 -> Forall (bl_wf stride) ps -> List.ForallOrdPairs bl_disjoint ps ->
  (forall k e p, st.1 !! k = Some e -> p ∈ ps -> bl_disjoint e p) ->
  let m' := (fold_left put_entry ps st).1 in
  map_wf stride m' /\
  (forall j e, m' !! j = Some e -> st.1 !! j = Some e \/ e ∈ ps) /\
  (forall b l, locates stride m' b l <-> locates stride st.1 b l \/
     exists p, p ∈ ps /\ covers p b /\ l = loc_at stride p (b - bl_StartBlock p)).
Proof.
  revert st. induction ps as [|p ps IH]; intros st Hm Hw Hp Hd; cbn [fold_left].
  { split; [done|]. split; [auto|]. intros b l. set_solver. }
  apply Forall_cons in Hw as [Hpw Hw]. inversion Hp as [|? ? Hhd Htl]; subst.
  assert (forall k e, st.1 !! k = Some e -> bl_disjoint e p) as Hdp by (intros; eapply Hd; set_solver).
  destruct (IH (put_entry st p)) as (W & K & L); cbn; [by apply map_wf_insert_fresh|done..| |].
  { intros k e q [[<- <-]|[_ He]]%lookup_insert_Some Hq; [|eapply Hd; set_solver].
    eapply List.Forall_forall in Hhd; [done|]. by apply list_elem_of_In. }
  cbn in K, L. split; [done|]. split.
  - intros j e He. destruct (K j e He) as [[[<- <-]|[_ H]]%lookup_insert_Some|H]; set_solver.
  - intros b l. rewrite L, (locates_insert_fresh stride).
    + set_solver.
    + done.
    + done.
    + destruct Hpw. lia.
    + intros k e He. split; [exact (mw_key _ _ Hm _ _ He)|exact (mw_wf _ _ Hm _ _ He)].
Qed.
End put_all.

(** ** One step of the fracture loop *)

(** What survives of [ex] when [new] is written over it. *)
Definition survivors (stride : Z) (new ex : BlockLookup) : list BlockLookup :=
  (if bl_StartBlock ex <? bl_StartBlock new then [head_of ex (bl_StartBlock new)] else []) ++
  (if bl_end new <? bl_end ex then [tail_of ex (bl_end new) stride] else []).

Section step.
Context (stride : Z) (Hstride : 0 < stride) (new : BlockLookup) (Hnew : bl_wf stride new).

Lemma overlap_test e :
  bl_wf stride e ->
  (bl_end e <=? bl_StartBlock new) || (bl_end new <=? bl_StartBlock e) = true
  <-> bl_disjoint e new.
Proof.
  intros. rewrite !(bl_end_wf stride) by done. unfold bl_disjoint.
  rewrite orb_true_iff, !Z.leb_le. done.
Qed.

(** The loop body replaces an overlapping extent by its survivors. *)
Lemma fracture_step_eq m rc k :
  map_wf stride m ->
  fracture_step new stride (m, rc) k =
  match m !! k with
  | Some ex => if decide (bl_disjoint ex new) then (m, rc)
               else fold_left put_entry (survivors stride new ex)
                      (delete k m, rc_dec rc (bl_ObjectID ex))
  | None => (m, rc)
  end.
Proof.
  intros Hm. unfold fracture_step. cbn [fst snd]. destruct (m !! k) as [ex|] eqn:Ek; [|done].
  pose proof (overlap_test ex (mw_wf _ _ Hm _ _ Ek)) as Ht. destruct (_ || _).
  - rewrite decide_True; [done|by apply Ht].
  - rewrite decide_False; [|intros H; apply Ht in H; done]. unfold survivors.
    destruct (_ <? _), (_ <? _); done.
Qed.

Section one.
Context (ex : BlockLookup) (Hex : bl_wf stride ex) (Hov : ~ bl_disjoint ex new).

Lemma overlap_bounds :
  bl_StartBlock ex < bl_StartBlock new + bl_NumBlocks new /\
  bl_StartBlock new < bl_StartBlock ex + bl_NumBlocks ex /\
  0 < bl_NumBlocks new /\ 0 < bl_NumBlocks ex.
Proof. destruct Hnew, Hex. unfold bl_disjoint in Hov. lia. Qed.

(** Each survivor is well formed, lies inside [ex] and outside [new], and
    keeps the chunk and the location of its blocks. *)
Lemma survivor_spec p :
  p ∈ survivors stride new ex ->
  bl_wf stride p /\ bl_disjoint p new /\ bl_ObjectID p = bl_ObjectID ex /\
  (forall b, covers p b -> covers ex b /\
     loc_at stride p (b - bl_StartBlock p) = loc_at stride ex (b - bl_StartBlock ex)).
Proof.
  pose proof overlap_bounds as Hb. unfold survivors. rewrite !(bl_end_wf stride) by done.
  intros [Hp|Hp]%elem_of_app.
  - destruct (Z.ltb_spec (bl_StartBlock ex) (bl_StartBlock new)); [|set_solver].
    apply list_elem_of_singleton in Hp as ->.
    destruct (head_fields stride ex Hex (bl_StartBlock new) ltac:(lia)) as (Hs & Hn & Hid & Ho).
    split; [by apply head_wf; [..|lia]|]. unfold bl_disjoint, covers. rewrite Hs, Hn.
    split; [lia|]. split; [done|]. intros b Hc. split; [lia|].
    apply head_loc; [done..|lia|lia].
  - destruct (Z.ltb_spec (bl_StartBlock new + bl_NumBlocks new) (bl_StartBlock ex + bl_NumBlocks ex));
      [|set_solver].
    apply list_elem_of_singleton in Hp as ->.
    set (ne := bl_StartBlock new + bl_NumBlocks new) in *.
    destruct (tail_fields stride Hstride ex Hex ne ltac:(lia)) as (Hs & Hn & Hid & Ho).
    split; [by apply tail_wf; [..|lia]|]. unfold bl_disjoint, covers. rewrite Hs, Hn.
    split; [lia|]. split; [done|]. intros b Hc. split; [lia|].
    rewrite tail_loc by (first [done|lia]). f_equal. lia.
Qed.

Lemma survivors_cover b :
  covers ex b -> ~ covers new b -> exists p, p ∈ survivors stride new ex /\ covers p b.
Proof.
  pose proof overlap_bounds as Hb. unfold survivors. rewrite !(bl_end_wf stride) by done.
  unfold covers at 1 2. intros Hc Hn.
  destruct (decide (b < bl_StartBlock new)) as [Hlt|Hge].
  - destruct (Z.ltb_spec (bl_StartBlock ex) (bl_StartBlock new)); [|lia].
    exists (head_of ex (bl_StartBlock new)). split; [set_solver|].
    destruct (head_fields stride ex Hex (bl_StartBlock new) ltac:(lia)) as (Hs & Hnn & _ & _).
    unfold covers. lia.
  - destruct (Z.ltb_spec (bl_StartBlock new + bl_NumBlocks new) (bl_StartBlock ex + bl_NumBlocks ex));
      [|lia].
    exists (tail_of ex (bl_StartBlock new + bl_NumBlocks new) stride). split; [set_solver|].
    destruct (tail_fields stride Hstride ex Hex (bl_StartBlock new + bl_NumBlocks new) ltac:(lia))
      as (Hs & Hnn & _ & _).
    unfold covers. lia.
Qed.

Lemma survivors_disjoint : List.ForallOrdPairs bl_disjoint (survivors stride new ex).
Proof.
  pose proof overlap_bounds as Hb. unfold survivors. rewrite !(bl_end_wf stride) by done.
  destruct (Z.ltb_spec (bl_StartBlock ex) (bl_StartBlock new)),
    (Z.ltb_spec (bl_StartBlock new + bl_NumBlocks new) (bl_StartBlock ex + bl_NumBlocks ex));
    cbn; repeat constructor.
  destruct (head_fields stride ex Hex (bl_StartBlock new) ltac:(lia)) as (Hs & Hn & _ & _).
  destruct (tail_fields stride Hstride ex Hex (bl_StartBlock new + bl_NumBlocks new) ltac:(lia))
    as (Hs' & Hn' & _ & _).
  lia.
Qed.
End one.

(** The survivors overlap no other extent of the map. *)
Lemma survivors_fresh m k ex :
  map_wf stride m -> m !! k = Some ex -> ~ bl_disjoint ex new ->
  forall j e p, delete k m !! j = Some e -> p ∈ survivors stride new ex -> bl_disjoint e p.
Proof.
  intros Hm Ek Hov j e p [Hj He]%lookup_delete_Some Hp.
  pose proof (mw_disj _ _ Hm _ _ _ _ Ek He Hj) as D.
  destruct (survivor_spec ex (mw_wf _ _ Hm _ _ Ek) Hov p Hp) as ([] & _ & _ & Hin).
  pose proof (Hin (bl_StartBlock p) ltac:(unfold covers; lia)) as [H1 _].
  pose proof (Hin (bl_StartBlock p + bl_NumBlocks p - 1) ltac:(unfold covers; lia)) as [H2 _].
  unfold covers, bl_disjoint in *. lia.
Qed.

(** What one iteration does to the map: the visited extent no longer overlaps
    the new range, the others are untouched, and blocks outside the new range
    keep their location. *)
Lemma fracture_step_map m rc k :
  map_wf stride m ->
  let m' := (fracture_step new stride (m, rc) k).1 in
  map_wf stride m' /\
  (forall j e, m' !! j = Some e -> bl_disjoint e new \/ (j <> k /\ m !! j = Some e)) /\
  (forall b l, ~ covers new b -> locates stride m' b l <-> locates stride m b l).
Proof.
  intros Hm m'. unfold m'. rewrite fracture_step_eq by done.
  destruct (m !! k) as [ex|] eqn:Ek.
  2: { split; [done|]. split; [|done]. intros j e He. right. split; [|done]. intros ->. cbn in He. congruence. }
  destruct (decide (bl_disjoint ex new)) as [Hd|Hov].
  { split; [done|]. split; [|done]. intros j e He.
    destruct (decide (j = k)) as [->|]; [left; cbn in He; congruence|auto]. }
  pose proof (mw_wf _ _ Hm _ _ Ek) as Hex.
  pose proof (survivor_spec ex Hex Hov) as Hs.
  destruct (put_all_map stride Hstride (survivors stride new ex)
    (delete k m, rc_dec rc (bl_ObjectID ex))) as (W & K & L).
  - by apply map_wf_delete.
  - apply Forall_forall. intros p Hp. by apply Hs.
  - by apply survivors_disjoint.
  - cbn. by apply survivors_fresh.
  - cbn in K, L. split; [done|]. split.
    + intros j e He. destruct (K j e He) as [[Hj He']%lookup_delete_Some|Hp]; [auto|].
      left. by apply Hs.
    + intros b l Hb. rewrite L, (locates_delete stride m k ex) by done. split.
      * intros [[Hl _]|(p & Hp & Hc & ->)]; [done|].
        destruct (Hs p Hp) as (_ & _ & _ & Hin). destruct (Hin b Hc) as [Hc' ->].
        by exists k, ex.
      * intros Hl. destruct (decide (bl_StartBlock ex <= b < bl_StartBlock ex + bl_NumBlocks ex)) as [Hc|Hc]; [right|by left].
        destruct (survivors_cover ex Hex Hov b Hc Hb) as (p & Hp & Hcp).
        exists p. split; [done|]. split; [done|].
        destruct (Hs p Hp) as (_ & _ & _ & Hin). destruct (Hin b Hcp) as [_ ->].
        assert (locates stride m b (loc_at stride ex (b - bl_StartBlock ex))) by (by exists k, ex).
        eauto using locates_inj.
Qed.
End step.

(** ** The whole insertion *)

Section insertion.
Context (stride : Z) (Hstride : 0 < stride) (new : BlockLookup) (Hnew : bl_wf stride new).

(** The loop over any key list that contains the key of every overlapping
    extent leaves no overlap. *)
Lemma fracture_all keys st :
  map_wf stride st.1 -> (forall j e, st.1 !! j = Some e -> bl_disjoint e new \/ j ∈ keys) ->
  let m' := (fold_left (fracture_step new stride) keys st).1 in
  map_wf stride m' /\
  (forall j e, m' !! j = Some e -> bl_disjoint e new) /\
  (forall b l, ~ covers new b -> locates stride m' b l <-> locates stride st.1 b l).
Proof.
  revert st. induction keys as [|k keys IH]; intros [m rc] Hm Hk; cbn [fold_left fst] in *.
  { split; [done|]. split; [|done]. intros j e He. destruct (Hk j e He); [done|set_solver]. }
  destruct (fracture_step_map stride Hstride new Hnew m rc k Hm) as (W & K & L).
  destruct (IH (fracture_step new stride (m, rc) k)) as (W' & K' & L'); [done| |].
  { intros j e He. destruct (K j e He) as [?|[Hne He']]; [by left|].
    destruct (Hk j e He') as [?|?]; [by left|]. right. set_solver. }
  split; [done|]. split; [done|]. intros b l Hb. rewrite L', L by done. done.
Qed.

Lemma insert_over_wf keys m rc :
  map_wf stride m -> (forall j, is_Some (m !! j) -> j ∈ keys) ->
  map_wf stride (insert_over keys new stride (m, rc)).1 /\
  (forall b l, locates stride (insert_over keys new stride (m, rc)).1 b l <->
     (covers new b /\ l = loc_at stride new (b - bl_StartBlock new)) \/
     (~ covers new b /\ locates stride m b l)).
Proof.
  intros Hm Hk.
  destruct (fracture_all keys (m, rc) Hm) as (W & D & L).
  { intros j e He. right. apply Hk. cbn in He. eauto. }
  cbn [fst] in L. unfold insert_over, put_entry. cbn [fst].
  split; [by apply map_wf_insert_fresh|]. intros b l.
  rewrite (locates_insert_fresh stride Hstride); [|done|destruct Hnew; lia|].
  2: { intros k e He. split; [exact (mw_key _ _ W _ _ He)|exact (mw_wf _ _ W _ _ He)]. }
  split; [|intros [?|[Hb Hl]]; [by left|right; by apply L]].
  intros [?|Hl]; [by left|right].
  assert (~ covers new b) as Hb; [|split; [done|by apply L]].
  destruct Hl as (k & e & He & Hc & _). apply D in He.
  unfold covers, bl_disjoint in *. lia.
Qed.
End insertion.

(** ** Reference counts *)

(** How many extents of the map live in chunk [id]. *)
Definition chunk_refs (m : gmap Z BlockLookup) (id : Z) : Z :=
  Z.of_nat (size (filter (fun kv : Z * BlockLookup => bl_ObjectID kv.2 = id) m)).

(** [gcRefcount] agrees with the map. *)
Definition rc_exact (g : gmap Z Z) (m : gmap Z BlockLookup) : Prop :=
  forall id, default 0 (g !! id) = chunk_refs m id.

Section refcounts.

Lemma chunk_refs_insert m k e id :
  m !! k = None ->
  chunk_refs (<[k := e]> m) id = chunk_refs m id + (if decide (bl_ObjectID e = id) then 1 else 0).
Proof.
  intros Hk. unfold chunk_refs. rewrite map_filter_insert. cbn [snd]. destruct (decide _).
  - rewrite map_size_insert_None; [lia|]. apply map_lookup_filter_None_2. auto.
  - rewrite (delete_id m) by done. lia.
Qed.

Lemma chunk_refs_delete m k e id :
  m !! k = Some e ->
  chunk_refs (delete k m) id = chunk_refs m id - (if decide (bl_ObjectID e = id) then 1 else 0).
Proof.
  intros Hk. pose proof (chunk_refs_insert (delete k m) k e id (lookup_delete_eq _ _)) as H.
  rewrite insert_delete_id in H by done. lia.
Qed.

Lemma chunk_refs_bound m id : 0 <= chunk_refs m id <= Z.of_nat (size m).
Proof.
  unfold chunk_refs. split; [lia|]. apply inj_le, map_subseteq_size, map_filter_subseteq.
Qed.

Lemma chunk_refs_pos m k e : m !! k = Some e -> 0 < chunk_refs m (bl_ObjectID e).
Proof.
  intros Hk. pose proof (chunk_refs_delete m k e (bl_ObjectID e) Hk) as H.
  rewrite decide_True in H by done. pose proof (chunk_refs_bound (delete k m) (bl_ObjectID e)). lia.
Qed.

Lemma chunk_refs_none m id : (forall k e, m !! k = Some e -> bl_ObjectID e <> id) -> chunk_refs m id = 0.
Proof.
  intros H. unfold chunk_refs.
  assert (filter (fun kv : Z * BlockLookup => bl_ObjectID kv.2 = id) m = ∅) as ->; [|by rewrite map_size_empty].
  apply map_empty. intros k. apply map_lookup_filter_None_2. right. intros e Hk. by apply (H k).
Qed.

Lemma rc_exact_delete g m k e :
  rc_exact g m -> m !! k = Some e ->
  exists g', rc_dec (Some g) (bl_ObjectID e) = Some g' /\ rc_exact g' (delete k m).
Proof.
  intros Hx Hk. unfold rc_dec. rewrite Hx. pose proof (chunk_refs_pos m k e Hk).
  destruct (Z.ltb_spec 0 (chunk_refs m (bl_ObjectID e))); [|lia].
  eexists. split; [done|]. intros id. rewrite (chunk_refs_delete m k e id Hk), lookup_insert.
  destruct (decide (bl_ObjectID e = id)) as [->|]; simpl; [lia|]. rewrite Hx. lia.
Qed.

(** Disjoint extents have different first blocks: fewer than 2^64 of them. *)
Lemma keys_below (m : gmap Z BlockLookup) n :
  (forall k e, m !! k = Some e -> 0 <= k < n) -> Z.of_nat (size m) <= Z.max 0 n.
Proof.
  intros H. rewrite <-(size_dom (D := gset Z)).
  assert (dom m ⊆@{gset Z} list_to_set (seqZ 0 n)) as Hs%subseteq_size.
  { intros k [e He]%elem_of_dom. apply elem_of_list_to_set, elem_of_seqZ. specialize (H k e He). lia. }
  rewrite size_list_to_set, length_seqZ in Hs by apply NoDup_seqZ. lia.
Qed.

Lemma map_wf_size stride m : map_wf stride m -> Z.of_nat (size m) < 2 ^ 64.
Proof.
  intros Hm. pose proof (keys_below m (2 ^ 64 - 1)) as H. rewrite Z.max_r in H by lia.
  assert (Z.of_nat (size m) <= 2 ^ 64 - 1); [|lia]. apply H. intros k e Hk.
  rewrite <-(mw_key _ _ Hm _ _ Hk). destruct (mw_wf _ _ Hm _ _ Hk). lia.
Qed.

Lemma rc_exact_put g m k e :
  rc_exact g m -> m !! k = None -> Z.of_nat (size m) + 1 < 2 ^ 64 ->
  exists g', rc_inc (Some g) (bl_ObjectID e) = Some g' /\ rc_exact g' (<[k := e]> m).
Proof.
  intros Hx Hk Hsz. unfold rc_inc. eexists. split; [done|]. intros id.
  rewrite (chunk_refs_insert m k e id Hk), lookup_insert.
  destruct (decide (bl_ObjectID e = id)) as [->|]; simpl; [|rewrite Hx; lia].
  rewrite Hx. pose proof (chunk_refs_bound m id). unwrap. done.
Qed.

Lemma rc_exact_insert stride g m k e :
  rc_exact g m -> m !! k = None -> map_wf stride (<[k := e]> m) ->
  exists g', rc_inc (Some g) (bl_ObjectID e) = Some g' /\ rc_exact g' (<[k := e]> m).
Proof.
  intros Hx Hk Hsz%map_wf_size. rewrite map_size_insert_None in Hsz by done.
  apply rc_exact_put; [done..|lia].
Qed.

Lemma put_all_refs stride ps m g :
  0 < stride ->
  map_wf stride m -> Forall (bl_wf stride) ps -> List.ForallOrdPairs bl_disjoint ps ->
  (forall k e p, m !! k = Some e -> p ∈ ps -> bl_disjoint e p) -> rc_exact g m ->
  exists m' g', fold_left put_entry ps (m, Some g) = (m', Some g') /\ rc_exact g' m'.
Proof.
  intros Hst. revert m g. induction ps as [|p ps IH]; intros m g Hm Hw Hp Hd Hx; cbn [fold_left].
  { by exists m, g. }
  apply Forall_cons in Hw as [Hpw Hw]. inversion Hp as [|? ? Hhd Htl]; subst.
  assert (m !! bl_StartBlock p = None) as Hnone.
  { destruct (m !! bl_StartBlock p) as [e|] eqn:E; [|done]. exfalso.
    pose proof (Hd _ _ p E ltac:(set_solver)) as D. pose proof (mw_key _ _ Hm _ _ E).
    destruct (mw_wf _ _ Hm _ _ E), Hpw. unfold bl_disjoint in D. lia. }
  assert (map_wf stride (<[bl_StartBlock p := p]> m)) as Hm'.
  { apply map_wf_insert_fresh; [done..|]. intros. eapply Hd; set_solver. }
  destruct (rc_exact_insert stride g m (bl_StartBlock p) p Hx Hnone Hm') as (g1 & Hg1 & Hx1).
  assert (put_entry (m, Some g) p = (<[bl_StartBlock p := p]> m, Some g1)) as ->
    by (unfold put_entry; cbn [fst snd]; by rewrite Hg1).
  apply IH; try done.
  intros k e q [[<- <-]|[_ He]]%lookup_insert_Some Hq; [|eapply Hd; set_solver].
  eapply List.Forall_forall in Hhd; [done|]. by apply list_elem_of_In.
Qed.
End refcounts.

Section insertion_refs.
Context (stride : Z) (Hstride : 0 < stride) (new : BlockLookup) (Hnew : bl_wf stride new).

Lemma fracture_step_refs m g k :
  map_wf stride m -> rc_exact g m ->
  exists m' g', fracture_step new stride (m, Some g) k = (m', Some g') /\ rc_exact g' m'.
Proof.
  intros Hm Hx. rewrite (fracture_step_eq stride new Hnew) by done.
  destruct (m !! k) as [ex|] eqn:Ek; [|by exists m, g].
  destruct (decide (bl_disjoint ex new)) as [|Hov]; [by exists m, g|].
  destruct (rc_exact_delete g m k ex Hx Ek) as (g1 & -> & Hx1).
  pose proof (mw_wf _ _ Hm _ _ Ek) as Hex.
  pose proof (survivor_spec stride Hstride new Hnew ex Hex Hov) as Hs.
  apply (put_all_refs stride); [done|by apply map_wf_delete| |by apply survivors_disjoint|by apply survivors_fresh|done].
  apply Forall_forall. intros p Hp. by apply Hs.
Qed.

Lemma fracture_all_refs keys m g :
  map_wf stride m -> rc_exact g m ->
  exists m' g', fold_left (fracture_step new stride) keys (m, Some g) = (m', Some g') /\ rc_exact g' m'.
Proof.
  revert m g. induction keys as [|k keys IH]; intros m g Hm Hx; cbn [fold_left].
  { by exists m, g. }
  destruct (fracture_step_refs m g k Hm Hx) as (m1 & g1 & E & Hx1).
  pose proof (fracture_step_map stride Hstride new Hnew m (Some g) k Hm) as (W & _ & _).
  rewrite E in *. cbn [fst] in W. by apply IH.
Qed.
End insertion_refs.
