(* ===== verification/Extents.v ===== *)
(** * Theorems on the block map

    Insertion against its specification, exactness of the chunk reference
    counts, and the round trip between extents and the flat
    one-record-per-block form of the checkpoints. *)

From S2P Require Import Prelude Words BlockMap.

(** ** Coalescing *)

(** A flat map decoded from checkpoint records: keyed by block, offsets that
    fit the widths, and chunks of at most 65535 strides. *)
Definition rec_ok (stride : Z) (e : BlockLookup) : Prop :=
  0 <= bl_StartBlock e /\ bl_StartBlock e + 1 < 2 ^ 64 /\
  0 <= bl_ObjectOffset e /\ bl_ObjectOffset e + stride < 2 ^ 32 /\
  bl_ObjectOffset e < MaxUint16 * stride.

Definition flat_ok (stride : Z) (flat : gmap Z BlockLookup) : Prop :=
  forall k e, flat !! k = Some e -> bl_StartBlock e = k /\ rec_ok stride e.

(** The location a flat record gives its block. *)
Definition rec_loc (e : BlockLookup) : Z * Z * Z :=
  (bl_ObjectID e, bl_ObjectOffset e, bl_SeqNum e).

Definition start_lt (a b : BlockLookup) : Prop := bl_StartBlock a < bl_StartBlock b.

Section coalesce.
Context (stride : Z) (Hstride : 0 < stride).

(** The run under construction: [seqs] are the SeqNums of the blocks from
    [first] to [prev]. *)
Record run_ok (first prev : BlockLookup) (seqs : list Z) : Prop := {
  ro_len : 1 <= Z.of_nat (length seqs);
  ro_first : rec_ok stride first;
  ro_prev : rec_ok stride prev;
  ro_start : bl_StartBlock prev = bl_StartBlock first + Z.of_nat (length seqs) - 1;
  ro_off : bl_ObjectOffset prev = bl_ObjectOffset first + (Z.of_nat (length seqs) - 1) * stride;
  ro_seq : seqs !! 0%nat = Some (bl_SeqNum first)
}.

Lemma run_len first prev seqs :
  run_ok first prev seqs -> Z.of_nat (length seqs) <= MaxUint16.
Proof.
  intros [? (_ & _ & ? & _) (_ & _ & _ & _ & ?) _ Ho _]. unfold_widths. nia.
Qed.

Lemma merged_num first prev seqs :
  run_ok first prev seqs -> bl_NumBlocks (merged first seqs) = Z.of_nat (length seqs).
Proof.
  intros H. pose proof (run_len _ _ _ H). destruct H. cbn.
  apply SafeIntToUint16_small. wsolve.
Qed.

Lemma merged_wf first prev seqs :
  run_ok first prev seqs -> bl_wf stride (merged first seqs).
Proof.
  intros H. pose proof (run_len _ _ _ H) as Hl. pose proof (merged_num _ _ _ H) as Hn.
  destruct H as [? (? & ? & ? & ? & ?) (? & ? & ? & ? & ?) Hs Ho Hq].
  constructor; rewrite ?Hn; cbn [merged bl_StartBlock bl_ObjectOffset bl_SeqNums bl_SeqNum];
    try lia; try nia.
  unfold seqNumAt. cbn. destruct (Z.ltb_spec 0 (Z.of_nat (length seqs))); [|lia].
  change (Z.to_nat 0) with 0%nat. by rewrite Hq.
Qed.

Lemma merged_loc first prev seqs i s :
  run_ok first prev seqs -> 0 <= i < Z.of_nat (length seqs) -> seqs !! Z.to_nat i = Some s ->
  loc_at stride (merged first seqs) i =
  (bl_ObjectID first, bl_ObjectOffset first + i * stride, s).
Proof.
  intros H Hi Hs. pose proof (merged_wf _ _ _ H) as Hw. unfold loc_at.
  rewrite offsetAt_wf; [|done..|rewrite (merged_num first prev seqs) by done; lia].
  cbn [merged bl_ObjectID bl_ObjectOffset]. f_equal.
  unfold seqNumAt. cbn [merged bl_SeqNums].
  destruct (Z.leb_spec 0 i), (Z.ltb_spec i (Z.of_nat (length seqs))); try lia.
  cbn. by rewrite Hs.
Qed.

(** The blocks of the run under construction. *)
Definition run_loc (first : BlockLookup) (seqs : list Z) (b : Z) (l : Z * Z * Z) : Prop :=
  0 <= b - bl_StartBlock first < Z.of_nat (length seqs) /\
  exists s, seqs !! Z.to_nat (b - bl_StartBlock first) = Some s /\
  l = (bl_ObjectID first, bl_ObjectOffset first + (b - bl_StartBlock first) * stride, s).

Lemma run_loc_merged first prev seqs b l :
  run_ok first prev seqs ->
  run_loc first seqs b l <->
  covers (merged first seqs) b /\
  l = loc_at stride (merged first seqs) (b - bl_StartBlock (merged first seqs)).
Proof.
  intros H. unfold run_loc, covers. rewrite (merged_num _ _ _ H).
  change (bl_StartBlock (merged first seqs)) with (bl_StartBlock first). split.
  - intros (Hb & s & Hs & ->). split; [lia|]. symmetry. by eapply merged_loc.
  - intros [Hb ->]. split; [lia|].
    destruct (seqs !! Z.to_nat (b - bl_StartBlock first)) as [s|] eqn:Es.
    + exists s. split; [done|]. eapply merged_loc; [done|lia|done].
    + apply lookup_ge_None in Es. lia.
Qed.

Lemma run_extend first prev seqs cand :
  run_ok first prev seqs -> rec_ok stride cand -> adjacent stride first prev cand = true ->
  run_ok first cand (seqs ++ [bl_SeqNum cand]) /\
  (forall b l, run_loc first (seqs ++ [bl_SeqNum cand]) b l <->
     run_loc first seqs b l \/ (b = bl_StartBlock cand /\ l = rec_loc cand)).
Proof.
  intros H Hc Ha. unfold adjacent in Ha. rewrite !andb_true_iff, !Z.eqb_eq in Ha.
  destruct Ha as [[Ha1 Ha2] Ha3]. destruct H as [? Hf Hp Hs Ho Hq].
  destruct Hf as (? & ? & ? & ? & ?), Hp as (? & ? & ? & ? & ?).
  rewrite u64_small in Ha1 by wsolve. rewrite u32_small in Ha3 by wsolve.
  assert (Z.of_nat (length (seqs ++ [bl_SeqNum cand])) = Z.of_nat (length seqs) + 1) as Hl
    by (rewrite length_app; simpl; lia).
  split.
  - constructor; rewrite ?Hl; try done; try lia.
    rewrite lookup_app_l by lia. done.
  - intros b l. unfold run_loc. rewrite Hl. split.
    + intros (Hb & s & Hs' & ->).
      destruct (decide (b - bl_StartBlock first < Z.of_nat (length seqs))).
      * left. split; [lia|]. exists s. rewrite lookup_app_l in Hs' by lia. done.
      * right. assert (b = bl_StartBlock cand) as -> by lia.
        rewrite lookup_app_r in Hs' by lia.
        replace (Z.to_nat _ - length seqs)%nat with 0%nat in Hs' by lia.
        injection Hs' as <-. split; [done|]. unfold rec_loc. rewrite Ha2. do 2 f_equal. nia.
    + intros [(Hb & s & Hs' & ->)|[-> ->]].
      * split; [lia|]. exists s. rewrite lookup_app_l by lia. done.
      * split; [lia|]. exists (bl_SeqNum cand). rewrite lookup_app_r by lia.
        replace (Z.to_nat _ - length seqs)%nat with 0%nat by lia. split; [done|].
        unfold rec_loc. rewrite Ha2. do 2 f_equal. nia.
Qed.

Lemma run_start e : rec_ok stride e -> run_ok e e [bl_SeqNum e].
Proof. intros. constructor; cbn [length]; try done; lia. Qed.

Lemma run_start_loc e b l :
  run_loc e [bl_SeqNum e] b l <-> b = bl_StartBlock e /\ l = rec_loc e.
Proof.
  unfold run_loc, rec_loc. cbn [length]. split.
  - intros (Hb & s & Hs & ->). assert (b = bl_StartBlock e) as -> by lia.
    rewrite Z.sub_diag in *. injection Hs as <-. split; [done|]. do 2 f_equal. lia.
  - intros [-> ->]. rewrite Z.sub_diag. split; [lia|]. exists (bl_SeqNum e).
    split; [done|]. do 2 f_equal. lia.
Qed.

(** The loop: the result locates exactly the blocks of the finished extents,
    of the run under construction and of the records still to visit. *)
Lemma coalesce_from_spec rest first prev seqs out :
  run_ok first prev seqs -> map_wf stride out ->
  (forall k e, out !! k = Some e -> bl_StartBlock e + bl_NumBlocks e <= bl_StartBlock first) ->
  Forall (rec_ok stride) rest -> StronglySorted start_lt (prev :: rest) ->
  let res := coalesce_from stride first prev seqs rest out in
  map_wf stride res /\
  (forall b l, locates stride res b l <-> locates stride out b l \/ run_loc first seqs b l \/
     exists e, e ∈ rest /\ b = bl_StartBlock e /\ l = rec_loc e).
Proof.
  revert first prev seqs out.
  induction rest as [|cand rest IH]; intros first prev seqs out Hr Ho Hb Hrest Hsort;
    cbn [coalesce_from].
  - pose proof (merged_wf _ _ _ Hr) as Hw. change (bl_StartBlock first) with (bl_StartBlock (merged first seqs)).
    assert (forall k e, out !! k = Some e -> bl_disjoint e (merged first seqs)) as Hd
      by (intros k e He; left; apply Hb in He; done).
    split; [by apply map_wf_insert_fresh|]. intros b l.
    rewrite (locates_insert_fresh stride Hstride), (run_loc_merged first prev seqs) by
      (try done; first [destruct Hw; lia | intros k e He; split;
        [exact (mw_key _ _ Ho _ _ He)|exact (mw_wf _ _ Ho _ _ He)]]).
    set_solver.
  - apply Forall_cons in Hrest as [Hc Hrest].
    inversion Hsort as [|? ? Hsort' Hall]; subst. apply Forall_cons in Hall as [Hlt Hall].
    destruct (adjacent stride first prev cand) eqn:Ea.
    + destruct (run_extend _ _ _ _ Hr Hc Ea) as [Hr' Hl'].
      destruct (IH first cand (seqs ++ [bl_SeqNum cand]) out) as [W L]; [done..|].
      split; [done|]. intros b l. rewrite L, Hl'. set_solver.
    + pose proof (merged_wf _ _ _ Hr) as Hw. pose proof (merged_num _ _ _ Hr) as Hn.
      assert (forall k e, out !! k = Some e -> bl_disjoint e (merged first seqs)) as Hd
        by (intros k e He; left; apply Hb in He; done).
      change (bl_StartBlock first) with (bl_StartBlock (merged first seqs)).
      destruct (IH cand cand [bl_SeqNum cand] (<[bl_StartBlock (merged first seqs) := merged first seqs]> out))
        as [W L]; [by apply run_start|by apply map_wf_insert_fresh| |done|done|].
      { intros k e [[<- <-]|[_ He]]%lookup_insert_Some; unfold start_lt in Hlt.
        - rewrite Hn. cbn. destruct Hr. lia.
        - apply Hb in He. destruct Hr. lia. }
      split; [done|]. intros b l. rewrite L, run_start_loc.
      rewrite (locates_insert_fresh stride Hstride), (run_loc_merged first prev seqs) by
        (try done; first [destruct Hw; lia | intros k e He; split;
          [exact (mw_key _ _ Ho _ _ He)|exact (mw_wf _ _ Ho _ _ He)]]).
      set_solver.
Qed.

Lemma sorted_entries_elem flat e :
  flat_ok stride flat -> e ∈ sorted_entries flat <-> flat !! bl_StartBlock e = Some e.
Proof.
  intros Hf. unfold sorted_entries. rewrite list_elem_of_fmap. setoid_rewrite merge_sort_Permutation.
  split.
  - intros (k & -> & Hk). apply list_elem_of_fmap in Hk as ([k' e'] & -> & He).
    apply elem_of_map_to_list in He. cbn. rewrite He. cbn.
    destruct (Hf _ _ He) as [-> _]. done.
  - intros He. exists (bl_StartBlock e). rewrite He. split; [done|].
    apply list_elem_of_fmap. exists (bl_StartBlock e, e). by rewrite elem_of_map_to_list.
Qed.

Lemma sorted_entries_sorted flat :
  flat_ok stride flat -> StronglySorted start_lt (sorted_entries flat).
Proof.
  intros Hf. unfold sorted_entries.
  assert (StronglySorted Z.le (merge_sort Z.le (map_to_list flat).*1)) as Hs
    by (apply StronglySorted_merge_sort; apply _).
  assert (NoDup (merge_sort Z.le (map_to_list flat).*1)) as Hn
    by (rewrite merge_sort_Permutation; apply NoDup_fst_map_to_list).
  assert (forall k, k ∈ merge_sort Z.le (map_to_list flat).*1 -> is_Some (flat !! k)) as Hin.
  { intros k. rewrite merge_sort_Permutation. intros ([k' e] & -> & He)%list_elem_of_fmap.
    apply elem_of_map_to_list in He. eauto. }
  assert (forall k, k ∈ merge_sort Z.le (map_to_list flat).*1 ->
    bl_StartBlock (default BL0 (flat !! k)) = k) as Hst.
  { intros k [e He]%Hin. rewrite He. by apply Hf in He as [? _]. }
  clear Hin. induction Hs as [|k ks Hs IH Hall]; cbn; constructor.
  - apply NoDup_cons in Hn as [_ Hn]. apply IH; [done|]. set_solver.
  - apply NoDup_cons in Hn as [Hk Hn]. apply Forall_forall. intros e (k' & -> & Hk')%list_elem_of_fmap.
    unfold start_lt. rewrite !Hst by set_solver.
    rewrite Forall_forall in Hall. specialize (Hall _ Hk'). assert (k <> k') by set_solver. lia.
Qed.

Lemma coalesce_locates flat :
  flat_ok stride flat ->
  map_wf stride (coalesceBlockLookup flat stride) /\
  (forall b l, locates stride (coalesceBlockLookup flat stride) b l <->
     exists e, flat !! b = Some e /\ l = rec_loc e).
Proof.
  intros Hf. unfold coalesceBlockLookup.
  pose proof (sorted_entries_elem flat) as Hin. pose proof (sorted_entries_sorted flat Hf) as Hs.
  assert (forall b e, flat !! b = Some e <-> e ∈ sorted_entries flat /\ b = bl_StartBlock e) as Hflat.
  { intros b e. rewrite Hin by done. split.
    - intros He. destruct (Hf _ _ He) as [<- _]. done.
    - intros [He ->]. done. }
  destruct (sorted_entries flat) as [|first rest].
  { split; [apply map_wf_empty|]. intros b l. split.
    - intros (k & e & He & _). rewrite lookup_empty in He. done.
    - intros (e & [He _]%Hflat & _). set_solver. }
  assert (forall e, e ∈ first :: rest -> rec_ok stride e) as Hok.
  { intros e He%Hin; [|done]. by apply Hf in He as [_ ?]. }
  destruct (coalesce_from_spec rest first first [bl_SeqNum first] ∅) as [W L].
  - apply run_start, Hok. set_solver.
  - apply map_wf_empty.
  - intros k e He. rewrite lookup_empty in He. done.
  - apply Forall_forall. intros e He. apply Hok. set_solver.
  - done.
  - split; [done|]. intros b l. rewrite L, run_start_loc. split.
    + intros [(k & e & He & _)|[[-> ->]|(e & He & -> & ->)]].
      * rewrite lookup_empty in He. done.
      * exists first. rewrite Hflat. set_solver.
      * exists e. rewrite Hflat. set_solver.
    + intros (e & [He ->]%Hflat & ->). set_solver.
Qed.
End coalesce.

(** ** Expanding extents into flat records *)

(** The records of a checkpoint, in the order the extents are visited. *)
Definition expand_all (order : list BlockLookup) (stride : Z) : list BlockLookup :=
  List.concat ((fun bl => expandBlockLookup bl stride) <$> order).

(** Decoding: a later record for the same block replaces an earlier one. *)
Definition flat_of (recs : list BlockLookup) : gmap Z BlockLookup :=
  fold_left (fun f r => <[bl_StartBlock r := r]> f) recs ∅.

Section expand.
Context (stride : Z) (Hstride : 0 < stride).

(** The single-block record of block [b] of extent [bl]. *)
Definition rec_of (bl : BlockLookup) (b : Z) : BlockLookup :=
  mkBL [] b (bl_ObjectID bl) (seqNumAt bl (b - bl_StartBlock bl))
       (bl_ObjectOffset bl + (b - bl_StartBlock bl) * stride) 1.

Lemma rec_of_loc bl b :
  bl_wf stride bl -> covers bl b -> rec_loc (rec_of bl b) = loc_at stride bl (b - bl_StartBlock bl).
Proof.
  intros Hw Hc. unfold rec_loc, loc_at, rec_of. cbn.
  rewrite offsetAt_wf; [done|done..|unfold covers in Hc; lia].
Qed.

Lemma expand_elem bl e :
  bl_wf stride bl ->
  e ∈ expandBlockLookup bl stride <-> exists b, covers bl b /\ e = rec_of bl b.
Proof.
  intros Hw. unfold expandBlockLookup. rewrite list_elem_of_fmap. unfold covers, rec_of.
  assert (forall i, 0 <= i < bl_NumBlocks bl -> u64 (bl_StartBlock bl + i) = bl_StartBlock bl + i) as Hu.
  { intros i Hi. destruct Hw. unwrap. done. }
  split.
  - intros (i & -> & Hi%elem_of_seqZ). exists (bl_StartBlock bl + i). split; [lia|].
    rewrite Hu, offsetAt_wf by (try done; lia).
    replace (bl_StartBlock bl + i - bl_StartBlock bl) with i by lia. done.
  - intros (b & Hb & ->). exists (b - bl_StartBlock bl). split; [|apply elem_of_seqZ; lia].
    rewrite Hu, offsetAt_wf by (try done; lia). f_equal. lia.
Qed.

Lemma flat_of_snoc recs r : flat_of (recs ++ [r]) = <[bl_StartBlock r := r]> (flat_of recs).
Proof. unfold flat_of. by rewrite fold_left_app. Qed.

(** When the records are functional in the block number, the decoded map holds
    exactly them. *)
Lemma flat_of_lookup recs b e :
  (forall r1 r2, r1 ∈ recs -> r2 ∈ recs -> bl_StartBlock r1 = bl_StartBlock r2 -> r1 = r2) ->
  flat_of recs !! b = Some e <-> e ∈ recs /\ bl_StartBlock e = b.
Proof.
  induction recs as [|r recs IH] using rev_ind; intros Hf.
  { unfold flat_of. cbn. rewrite lookup_empty. set_solver. }
  rewrite flat_of_snoc, lookup_insert_Some, IH by (intros; apply Hf; set_solver).
  split.
  - intros [[<- <-]|[Hne [He <-]]]; set_solver.
  - intros [[He|He%list_elem_of_singleton]%elem_of_app <-].
    + destruct (decide (bl_StartBlock r = bl_StartBlock e)) as [Heq|]; [|auto].
      left. split; [done|]. apply Hf; set_solver.
    + subst. by left.
Qed.

(** Every chunk holds at most 65535 strides. *)
Definition chunks_small (m : gmap Z BlockLookup) : Prop :=
  forall k bl, m !! k = Some bl ->
    bl_ObjectOffset bl + (bl_NumBlocks bl - 1) * stride < MaxUint16 * stride.

Lemma expand_all_elem order m e :
  map_wf stride m -> (forall x, x ∈ order <-> exists k, m !! k = Some x) ->
  e ∈ expand_all order stride <->
  exists k bl, m !! k = Some bl /\ covers bl (bl_StartBlock e) /\ e = rec_of bl (bl_StartBlock e).
Proof.
  intros Hm Hord. unfold expand_all. rewrite list_elem_of_In, in_concat. split.
  - intros (l & Hl & He). apply list_elem_of_In in Hl, He.
    apply list_elem_of_fmap in Hl as (bl & -> & Hbl). apply Hord in Hbl as [k Hk].
    apply expand_elem in He as (b & Hb & ->); [|by eapply mw_wf]. by exists k, bl.
  - intros (k & bl & Hk & Hb & He). exists (expandBlockLookup bl stride).
    split; apply list_elem_of_In.
    + apply list_elem_of_fmap. exists bl. split; [done|]. apply Hord. eauto.
    + apply expand_elem; [by eapply mw_wf|]. eauto.
Qed.

Lemma flat_of_expand order m b e :
  map_wf stride m -> (forall x, x ∈ order <-> exists k, m !! k = Some x) ->
  flat_of (expand_all order stride) !! b = Some e <->
  exists k bl, m !! k = Some bl /\ covers bl b /\ e = rec_of bl b.
Proof.
  intros Hm Hord. rewrite flat_of_lookup.
  - rewrite (expand_all_elem order m) by done. split.
    + intros [(k & bl & Hk & Hb & He) <-]. eauto.
    + intros (k & bl & Hk & Hb & ->). cbn. eauto 10.
  - intros r1 r2 H1 H2 Heq. apply (expand_all_elem order m) in H1 as (k1 & b1 & Hk1 & Hc1 & ->), H2 as (k2 & b2 & Hk2 & Hc2 & ->); [|done..].
    cbn in Heq. rewrite Heq in *.
    destruct (covers_inj stride m k1 k2 b1 b2 (bl_StartBlock r2)) as [_ ->]; done.
Qed.

Lemma flat_of_expand_ok order m :
  map_wf stride m -> chunks_small m -> (forall x, x ∈ order <-> exists k, m !! k = Some x) ->
  flat_ok stride (flat_of (expand_all order stride)).
Proof.
  intros Hm Hsm Hord b e He. apply (flat_of_expand order m) in He as (k & bl & Hk & Hc & ->); [|done..].
  split; [done|]. destruct (mw_wf _ _ Hm _ _ Hk). specialize (Hsm _ _ Hk).
  unfold rec_ok, rec_of, covers in *. cbn. unfold_widths. repeat split; try lia; nia.
Qed.
End expand.

(** ** Deciding well-formedness on concrete maps *)

#[global] Instance bl_disjoint_dec a b : Decision (bl_disjoint a b).
Proof. unfold bl_disjoint. apply _. Defined.

Lemma bl_wf_iff stride bl :
  bl_wf stride bl <->
  (0 <= bl_StartBlock bl) /\ (1 <= bl_NumBlocks bl <= MaxUint16) /\
  (bl_StartBlock bl + bl_NumBlocks bl < 2 ^ 64) /\ (0 <= bl_ObjectOffset bl) /\
  (bl_ObjectOffset bl + bl_NumBlocks bl * stride < 2 ^ 32) /\
  (Z.of_nat (length (bl_SeqNums bl)) = bl_NumBlocks bl \/ (bl_SeqNums bl = [] /\ bl_NumBlocks bl = 1)) /\
  bl_SeqNum bl = seqNumAt bl 0.
Proof.
  split; [intros []; repeat split; try done; lia|].
  intros (? & ? & ? & ? & ? & ? & ?). by constructor.
Qed.

#[global] Instance bl_wf_dec stride bl : Decision (bl_wf stride bl).
Proof. exact (dec_iff (bl_wf_iff stride bl) _). Defined.

Lemma map_wf_iff stride m :
  map_wf stride m <->
  map_Forall (fun k bl => bl_StartBlock bl = k /\ bl_wf stride bl /\
    map_Forall (fun k2 b2 => k = k2 \/ bl_disjoint bl b2) m) m.
Proof.
  split.
  - intros Hm k bl Hk. split; [by eapply mw_key|]. split; [by eapply mw_wf|].
    intros k2 b2 H2. destruct (decide (k = k2)); [by left|right]. by eapply mw_disj.
  - intros H. constructor.
    + intros k bl Hk. by apply H in Hk as [? _].
    + intros k bl Hk. by apply H in Hk as (_ & ? & _).
    + intros k1 k2 b1 b2 H1 H2 Hne. apply H in H1 as (_ & _ & Hf). by destruct (Hf _ _ H2).
Qed.

#[global] Instance map_wf_dec stride m : Decision (map_wf stride m).
Proof. exact (dec_iff (map_wf_iff stride m) _). Defined.

(** ** The theorems *)

(** Insertion as an update of the lookup function. *)
Lemma insert_over_resolves stride new m rc keys :
  0 < stride -> bl_wf stride new -> map_wf stride m ->
  (forall j, is_Some (m !! j) -> j ∈ keys) ->
  map_wf stride (insert_over keys new stride (m, rc)).1 /\
  forall b, LookupBlockToObject stride (insert_over keys new stride (m, rc)).1 b =
    if (bl_StartBlock new <=? b) && (b <? bl_StartBlock new + bl_NumBlocks new)
    then Some (bl_ObjectID new, bl_ObjectOffset new + (b - bl_StartBlock new) * stride,
               seqNumAt new (b - bl_StartBlock new))
    else LookupBlockToObject stride m b.
Proof.
  intros Hst Hn Hm Hk. destruct (insert_over_wf stride Hst new Hn keys m rc Hm Hk) as [W L].
  split; [done|]. intros b. apply option_eq. intros l. rewrite lookup_locates, L by done.
  unfold covers. destruct (Z.leb_spec (bl_StartBlock new) b),
    (Z.ltb_spec b (bl_StartBlock new + bl_NumBlocks new)); cbn [andb].
  2-4: rewrite lookup_locates by done; intuition lia.
  unfold loc_at. rewrite offsetAt_wf by (try done; lia). intuition (congruence || lia).
Qed.

(** C9. Inserting an extent, whatever the order in which the existing extents
    are visited, keeps the map an index of disjoint well-formed extents, and a
    later lookup returns the new location for every block the extent covers
    and the previous answer for every other block. *)
Theorem insert_over_lookup stride new m rc keys :
  0 < stride -> bl_wf stride new -> map_wf stride m ->
  (forall j, is_Some (m !! j) -> j ∈ keys) ->
  map_wf stride (insert_over keys new stride (m, rc)).1 /\
  forall b, LookupBlockToObject stride (insert_over keys new stride (m, rc)).1 b =
    if (bl_StartBlock new <=? b) && (b <? bl_StartBlock new + bl_NumBlocks new)
    then Some (bl_ObjectID new, bl_ObjectOffset new + (b - bl_StartBlock new) * stride,
               seqNumAt new (b - bl_StartBlock new))
    else LookupBlockToObject stride m b.
Proof. apply insert_over_resolves. Qed.

Definition ex_old : gmap Z BlockLookup :=
  {[ 10 := mkBL [5;6;7;8;9;10] 10 3 5 10 6; 40 := mkBL [] 40 3 11 (10 + 6 * 4096) 1 ]}.
Definition ex_new : BlockLookup := mkBL [20; 21] 12 4 20 10 2.

Lemma insert_over_lookup_witness :
  map_wf 4096 ex_old /\
  LookupBlockToObject 4096 (insert_over [40; 10] ex_new 4096 (ex_old, None)).1 13 = Some (4, 4106, 21) /\
  LookupBlockToObject 4096 (insert_over [40; 10] ex_new 4096 (ex_old, None)).1 14
    = LookupBlockToObject 4096 ex_old 14.
Proof.
  assert (map_wf 4096 ex_old) as Hm by (apply (bool_decide_unpack _); vm_compute; exact I).
  split; [exact Hm|].
  destruct (insert_over_lookup 4096 ex_new ex_old None [40; 10]) as [_ H].
  - reflexivity.
  - apply (bool_decide_unpack _). vm_compute. exact I.
  - exact Hm.
  - intros j [e He]. unfold ex_old in He.
    rewrite lookup_insert_Some, lookup_singleton_Some in He. set_solver.
  - split; rewrite H; reflexivity.
Defined.

(** Insertion keeps exact reference counts exact. *)
Lemma insert_over_refs stride new m g keys :
  0 < stride -> bl_wf stride new -> map_wf stride m ->
  (forall j, is_Some (m !! j) -> j ∈ keys) -> rc_exact g m ->
  exists g', (insert_over keys new stride (m, Some g)).2 = Some g' /\
    rc_exact g' (insert_over keys new stride (m, Some g)).1.
Proof.
  intros Hst Hn Hm Hk Hx.
  destruct (fracture_all_refs stride Hst new Hn keys m g Hm Hx) as (m1 & g1 & E & Hx1).
  destruct (fracture_all stride Hst new Hn keys (m, Some g) Hm) as (W & D & _).
  { intros j e He. right. apply Hk. cbn in He. eauto. }
  unfold insert_over. rewrite E in *. cbn [fst] in *.
  assert (m1 !! bl_StartBlock new = None) as Hnone.
  { destruct (m1 !! bl_StartBlock new) as [e|] eqn:Ee; [|done]. exfalso.
    pose proof (D _ _ Ee) as Hd. pose proof (mw_key _ _ W _ _ Ee).
    destruct (mw_wf _ _ W _ _ Ee), Hn. unfold bl_disjoint in Hd. lia. }
  destruct (rc_exact_insert stride g1 m1 (bl_StartBlock new) new Hx1 Hnone) as (g' & Hg & Hx').
  { by apply map_wf_insert_fresh. }
  exists g'. unfold put_entry. cbn [fst snd]. by rewrite Hg.
Qed.

(** C22. The per-chunk reference counts stay exact through an insertion: if
    every chunk's count equals the number of extents that live in it, the same
    holds afterwards, however many extents the insertion removes or splits; the
    64-bit counters never wrap. *)
Theorem insert_over_refcount stride new m g keys :
  0 < stride -> bl_wf stride new -> map_wf stride m ->
  (forall j, is_Some (m !! j) -> j ∈ keys) -> rc_exact g m ->
  exists g', (insert_over keys new stride (m, Some g)).2 = Some g' /\
    rc_exact g' (insert_over keys new stride (m, Some g)).1.
Proof. apply insert_over_refs. Qed.

Lemma rc_exact_iff g m :
  rc_exact g m <->
  map_Forall (fun id n => n = chunk_refs m id) g /\
  map_Forall (fun _ bl => bl_ObjectID bl ∈ dom g) m.
Proof.
  split.
  - intros H. split.
    + intros id n Hn. specialize (H id). rewrite Hn in H. done.
    + intros k bl Hk. apply elem_of_dom. pose proof (chunk_refs_pos m k bl Hk) as Hp.
      specialize (H (bl_ObjectID bl)). destruct (g !! bl_ObjectID bl); [eauto|]. cbn in H. lia.
  - intros [H1 H2] id. destruct (g !! id) as [n|] eqn:E; [by apply H1 in E|]. cbn.
    symmetry. apply chunk_refs_none. intros k bl Hk Heq. apply H2 in Hk. rewrite Heq in Hk.
    apply elem_of_dom in Hk as [? ?]. congruence.
Qed.

#[global] Instance rc_exact_dec g m : Decision (rc_exact g m).
Proof. exact (dec_iff (rc_exact_iff g m) _). Defined.

Lemma insert_over_refcount_witness :
  rc_exact {[ 3 := 2 ]} ex_old /\
  exists g', (insert_over [10; 40] ex_new 4096 (ex_old, Some {[ 3 := 2 ]})).2 = Some g' /\
    rc_exact g' (insert_over [10; 40] ex_new 4096 (ex_old, Some {[ 3 := 2 ]})).1.
Proof.
  assert (rc_exact {[ 3 := 2 ]} ex_old) as Hx by (apply (bool_decide_unpack _); vm_compute; exact I).
  split; [exact Hx|].
  apply (insert_over_refcount 4096 ex_new ex_old {[ 3 := 2 ]} [10; 40]).
  - reflexivity.
  - apply (bool_decide_unpack _). vm_compute. exact I.
  - apply (bool_decide_unpack _). vm_compute. exact I.
  - intros j [e He]. unfold ex_old in He.
    rewrite lookup_insert_Some, lookup_singleton_Some in He. set_solver.
  - exact Hx.
Defined.

(** C23. Coalescing a decoded flat map loses nothing and invents nothing: a
    block resolves through the coalesced extents to exactly the object, offset
    and SeqNum its own record carries, and to nothing when it has no record. *)
Theorem coalesce_lookup stride flat :
  0 < stride -> flat_ok stride flat ->
  map_wf stride (coalesceBlockLookup flat stride) /\
  forall b, LookupBlockToObject stride (coalesceBlockLookup flat stride) b = rec_loc <$> flat !! b.
Proof.
  intros Hst Hf. destruct (coalesce_locates stride Hst flat Hf) as [W L]. split; [done|].
  intros b. apply option_eq. intros l. rewrite lookup_locates, L by done.
  destruct (flat !! b); cbn; naive_solver.
Qed.

Definition ex_flat : gmap Z BlockLookup :=
  {[ 7 := mkBL [] 7 2 30 10 1; 8 := mkBL [] 8 2 12 4106 1; 9 := mkBL [] 9 5 13 8202 1 ]}.

Lemma flat_ok_iff stride flat :
  flat_ok stride flat <-> map_Forall (fun k e => bl_StartBlock e = k /\ rec_ok stride e) flat.
Proof. done. Qed.

#[global] Instance rec_ok_dec stride e : Decision (rec_ok stride e).
Proof. unfold rec_ok. apply _. Defined.
#[global] Instance flat_ok_dec stride flat : Decision (flat_ok stride flat).
Proof. exact (dec_iff (flat_ok_iff stride flat) _). Defined.

Lemma coalesce_lookup_witness :
  flat_ok 4096 ex_flat /\ size (coalesceBlockLookup ex_flat 4096) = 2%nat /\
  LookupBlockToObject 4096 (coalesceBlockLookup ex_flat 4096) 8 = Some (2, 4106, 12).
Proof.
  assert (flat_ok 4096 ex_flat) as Hf by (apply (bool_decide_unpack _); vm_compute; exact I).
  split; [exact Hf|]. split; [vm_compute; reflexivity|].
  destruct (coalesce_lookup 4096 ex_flat eq_refl Hf) as [_ H]. rewrite H. reflexivity.
Defined.

(** Writing out the extents one record per block, in any order, and coalescing
    what is read back resolves every block as before. *)
Lemma expand_coalesce_lookup stride order m :
  0 < stride -> map_wf stride m -> chunks_small stride m ->
  (forall x, x ∈ order <-> exists k, m !! k = Some x) ->
  map_wf stride (coalesceBlockLookup (flat_of (expand_all order stride)) stride) /\
  forall b, LookupBlockToObject stride (coalesceBlockLookup (flat_of (expand_all order stride)) stride) b
    = LookupBlockToObject stride m b.
Proof.
  intros Hst Hm Hsm Hord.
  destruct (coalesce_locates stride Hst _ (flat_of_expand_ok stride Hst order m Hm Hsm Hord)) as [W L].
  split; [done|]. intros b. apply lookup_ext; [done..|]. intros l. rewrite L.
  setoid_rewrite (flat_of_expand stride Hst order m); [|done..]. split.
  - intros (e & (k & bl & Hk & Hc & ->) & ->). exists k, bl. split; [done|]. split; [done|].
    apply rec_of_loc; [done|exact (mw_wf _ _ Hm _ _ Hk)|done].
  - intros (k & bl & Hk & Hc & ->). exists (rec_of stride bl b). split; [by exists k, bl|].
    symmetry. apply rec_of_loc; [done|exact (mw_wf _ _ Hm _ _ Hk)|done].
Qed.
