(* ===== verification/BlockStore.v ===== *)
(** * The unified block store (blockstore.go)

    The sharded index of blocks that are in memory, the coalesced index of
    blocks that live in a chunk, and every operation on them. Locks are the
    granularity of the steps: each operation below is one critical section,
    except [MarkPersistedRange], whose three passes are separate definitions
    so that other operations can run between them (see [BlockStoreRace]). *)

From S2P Require Import Prelude Words BlockMap.

(** ** Data *)

Inductive BlockState :=
| BlockStateEmpty
| BlockStateHot
| BlockStatePending
| BlockStatePersisted
| BlockStateCached.

#[global] Instance BlockState_eq_dec : EqDecision BlockState.
Proof. solve_decision. Defined.

(** [BlockState.String] *)
Definition BlockState_String (s : BlockState) : string :=
  match s with
  | BlockStateEmpty => "Empty"
  | BlockStateHot => "Hot"
  | BlockStatePending => "Pending"
  | BlockStatePersisted => "Persisted"
  | BlockStateCached => "Cached"
  end.

Record BlockEntry := mkBE {
  be_Data : bytes;
  be_SeqNum : Z;
  be_ObjectID : Z;
  be_ObjectOffset : Z;
  be_State : BlockState
}.

(** [BlockEntry{}] *)
Definition BE0 : BlockEntry := mkBE [] 0 0 0 BlockStateEmpty.

Definition NumShards : Z := 16.
Definition ShardMask : Z := NumShards - 1.

Record persistedExtent := mkPE {
  pe_seqNums : list Z;
  pe_startBlock : Z;
  pe_objectID : Z;
  pe_objectOffset : Z;
  pe_stride : Z;
  pe_numBlocks : Z
}.

(** [persistedExtent{}] *)
Definition PE0 : persistedExtent := mkPE [] 0 0 0 0 0.

(** The monitoring counters. *)
Inductive Stat := StReads | StWrites | StCacheHits | StCacheMiss | StHotReads | StPendReads | StBackendReads.

#[global] Instance Stat_eq_dec : EqDecision Stat.
Proof. solve_decision. Defined.

Definition bump (k : Stat) (n : Z) (st : Stat -> Z) : Stat -> Z :=
  fun x => if decide (x = k) then u64 (st x + n) else st x.

Record UnifiedBlockStore := mkUBS {
  shards : list (gmap Z BlockEntry);
  blockSize : Z;
  ubs_seqNum : Z;
  persistedExtents : gmap Z persistedExtent;
  stats : Stat -> Z
}.

Definition set_shards (f : list (gmap Z BlockEntry) -> list (gmap Z BlockEntry)) (u : UnifiedBlockStore) :=
  mkUBS (f (shards u)) (blockSize u) (ubs_seqNum u) (persistedExtents u) (stats u).
Definition set_extents (e : gmap Z persistedExtent) (u : UnifiedBlockStore) :=
  mkUBS (shards u) (blockSize u) (ubs_seqNum u) e (stats u).
Definition count_stat (k : Stat) (n : Z) (u : UnifiedBlockStore) :=
  mkUBS (shards u) (blockSize u) (ubs_seqNum u) (persistedExtents u) (bump k n (stats u)).

Definition NewUnifiedBlockStore (bs : Z) : UnifiedBlockStore :=
  mkUBS (replicate (Z.to_nat NumShards) ∅) bs 0 ∅ (fun _ => 0).

(** ** The sharded index *)

(** [getShard]: the index of the shard of a block. *)
Definition getShard (blockNum : Z) : nat := Z.to_nat (Z.land blockNum ShardMask).

(** [shard.entries[blockNum]] *)
Definition get_entry (u : UnifiedBlockStore) (blockNum : Z) : option BlockEntry :=
  match shards u !! getShard blockNum with
  | Some sh => sh !! blockNum
  | None => None
  end.
Definition put_block (blockNum : Z) (e : BlockEntry) (u : UnifiedBlockStore) : UnifiedBlockStore :=
  set_shards (alter (fun sh => <[blockNum := e]> sh) (getShard blockNum)) u.
Definition del_block (blockNum : Z) (u : UnifiedBlockStore) : UnifiedBlockStore :=
  set_shards (alter (fun sh => delete blockNum sh) (getShard blockNum)) u.

(** ** The persisted-extent index *)

Definition pe_end (pe : persistedExtent) : Z := u64 (pe_startBlock pe + pe_numBlocks pe).

Definition pe_seqNumAt (pe : persistedExtent) (i : Z) : Z :=
  if i <? Z.of_nat (length (pe_seqNums pe)) then default 0 (pe_seqNums pe !! Z.to_nat i) else 0.

Definition pe_offsetAt (pe : persistedExtent) (i : Z) : Z :=
  u32 (pe_objectOffset pe + u32 (i * pe_stride pe)).

Definition pe_covers_after (blockNum : Z) (pe : persistedExtent) : bool :=
  (pe_startBlock pe <? blockNum) && (blockNum <? pe_end pe).

Definition findPersistedExtentLocked (exts : gmap Z persistedExtent) (blockNum : Z)
    : option persistedExtent :=
  match exts !! blockNum with
  | Some pe => Some pe
  | None => List.find (pe_covers_after blockNum) (map_to_list exts).*2
  end.

Definition readPersisted (exts : gmap Z persistedExtent) (blockNum : Z) : option BlockEntry :=
  match findPersistedExtentLocked exts blockNum with
  | None => None
  | Some pe =>
      let idx := u16 (u64 (blockNum - pe_startBlock pe)) in
      Some (mkBE [] (pe_seqNumAt pe idx) (pe_objectID pe) (pe_offsetAt pe idx) BlockStatePersisted)
  end.

Definition pe_head (existing : persistedExtent) (newStart : Z) : persistedExtent :=
  let headNum := u64 (newStart - pe_startBlock existing) in
  mkPE (take (Z.to_nat headNum) (pe_seqNums existing)) (pe_startBlock existing)
       (pe_objectID existing) (pe_objectOffset existing) (pe_stride existing) (u16 headNum).

Definition pe_tail (existing : persistedExtent) (newEnd : Z) : persistedExtent :=
  let tailOffsetBlocks := u64 (newEnd - pe_startBlock existing) in
  let tailNum := u64 (pe_end existing - newEnd) in
  mkPE (drop (Z.to_nat tailOffsetBlocks) (pe_seqNums existing)) newEnd
       (pe_objectID existing) (pe_offsetAt existing (u16 tailOffsetBlocks))
       (pe_stride existing) (u16 tailNum).

(** One iteration of the fracture loop; a missing key reads as the zero extent. *)
Definition pe_fracture_step (newStart newEnd : Z) (exts : gmap Z persistedExtent) (key : Z)
    : gmap Z persistedExtent :=
  let existing := default PE0 (exts !! key) in
  let exStart := pe_startBlock existing in
  let exEnd := pe_end existing in
  if (exEnd <=? newStart) || (newEnd <=? exStart) then exts
  else
    let e1 := delete key exts in
    let e2 := if exStart <? newStart
              then <[exStart := pe_head existing newStart]> e1 else e1 in
    if newEnd <? exEnd then <[newEnd := pe_tail existing newEnd]> e2 else e2.

Definition fractureOverlapsLocked (newStart newNum : Z) (exts : gmap Z persistedExtent)
    : gmap Z persistedExtent :=
  fold_left (pe_fracture_step newStart (u64 (newStart + newNum))) (map_to_list exts).*1 exts.

(** ** Reads *)

Definition ReadBlock (u : UnifiedBlockStore) (blockNum : Z) : option BlockEntry * UnifiedBlockStore :=
  let u1 := count_stat StReads 1 u in
  match get_entry u blockNum with
  | Some e => (Some e, u1)
  | None => (readPersisted (persistedExtents u) blockNum, u1)
  end.

(** [ReadSingle]: data and state, or [ErrZeroBlock] ([None]). *)
Definition ReadSingle (u : UnifiedBlockStore) (blockNum : Z)
    : option (bytes * BlockState) * UnifiedBlockStore :=
  let u1 := count_stat StReads 1 u in
  match get_entry u blockNum with
  | None =>
      match readPersisted (persistedExtents u) blockNum with
      | Some _ => (Some ([], BlockStatePersisted), count_stat StBackendReads 1 u1)
      | None => (None, count_stat StCacheMiss 1 u1)
      end
  | Some e =>
      match be_State e with
      | BlockStateHot => (Some (be_Data e, be_State e), count_stat StHotReads 1 u1)
      | BlockStatePending => (Some (be_Data e, be_State e), count_stat StPendReads 1 u1)
      | BlockStateCached => (Some (be_Data e, be_State e), count_stat StCacheHits 1 u1)
      | BlockStatePersisted => (Some ([], BlockStatePersisted), count_stat StBackendReads 1 u1)
      | BlockStateEmpty => (None, count_stat StCacheMiss 1 u1)
      end
  end.

(** [ReadEntry]: one snapshot of state, data and location. *)
Definition ReadEntry (u : UnifiedBlockStore) (blockNum : Z)
    : option BlockEntry * UnifiedBlockStore :=
  let u1 := count_stat StReads 1 u in
  match get_entry u blockNum with
  | None =>
      match readPersisted (persistedExtents u) blockNum with
      | Some pe => (Some pe, count_stat StBackendReads 1 u1)
      | None => (None, count_stat StCacheMiss 1 u1)
      end
  | Some e =>
      let k := match be_State e with
               | BlockStateHot => StHotReads
               | BlockStatePending => StPendReads
               | BlockStateCached => StCacheHits
               | BlockStatePersisted => StBackendReads
               | BlockStateEmpty => StCacheMiss
               end in
      (Some e, count_stat k 1 u1)
  end.

(** ** Writes *)

Definition WriteWithSeqNum (blockNum : Z) (data : bytes) (seqNum : Z) (u : UnifiedBlockStore)
    : UnifiedBlockStore :=
  let entry := default BE0 (get_entry u blockNum) in
  put_block blockNum
    (if be_SeqNum entry <? seqNum then mkBE data seqNum 0 0 BlockStateHot else entry) u.

Definition Write (blockNum : Z) (data : bytes) (u : UnifiedBlockStore) : Z * UnifiedBlockStore :=
  let seqNum := u64 (ubs_seqNum u + 1) in
  let u1 := mkUBS (shards u) (blockSize u) seqNum (persistedExtents u) (stats u) in
  (seqNum, count_stat StWrites 1 (WriteWithSeqNum blockNum data seqNum u1)).

Definition MarkPending (blockNum : Z) (u : UnifiedBlockStore) : bool * UnifiedBlockStore :=
  match get_entry u blockNum with
  | None => (false, u)
  | Some e =>
      if decide (be_State e = BlockStateHot)
      then (true, put_block blockNum
              (mkBE (be_Data e) (be_SeqNum e) (be_ObjectID e) (be_ObjectOffset e) BlockStatePending) u)
      else (false, u)
  end.

(** The guard shared by [MarkPersisted] and [MarkPersistedRange]: still
    Pending, and still the write that was sealed. *)
Definition is_sealed (u : UnifiedBlockStore) (blockNum seqNum : Z) : bool :=
  match get_entry u blockNum with
  | None => false
  | Some e => bool_decide (be_State e = BlockStatePending) && (be_SeqNum e =? seqNum)
  end.

Definition MarkPersisted (blockNum objectID offset seqNum : Z) (u : UnifiedBlockStore)
    : bool * UnifiedBlockStore :=
  if is_sealed u blockNum seqNum
  then (true, put_block blockNum (mkBE [] seqNum objectID offset BlockStatePersisted) u)
  else (false, u).

(** *** MarkPersistedRange *)

(** Pass 1: which blocks are eligible, as [(block, seqNum, eligible)]. *)
Definition range_pass1 (u : UnifiedBlockStore) (blocks seqNums : list Z) : list (Z * Z * bool) :=
  zip_with (fun b s => (b, s, is_sealed u b s)) blocks seqNums.

(** The run being collected: index of its first block, that block, SeqNums. *)
Definition install_run (objectID objectOffset stride : Z) (run : Z * Z * list Z)
    (exts : gmap Z persistedExtent) : gmap Z persistedExtent :=
  let '(i, b, seqs) := run in
  let num := u16 (Z.of_nat (length seqs)) in
  <[b := mkPE seqs b objectID (u32 (objectOffset + u32 (u32 i * stride))) stride num]>
    (fractureOverlapsLocked b num exts).

Definition flush_run (objectID objectOffset stride : Z) (run : option (Z * Z * list Z))
    (exts : gmap Z persistedExtent) : gmap Z persistedExtent :=
  match run with
  | None => exts
  | Some r => install_run objectID objectOffset stride r exts
  end.

(** The loop over the blocks, splitting them into runs of consecutive,
    eligible blocks of at most 65535. *)
Fixpoint install_runs (objectID objectOffset stride : Z) (run : option (Z * Z * list Z)) (i : Z)
    (items : list (Z * Z * bool)) (exts : gmap Z persistedExtent) : gmap Z persistedExtent :=
  match items with
  | [] => flush_run objectID objectOffset stride run exts
  | (b, s, eligible) :: items' =>
      let fresh := if eligible : bool then Some (i, b, [s]) else None in
      match run with
      | Some (i0, b0, seqs) =>
          let n := Z.of_nat (length seqs) in
          if eligible && (n <? 65535) && (b =? u64 (b0 + n))
          then install_runs objectID objectOffset stride (Some (i0, b0, seqs ++ [s])) (i + 1) items' exts
          else install_runs objectID objectOffset stride fresh (i + 1) items'
                 (flush_run objectID objectOffset stride run exts)
      | None => install_runs objectID objectOffset stride fresh (i + 1) items' exts
      end
  end.

(** Pass 2, under [persistedMu]. *)
Definition range_pass2 (objectID objectOffset stride : Z) (items : list (Z * Z * bool))
    (u : UnifiedBlockStore) : UnifiedBlockStore :=
  set_extents (install_runs objectID objectOffset stride None 0 items (persistedExtents u)) u.

(** Pass 3, one block: re-check under the shard lock, then drop the entry. *)
Definition range_pass3_step (acc : Z * UnifiedBlockStore) (item : Z * Z * bool)
    : Z * UnifiedBlockStore :=
  let '(transitioned, u) := acc in
  let '(b, s, eligible) := item in
  if eligible && is_sealed u b s then (transitioned + 1, del_block b u) else (transitioned, u).

Definition MarkPersistedRange (blocks : list Z) (objectID objectOffset stride : Z)
    (seqNums : list Z) (u : UnifiedBlockStore) : Z * UnifiedBlockStore :=
  if (length blocks =? 0)%nat || negb (length blocks =? length seqNums)%nat then (0, u)
  else
    let items := range_pass1 u blocks seqNums in
    if negb (List.existsb (fun it => snd it) items) then (0, u)
    else
      let u2 := range_pass2 objectID objectOffset stride items u in
      let '(n, u3) := fold_left range_pass3_step items (0, u2) in
      (n, count_stat StWrites n u3).

Definition SetPersisted (blockNum objectID offset seqNum : Z) (u : UnifiedBlockStore)
    : UnifiedBlockStore :=
  let entry := default BE0 (get_entry u blockNum) in
  put_block blockNum
    (if (be_SeqNum entry <=? seqNum) || bool_decide (be_State entry = BlockStateEmpty)
     then mkBE [] seqNum objectID offset BlockStatePersisted else entry) u.

Definition SetPersistedRange (blocks : list Z) (objectID objectOffset stride : Z)
    (seqNums : list Z) (u : UnifiedBlockStore) : UnifiedBlockStore :=
  if (length blocks =? 0)%nat || negb (length blocks =? length seqNums)%nat then u
  else set_extents (install_runs objectID objectOffset stride None 0
         (zip_with (fun b s => (b, s, true)) blocks seqNums) (persistedExtents u)) u.

(** ** Cache transitions *)

Definition Cache (blockNum : Z) (data : bytes) (u : UnifiedBlockStore) : bool * UnifiedBlockStore :=
  match get_entry u blockNum with
  | None => (false, u)
  | Some e =>
      if decide (be_State e = BlockStatePersisted)
      then (true, put_block blockNum
              (mkBE data (be_SeqNum e) (be_ObjectID e) (be_ObjectOffset e) BlockStateCached) u)
      else (false, u)
  end.

Definition EvictCache (blockNum : Z) (u : UnifiedBlockStore) : bool * UnifiedBlockStore :=
  match get_entry u blockNum with
  | None => (false, u)
  | Some e =>
      if decide (be_State e = BlockStateCached)
      then (true, put_block blockNum
              (mkBE [] (be_SeqNum e) (be_ObjectID e) (be_ObjectOffset e) BlockStatePersisted) u)
      else (false, u)
  end.

(** ** Queries over the whole store *)

Definition all_entries (u : UnifiedBlockStore) : list (Z * BlockEntry) :=
  List.concat (map_to_list <$> shards u).

Definition GetBlocksByState (state : BlockState) (u : UnifiedBlockStore) : list Z :=
  (filter (fun p : Z * BlockEntry => be_State p.2 = state) (all_entries u)).*1.

(** A block of the write buffer ([Block] of viperblock.go). *)
Record Block := mkBlock {
  b_Data : bytes;
  b_SeqNum : Z;
  b_Block : Z;
  b_Offset : Z;
  b_Len : Z
}.

#[global] Instance Block_eq_dec : EqDecision Block.
Proof. solve_decision. Defined.

Definition blocks_in (state : BlockState) (u : UnifiedBlockStore) : list Block :=
  (fun p : Z * BlockEntry => mkBlock (be_Data p.2) (be_SeqNum p.2) p.1 0 (blen (be_Data p.2)))
  <$> filter (fun p : Z * BlockEntry => be_State p.2 = state) (all_entries u).

Definition GetHotBlocks := blocks_in BlockStateHot.
Definition GetPendingBlocks := blocks_in BlockStatePending.

Definition GetPersistedInfo (u : UnifiedBlockStore) (blockNum : Z) : option (Z * Z) :=
  match get_entry u blockNum with
  | Some e => match be_State e with
              | BlockStatePersisted | BlockStateCached => Some (be_ObjectID e, be_ObjectOffset e)
              | _ => None
              end
  | None => match readPersisted (persistedExtents u) blockNum with
            | Some pe => Some (be_ObjectID pe, be_ObjectOffset pe)
            | None => None
            end
  end.

Definition sumZ (l : list Z) : Z := fold_right Z.add 0 l.

Definition extent_blocks (u : UnifiedBlockStore) : Z :=
  sumZ (pe_numBlocks <$> (map_to_list (persistedExtents u)).*2).

Definition Count (u : UnifiedBlockStore) : Z :=
  sumZ ((fun sh => Z.of_nat (size sh)) <$> shards u) + extent_blocks u.

Definition PersistedExtentCount (u : UnifiedBlockStore) : Z :=
  Z.of_nat (size (persistedExtents u)).

Definition CountByState (u : UnifiedBlockStore) (state : BlockState) : Z :=
  Z.of_nat (length (filter (fun p : Z * BlockEntry => be_State p.2 = state) (all_entries u))) +
  (if decide (state = BlockStatePersisted) then extent_blocks u else 0).

Definition Clear (u : UnifiedBlockStore) : UnifiedBlockStore :=
  mkUBS (replicate (Z.to_nat NumShards) ∅) (blockSize u) (ubs_seqNum u) ∅ (stats u).

Definition Delete (blockNum : Z) (u : UnifiedBlockStore) : bool * UnifiedBlockStore :=
  match get_entry u blockNum with
  | Some _ => (true, del_block blockNum u)
  | None =>
      match findPersistedExtentLocked (persistedExtents u) blockNum with
      | Some _ => (true, set_extents (fractureOverlapsLocked blockNum 1 (persistedExtents u)) u)
      | None => (false, u)
      end
  end.

Definition GetSeqNum (u : UnifiedBlockStore) : Z := ubs_seqNum u.
Definition SetSeqNum (n : Z) (u : UnifiedBlockStore) : UnifiedBlockStore :=
  mkUBS (shards u) (blockSize u) n (persistedExtents u) (stats u).
Definition GetStats (u : UnifiedBlockStore) : Z * Z * Z * Z :=
  (stats u StReads, stats u StWrites, stats u StCacheHits, stats u StCacheMiss).
