(* ===== verification/BlockStoreFacts.v ===== *)
(** * Facts about the block store

    The sharded index as a finite map, the persisted-extent index as an
    instance of the block map of [BlockMap], and the effect of each operation
    on what a reader sees. *)

From S2P Require Import Prelude Words BlockMap Extents BlockStore.

(** ** The sharded index *)

(** [NumShards] shards, each holding only its own blocks. *)
Record shards_wf (u : UnifiedBlockStore) : Prop := {
  sw_len : length (shards u) = Z.to_nat NumShards;
  sw_own : forall i sh b, shards u !! i = Some sh -> is_Some (sh !! b) -> getShard b = i
}.

Lemma getShard_lt b : (getShard b < Z.to_nat NumShards)%nat.
Proof.
  unfold getShard, ShardMask, NumShards. change (16 - 1) with (Z.ones 4).
  rewrite Z.land_ones by lia. pose proof (Z.mod_pos_bound b (2 ^ 4) ltac:(lia)). lia.
Qed.

Section index.
Context (u : UnifiedBlockStore) (Hu : shards_wf u).

Lemma shard_exists b : exists sh, shards u !! getShard b = Some sh.
Proof.
  apply lookup_lt_is_Some. rewrite (sw_len _ Hu). apply getShard_lt.
Qed.

Lemma get_put b e b' :
  get_entry (put_block b e u) b' = if decide (b = b') then Some e else get_entry u b'.
Proof.
  unfold get_entry, put_block, set_shards. cbn.
  destruct (shard_exists b) as [sh Hsh]. rewrite list_lookup_alter.
  destruct (decide (getShard b = getShard b')) as [Heq|Hne].
  - rewrite <-Heq, Hsh. cbn. destruct (decide (b = b')) as [->|].
    + by rewrite lookup_insert_eq.
    + by rewrite lookup_insert_ne.
  - destruct (decide (b = b')) as [->|]; done.
Qed.

Lemma get_del b b' :
  get_entry (del_block b u) b' = if decide (b = b') then None else get_entry u b'.
Proof.
  unfold get_entry, del_block, set_shards. cbn.
  destruct (shard_exists b) as [sh Hsh]. rewrite list_lookup_alter.
  destruct (decide (getShard b = getShard b')) as [Heq|Hne].
  - rewrite <-Heq, Hsh. cbn. destruct (decide (b = b')) as [->|].
    + by rewrite lookup_delete_eq.
    + by rewrite lookup_delete_ne.
  - destruct (decide (b = b')) as [->|]; done.
Qed.

Lemma put_wf b e : shards_wf (put_block b e u).
Proof.
  constructor; cbn; [by rewrite length_alter, (sw_len _ Hu)|].
  intros i sh b'. rewrite list_lookup_alter. destruct (decide (getShard b = i)) as [<-|].
  - destruct (shard_exists b) as [sh' Hsh]. rewrite Hsh. cbn. intros [= <-].
    rewrite lookup_insert_is_Some'. intros [<-|H]; [done|]. by eapply sw_own.
  - by apply sw_own.
Qed.

Lemma del_wf b : shards_wf (del_block b u).
Proof.
  constructor; cbn; [by rewrite length_alter, (sw_len _ Hu)|].
  intros i sh b'. rewrite list_lookup_alter. destruct (decide (getShard b = i)) as [<-|].
  - destruct (shard_exists b) as [sh' Hsh]. rewrite Hsh. cbn. intros [= <-].
    rewrite lookup_delete_is_Some. intros [_ H]. by eapply sw_own.
  - by apply sw_own.
Qed.

(** Scanning every shard visits exactly the indexed entries. *)
Lemma all_entries_elem b e : (b, e) ∈ all_entries u <-> get_entry u b = Some e.
Proof.
  unfold all_entries, get_entry. rewrite list_elem_of_In, in_concat. split.
  - intros (l & Hl & He). apply list_elem_of_In in Hl, He.
    apply list_elem_of_fmap in Hl as (sh & -> & Hsh). apply elem_of_map_to_list in He.
    apply list_elem_of_lookup in Hsh as [i Hi].
    rewrite (sw_own _ Hu i sh b Hi) by eauto. by rewrite Hi.
  - destruct (shards u !! getShard b) as [sh|] eqn:Hsh; [|done]. intros He.
    exists (map_to_list sh). split; apply list_elem_of_In.
    + apply list_elem_of_fmap. exists sh. split; [done|]. by eapply list_elem_of_lookup_2.
    + by apply elem_of_map_to_list.
Qed.
End index.

Lemma new_wf bs : shards_wf (NewUnifiedBlockStore bs).
Proof.
  constructor; [apply length_replicate|]. intros i sh b [-> _]%lookup_replicate [e He].
  rewrite lookup_empty in He. done.
Qed.

(** ** The persisted-extent index as a block map *)

(** The entry the store returns for a block that lives at [l]. *)
Definition entry_of (l : Z * Z * Z) : BlockEntry := mkBE [] l.2 l.1.1 l.1.2 BlockStatePersisted.

Definition to_bl (pe : persistedExtent) : BlockLookup :=
  mkBL (pe_seqNums pe) (pe_startBlock pe) (pe_objectID pe) (default 0 (pe_seqNums pe !! 0%nat))
       (pe_objectOffset pe) (pe_numBlocks pe).

Abbreviation bl_map exts := (to_bl <$> exts : gmap Z BlockLookup).

Record pe_wf (stride : Z) (pe : persistedExtent) : Prop := {
  pw_bl : bl_wf stride (to_bl pe);
  pw_stride : pe_stride pe = stride;
  pw_seqs : Z.of_nat (length (pe_seqNums pe)) = pe_numBlocks pe
}.

Record exts_wf (stride : Z) (exts : gmap Z persistedExtent) : Prop := {
  ew_pe : forall k pe, exts !! k = Some pe -> pe_wf stride pe;
  ew_map : map_wf stride (bl_map exts)
}.

Section extents.
Context (stride : Z) (Hstride : 0 < stride).

Lemma pe_seqNumAt_bl pe i :
  pe_wf stride pe -> 0 <= i < pe_numBlocks pe -> pe_seqNumAt pe i = seqNumAt (to_bl pe) i.
Proof.
  intros [_ _ Hs] Hi. unfold pe_seqNumAt, seqNumAt. cbn [to_bl bl_SeqNums]. rewrite Hs.
  destruct (Z.leb_spec 0 i), (Z.ltb_spec i (pe_numBlocks pe)); try lia. done.
Qed.

Lemma pe_offsetAt_bl pe i :
  pe_wf stride pe -> 0 <= i < pe_numBlocks pe -> pe_offsetAt pe i = offsetAt (to_bl pe) i stride.
Proof.
  intros [Hb Hs _] Hi. unfold pe_offsetAt, offsetAt. cbn [to_bl bl_ObjectOffset]. rewrite Hs.
  destruct Hb. cbn in *. rewrite SafeIntToUint32_small by wsolve. done.
Qed.

Lemma pe_end_bl pe : pe_end pe = bl_end (to_bl pe).
Proof. done. Qed.

(** Resolving a block through the extent index is a block-map lookup. *)
Lemma readPersisted_spec exts b :
  exts_wf stride exts ->
  readPersisted exts b =
  (fun l : Z * Z * Z => mkBE [] l.2 l.1.1 l.1.2 BlockStatePersisted)
    <$> LookupBlockToObject stride (bl_map exts) b.
Proof.
  intros [Hpe Hm]. unfold readPersisted.
  set (order := to_bl <$> (map_to_list exts).*2).
  assert (forall e, e ∈ order <-> exists k, bl_map exts !! k = Some e) as Hord.
  { intros e. unfold order. rewrite list_elem_of_fmap. setoid_rewrite lookup_fmap_Some.
    setoid_rewrite list_elem_of_fmap. split.
    - intros (pe & -> & [k pe'] & -> & H). apply elem_of_map_to_list in H. eauto.
    - intros (k & pe & <- & H). exists pe. split; [done|]. exists (k, pe).
      by rewrite elem_of_map_to_list. }
  assert (forall pe bl pos, resolve_in order (bl_map exts) b = Some (bl, pos) ->
    bl = to_bl pe -> (exists k, exts !! k = Some pe) ->
    mkBE [] (pe_seqNumAt pe (u16 (u64 (b - pe_startBlock pe)))) (pe_objectID pe)
      (pe_offsetAt pe (u16 (u64 (b - pe_startBlock pe)))) BlockStatePersisted
    = mkBE [] (seqNumAt bl pos) (bl_ObjectID bl) (offsetAt bl pos stride) BlockStatePersisted) as Heq.
  { intros pe bl pos Hr -> [k Hk]. apply (resolve_in_spec stride) in Hr as (_ & Hc & ->); [|done..].
    pose proof (Hpe _ _ Hk) as Hw. destruct (Hw) as [[] _ _]. unfold covers in Hc. cbn in *.
    unfold_widths. rewrite (u64_small (b - pe_startBlock pe)) by wsolve.
    rewrite (u16_small (b - pe_startBlock pe)) by wsolve.
    rewrite pe_seqNumAt_bl, pe_offsetAt_bl by (try done; lia). done. }
  assert (LookupBlockToObject stride (bl_map exts) b =
    match resolve_in order (bl_map exts) b with
    | Some (bl, pos) => Some (bl_ObjectID bl, offsetAt bl pos stride, seqNumAt bl pos)
    | None => None end) as ->.
  { unfold LookupBlockToObject.
    assert (resolveBlockLookup (bl_map exts) b = resolve_in order (bl_map exts) b) as ->; [|done].
    apply option_eq. intros [bl i]. rewrite (resolve_spec stride), (resolve_in_spec stride) by done. done. }
  unfold findPersistedExtentLocked. unfold resolve_in in *. rewrite lookup_fmap in *.
  destruct (exts !! b) as [pe|] eqn:Eb; cbn in *.
  - rewrite (Heq pe (to_bl pe) 0) by eauto. done.
  - unfold order in *. clear order. revert Heq.
    assert (List.find (covers_after b) (to_bl <$> (map_to_list exts).*2)
      = to_bl <$> List.find (pe_covers_after b) (map_to_list exts).*2) as ->.
    { generalize ((map_to_list exts).*2). intros l. induction l as [|pe l IH]; [done|].
      cbn. unfold covers_after at 1, pe_covers_after at 1. cbn. rewrite <-pe_end_bl.
      destruct (_ && _); [done|apply IH]. }
    destruct (List.find (pe_covers_after b) _) as [pe|] eqn:Ef; cbn; [|done].
    intros Heq. erewrite (Heq pe) by (try done; apply List.find_some in Ef as [Hin _];
      apply list_elem_of_In, list_elem_of_fmap in Hin as ([k pe'] & -> & Hin);
      apply elem_of_map_to_list in Hin; eauto). done.
Qed.
End extents.

(** ** Fracturing the extent index *)

Lemma lookup_bl_map exts k : bl_map exts !! k = option_map to_bl (exts !! k).
Proof. apply lookup_fmap. Qed.

Lemma bl_map_insert exts k pe : bl_map (<[k := pe]> exts) = <[k := to_bl pe]> (bl_map exts).
Proof. apply fmap_insert. Qed.

Lemma bl_map_delete exts k : bl_map (delete k exts) = delete k (bl_map exts).
Proof. apply fmap_delete. Qed.

Section fracture.
Context (stride : Z) (Hstride : 0 < stride).

Lemma slice_seqs pe from to :
  pe_wf stride pe -> 0 <= from <= to -> to <= pe_numBlocks pe ->
  sliceSeqNums (to_bl pe) from to = take (Z.to_nat (to - from)) (drop (Z.to_nat from) (pe_seqNums pe)).
Proof.
  intros Hw Hf Ht. apply list_eq. intros i. pose proof (pw_seqs _ _ Hw) as Hl.
  destruct (decide (Z.of_nat i < to - from)) as [Hi|Hi].
  - rewrite lookup_take_lt by lia. rewrite lookup_drop.
    pose proof (lookup_sliceSeqNums (to_bl pe) from to (Z.of_nat i) ltac:(lia)) as H.
    rewrite Nat2Z.id in H. rewrite H. unfold seqNumAt. cbn [to_bl bl_SeqNums].
    destruct (Z.leb_spec 0 (from + Z.of_nat i)), (Z.ltb_spec (from + Z.of_nat i) (Z.of_nat (length (pe_seqNums pe)))); try lia.
    cbn. replace (Z.to_nat (from + Z.of_nat i)) with (Z.to_nat from + i)%nat by lia.
    destruct (pe_seqNums pe !! (Z.to_nat from + i)%nat) eqn:E; [done|].
    apply lookup_ge_None in E. lia.
  - rewrite !lookup_ge_None_2; [done|rewrite length_take; lia|].
    pose proof (length_sliceSeqNums (to_bl pe) from to ltac:(lia)). lia.
Qed.

Lemma seq0_bl pe : pe_wf stride pe -> default 0 (pe_seqNums pe !! 0%nat) = seqNumAt (to_bl pe) 0.
Proof. intros Hw. exact (blw_seq _ _ (pw_bl _ _ Hw)). Qed.

Lemma pe_head_bl ex ns :
  pe_wf stride ex -> pe_startBlock ex < ns < pe_startBlock ex + pe_numBlocks ex ->
  to_bl (pe_head ex ns) = head_of (to_bl ex) ns /\ pe_wf stride (pe_head ex ns).
Proof.
  intros Hw Hns. pose proof (pw_bl _ _ Hw) as Hb. pose proof (pw_seqs _ _ Hw) as Hl.
  assert (to_bl (pe_head ex ns) = head_of (to_bl ex) ns) as Heq.
  { unfold head_of. rewrite (head_len stride) by done. unfold pe_head, to_bl at 1. cbn -[sliceSeqNums seqNumAt to_bl].
    rewrite slice_seqs, <-seq0_bl by (try done; cbn; lia). cbn [to_bl bl_StartBlock bl_ObjectID bl_ObjectOffset].
    destruct Hb. cbn in *. unfold_widths.
    rewrite (u64_small (ns - _)), u16_small, SafeIntToUint16_small by wsolve.
    rewrite Z.sub_0_r, drop_0. f_equal. rewrite lookup_take_lt by lia. done. }
  split; [done|]. constructor.
  - rewrite Heq. by apply head_wf.
  - cbn. apply (pw_stride _ _ Hw).
  - destruct Hb. cbn in *. unfold_widths. rewrite (u64_small (ns - _)), u16_small by wsolve.
    rewrite length_take. lia.
Qed.

Lemma pe_tail_bl ex ne :
  pe_wf stride ex -> pe_startBlock ex < ne < pe_startBlock ex + pe_numBlocks ex ->
  to_bl (pe_tail ex ne) = tail_of (to_bl ex) ne stride /\ pe_wf stride (pe_tail ex ne).
Proof.
  intros Hw Hne. pose proof (pw_bl _ _ Hw) as Hb. pose proof (pw_seqs _ _ Hw) as Hl.
  pose proof (bl_end_wf stride _ Hb) as He. cbn in He.
  assert (in_u64 (ne - pe_startBlock ex) /\ in_u16 (ne - pe_startBlock ex) /\
    in_u64 (pe_startBlock ex + pe_numBlocks ex - ne) /\ in_u16 (pe_startBlock ex + pe_numBlocks ex - ne)) as (H1 & H2 & H3 & H4).
  { destruct Hb. cbn in *. unfold_widths. lia. }
  assert (to_bl (pe_tail ex ne) = tail_of (to_bl ex) ne stride) as Heq.
  { unfold tail_of. destruct (tail_lens stride (to_bl ex) Hb ne Hne) as [-> ->].
    unfold pe_tail, to_bl at 1. rewrite pe_end_bl, He. cbn -[sliceSeqNums seqNumAt to_bl offsetAt].
    rewrite slice_seqs by (try done; cbn; lia). cbn [to_bl bl_StartBlock bl_ObjectID bl_NumBlocks].
    rewrite (u64_small (ne - _)), (u64_small (_ - ne)), !u16_small, SafeIntToUint16_small by done.
    rewrite (pe_offsetAt_bl stride) by (try done; lia).
    rewrite <-(pe_seqNumAt_bl stride) by (try done; lia).
    rewrite (take_ge (drop _ _)) by (rewrite length_drop; lia).
    f_equal. rewrite lookup_drop, Nat.add_0_r. unfold pe_seqNumAt.
    destruct (Z.ltb_spec (ne - pe_startBlock ex) (Z.of_nat (length (pe_seqNums ex)))); [done|lia]. }
  split; [done|]. constructor.
  - rewrite Heq. by apply tail_wf.
  - cbn. apply (pw_stride _ _ Hw).
  - cbn -[pe_end]. rewrite pe_end_bl, He.
    rewrite (u64_small (ne - _)), (u64_small (_ - ne)), u16_small by done.
    rewrite length_drop. lia.
Qed.

Section new.
Context (new : BlockLookup) (Hnew : bl_wf stride new).

Lemma pe_fracture_sim exts k :
  exts_wf stride exts ->
  bl_map (pe_fracture_step (bl_StartBlock new) (bl_end new) exts k)
    = (fracture_step new stride (bl_map exts, None) k).1 /\
  exts_wf stride (pe_fracture_step (bl_StartBlock new) (bl_end new) exts k).
Proof.
  intros [Hpe Hm].
  assert (bl_map (pe_fracture_step (bl_StartBlock new) (bl_end new) exts k)
    = (fracture_step new stride (bl_map exts, None) k).1 /\
    (forall j pe, pe_fracture_step (bl_StartBlock new) (bl_end new) exts k !! j = Some pe -> pe_wf stride pe))
    as [Heq Hw].
  2: { split; [done|]. split; [done|]. rewrite Heq.
       by destruct (fracture_step_map stride Hstride new Hnew (bl_map exts) None k Hm). }
  unfold pe_fracture_step, fracture_step. cbn [fst snd]. rewrite lookup_bl_map.
  destruct (exts !! k) as [ex|] eqn:Ek; cbn [option_map default from_option];
    unfold id; cbn beta.
  2: { assert ((pe_end PE0 <=? bl_StartBlock new) = true) as -> by (apply Z.leb_le; by destruct Hnew).
       split; [done|apply Hpe]. }
  rewrite !pe_end_bl.
  change (bl_StartBlock (to_bl ex)) with (pe_startBlock ex).
  destruct (_ || _) eqn:Eo; [split; [done|apply Hpe]|].
  pose proof (Hpe _ _ Ek) as Hex. pose proof (pw_bl _ _ Hex) as Hxb.
  apply orb_false_iff in Eo as [E1 E2]. apply Z.leb_gt in E1, E2.
  rewrite !(bl_end_wf stride) in * by done.
  change (bl_StartBlock (to_bl ex)) with (pe_startBlock ex) in *.
  change (bl_NumBlocks (to_bl ex)) with (pe_numBlocks ex) in *.
  set (ns := bl_StartBlock new) in *. set (ne := ns + bl_NumBlocks new) in *.
  assert (ns < ne) by (destruct Hnew; unfold ne; lia).
  assert (forall j pe, delete k exts !! j = Some pe -> pe_wf stride pe) as Hd
    by (intros j pe [_ H']%lookup_delete_Some; eauto).
  unfold put_entry. cbn [fst snd].
  destruct (Z.ltb_spec (pe_startBlock ex) ns), (Z.ltb_spec ne (pe_startBlock ex + pe_numBlocks ex));
    cbn [fst snd]; rewrite ?bl_map_insert, ?bl_map_delete;
    repeat match goal with
    | H : pe_startBlock ex < ns |- _ =>
        let A := fresh in let B := fresh in
        destruct (pe_head_bl ex ns Hex ltac:(lia)) as [A B]; rewrite ?A; revert B; clear H
    | H : ne < pe_startBlock ex + pe_numBlocks ex |- _ =>
        let A := fresh in let B := fresh in
        destruct (pe_tail_bl ex ne Hex ltac:(lia)) as [A B]; rewrite ?A; revert B; clear H
    end; intros; (split; [done|]).
  - intros j pe [[<- <-]|[_ [[<- <-]|[_ H']]%lookup_insert_Some]]%lookup_insert_Some; eauto.
  - intros j pe [[<- <-]|[_ H']]%lookup_insert_Some; eauto.
  - intros j pe [[<- <-]|[_ H']]%lookup_insert_Some; eauto.
  - done.
Qed.

Lemma pe_fracture_all keys exts :
  exts_wf stride exts ->
  bl_map (fold_left (pe_fracture_step (bl_StartBlock new) (bl_end new)) keys exts)
    = (fold_left (fracture_step new stride) keys (bl_map exts, None)).1 /\
  exts_wf stride (fold_left (pe_fracture_step (bl_StartBlock new) (bl_end new)) keys exts).
Proof.
  revert exts. induction keys as [|k keys IH]; intros exts He; [done|]. cbn [fold_left].
  destruct (pe_fracture_sim exts k He) as [Heq Hw].
  destruct (IH _ Hw) as [Heq' Hw']. split; [|done]. rewrite Heq', Heq.
  assert (forall st, (fracture_step new stride (bl_map exts, None) k) = st -> st.2 = None) as Hn.
  { intros st <-. unfold fracture_step, put_entry. cbn [fst snd]. destruct (bl_map exts !! k); [|done].
    destruct (_ || _); [done|]. destruct (_ <? _), (_ <? _); done. }
  specialize (Hn _ eq_refl). destruct (fracture_step new stride (bl_map exts, None) k) as [m1 rc1].
  cbn in Hn. by subst.
Qed.
End new.
End fracture.

(** ** Installing runs *)

(** What one run of consecutive blocks makes readable. *)
Definition run_entry (objectID objectOffset stride : Z) (run : option (Z * Z * list Z)) (b : Z)
    : option BlockEntry :=
  match run with
  | None => None
  | Some (i0, b0, seqs) =>
      if (b0 <=? b) && (b <? b0 + Z.of_nat (length seqs))
      then Some (mkBE [] (default 0 (seqs !! Z.to_nat (b - b0))) objectID
                   (objectOffset + (i0 + (b - b0)) * stride) BlockStatePersisted)
      else None
  end.

(** What the eligible items of a drain make readable, item by item. *)
Fixpoint items_entry (objectID objectOffset stride i : Z) (items : list (Z * Z * bool)) (b : Z)
    : option BlockEntry :=
  match items with
  | [] => None
  | (b0, s, eligible) :: items' =>
      if eligible && (b =? b0)
      then Some (mkBE [] s objectID (objectOffset + i * stride) BlockStatePersisted)
      else items_entry objectID objectOffset stride (i + 1) items' b
  end.

Definition run_ok (run : option (Z * Z * list Z)) (i : Z) : Prop :=
  match run with
  | None => True
  | Some (i0, b0, seqs) =>
      0 <= i0 /\ i = i0 + Z.of_nat (length seqs) /\ 0 <= b0 /\
      1 <= Z.of_nat (length seqs) <= 65535 /\ b0 + Z.of_nat (length seqs) < 2 ^ 64
  end.

Section install.
Context (stride oid off : Z) (Hstride : 0 < stride) (Hoff : 0 <= off).

Lemma install_run_spec i0 b0 seqs exts :
  exts_wf stride exts -> run_ok (Some (i0, b0, seqs)) (i0 + Z.of_nat (length seqs)) ->
  off + (i0 + Z.of_nat (length seqs)) * stride < 2 ^ 32 ->
  exts_wf stride (install_run oid off stride (i0, b0, seqs) exts) /\
  forall b, readPersisted (install_run oid off stride (i0, b0, seqs) exts) b =
    match run_entry oid off stride (Some (i0, b0, seqs)) b with
    | Some e => Some e
    | None => readPersisted exts b
    end.
Proof.
  intros He (Hi0 & _ & Hb0 & Hn & Hend) Ho. set (n := Z.of_nat (length seqs)) in *.
  assert (u16 n = n /\ u32 i0 = i0 /\ u32 (i0 * stride) = i0 * stride /\
    u32 (off + i0 * stride) = off + i0 * stride) as (E1 & E2 & E3 & E4).
  { unfold_widths. rewrite u16_small, !u32_small by (unfold_widths; nia). done. }
  set (pe := mkPE seqs b0 oid (off + i0 * stride) stride n).
  assert (pe_wf stride pe) as Hpe.
  { constructor; [|done..]. constructor; cbn; try (unfold_widths; lia); try nia.
    unfold seqNumAt. cbn. fold n. destruct (Z.ltb_spec 0 n); [done|lia]. }
  set (new := to_bl pe). pose proof (pw_bl _ _ Hpe) as Hnew. fold new in Hnew.
  assert (install_run oid off stride (i0, b0, seqs) exts =
    <[b0 := pe]> (fold_left (pe_fracture_step (bl_StartBlock new) (bl_end new)) (map_to_list exts).*1 exts)) as Hr.
  { cbn. fold n. rewrite E1, E2, E3, E4. done. }
  destruct (pe_fracture_all stride Hstride new Hnew (map_to_list exts).*1 exts He) as [Hf Hfw].
  destruct (insert_over_resolves stride new (bl_map exts) None (map_to_list exts).*1) as [W L]; [done..|apply He| |].
  { intros j [e He']. rewrite lookup_bl_map in He'. destruct (exts !! j) as [x|] eqn:Ej; [|done].
    apply list_elem_of_fmap. exists (j, x). split; [done|]. by apply elem_of_map_to_list. }
  assert (bl_map (install_run oid off stride (i0, b0, seqs) exts)
    = (insert_over (map_to_list exts).*1 new stride (bl_map exts, None)).1) as Hbm.
  { rewrite Hr, bl_map_insert, Hf. done. }
  assert (exts_wf stride (install_run oid off stride (i0, b0, seqs) exts)) as Hw.
  { split; [|rewrite Hbm; exact W]. rewrite Hr. intros k p [[<- <-]|[_ H]]%lookup_insert_Some; [done|].
    by eapply ew_pe. }
  split; [done|]. intros b.
  rewrite !(readPersisted_spec stride Hstride) by done. rewrite Hbm, L. cbn [run_entry]. fold n.
  change (bl_StartBlock new) with b0. change (bl_NumBlocks new) with n.
  destruct (Z.leb_spec b0 b), (Z.ltb_spec b (b0 + n)); cbn [andb]; try done.
  unfold seqNumAt. cbn. fold n.
  destruct (Z.leb_spec 0 (b - b0)), (Z.ltb_spec (b - b0) n); try lia. cbn.
  replace (off + i0 * stride + (b - b0) * stride) with (off + (i0 + (b - b0)) * stride) by lia. done.
Qed.
Lemma flush_run_spec run i exts :
  exts_wf stride exts -> run_ok run i -> off + i * stride < 2 ^ 32 ->
  exts_wf stride (flush_run oid off stride run exts) /\
  forall b, readPersisted (flush_run oid off stride run exts) b =
    match run_entry oid off stride run b with Some e => Some e | None => readPersisted exts b end.
Proof.
  intros He Hr Ho. destruct run as [[[i0 b0] seqs]|]; [|done].
  destruct Hr as (? & -> & ?). by apply install_run_spec.
Qed.

(** The items a loop still has to visit are apart from the run in progress. *)
Definition apart (run : option (Z * Z * list Z)) (items : list (Z * Z * bool)) : Prop :=
  forall it, it ∈ items -> run_entry oid off stride run it.1.1 = None.

Lemma items_entry_Some i items b e :
  items_entry oid off stride i items b = Some e -> exists s, (b, s, true) ∈ items.
Proof.
  revert i. induction items as [|[[b0 s] el] items IH]; intros i; cbn; [done|].
  destruct el; cbn [andb].
  - destruct (Z.eqb_spec b b0) as [->|]; [intros _; exists s; left|].
    intros [s' H]%IH. exists s'. by right.
  - intros [s' H]%IH. exists s'. by right.
Qed.

Lemma run_entry_snoc i0 b0 seqs s b :
  run_entry oid off stride (Some (i0, b0, seqs ++ [s])) b =
  if b =? b0 + Z.of_nat (length seqs)
  then Some (mkBE [] s oid (off + (i0 + Z.of_nat (length seqs)) * stride) BlockStatePersisted)
  else run_entry oid off stride (Some (i0, b0, seqs)) b.
Proof.
  cbn. rewrite length_app. cbn [length]. rewrite Nat2Z.inj_add. change (Z.of_nat 1) with 1.
  destruct (Z.eqb_spec b (b0 + Z.of_nat (length seqs))) as [->|Hne].
  - destruct (Z.leb_spec b0 (b0 + Z.of_nat (length seqs))),
      (Z.ltb_spec (b0 + Z.of_nat (length seqs)) (b0 + (Z.of_nat (length seqs) + 1))); try lia.
    cbn. replace (b0 + Z.of_nat (length seqs) - b0) with (Z.of_nat (length seqs)) by lia.
    rewrite Nat2Z.id, lookup_app_r, Nat.sub_diag by lia. done.
  - destruct (Z.leb_spec b0 b), (Z.ltb_spec b (b0 + (Z.of_nat (length seqs) + 1))),
      (Z.ltb_spec b (b0 + Z.of_nat (length seqs))); try lia; cbn; try done.
    rewrite lookup_app_l by lia. done.
Qed.

Lemma install_runs_spec items :
  NoDup items.*1.*1 -> (forall it, it ∈ items -> 0 <= it.1.1 < 2 ^ 64 - 1) ->
  forall run i exts,
  exts_wf stride exts -> run_ok run i -> apart run items -> 0 <= i ->
  off + (i + Z.of_nat (length items)) * stride < 2 ^ 32 ->
  exts_wf stride (install_runs oid off stride run i items exts) /\
  forall b, readPersisted (install_runs oid off stride run i items exts) b =
    match run_entry oid off stride run b with
    | Some e => Some e
    | None => match items_entry oid off stride i items b with
              | Some e => Some e
              | None => readPersisted exts b
              end
    end.
Proof.
  induction items as [|[[b0 s] el] items IH]; intros Hnd Hrange run i exts He Hr Hap Hi Ho.
  { cbn [install_runs items_entry length] in *. apply (flush_run_spec _ i); [done..|lia]. }
  apply NoDup_cons in Hnd as [Hnin Hnd]. cbn [length] in Ho.
  assert (forall it, it ∈ items -> 0 <= it.1.1 < 2 ^ 64 - 1) as Hrange' by (intros; apply Hrange; by right).
  pose proof (Hrange (b0, s, el) ltac:(by left)) as Hb0. cbn in Hb0.
  assert (forall it, it ∈ items -> it.1.1 <> b0) as Hne.
  { intros it Hin <-. apply Hnin. apply list_elem_of_fmap. exists it.1. split; [done|].
    apply list_elem_of_fmap. eauto. }
  set (fresh := if el then Some (i, b0, [s]) else None).
  assert (run_ok fresh (i + 1)) as Hfr.
  { unfold fresh. destruct el; [|done]. cbn. unfold_widths. lia. }
  assert (forall b, run_entry oid off stride fresh b =
    if el && (b =? b0) then Some (mkBE [] s oid (off + i * stride) BlockStatePersisted) else None) as Hfe.
  { intros b. unfold fresh. destruct el; [|done].
    change [s] with ([] ++ [s]). rewrite run_entry_snoc. cbn [length]. change (Z.of_nat 0) with 0.
    rewrite !Z.add_0_r. cbn [andb]. destruct (b =? b0); [done|]. cbn [run_entry length].
    change (Z.of_nat 0) with 0. destruct (Z.leb_spec b0 b), (Z.ltb_spec b (b0 + 0)); try done; lia. }
  assert (apart fresh items) as Hfa.
  { intros it Hin. rewrite Hfe. specialize (Hne _ Hin).
    destruct el; [|done]. cbn. by destruct (Z.eqb_spec it.1.1 b0). }
  assert (run_entry oid off stride run b0 = None) as Hrb by (apply (Hap (b0, s, el)); by left).
  assert (forall exts', exts_wf stride exts' ->
    (forall b, readPersisted exts' b = match run_entry oid off stride run b with
       Some e => Some e | None => readPersisted exts b end) ->
    exts_wf stride (install_runs oid off stride fresh (i + 1) items exts') /\
    forall b, readPersisted (install_runs oid off stride fresh (i + 1) items exts') b =
      match run_entry oid off stride run b with
      | Some e => Some e
      | None => match items_entry oid off stride i ((b0, s, el) :: items) b with
                | Some e => Some e | None => readPersisted exts b end
      end) as Hstep.
  { intros exts' He' Hre. destruct (IH Hnd Hrange' fresh (i + 1) exts' He' Hfr Hfa) as [W L]; [lia..|].
    split; [done|]. intros b. rewrite L, Hfe, Hre. cbn [items_entry].
    destruct (el && (b =? b0)) eqn:Eb.
    - apply andb_true_iff in Eb as [_ Eb]. apply Z.eqb_eq in Eb as ->. by rewrite Hrb.
    - destruct (items_entry oid off stride (i + 1) items b) as [e|] eqn:Ei; [|done].
      apply items_entry_Some in Ei as [s' Hin].
      pose proof (Hap (b, s', true) ltac:(by right)) as Hn. cbn [fst] in Hn. by rewrite Hn. }
  cbn [install_runs]. fold fresh.
  destruct run as [[[i0 r0] seqs]|]; [|apply Hstep; done].
  destruct Hr as (Hi0 & Hin & Hr0 & Hlen & Hend).
  destruct (el && _ && _) eqn:Ext.
  - apply andb_true_iff in Ext as [Ext Eb]. apply andb_true_iff in Ext as [-> El].
    apply Z.ltb_lt in El. apply Z.eqb_eq in Eb. rewrite u64_small in Eb by (unfold_widths; lia).
    destruct (IH Hnd Hrange' (Some (i0, r0, seqs ++ [s])) (i + 1) exts He) as [W L]; [| |lia..|].
    + cbn. rewrite length_app. cbn. lia.
    + intros it Hit. rewrite run_entry_snoc, <-Eb.
      destruct (Z.eqb_spec it.1.1 b0); [by apply Hne in Hit|]. apply Hap. by right.
    + split; [done|]. intros b. rewrite L, run_entry_snoc, <-Eb, <-Hin. cbn [items_entry andb].
      destruct (Z.eqb_spec b b0) as [->|]; [|done]. by rewrite Hrb.
  - destruct (flush_run_spec (Some (i0, r0, seqs)) i exts He) as [W L]; [done|nia|].
    by apply Hstep.
Qed.
End install.
