(* ===== verification/BlockStoreRace.v ===== *)
(** * The block store under concurrency

    [MarkPersistedRange] runs in three passes that take and drop locks block by
    block, while writers, flushes and readers run in between. This file gives
    the interleavings as a step relation whose steps are the critical sections
    of blockstore.go, and shows by rule induction that no reader ever sees a
    block as unwritten, or an older write than the newest one completed before
    the read began. *)

From S2P Require Import Prelude Words BlockMap Extents BlockStore BlockStoreFacts.

(** ** The system *)

(** Where the (single) drain stands: between drains; in pass 1, with the pairs
    still to be looked at and the verdicts so far; in pass 3, with the items
    still to be dropped and the number dropped. Pass 2 is one critical section. *)
Inductive drain :=
| Idle
| Scan (objectID objectOffset : Z) (todo : list (Z * Z)) (seen : list (Z * Z * bool))
| Finalize (todo : list (Z * Z * bool)) (transitioned : Z).

(** [newest] is the newest write of each block, [reader] a [ReadEntry] between its two lookups: its block, and the
    newest SeqNum of the block when it missed the sharded index. *)
Record sys := mkSys {
  store : UnifiedBlockStore;
  newest : gmap Z (Z * bytes);
  dr : drain;
  reader : option (Z * option Z)
}.

Definition seqs_of (new : gmap Z (Z * bytes)) (b : Z) : option Z := fst <$> new !! b.

Section race.
Context (stride : Z).

(** What [createChunkFile] passes: distinct blocks, offsets within the chunk. *)
Definition drain_args_ok (off : Z) (items : list (Z * Z)) : Prop :=
  NoDup items.*1 /\ (forall it, it ∈ items -> 0 <= it.1 < 2 ^ 64 - 1) /\
  0 <= off /\ off + Z.of_nat (length items) * stride < 2 ^ 32 /\ items <> [].

Inductive step : sys -> sys -> Prop :=
| step_write u new d r b data s :
    0 < s -> (forall s', seqs_of new b = Some s' -> s' < s) ->
    step (mkSys u new d r) (mkSys (WriteWithSeqNum b data s u) (<[b := (s, data)]> new) d r)
| step_pending u new d r b :
    step (mkSys u new d r) (mkSys (MarkPending b u).2 new d r)
| step_start u new r oid off items :
    drain_args_ok off items ->
    step (mkSys u new Idle r) (mkSys u new (Scan oid off items []) r)
| step_scan u new r oid off b s todo seen :
    step (mkSys u new (Scan oid off ((b, s) :: todo) seen) r)
         (mkSys u new (Scan oid off todo (seen ++ [(b, s, is_sealed u b s)])) r)
| step_none u new r oid off seen :
    List.existsb snd seen = false ->
    step (mkSys u new (Scan oid off [] seen) r) (mkSys u new Idle r)
| step_install u new r oid off seen :
    List.existsb snd seen = true ->
    step (mkSys u new (Scan oid off [] seen) r)
         (mkSys (range_pass2 oid off stride seen u) new (Finalize seen 0) r)
| step_drop u new r it todo k :
    step (mkSys u new (Finalize (it :: todo) k) r)
         (mkSys (range_pass3_step (k, u) it).2 new
            (Finalize todo (range_pass3_step (k, u) it).1) r)
| step_finish u new r k :
    step (mkSys u new (Finalize [] k) r) (mkSys (count_stat StWrites k u) new Idle r)
| step_read u new d b :
    get_entry u b = None ->
    step (mkSys u new d None) (mkSys u new d (Some (b, seqs_of new b)))
| step_return u new d r :
    step (mkSys u new d r) (mkSys u new d None).

Definition init (bs : Z) : sys := mkSys (NewUnifiedBlockStore bs) ∅ Idle None.

Definition reachable (bs : Z) : sys -> Prop := rtc step (init bs).

(** ** The invariant *)

Definition in_memory (e : BlockEntry) (s : Z) (d : bytes) : Prop :=
  be_SeqNum e = s /\ be_Data e = d /\ (be_State e = BlockStateHot \/ be_State e = BlockStatePending).

(** What every block looks like. *)
Definition block_ok (u : UnifiedBlockStore) (new : gmap Z (Z * bytes)) (b : Z) : Prop :=
  match new !! b with
  | Some (s, d) =>
      (forall e, readPersisted (persistedExtents u) b = Some e -> be_SeqNum e <= s) /\
      match get_entry u b with
      | Some e => in_memory e s d
      | None => exists e, readPersisted (persistedExtents u) b = Some e /\ be_SeqNum e = s
      end
  | None => get_entry u b = None /\ readPersisted (persistedExtents u) b = None
  end.

(** An eligible item: its block is still in memory, under a SeqNum not below
    the item's, and no extent of it is newer than the item. *)
Definition item_seen (u : UnifiedBlockStore) (it : Z * Z * bool) : Prop :=
  it.2 = true ->
  (exists e, get_entry u it.1.1 = Some e /\ it.1.2 <= be_SeqNum e) /\
  (forall e, readPersisted (persistedExtents u) it.1.1 = Some e -> be_SeqNum e <= it.1.2).

Definition item_installed (u : UnifiedBlockStore) (it : Z * Z * bool) : Prop :=
  it.2 = true ->
  exists e, readPersisted (persistedExtents u) it.1.1 = Some e /\ be_SeqNum e = it.1.2.

Definition drain_ok (u : UnifiedBlockStore) (d : drain) : Prop :=
  match d with
  | Idle => True
  | Scan oid off todo seen =>
      drain_args_ok off (seen.*1 ++ todo) /\ Forall (item_seen u) seen
  | Finalize todo k => NoDup todo.*1.*1 /\ Forall (item_installed u) todo
  end.

Definition reader_ok (u : UnifiedBlockStore) (r : option (Z * option Z)) : Prop :=
  forall b s, r = Some (b, Some s) ->
  exists e, readPersisted (persistedExtents u) b = Some e /\ s <= be_SeqNum e.

Record inv (x : sys) : Prop := {
  i_shards : shards_wf (store x);
  i_exts : exts_wf stride (persistedExtents (store x));
  i_blocks : forall b, block_ok (store x) (newest x) b;
  i_drain : drain_ok (store x) (dr x);
  i_reader : reader_ok (store x) (reader x)
}.

Context (Hstride : 0 < stride).

Lemma exts_wf_empty : exts_wf stride ∅.
Proof.
  split; [intros k pe H; by rewrite lookup_empty in H|]. rewrite fmap_empty. exact (map_wf_empty stride).
Qed.

Lemma new_get bs b : get_entry (NewUnifiedBlockStore bs) b = None.
Proof.
  destruct (get_entry _ b) as [e|] eqn:E; [|done]. apply all_entries_elem in E; [|apply new_wf].
  unfold all_entries in E. cbn in E. set_solver.
Qed.

Lemma inv_init bs : inv (init bs).
Proof.
  constructor; [apply new_wf|apply exts_wf_empty| |done|by intros ? ? [=]].
  intros b. unfold block_ok. cbn [init newest store]. rewrite lookup_empty. split; [apply new_get|].
  rewrite (readPersisted_spec stride Hstride) by apply exts_wf_empty. done.
Qed.

(** A write only concerns its own block. *)
Lemma inv_write u new d r b data s :
  0 < s -> (forall s', seqs_of new b = Some s' -> s' < s) ->
  inv (mkSys u new d r) ->
  inv (mkSys (WriteWithSeqNum b data s u) (<[b := (s, data)]> new) d r).
Proof.
  intros Hpos Hord [Hs He Hb Hd Hr]. cbn in *.
  assert (forall e, readPersisted (persistedExtents u) b = Some e -> be_SeqNum e <= s) as Hext.
  { intros e Hre. specialize (Hb b). unfold block_ok in Hb. unfold seqs_of in Hord.
    destruct (new !! b) as [[s' d']|] eqn:E.
    - destruct Hb as [Hb _]. apply Hb in Hre. specialize (Hord s' eq_refl). lia.
    - destruct Hb as [_ Hb]. congruence. }
  assert (forall e, get_entry u b = Some e -> be_SeqNum e < s) as Hent.
  { intros e Hge. specialize (Hb b). unfold block_ok in Hb. unfold seqs_of in Hord. rewrite Hge in Hb.
    destruct (new !! b) as [[s' d']|] eqn:E; [|by destruct Hb].
    destruct Hb as (_ & <- & _). by apply Hord. }
  assert (WriteWithSeqNum b data s u = put_block b (mkBE data s 0 0 BlockStateHot) u) as Hw.
  { unfold WriteWithSeqNum. destruct (get_entry u b) as [e|]; cbn.
    - rewrite (proj2 (Z.ltb_lt _ _)) by auto. done.
    - rewrite (proj2 (Z.ltb_lt 0 s)) by done. done. }
  rewrite Hw. constructor; [by apply put_wf|exact He| | |exact Hr].
  - cbn [store newest]. intros b'. unfold block_ok. rewrite get_put by done. cbn [put_block set_shards persistedExtents].
    destruct (decide (b = b')) as [<-|Hne].
    + rewrite lookup_insert_eq. split; [done|]. by repeat split; left.
    + rewrite lookup_insert_ne by done. apply Hb.
  - cbn [store dr]. destruct d as [|oid off todo seen|]; [done| |done].
    destruct Hd as [Ha Hf]. split; [done|]. eapply Forall_impl; [exact Hf|]. intros it Hit Ht.
    destruct (Hit Ht) as [(e & Hg & Hle) Hx]. split; [|done]. rewrite get_put by done.
    destruct (decide (b = it.1.1)) as [->|]; [|by eauto].
    eexists; split; [done|]. cbn. apply Hent in Hg. lia.
Qed.
(** Replacing an entry by one with the same SeqNum and data, still in memory. *)
Lemma inv_touch u new d r b e e' :
  get_entry u b = Some e -> be_SeqNum e' = be_SeqNum e -> be_Data e' = be_Data e ->
  be_State e' = BlockStatePending ->
  inv (mkSys u new d r) -> inv (mkSys (put_block b e' u) new d r).
Proof.
  intros Hg Hq Hda Hst [Hs He Hb Hd Hr]. cbn in Hs, He, Hb, Hd, Hr.
  constructor; [by apply put_wf|exact He| | |exact Hr]; cbn [store newest dr].
  - intros b'. specialize (Hb b'). unfold block_ok in *. rewrite get_put by done.
    cbn [put_block set_shards persistedExtents].
    destruct (decide (b = b')) as [<-|]; [|done]. rewrite Hg in Hb.
    destruct (new !! b) as [[s' d']|]; [|by destruct Hb].
    destruct Hb as (Hx & H1 & H2 & _). split; [done|]. unfold in_memory. rewrite Hq, Hda. auto.
  - destruct d as [|oid off todo seen|]; [done| |done].
    destruct Hd as [Ha Hf]. split; [done|]. eapply Forall_impl; [exact Hf|]. intros it Hit Ht.
    destruct (Hit Ht) as [(e0 & Hg0 & Hle) Hx]. split; [|done]. rewrite get_put by done.
    destruct (decide (b = it.1.1)) as [->|]; [|by eauto].
    exists e'. split; [done|]. rewrite Hg in Hg0. injection Hg0 as <-. lia.
Qed.

Lemma inv_pending u new d r b :
  inv (mkSys u new d r) -> inv (mkSys (MarkPending b u).2 new d r).
Proof.
  intros Hi. unfold MarkPending. destruct (get_entry u b) as [e|] eqn:Hg; [|done].
  destruct (decide _); [|done]. by apply (inv_touch _ _ _ _ _ e).
Qed.

Lemma inv_scan u new r oid off b s todo seen :
  inv (mkSys u new (Scan oid off ((b, s) :: todo) seen) r) ->
  inv (mkSys u new (Scan oid off todo (seen ++ [(b, s, is_sealed u b s)])) r).
Proof.
  intros [Hs He Hb Hd Hr]. constructor; [done..| |done]. cbn in Hd, Hb |- *.
  destruct Hd as [Ha Hf]. split.
  - rewrite fmap_app, <-app_assoc. exact Ha.
  - apply Forall_app. split; [done|]. apply Forall_singleton. intros Hsl. cbn in Hsl |- *.
    unfold is_sealed in Hsl. specialize (Hb b). unfold block_ok in Hb.
    destruct (get_entry u b) as [e|]; [|done].
    apply andb_true_iff in Hsl as [_ Hq]. apply Z.eqb_eq in Hq.
    destruct (new !! b) as [[s' d']|]; [|by destruct Hb].
    destruct Hb as (Hx & H1 & _). split; [exists e; split; [done|lia]|].
    intros e' He'. apply Hx in He'. lia.
Qed.

(** What pass 2 makes readable, block by block. *)
Lemma pass2_read u oid off seen :
  exts_wf stride (persistedExtents u) -> drain_args_ok off seen.*1 ->
  exts_wf stride (persistedExtents (range_pass2 oid off stride seen u)) /\
  forall b, readPersisted (persistedExtents (range_pass2 oid off stride seen u)) b =
    match items_entry oid off stride 0 seen b with
    | Some e => Some e
    | None => readPersisted (persistedExtents u) b
    end.
Proof.
  intros He (Hnd & Hrng & Ho & Hlen & _). rewrite length_fmap in Hlen.
  destruct (install_runs_spec stride oid off Hstride Ho seen Hnd) with
    (run := @None (Z * Z * list Z)) (i := 0) (exts := persistedExtents u) as [W L]; try done.
  intros it Hit. apply (Hrng it.1). apply list_elem_of_fmap. eauto.
Qed.

Lemma items_entry_seq oid off i seen b e :
  items_entry oid off stride i seen b = Some e -> (b, be_SeqNum e, true) ∈ seen.
Proof.
  revert i. induction seen as [|[[b0 s] el] seen IH]; intros i; cbn; [done|].
  destruct (el && (b =? b0)) eqn:E; [|intros H; right; eauto].
  apply andb_true_iff in E as [-> ->%Z.eqb_eq]. intros [= <-]. left.
Qed.

Lemma items_entry_elem oid off i seen b s :
  NoDup seen.*1.*1 -> (b, s, true) ∈ seen ->
  exists e, items_entry oid off stride i seen b = Some e /\ be_SeqNum e = s.
Proof.
  revert i. induction seen as [|[[b0 s0] el] seen IH]; intros i Hnd Hin; [by apply elem_of_nil in Hin|].
  apply NoDup_cons in Hnd as [Hnin Hnd]. cbn. apply elem_of_cons in Hin as [[= <- <- <-]|Hin].
  - rewrite Z.eqb_refl. cbn [andb]. by eexists.
  - destruct (Z.eqb_spec b b0) as [->|]; [|rewrite andb_false_r; by apply IH]. exfalso. apply Hnin.
    apply list_elem_of_fmap. exists (b0, s). split; [done|].
    apply list_elem_of_fmap. by exists (b0, s, true).
Qed.

Lemma inv_install u new r oid off seen :
  inv (mkSys u new (Scan oid off [] seen) r) ->
  inv (mkSys (range_pass2 oid off stride seen u) new (Finalize seen 0) r).
Proof.
  intros [Hs He Hb [Ha Hf] Hr]. cbn in Hs, He, Hb, Ha, Hf, Hr. rewrite app_nil_r in Ha.
  destruct (pass2_read u oid off seen He Ha) as [W L].
  assert (forall b e, items_entry oid off stride 0 seen b = Some e ->
    item_seen u (b, be_SeqNum e, true)) as Hit.
  { intros b e H. rewrite Forall_forall in Hf. apply Hf. by eapply items_entry_seq. }
  constructor; cbn [store newest dr reader]; [by constructor; apply Hs|done| | |].
  - intros b. specialize (Hb b). unfold block_ok in *. rewrite L.
    change (get_entry (range_pass2 oid off stride seen u) b) with (get_entry u b).
    destruct (items_entry oid off stride 0 seen b) as [e|] eqn:Ei; [|done].
    destruct (Hit _ _ Ei eq_refl) as [(e' & Hg & Hle) _]. cbn in Hg, Hle. rewrite Hg in *.
    destruct (new !! b) as [[s' d']|]; [|by destruct Hb].
    destruct Hb as [_ Hm]. split; [|done]. intros e0 [= <-]. destruct Hm as [Hq _]. lia.
  - split; [apply Ha|]. apply Forall_forall. intros [[b s] el] Hin Hel. cbn in Hel. subst el. cbn [fst snd].
    destruct (items_entry_elem oid off 0 seen b s (proj1 Ha) Hin) as (e & Hie & Hq).
    exists e. by rewrite L, Hie.
  - intros b s Hrd. destruct (Hr b s Hrd) as (e & Hre & Hle). rewrite L.
    destruct (items_entry oid off stride 0 seen b) as [e'|] eqn:Ei; [|by eauto].
    exists e'. split; [done|]. destruct (Hit _ _ Ei eq_refl) as [_ Hx]. cbn in Hx.
    apply Hx in Hre. lia.
Qed.

Lemma inv_drop u new r it todo k :
  inv (mkSys u new (Finalize (it :: todo) k) r) ->
  inv (mkSys (range_pass3_step (k, u) it).2 new (Finalize todo (range_pass3_step (k, u) it).1) r).
Proof.
  intros [Hs He Hb [Hnd Hf] Hr]. cbn in Hs, He, Hb, Hnd, Hf, Hr.
  apply NoDup_cons in Hnd as [_ Hnd]. apply Forall_cons in Hf as [Hit Hf].
  destruct it as [[b s] el]. unfold range_pass3_step.
  destruct (el && is_sealed u b s) eqn:E; cbn [fst snd]; [|by constructor].
  apply andb_true_iff in E as [-> Hsl]. destruct (Hit eq_refl) as (e & Hre & Hq). cbn in Hre, Hq.
  constructor; cbn [store newest dr reader]; [by apply del_wf|done| |done|done].
  intros b'. specialize (Hb b'). unfold block_ok in *. rewrite get_del by done.
  cbn [del_block set_shards persistedExtents].
  destruct (decide (b = b')) as [<-|]; [|done].
  unfold is_sealed in Hsl. destruct (get_entry u b) as [e0|]; [|done].
  apply andb_true_iff in Hsl as [_ Hq0]. apply Z.eqb_eq in Hq0.
  destruct (new !! b) as [[s' d']|]; [|by destruct Hb].
  destruct Hb as (Hx & H1 & _). split; [done|]. exists e. split; [done|]. lia.
Qed.

Lemma inv_step x y : step x y -> inv x -> inv y.
Proof.
  intros Hst. destruct Hst.
  - by apply inv_write.
  - by apply inv_pending.
  - intros []. by constructor.
  - apply inv_scan.
  - intros []. by constructor.
  - apply inv_install.
  - apply inv_drop.
  - intros [[] ? ? ? ?]. by constructor.
  - intros [Hs He Hb Hd Hr]. constructor; [done..|]. cbn in *. intros b' s [= <- Hq].
    specialize (Hb b). unfold block_ok, seqs_of in *. destruct (new !! b) as [[s' d']|]; [|done].
    cbn in Hq. injection Hq as ->. rewrite H in Hb. destruct Hb as (_ & e & Hre & Hq).
    exists e. split; [done|]. cbn. lia.
  - intros [Hs He Hb Hd Hr]. constructor; [done..|]. by intros ? ? [=].
Qed.

Lemma inv_reachable bs x : reachable bs x -> inv x.
Proof.
  intros H. unfold reachable in H. assert (inv (init bs)) as Hi by apply inv_init.
  induction H as [|x y z Hxy Hyz IH]; [done|]. apply IH. by eapply inv_step.
Qed.
End race.

(** ** The theorems *)

(** C8. Newest write wins at every instant. In every state the store can reach
    through any interleaving of writes, WAL flushes, the per-block steps of a
    drain and a two-step reader, reading a block that has been written returns
    an entry with the SeqNum of its newest write (its data, when the entry is
    in memory); and a read that already missed the sharded index will resolve
    to an extent at least as new as the newest write when it started. No reader
    sees a written block as unwritten in the middle of a transition. *)
Theorem reader_sees_newest stride bs x b s d :
  0 < stride -> reachable stride bs x -> newest x !! b = Some (s, d) ->
  (exists e, (ReadEntry (store x) b).1 = Some e /\ be_SeqNum e = s /\
     (be_State e = BlockStatePersisted \/ be_Data e = d)) /\
  (forall s0, reader x = Some (b, Some s0) ->
     exists e, readPersisted (persistedExtents (store x)) b = Some e /\ s0 <= be_SeqNum e <= s).
Proof.
  intros Hst Hx Hn. destruct (inv_reachable stride Hst bs x Hx) as [Hs He Hb Hd Hr].
  specialize (Hb b). unfold block_ok in Hb. rewrite Hn in Hb. destruct Hb as [Hle Hb]. split.
  - unfold ReadEntry. destruct (get_entry (store x) b) as [e|].
    + destruct Hb as (Hq & Hda & _). exists e. cbn. auto.
    + destruct Hb as (e & Hre & Hq). rewrite Hre. exists e. split; [done|]. split; [done|]. left.
      rewrite (readPersisted_spec stride Hst) in Hre by done.
      destruct (LookupBlockToObject _ _ _); cbn in Hre; [|done]. by injection Hre as <-.
  - intros s0 Hrd. destruct (Hr b s0 Hrd) as (e & Hre & Hge). exists e. auto.
Qed.

(** A drain of two blocks raced by a rewrite of the second one. *)
Definition ex_race : sys :=
  let w1 := WriteWithSeqNum 7 [Byte.x01] 1 (NewUnifiedBlockStore 4096) in
  let w2 := WriteWithSeqNum 8 [Byte.x02] 2 w1 in
  let p := (MarkPending 8 (MarkPending 7 w2).2).2 in
  let w3 := WriteWithSeqNum 8 [Byte.x03] 3 p in
  mkSys (range_pass2 5 10 4096 [(7, 1, true); (8, 2, true)] w3)
        (<[8 := (3, [Byte.x03])]> (<[8 := (2, [Byte.x02])]> (<[7 := (1, [Byte.x01])]> ∅)))
        (Finalize [(7, 1, true); (8, 2, true)] 0) None.

Definition ex_race' : sys :=
  mkSys (range_pass3_step (0, store ex_race) (7, 1, true)).2 (newest ex_race)
        (Finalize [(8, 2, true)] 1) (Some (7, Some 1)).

Lemma ex_race_reachable : reachable 4096 4096 ex_race'.
Proof.
  unfold reachable, init.
  eapply rtc_l; [apply (step_write _ _ _ _ _ 7 [Byte.x01] 1); [reflexivity|by intros ? [=]]|].
  eapply rtc_l; [apply (step_write _ _ _ _ _ 8 [Byte.x02] 2); [reflexivity|by intros ? [=]]|].
  eapply rtc_l; [apply (step_pending _ _ _ _ _ 7)|].
  eapply rtc_l; [apply (step_pending _ _ _ _ _ 8)|].
  eapply rtc_l; [apply (step_start _ _ _ _ 5 10 [(7, 1); (8, 2)])|].
  { repeat split; [|set_solver by lia..|done]. apply (bool_decide_unpack _). exact I. }
  do 2 (eapply rtc_l; [apply step_scan|]).
  eapply rtc_l; [apply (step_write _ _ _ _ _ 8 [Byte.x03] 3); [reflexivity|by intros ? [= <-]]|].
  eapply rtc_l; [apply step_install; reflexivity|].
  eapply rtc_l; [apply step_drop|].
  eapply rtc_l; [apply (step_read _ _ _ _ 7); vm_compute; reflexivity|].
  apply rtc_refl.
Qed.

Lemma reader_sees_newest_witness :
  (exists e, (ReadEntry (store ex_race') 8).1 = Some e /\ be_SeqNum e = 3 /\
     (be_State e = BlockStatePersisted \/ be_Data e = [Byte.x03])) /\
  (exists e, readPersisted (persistedExtents (store ex_race')) 7 = Some e /\ 1 <= be_SeqNum e <= 1).
Proof.
  split.
  - apply (reader_sees_newest 4096 4096 ex_race' 8 3 [Byte.x03]); [reflexivity|exact ex_race_reachable|reflexivity].
  - apply (reader_sees_newest 4096 4096 ex_race' 7 1 [Byte.x01]); [reflexivity|exact ex_race_reachable|reflexivity|reflexivity].
Defined.

Section sequential.
Context (stride : Z).

Lemma scan_all u new r oid off pairs seen :
  rtc (step stride) (mkSys u new (Scan oid off pairs seen) r)
    (mkSys u new (Scan oid off [] (seen ++ ((fun p => (p.1, p.2, is_sealed u p.1 p.2)) <$> pairs))) r).
Proof.
  revert seen. induction pairs as [|[b s] pairs IH]; intros seen.
  - cbn. rewrite app_nil_r. apply rtc_refl.
  - eapply rtc_l; [apply step_scan|]. specialize (IH (seen ++ [(b, s, is_sealed u b s)])).
    rewrite <-app_assoc in IH. exact IH.
Qed.

Lemma drop_all new r items u k :
  rtc (step stride) (mkSys u new (Finalize items k) r)
    (mkSys (fold_left range_pass3_step items (k, u)).2 new
       (Finalize [] (fold_left range_pass3_step items (k, u)).1) r).
Proof.
  revert u k. induction items as [|it items IH]; intros u k; [apply rtc_refl|].
  eapply rtc_l; [apply step_drop|]. cbn [fold_left].
  destruct (range_pass3_step (k, u) it) as [k' u']. apply IH.
Qed.

Lemma pass1_zip u blocks seqNums :
  range_pass1 u blocks seqNums = (fun p => (p.1, p.2, is_sealed u p.1 p.2)) <$> zip blocks seqNums.
Proof.
  unfold range_pass1. revert seqNums. induction blocks as [|b bs IH]; intros [|s ss]; try done.
  cbn. f_equal. apply IH.
Qed.
End sequential.

(** The step relation refines the code: run without interruption, the
    steps of a drain take the store exactly where one call of
    [MarkPersistedRange] takes it, on every path through the function. *)
Lemma MarkPersistedRange_steps stride u new r blocks oid off seqNums :
  length blocks = length seqNums -> drain_args_ok stride off (zip blocks seqNums) ->
  rtc (step stride) (mkSys u new Idle r)
    (mkSys (MarkPersistedRange blocks oid off stride seqNums u).2 new Idle r).
Proof.
  intros Hl Ha. pose proof Ha as (_ & _ & _ & _ & Hne). unfold MarkPersistedRange.
  assert ((length blocks =? 0)%nat = false) as ->.
  { destruct blocks; [|done]. by destruct Hne. }
  rewrite (proj2 (Nat.eqb_eq _ _) Hl). cbn [orb negb].
  eapply rtc_l; [by apply (step_start _ _ _ _ oid off (zip blocks seqNums))|].
  etrans; [apply scan_all|]. cbn [app]. rewrite <-pass1_zip.
  destruct (List.existsb (fun it => it.2) (range_pass1 u blocks seqNums)) eqn:E; cbn [negb].
  - eapply rtc_l; [by apply step_install|]. etrans; [apply drop_all|].
    destruct (fold_left _ _ _) as [k u']. apply rtc_once. apply step_finish.
  - apply rtc_once. by apply step_none.
Qed.

Definition ex_pending : UnifiedBlockStore :=
  (MarkPending 8 (MarkPending 7
    (WriteWithSeqNum 8 [Byte.x02] 2 (WriteWithSeqNum 7 [Byte.x01] 1 (NewUnifiedBlockStore 4096)))).2).2.

(** ** Sequential effect *)

Section effect.
Context (stride : Z) (Hstride : 0 < stride).

Lemma pass3_all items : forall u k,
  shards_wf u -> NoDup items.*1.*1 ->
  (forall it, it ∈ items -> it.2 = is_sealed u it.1.1 it.1.2) ->
  let r := fold_left range_pass3_step items (k, u) in
  shards_wf r.2 /\ persistedExtents r.2 = persistedExtents u /\
  r.1 = k + Z.of_nat (length (filter (fun it : Z * Z * bool => it.2 = true) items)) /\
  forall b, get_entry r.2 b =
    if existsb (fun it : Z * Z * bool => it.2 && (b =? it.1.1)) items then None else get_entry u b.
Proof.
  induction items as [|[[b0 s] el] items IH]; intros u k Hs Hnd Hel; cbn [fold_left].
  { cbn. repeat split; try done; try apply Hs; lia. }
  apply NoDup_cons in Hnd as [Hnin Hnd].
  pose proof (Hel (b0, s, el) ltac:(by left)) as E0. cbn in E0.
  assert (range_pass3_step (k, u) (b0, s, el) = if el then (k + 1, del_block b0 u) else (k, u)) as ->
    by (unfold range_pass3_step; by rewrite <-E0, andb_diag).
  assert (forall it, it ∈ items -> it.1.1 <> b0) as Hne.
  { intros it Hin <-. apply Hnin. apply list_elem_of_fmap. exists it.1. split; [done|].
    apply list_elem_of_fmap. eauto. }
  destruct el.
  - destruct (IH (del_block b0 u) (k + 1)) as (W & X & N & G); [by apply del_wf|done| |].
    { intros it Hin. rewrite (Hel it) by (by right). unfold is_sealed. rewrite get_del by done.
      destruct (decide _) as [Heq|]; [|done]. symmetry in Heq. by apply Hne in Hin. }
    cbn zeta in *. split; [exact W|]. split; [exact X|]. split.
    + rewrite N, filter_cons_True by reflexivity. cbn [length]. lia.
    + intros b. rewrite G, get_del by done. cbn.
      destruct (Z.eqb_spec b b0) as [->|Hn']; cbn.
      * rewrite decide_True by done. by destruct (existsb _ _).
      * rewrite decide_False by done. done.
  - destruct (IH u k) as (W & X & N & G); [done..|intros; apply Hel; by right|].
    cbn zeta in *. split; [done|]. split; [done|]. split; [|done].
    rewrite N, filter_cons_False by done. done.
Qed.
Lemma existsb_items oid off items b : forall i,
  existsb (fun it : Z * Z * bool => it.2 && (b =? it.1.1)) items =
  bool_decide (is_Some (items_entry oid off stride i items b)).
Proof.
  induction items as [|[[b0 s] el] items IH]; intros i; cbn; [done|].
  destruct (el && (b =? b0)); cbn; [done|]. apply IH.
Qed.

Lemma items_none oid off items b : forall i,
  List.existsb snd items = false -> items_entry oid off stride i items b = None.
Proof.
  induction items as [|[[b0 s] el] items IH]; intros i H; cbn in *; [done|].
  apply orb_false_iff in H as [-> H]. cbn. by apply IH.
Qed.

Lemma none_eligible items :
  List.existsb snd items = false -> filter (fun it : Z * Z * bool => it.2 = true) items = [].
Proof.
  induction items as [|[[b0 s] el] items IH]; [done|]. cbn. intros [-> H]%orb_false_iff. by apply IH.
Qed.

Lemma read_entry_eq u b :
  (ReadEntry u b).1 = match get_entry u b with
                      | Some e => Some e
                      | None => readPersisted (persistedExtents u) b
                      end.
Proof.
  unfold ReadEntry. destruct (get_entry u b); [done|]. by destruct (readPersisted _ b).
Qed.
(** Both indexes after [MarkPersistedRange] on a quiescent store. *)
Lemma mark_range_parts u blocks oid off seqNums :
  shards_wf u -> exts_wf stride (persistedExtents u) ->
  length blocks = length seqNums -> drain_args_ok stride off (zip blocks seqNums) ->
  let r := MarkPersistedRange blocks oid off stride seqNums u in
  let moved := items_entry oid off stride 0 (range_pass1 u blocks seqNums) in
  shards_wf r.2 /\ exts_wf stride (persistedExtents r.2) /\
  r.1 = Z.of_nat (length (filter (fun it : Z * Z * bool => it.2 = true) (range_pass1 u blocks seqNums))) /\
  (forall b, get_entry r.2 b = match moved b with Some _ => None | None => get_entry u b end) /\
  (forall b, readPersisted (persistedExtents r.2) b =
     match moved b with Some e => Some e | None => readPersisted (persistedExtents u) b end).
Proof.
  intros Hs He Hl Ha. pose proof Ha as (_ & _ & _ & _ & Hne). cbn zeta. unfold MarkPersistedRange.
  assert ((length blocks =? 0)%nat = false) as ->.
  { destruct blocks; [|done]. by destruct Hne. }
  rewrite (proj2 (Nat.eqb_eq _ _) Hl). cbn [orb negb].
  set (items := range_pass1 u blocks seqNums).
  assert (items.*1 = zip blocks seqNums) as Hi1.
  { unfold items. rewrite pass1_zip, <-list_fmap_compose.
    rewrite (list_fmap_ext _ id), list_fmap_id; [done|]. by intros ? [? ?] _. }
  destruct (List.existsb (fun it => it.2) items) eqn:E; cbn [negb fst snd].
  - rewrite <-Hi1 in Ha. destruct (pass2_read stride Hstride u oid off items He Ha) as [W L].
    destruct (pass3_all items (range_pass2 oid off stride items u) 0) as (W3 & X3 & N3 & G3).
    + constructor; apply Hs.
    + apply Ha.
    + intros [[b s] el] Hin. unfold items in Hin. rewrite pass1_zip in Hin.
      apply list_elem_of_fmap in Hin as ([b' s'] & [= -> -> ->] & _). done.
    + cbn zeta in *. destruct (fold_left _ _ _) as [k u3]. cbn [fst snd] in *.
      split; [constructor; apply W3|]. split; [cbn; by rewrite X3|]. split; [done|]. split; intros b.
      * change (get_entry (count_stat StWrites k u3) b) with (get_entry u3 b).
        rewrite G3, (existsb_items oid off _ _ 0). by destruct (items_entry oid off stride 0 items b).
      * cbn [count_stat persistedExtents]. by rewrite X3, L.
  - split; [done|]. split; [done|]. split; [by rewrite none_eligible|]. split; intros b; by rewrite items_none.
Qed.
End effect.

(** The block is sealed in memory under exactly this SeqNum. *)
Definition pending_under (u : UnifiedBlockStore) (p : Z * Z) : Prop :=
  match get_entry u p.1 with
  | Some e => be_State e = BlockStatePending /\ be_SeqNum e = p.2
  | None => False
  end.

#[global] Instance pending_under_dec u p : Decision (pending_under u p).
Proof. unfold pending_under. destruct (get_entry u p.1); apply _. Defined.

Lemma pending_sealed u b q : is_sealed u b q = bool_decide (pending_under u (b, q)).
Proof.
  apply (proj2 (Bool.eq_iff_eq_true _ _)). rewrite bool_decide_eq_true. unfold is_sealed, pending_under. cbn [fst snd].
  destruct (get_entry u b) as [e|]; [|done]. by rewrite andb_true_iff, bool_decide_eq_true, Z.eqb_eq.
Qed.

Lemma pass1_count u pairs :
  length (filter (fun it : Z * Z * bool => it.2 = true) ((fun p => (p.1, p.2, is_sealed u p.1 p.2)) <$> pairs))
  = length (filter (pending_under u) pairs).
Proof.
  induction pairs as [|[b q] pairs IH]; [done|]. cbn [fmap list_fmap]. rewrite !filter_cons. cbn [fst snd].
  rewrite pending_sealed. destruct (decide (pending_under u (b, q))) as [H|H].
  - rewrite bool_decide_eq_true_2, decide_True by done. cbn [length]. f_equal. exact IH.
  - rewrite bool_decide_eq_false_2, decide_False by done. exact IH.
Qed.

(** Where a block of the run goes. *)
Lemma pass1_entry oid off stride u b : forall pairs i,
  NoDup pairs.*1 ->
  items_entry oid off stride i ((fun p => (p.1, p.2, is_sealed u p.1 p.2)) <$> pairs) b = None /\
    (forall q, (b, q) ∈ pairs -> ~ pending_under u (b, q)) \/
  exists k q, pairs !! k = Some (b, q) /\ pending_under u (b, q) /\
    items_entry oid off stride i ((fun p => (p.1, p.2, is_sealed u p.1 p.2)) <$> pairs) b
      = Some (mkBE [] q oid (off + (i + Z.of_nat k) * stride) BlockStatePersisted).
Proof.
  induction pairs as [|[b0 q0] pairs IH]; intros i Hnd; [left; split; [done|]; intros q Hq; inversion Hq|].
  apply NoDup_cons in Hnd as [Hni Hnd]. cbn [fmap list_fmap items_entry fst snd]. rewrite pending_sealed.
  assert (forall q, b = b0 -> (b, q) ∈ pairs -> False) as Hout.
  { intros q -> Hq. apply Hni. apply list_elem_of_fmap. by exists (b0, q). }
  destruct (bool_decide_reflect (pending_under u (b0, q0))) as [Hp|Hp], (Z.eqb_spec b b0) as [Heq|Hne]; cbn [andb].
  - subst b0. right. exists 0%nat, q0. split; [done|]. split; [done|]. do 2 f_equal. lia.
  - destruct (IH (i + 1) Hnd) as [[-> Hq]|(k & q & Hk & Hq & ->)].
    + left. split; [done|]. intros q [[= ? ?]|Hin]%elem_of_cons; [done|by apply Hq].
    + right. exists (S k), q. split; [done|]. split; [done|]. do 2 f_equal. lia.
  - subst b0. destruct (IH (i + 1) Hnd) as [[-> Hq]|(k & q & Hk & _)]; [|by destruct (Hout q eq_refl (list_elem_of_lookup_2 _ _ _ Hk))].
    left. split; [done|]. intros q [[= ->]|Hin]%elem_of_cons; [done|by apply Hq].
  - destruct (IH (i + 1) Hnd) as [[-> Hq]|(k & q & Hk & Hq & ->)].
    + left. split; [done|]. intros q [[= ? ?]|Hin]%elem_of_cons; [done|by apply Hq].
    + right. exists (S k), q. split; [done|]. split; [done|]. do 2 f_equal. lia.
Qed.

(** C24. What one call of MarkPersistedRange does to a store no one else uses:
    a block of the run that is Pending under exactly the SeqNum that went into
    the chunk leaves memory and reads as Persisted at its slot of the chunk;
    every other block, rewritten since, not yet flushed or not in the run,
    keeps its entry and reads exactly as before; the result counts the blocks
    that moved; and both indexes stay well-formed. *)
Theorem MarkPersistedRange_effect stride u blocks oid off seqNums :
  0 < stride -> shards_wf u -> exts_wf stride (persistedExtents u) ->
  length blocks = length seqNums -> drain_args_ok stride off (zip blocks seqNums) ->
  let r := MarkPersistedRange blocks oid off stride seqNums u in
  shards_wf r.2 /\ exts_wf stride (persistedExtents r.2) /\
  r.1 = Z.of_nat (length (filter (pending_under u) (zip blocks seqNums))) /\
  (forall i b q, zip blocks seqNums !! i = Some (b, q) -> pending_under u (b, q) ->
    get_entry r.2 b = None /\
    (ReadEntry r.2 b).1 = Some (mkBE [] q oid (off + Z.of_nat i * stride) BlockStatePersisted)) /\
  (forall b, (forall q, (b, q) ∈ zip blocks seqNums -> ~ pending_under u (b, q)) ->
    get_entry r.2 b = get_entry u b /\ (ReadEntry r.2 b).1 = (ReadEntry u b).1).
Proof.
  intros Hst Hs He Hl Ha.
  destruct (mark_range_parts stride Hst u blocks oid off seqNums Hs He Hl Ha) as (W & X & N & G & R).
  rewrite pass1_zip, pass1_count in N. split; [exact W|]. split; [exact X|]. split; [exact N|].
  assert (forall b, get_entry _ b = _ /\ readPersisted _ b = _) as GR by (intros b; exact (conj (G b) (R b))). clear G R.
  split; [intros i b q Hi Hp|intros b Hno]; destruct (GR b) as [Gb Rb]; rewrite !read_entry_eq, Gb, Rb, pass1_zip;
    destruct (pass1_entry oid off stride u b (zip blocks seqNums) 0 (proj1 Ha)) as [[-> Hq]|(k & q' & Hk & Hp' & ->)].
  - by destruct (Hq q (list_elem_of_lookup_2 _ _ _ Hi)).
  - destruct Ha as (Hnd & _). assert (k = i) as ->.
    { apply (NoDup_lookup (zip blocks seqNums).*1 k i b Hnd); by rewrite list_lookup_fmap, ?Hk, ?Hi. }
    rewrite Hi in Hk. injection Hk as <-. split; [done|]. do 2 f_equal.
  - done.
  - by destruct (Hno q' (list_elem_of_lookup_2 _ _ _ Hk)).
Qed.

Lemma ex_pending_wf : shards_wf ex_pending /\ exts_wf 4096 (persistedExtents ex_pending).
Proof.
  split; [|apply exts_wf_empty]. unfold ex_pending, MarkPending.
  repeat first [apply put_wf | apply new_wf | case_match; cbn [snd]].
Qed.

Lemma MarkPersistedRange_effect_witness :
  (ReadEntry (MarkPersistedRange [7; 8] 5 10 4096 [1; 9] ex_pending).2 7).1
    = Some (mkBE [] 1 5 10 BlockStatePersisted) /\
  (ReadEntry (MarkPersistedRange [7; 8] 5 10 4096 [1; 9] ex_pending).2 8).1
    = Some (mkBE [Byte.x02] 2 0 0 BlockStatePending).
Proof.
  destruct (MarkPersistedRange_effect 4096 ex_pending [7; 8] 5 10 [1; 9]) as (_ & _ & _ & H & Ho).
  - reflexivity.
  - exact (proj1 ex_pending_wf).
  - exact (proj2 ex_pending_wf).
  - reflexivity.
  - repeat split; [|set_solver by lia..|done]. apply (bool_decide_unpack _). exact I.
  - split.
    + apply (H 0%nat 7 1); [reflexivity|vm_compute; split; reflexivity].
    + destruct (Ho 8) as [_ ->]; [|vm_compute; reflexivity]. intros q Hq.
      repeat (apply elem_of_cons in Hq as [[= ->]|Hq]); [vm_compute; intuition discriminate|inversion Hq].
Defined.
