(* ===== verification/Json.v ===== *)
(** * encoding/json, as the metadata envelope uses it

    The scanner of JSON texts (values, strings, numbers, objects and arrays,
    with the nesting limit), the decoding of string and integer literals, and
    the members of an object by their verbatim texts: what [json.Unmarshal]
    needs for a struct of raw, string and integer fields. A value's text ends
    where the scanner says it ends, whatever follows, and no proper prefix of
    an object is a JSON text. *)

From S2P Require Import Prelude Words.
From Stdlib Require Import Strings.Byte.

Definition QUOTE : byte := x22.
Definition BACKSLASH : byte := x5c.
Definition COLON : byte := x3a.
Definition COMMA : byte := x2c.
Definition LBRACE : byte := x7b.
Definition RBRACE : byte := x7d.
Definition LBRACKET : byte := x5b.
Definition RBRACKET : byte := x5d.

(** ** The scanner *)

Definition in_range (lo hi : Z) (c : byte) : bool := (lo <=? Z_of_byte c) && (Z_of_byte c <=? hi).
Definition is_space (c : byte) : bool :=
  Byte.eqb c x20 || Byte.eqb c x09 || Byte.eqb c x0d || Byte.eqb c x0a.
Definition is_digit (c : byte) : bool := in_range 48 57 c.
Definition is_hex (c : byte) : bool := is_digit c || in_range 97 102 c || in_range 65 70 c.

Fixpoint skip_space (s : bytes) : bytes :=
  match s with
  | [] => []
  | c :: s' => if is_space c then skip_space s' else s
  end.

Fixpoint skip_digits (s : bytes) : bytes :=
  match s with
  | [] => []
  | c :: s' => if is_digit c then skip_digits s' else s
  end.

(** At least one digit. *)
Definition scan_digits (s : bytes) : option bytes :=
  match s with
  | c :: s' => if is_digit c then Some (skip_digits s') else None
  | [] => None
  end.

Definition scan_int (s : bytes) : option bytes :=
  match s with
  | c :: s' => if Byte.eqb c x30 then Some s' else scan_digits s
  | [] => None
  end.
Definition scan_frac (s : bytes) : option bytes :=
  match s with
  | c :: s' => if Byte.eqb c x2e then scan_digits s' else Some s
  | [] => Some []
  end.
Definition skip_sign (s : bytes) : bytes :=
  match s with
  | c :: s' => if Byte.eqb c x2b || Byte.eqb c x2d then s' else s
  | [] => []
  end.
Definition scan_exp (s : bytes) : option bytes :=
  match s with
  | c :: s' => if Byte.eqb c x65 || Byte.eqb c x45 then scan_digits (skip_sign s') else Some s
  | [] => Some []
  end.
Definition skip_minus (s : bytes) : bytes :=
  match s with
  | c :: s' => if Byte.eqb c x2d then s' else s
  | [] => []
  end.
Definition scan_number (s : bytes) : option bytes :=
  match scan_int (skip_minus s) with
  | Some s1 => match scan_frac s1 with
               | Some s2 => scan_exp s2
               | None => None
               end
  | None => None
  end.

(** The characters after a backslash, [\u] apart. *)
Definition is_escape (c : byte) : bool :=
  Byte.eqb c x62 || Byte.eqb c x66 || Byte.eqb c x6e || Byte.eqb c x72 || Byte.eqb c x74
  || Byte.eqb c BACKSLASH || Byte.eqb c x2f || Byte.eqb c QUOTE.

(** After the opening quote; what follows the closing one. *)
Fixpoint scan_string (s : bytes) : option bytes :=
  match s with
  | [] => None
  | c :: s' =>
      if Byte.eqb c QUOTE then Some s'
      else if Byte.eqb c BACKSLASH then
        match s' with
        | [] => None
        | e :: s2 =>
            if is_escape e then scan_string s2
            else if Byte.eqb e x75 then
              match s2 with
              | h1 :: h2 :: h3 :: h4 :: s3 =>
                  if is_hex h1 && is_hex h2 && is_hex h3 && is_hex h4 then scan_string s3 else None
              | _ => None
              end
            else None
        end
      else if Z_of_byte c <? 32 then None
      else scan_string s'
  end.

Fixpoint strip_text (p s : bytes) : option bytes :=
  match p, s with
  | [], _ => Some s
  | c :: p', d :: s' => if Byte.eqb c d then strip_text p' s' else None
  | _ :: _, [] => None
  end.

Definition maxNestingDepth : Z := 10000.

(** The text of a value between where it starts and what follows it. *)
Definition text (s rest : bytes) : bytes := take (length s - length rest) s.

(** What follows the value at the front; [depth] objects and arrays are open.
    The members of an object are kept, key and value as they are written. *)
Fixpoint scan_value (fuel : nat) (depth : Z) (s : bytes) : option bytes :=
  match fuel, s with
  | S fuel', c :: s' =>
      if Byte.eqb c LBRACE then
        if maxNestingDepth <? depth + 1 then None
        else match scan_object fuel' (depth + 1) (skip_space s') with
             | Some (_, r) => Some r
             | None => None
             end
      else if Byte.eqb c LBRACKET then
        if maxNestingDepth <? depth + 1 then None
        else match skip_space s' with
             | d :: r => if Byte.eqb d RBRACKET then Some r else scan_elements fuel' (depth + 1) (d :: r)
             | [] => None
             end
      else if Byte.eqb c QUOTE then scan_string s'
      else if Byte.eqb c x74 then strip_text (lit "rue") s'
      else if Byte.eqb c x66 then strip_text (lit "alse") s'
      else if Byte.eqb c x6e then strip_text (lit "ull") s'
      else scan_number s
  | _, _ => None
  end
with scan_object (fuel : nat) (depth : Z) (s : bytes) : option (list (bytes * bytes) * bytes) :=
  match fuel, s with
  | S fuel', c :: s' => if Byte.eqb c RBRACE then Some ([], s') else scan_members fuel' depth s
  | _, _ => None
  end
with scan_members (fuel : nat) (depth : Z) (s : bytes) : option (list (bytes * bytes) * bytes) :=
  match fuel, s with
  | S fuel', c :: s1 =>
      if negb (Byte.eqb c QUOTE) then None
      else
        match scan_string s1 with
        | None => None
        | Some r =>
            match skip_space r with
            | [] => None
            | d :: r' =>
                if negb (Byte.eqb d COLON) then None
                else
                  let v := skip_space r' in
                  match scan_value fuel' depth v with
                  | None => None
                  | Some r2 =>
                      let member := (take (length s1 - length r - 1) s1, text v r2) in
                      match skip_space r2 with
                      | [] => None
                      | e :: r3 =>
                          if Byte.eqb e COMMA then
                            match scan_members fuel' depth (skip_space r3) with
                            | Some (l, r4) => Some (member :: l, r4)
                            | None => None
                            end
                          else if Byte.eqb e RBRACE then Some ([member], r3)
                          else None
                      end
                  end
            end
        end
  | _, _ => None
  end
with scan_elements (fuel : nat) (depth : Z) (s : bytes) : option bytes :=
  match fuel with
  | O => None
  | S fuel' =>
      match scan_value fuel' depth s with
      | None => None
      | Some r =>
          match skip_space r with
          | [] => None
          | e :: r' =>
              if Byte.eqb e COMMA then scan_elements fuel' depth (skip_space r')
              else if Byte.eqb e RBRACKET then Some r'
              else None
          end
      end
  end.

(** Every step reads a byte or opens a value. *)
Definition enough (s : bytes) : nat := 3 * length s + 3.

(** [json.Valid] and the text of the value: one value, space around it. *)
Definition json_text (data : bytes) : option bytes :=
  let s := skip_space data in
  match scan_value (enough s) 0 s with
  | Some r => match skip_space r with [] => Some (text s r) | _ => None end
  | None => None
  end.

(** The text of one value as [json.Marshal] writes it, no space around it, that
    can stand inside an object. *)
Definition json_valid (body : bytes) : bool :=
  match scan_value (enough body) 1 body with Some [] => true | _ => false end.

(** ** Literals *)

Definition hex_val (c : byte) : Z :=
  let z := Z_of_byte c in
  if is_digit c then z - 48 else if in_range 97 102 c then z - 87 else z - 55.

(** [utf8.AppendRune] on a valid rune. *)
Definition utf8_encode (r : Z) : bytes :=
  byte_of_Z <$> (if r <? 0x80 then [r]
                 else if r <? 0x800 then [0xC0 + r / 64; 0x80 + r mod 64]
                 else if r <? 0x10000 then [0xE0 + r / 4096; 0x80 + r / 64 mod 64; 0x80 + r mod 64]
                 else [0xF0 + r / 262144; 0x80 + r / 4096 mod 64; 0x80 + r / 64 mod 64; 0x80 + r mod 64]).
Definition RuneError : Z := 0xFFFD.

(** How many bytes the valid UTF-8 sequence at the front has, 0 if there is none. *)
Definition utf8_len (s : bytes) : nat :=
  match s with
  | [] => 0
  | c :: s' =>
      if in_range 0 127 c then 1
      else match s' with
           | [] => 0
           | c1 :: s2 =>
               if in_range 0xC2 0xDF c then (if in_range 0x80 0xBF c1 then 2 else 0)
               else match s2 with
                    | [] => 0
                    | c2 :: s3 =>
                        let ok1 := (Byte.eqb c xe0 && in_range 0xA0 0xBF c1) || (Byte.eqb c xed && in_range 0x80 0x9F c1)
                                   || ((in_range 0xE1 0xEC c || in_range 0xEE 0xEF c) && in_range 0x80 0xBF c1) in
                        if ok1 && in_range 0x80 0xBF c2 then 3
                        else match s3 with
                             | [] => 0
                             | c3 :: _ =>
                                 let ok2 := (Byte.eqb c xf0 && in_range 0x90 0xBF c1) || (Byte.eqb c xf4 && in_range 0x80 0x8F c1)
                                            || (in_range 0xF1 0xF3 c && in_range 0x80 0xBF c1) in
                                 if ok2 && in_range 0x80 0xBF c2 && in_range 0x80 0xBF c3 then 4 else 0
                             end
                    end
           end
  end%nat.

Definition unescape (e : byte) : byte :=
  if Byte.eqb e x62 then x08 else if Byte.eqb e x66 then x0c else if Byte.eqb e x6e then x0a
  else if Byte.eqb e x72 then x0d else if Byte.eqb e x74 then x09 else e.

(** The four hex digits of a [\u] escape at the front. *)
Definition get_u4 (s : bytes) : option Z :=
  match s with
  | b :: u :: h1 :: h2 :: h3 :: h4 :: _ =>
      if Byte.eqb b BACKSLASH && Byte.eqb u x75 && is_hex h1 && is_hex h2 && is_hex h3 && is_hex h4
      then Some (((hex_val h1 * 16 + hex_val h2) * 16 + hex_val h3) * 16 + hex_val h4) else None
  | _ => None
  end.

(** The rune of a [\u] escape, and whether it took a second one. *)
Definition u_rune (s : bytes) : Z * bool :=
  match get_u4 s with
  | None => (RuneError, false)
  | Some r =>
      if (0xD800 <=? r) && (r <? 0xE000) then
        match get_u4 (drop 6 s) with
        | Some r1 => if (r <? 0xDC00) && (0xDC00 <=? r1) && (r1 <? 0xE000)
                     then ((r - 0xD800) * 1024 + (r1 - 0xDC00) + 0x10000, true) else (RuneError, false)
        | None => (RuneError, false)
        end
      else (r, false)
  end.

(** The contents of a scanned string literal; invalid UTF-8 is replaced. *)
Fixpoint unquote (fuel : nat) (s : bytes) : bytes :=
  match fuel, s with
  | S fuel', c :: s' =>
      if Byte.eqb c BACKSLASH then
        match s' with
        | [] => []
        | e :: s2 =>
            if Byte.eqb e x75 then
              let '(r, two) := u_rune s in
              utf8_encode r ++ unquote fuel' (drop (if two : bool then 12 else 6) s)
            else unescape e :: unquote fuel' s2
        end
      else match utf8_len s with
           | O => utf8_encode RuneError ++ unquote fuel' s'
           | n => take n s ++ unquote fuel' (drop n s)
           end
  | _, _ => []
  end.

Definition null : bytes := lit "null".

(** Decoding a value into a string field; [None] is an error. *)
Definition decode_string (old txt : bytes) : option bytes :=
  match txt with
  | c :: s => if Byte.eqb c QUOTE then Some (unquote (length s) (take (length s - 1) s))
              else if bool_decide (txt = null) then Some old else None
  | [] => None
  end.

(** Decoding a value into an [int] field. *)
Definition digits_val (s : bytes) : Z := fold_left (fun a c => a * 10 + (Z_of_byte c - 48)) s 0.
Definition decode_int (old : Z) (txt : bytes) : option Z :=
  if bool_decide (txt = null) then Some old
  else
    let neg := bool_decide (head txt = Some x2d) in
    let ds := if neg then drop 1 txt else txt in
    if negb (forallb is_digit ds) || bool_decide (ds = []) then None
    else let n := if neg then - digits_val ds else digits_val ds in
         if (- 2 ^ 63 <=? n) && (n <=? MaxInt64) then Some n else None.

(** ** Structs *)

(** Field names match without regard to ASCII case. *)
Definition lower (c : byte) : byte := if in_range 65 90 c then byte_of_Z (Z_of_byte c + 32) else c.
Definition key_is (key : bytes) (field : string) : bool :=
  bool_decide (lower <$> unquote (length key) key = String.list_byte_of_string field).

(** [json.Unmarshal] into a struct: every member in order, [None] is an error;
    [null] leaves the struct alone, other values do not fit. *)
Definition unmarshal_struct {T} (set : T -> bytes * bytes -> option T) (zero : T) (data : bytes) : option T :=
  match json_text data with
  | None => None
  | Some txt =>
      match txt with
      | c :: s =>
          if Byte.eqb c LBRACE then
            match scan_object (enough txt) 1 (skip_space s) with
            | Some (l, _) => fold_left (fun acc m => match acc with Some x => set x m | None => None end) l (Some zero)
            | None => None
            end
          else if bool_decide (txt = null) then Some zero else None
      | [] => None
      end
  end.

(** ** Where a value ends *)

Lemma skip_space_len s : (length (skip_space s) <= length s)%nat.
Proof. induction s as [|c s IH]; [done|]. cbn. destruct (is_space c); cbn; lia. Qed.

Lemma skip_space_app s t : skip_space s <> [] -> skip_space (s ++ t) = skip_space s ++ t.
Proof. induction s as [|c s IH]; [done|]. cbn. destruct (is_space c); [exact IH|done]. Qed.

(** A number may go on with these. *)
Definition stops (t : bytes) : Prop :=
  match t with
  | [] => True
  | c :: _ => is_digit c = false /\ Byte.eqb c x2e = false /\ Byte.eqb c x65 = false /\ Byte.eqb c x45 = false
  end.

Lemma skip_digits_len s : (length (skip_digits s) <= length s)%nat.
Proof. induction s as [|c s IH]; [done|]. cbn. destruct (is_digit c); cbn; lia. Qed.

Lemma skip_digits_app s t : skip_digits s <> [] \/ stops t -> skip_digits (s ++ t) = skip_digits s ++ t.
Proof.
  induction s as [|c s IH]; cbn.
  - intros [?|Ht]; [done|]. destruct t as [|c t]; [done|]. destruct Ht as [Ht _]. cbn. by rewrite Ht.
  - destruct (is_digit c); [exact IH|done].
Qed.

Lemma scan_digits_app s r t : scan_digits s = Some r -> r <> [] \/ stops t ->
  (length r < length s)%nat /\ scan_digits (s ++ t) = Some (r ++ t).
Proof.
  destruct s as [|c s]; [done|]. cbn. destruct (is_digit c); [|done]. intros [= <-] H.
  split; [pose proof (skip_digits_len s); lia|]. by rewrite skip_digits_app.
Qed.

Lemma scan_exp_app s r t : scan_exp s = Some r -> r <> [] \/ stops t ->
  (length r <= length s)%nat /\ scan_exp (s ++ t) = Some (r ++ t).
Proof.
  unfold scan_exp. destruct s as [|c s]; cbn [app].
  { intros [= <-] [?|Ht]; [done|]. split; [done|]. destruct t as [|c t]; [done|]. destruct Ht as (_ & _ & -> & ->). done. }
  destruct (Byte.eqb c x65 || Byte.eqb c x45); [|by intros [= <-]]. intros E H.
  destruct s as [|d s]; [done|]. cbn [skip_sign app] in *.
  destruct (Byte.eqb d x2b || Byte.eqb d x2d).
  - destruct (scan_digits_app s r t E H) as [? ->]. cbn. split; [lia|done].
  - destruct (scan_digits_app (d :: s) r t E H) as [? E']. cbn in *. split; [lia|done].
Qed.

Lemma scan_frac_app s r t : scan_frac s = Some r -> r <> [] \/ stops t ->
  (length r <= length s)%nat /\ scan_frac (s ++ t) = Some (r ++ t).
Proof.
  unfold scan_frac. destruct s as [|c s]; cbn [app].
  { intros [= <-] [?|Ht]; [done|]. split; [done|]. destruct t as [|c t]; [done|]. destruct Ht as (_ & -> & _). done. }
  destruct (Byte.eqb c x2e); [|by intros [= <-]]. intros E H. destruct (scan_digits_app s r t E H) as [? ->]. cbn. split; [lia|done].
Qed.

Lemma scan_int_app s r t : scan_int s = Some r -> r <> [] \/ stops t ->
  (length r < length s)%nat /\ scan_int (s ++ t) = Some (r ++ t).
Proof.
  unfold scan_int. destruct s as [|c s]; [done|]. cbn [app]. destruct (Byte.eqb c x30).
  - intros [= <-] _. cbn. split; [lia|done].
  - apply (scan_digits_app (c :: s)).
Qed.

Lemma len_nonempty (r s : bytes) t : r <> [] \/ stops t -> (length r <= length s)%nat -> s <> [] \/ stops t.
Proof. intros [H|H] Hl; [left|by right]. destruct r; [done|]. intros ->. cbn in Hl. lia. Qed.

Lemma scan_number_app s r t : scan_number s = Some r -> r <> [] \/ stops t ->
  (length r < length s)%nat /\ scan_number (s ++ t) = Some (r ++ t).
Proof.
  unfold scan_number. intros E H. destruct (scan_int (skip_minus s)) as [s1|] eqn:E1; [|done].
  destruct (scan_frac s1) as [s2|] eqn:E2; [|done].
  destruct (scan_exp_app s2 r t E H) as [L3 X3]. pose proof (len_nonempty r s2 t H L3) as H2.
  destruct (scan_frac_app s1 s2 t E2 H2) as [L2 X2]. pose proof (len_nonempty s2 s1 t H2 L2) as H1.
  destruct (scan_int_app _ s1 t E1 H1) as [L1 X1].
  assert (skip_minus (s ++ t) = skip_minus s ++ t /\ (length (skip_minus s) <= length s)%nat) as [-> L0].
  { destruct s as [|c s]; [done|]. cbn. destruct (Byte.eqb c x2d); cbn; split; done || lia. }
  rewrite X1, X2, X3. split; [lia|done].
Qed.

Lemma scan_string_app t : forall n s r, (length s <= n)%nat -> scan_string s = Some r ->
  (length r < length s)%nat /\ scan_string (s ++ t) = Some (r ++ t).
Proof.
  induction n as [|n IH]; intros s r Hl; [destruct s; [done|cbn in Hl; lia]|]. destruct s as [|c s]; [done|]. cbn [length] in Hl.
  assert (forall s2, (length s2 <= n)%nat -> scan_string s2 = Some r -> (length s2 <= length s)%nat ->
    (length r < length (c :: s))%nat /\ scan_string (s2 ++ t) = Some (r ++ t)) as Hrec.
  { intros s2 H2 E2 H3. destruct (IH s2 r H2 E2). cbn. split; [lia|done]. }
  cbn [scan_string app]. destruct (Byte.eqb c QUOTE); [intros [= <-]; cbn; split; [lia|done]|].
  destruct (Byte.eqb c BACKSLASH).
  - destruct s as [|e s2]; [done|]. cbn [app length] in *. destruct (is_escape e); [intros E; apply Hrec; [lia|done|lia]|].
    destruct (Byte.eqb e x75); [|done]. destruct s2 as [|h1 [|h2 [|h3 [|h4 s3]]]]; try done. cbn [app length] in *.
    destruct (is_hex h1 && is_hex h2 && is_hex h3 && is_hex h4); [|done]. intros E. apply Hrec; [lia|done|lia].
  - destruct (Z_of_byte c <? 32); [done|]. intros E. apply Hrec; [lia|done|lia].
Qed.

Lemma strip_text_app p : forall s r t, strip_text p s = Some r ->
  (length r <= length s)%nat /\ strip_text p (s ++ t) = Some (r ++ t).
Proof.
  induction p as [|c p IH]; intros s r t; cbn [strip_text].
  { intros [= <-]. done. }
  destruct s as [|d s]; [done|]. cbn [app]. destruct (Byte.eqb c d); [|done]. intros E.
  destruct (IH s r t E). cbn. split; [lia|done].
Qed.

(** The value at the front is not a number: its last byte closes it. *)
Definition closed (s : bytes) : bool :=
  match s with
  | c :: _ => Byte.eqb c LBRACE || Byte.eqb c LBRACKET || Byte.eqb c QUOTE || Byte.eqb c x74 || Byte.eqb c x66 || Byte.eqb c x6e
  | [] => false
  end.

(** What may follow a value without becoming part of it. *)
Definition ends (s r t : bytes) : Prop := closed s = true \/ r <> [] \/ stops t.

Section scanning.
Context (f : nat).

Definition value_ext : Prop := forall d s r t, scan_value f d s = Some r -> ends s r t ->
  (length r < length s)%nat /\ forall f', (3 * length s + 1 <= f')%nat -> scan_value f' d (s ++ t) = Some (r ++ t).
Definition object_ext : Prop := forall d s l r t, scan_object f d s = Some (l, r) ->
  (length r < length s)%nat /\ forall f', (3 * length s + 3 <= f')%nat -> scan_object f' d (s ++ t) = Some (l, r ++ t).
Definition members_ext : Prop := forall d s l r t, scan_members f d s = Some (l, r) ->
  (length r < length s)%nat /\ forall f', (3 * length s + 2 <= f')%nat -> scan_members f' d (s ++ t) = Some (l, r ++ t).
Definition elements_ext : Prop := forall d s r t, scan_elements f d s = Some r ->
  (length r < length s)%nat /\ forall f', (3 * length s + 2 <= f')%nat -> scan_elements f' d (s ++ t) = Some (r ++ t).
End scanning.

Lemma text_app s r t : (length r <= length s)%nat -> text (s ++ t) (r ++ t) = text s r.
Proof.
  intros H. unfold text. rewrite !length_app. replace (length s + length t - (length r + length t))%nat with (length s - length r)%nat by lia.
  apply take_app_le. lia.
Qed.

Lemma fuel_succ n f : (n < f)%nat -> exists f', f = S f'.
Proof. destruct f as [|f]; [lia|eauto]. Qed.

Lemma object_ext_step f : members_ext f -> object_ext (S f).
Proof.
  intros IM d s l r t. destruct s as [|c s]; [done|]. cbn [scan_object]. destruct (Byte.eqb c RBRACE) eqn:Ec.
  - intros [= <- <-]. cbn. split; [lia|]. intros f' Hf. destruct (fuel_succ _ _ Hf) as [f1 ->]. cbn. by rewrite Ec.
  - intros E. destruct (IM d (c :: s) l r t E) as [Hl Hx]. split; [done|]. intros f' Hf.
    destruct (fuel_succ (3 * length (c :: s) + 2) f' ltac:(lia)) as [f1 ->]. cbn [scan_object app]. rewrite Ec. apply Hx. lia.
Qed.

Lemma elements_ext_step f : value_ext f -> elements_ext f -> elements_ext (S f).
Proof.
  intros IV IE d s r t. cbn [scan_elements]. destruct (scan_value f d s) as [r1|] eqn:E1; [|done].
  pose proof (skip_space_len r1) as Hs. destruct (skip_space r1) as [|e r2] eqn:E2; [done|]. cbn [length] in Hs.
  assert (ends s r1 t) as Hends by (right; left; intros ->; cbn in E2; done).
  destruct (IV d s r1 t E1 Hends) as [L1 X1]. assert (skip_space (r1 ++ t) = e :: r2 ++ t) as E2' by (rewrite skip_space_app by (by rewrite E2); by rewrite E2).
  destruct (Byte.eqb e COMMA) eqn:Ee; [|destruct (Byte.eqb e RBRACKET) eqn:Ee'; [|done]].
  - intros E. destruct (IE d (skip_space r2) r t E) as [L2 X2]. pose proof (skip_space_len r2). split; [lia|]. intros f' Hf.
    destruct (fuel_succ (3 * length s + 1) f' ltac:(lia)) as [f1 ->]. cbn [scan_elements]. rewrite X1, E2', Ee by lia.
    destruct (decide (skip_space r2 = [])) as [E0|E0]; [rewrite E0 in E; destruct f; [done|]; by destruct f|].
    rewrite skip_space_app by done. apply X2. lia.
  - intros [= <-]. split; [lia|]. intros f' Hf.
    destruct (fuel_succ (3 * length s + 1) f' ltac:(lia)) as [f1 ->]. cbn [scan_elements]. by rewrite X1, E2', Ee, Ee' by lia.
Qed.

Lemma members_ext_step f : value_ext f -> members_ext f -> members_ext (S f).
Proof.
  intros IV IM d s l r t. destruct s as [|c s1]; [done|]. cbn [scan_members]. destruct (Byte.eqb c QUOTE) eqn:Ec; [|done]. cbn [negb].
  destruct (scan_string s1) as [rk|] eqn:Ek; [|done]. destruct (scan_string_app t _ s1 rk (le_n _) Ek) as [Lk Xk].
  pose proof (skip_space_len rk) as Hsk. destruct (skip_space rk) as [|q rc] eqn:Esk; [done|]. cbn [length] in Hsk.
  assert (skip_space (rk ++ t) = q :: rc ++ t) as Esk' by (rewrite skip_space_app by (by rewrite Esk); by rewrite Esk).
  destruct (Byte.eqb q COLON) eqn:Eq; [|done]. cbn [negb]. cbv zeta.
  destruct (scan_value f d (skip_space rc)) as [r2|] eqn:Ev; [|done].
  assert (skip_space rc <> []) as Hv0 by (intros E0; rewrite E0 in Ev; by destruct f).
  pose proof (skip_space_len rc) as Hsc. pose proof (skip_space_len r2) as Hs2. destruct (skip_space r2) as [|e r3] eqn:E2; [done|]. cbn [length] in Hs2.
  assert (ends (skip_space rc) r2 t) as Hends by (right; left; intros ->; cbn in E2; done).
  destruct (IV d (skip_space rc) r2 t Ev Hends) as [L2 X2].
  assert (skip_space (r2 ++ t) = e :: r3 ++ t) as E2' by (rewrite skip_space_app by (by rewrite E2); by rewrite E2).
  assert (take (length (s1 ++ t) - length (rk ++ t) - 1) (s1 ++ t) = take (length s1 - length rk - 1) s1) as Etk.
  { rewrite !length_app. replace (length s1 + length t - (length rk + length t) - 1)%nat with (length s1 - length rk - 1)%nat by lia.
    apply take_app_le. lia. }
  assert (forall f1, (3 * length (skip_space rc) + 1 <= f1)%nat ->
    scan_members (S f1) d ((c :: s1) ++ t) =
    if Byte.eqb e COMMA then
      match scan_members f1 d (skip_space (r3 ++ t)) with
      | Some (l0, r4) => Some ((take (length s1 - length rk - 1) s1, text (skip_space rc) r2) :: l0, r4)
      | None => None
      end
    else if Byte.eqb e RBRACE then Some ([(take (length s1 - length rk - 1) s1, text (skip_space rc) r2)], r3 ++ t) else None) as Hstep.
  { intros f1 Hf1. cbn [scan_members app]. rewrite Ec. cbn [negb]. rewrite Xk, Esk', Eq. cbn [negb]. cbv zeta.
    rewrite (skip_space_app rc t Hv0), X2, E2', Etk by lia. by rewrite text_app by lia. }
  destruct (Byte.eqb e COMMA) eqn:Ee; [|destruct (Byte.eqb e RBRACE) eqn:Ee'; [|done]].
  - destruct (scan_members f d (skip_space r3)) as [[l4 r4]|] eqn:Em; [|done]. intros [= <- <-].
    assert (skip_space r3 <> []) as Hm0 by (intros E0; rewrite E0 in Em; by destruct f).
    destruct (IM d (skip_space r3) l4 r4 t Em) as [Lm Xm]. pose proof (skip_space_len r3). cbn [length].
    split; [lia|]. intros f' Hf. destruct (fuel_succ (3 * length s1) f' ltac:(lia)) as [f1 ->].
    rewrite Hstep by lia. rewrite skip_space_app by done. by rewrite Xm by lia.
  - intros [= <- <-]. cbn [length]. split; [lia|]. intros f' Hf. destruct (fuel_succ (3 * length s1) f' ltac:(lia)) as [f1 ->].
    apply Hstep. lia.
Qed.

Lemma value_ext_step f : object_ext f -> elements_ext f -> value_ext (S f).
Proof.
  intros IO IE d s r t. destruct s as [|c s]; [done|]. unfold ends. cbn [scan_value closed].
  pose proof (skip_space_len s) as Hs.
  assert (forall f', (3 * length (c :: s) + 1 <= f')%nat -> exists f1, f' = S f1 /\ (3 * length s + 3 <= f1)%nat) as Hfuel.
  { intros f' Hf. cbn [length] in Hf. destruct (fuel_succ 0 f' ltac:(lia)) as [f1 ->]. exists f1. split; [done|lia]. }
  destruct (Byte.eqb c LBRACE) eqn:E1.
  { destruct (maxNestingDepth <? d + 1) eqn:Ed; [done|]. destruct (scan_object f (d + 1) (skip_space s)) as [[l r1]|] eqn:Eo; [|done].
    intros [= <-] _. destruct (IO _ _ _ _ t Eo) as [Lo Xo]. cbn [length]. split; [lia|]. intros f' Hf.
    destruct (Hfuel f' Hf) as (f1 & -> & Hf1). cbn [scan_value app]. rewrite E1, Ed.
    rewrite skip_space_app by (intros E0; rewrite E0 in Eo; by destruct f). by rewrite Xo by lia. }
  destruct (Byte.eqb c LBRACKET) eqn:E2.
  { destruct (maxNestingDepth <? d + 1) eqn:Ed; [done|]. destruct (skip_space s) as [|q r1] eqn:Es; [done|]. cbn [length] in Hs.
    assert (skip_space (s ++ t) = q :: r1 ++ t) as Es' by (rewrite skip_space_app by (by rewrite Es); by rewrite Es).
    destruct (Byte.eqb q RBRACKET) eqn:Eq.
    - intros [= <-] _. cbn [length]. split; [lia|]. intros f' Hf. destruct (Hfuel f' Hf) as (f1 & -> & Hf1).
      cbn [scan_value app]. by rewrite E1, E2, Ed, Es', Eq.
    - intros E _. destruct (IE _ _ _ t E) as [Le Xe]. cbn [length] in *. split; [lia|]. intros f' Hf. destruct (Hfuel f' Hf) as (f1 & -> & Hf1).
      cbn [scan_value app]. rewrite E1, E2, Ed, Es', Eq. apply Xe. lia. }
  assert (forall X (P : Prop), (forall f1, scan_value (S f1) d ((c :: s) ++ t) = X) -> (X = Some (r ++ t)) -> (length r < length (c :: s))%nat ->
    (length r < length (c :: s))%nat /\ forall f', (3 * length (c :: s) + 1 <= f')%nat -> scan_value f' d ((c :: s) ++ t) = Some (r ++ t)) as Hleaf.
  { intros X _ H1 H2 H3. split; [done|]. intros f' Hf. destruct (Hfuel f' Hf) as (f1 & -> & _). by rewrite H1. }
  cbn [orb]. destruct (Byte.eqb c QUOTE) eqn:E3.
  { intros E _. destruct (scan_string_app t _ s r (le_n _) E) as [L X]. eapply (Hleaf _ True); [|exact X|cbn; lia].
    intros f1. cbn [scan_value app]. by rewrite E1, E2, E3. }
  destruct (Byte.eqb c x74) eqn:E4.
  { intros E _. destruct (strip_text_app _ s r t E) as [L X]. eapply (Hleaf _ True); [|exact X|cbn; lia].
    intros f1. cbn [scan_value app]. by rewrite E1, E2, E3, E4. }
  destruct (Byte.eqb c x66) eqn:E5.
  { intros E _. destruct (strip_text_app _ s r t E) as [L X]. eapply (Hleaf _ True); [|exact X|cbn; lia].
    intros f1. cbn [scan_value app]. by rewrite E1, E2, E3, E4, E5. }
  destruct (Byte.eqb c x6e) eqn:E6.
  { intros E _. destruct (strip_text_app _ s r t E) as [L X]. eapply (Hleaf _ True); [|exact X|cbn; lia].
    intros f1. cbn [scan_value app]. by rewrite E1, E2, E3, E4, E5, E6. }
  intros E [?|H]; [done|]. destruct (scan_number_app (c :: s) r t E H) as [L X]. eapply (Hleaf _ True); [|exact X|done].
  intros f1. cbn [scan_value app]. by rewrite E1, E2, E3, E4, E5, E6.
Qed.

(** A value, an object, members and elements end where they end, whatever
    follows and however much fuel there is beyond the need. *)
Lemma scan_ext f : value_ext f /\ object_ext f /\ members_ext f /\ elements_ext f.
Proof.
  induction f as [|f (IV & IO & IM & IE)].
  - split_and!; [intros d s r t|intros d s l r t|intros d s l r t|intros d s r t]; done.
  - split_and!; [by apply value_ext_step|by apply object_ext_step|by apply members_ext_step|by apply elements_ext_step].
Qed.

Lemma scan_value_app f d s r t f' : scan_value f d s = Some r -> ends s r t -> (3 * length s + 1 <= f')%nat ->
  scan_value f' d (s ++ t) = Some (r ++ t).
Proof. intros E H Hf. by apply (proj1 (scan_ext f) d s r t E H). Qed.

(** More fuel changes nothing: [enough] is enough. *)
Lemma scan_value_enough f d s r : scan_value f d s = Some r -> scan_value (enough s) d s = Some r.
Proof.
  intros E. rewrite <-(app_nil_r s) at 2. rewrite <-(app_nil_r r). eapply scan_value_app; [exact E|by right; right|unfold enough; lia].
Qed.

(** No proper prefix of an object is a JSON text. *)
Lemma object_prefix s k : (k < length s)%nat -> head s = Some LBRACE -> scan_value (enough s) 0 s = Some [] ->
  json_text (take k s) = None.
Proof.
  intros Hk Hh Hs. unfold json_text. destruct k as [|k]; [done|]. destruct s as [|c s]; [done|]. injection Hh as ->.
  set (p := take (S k) (LBRACE :: s)). assert (skip_space p = p) as -> by done.
  destruct (scan_value (enough p) 0 p) as [r|] eqn:E; [|done]. exfalso.
  assert (p ++ drop (S k) (LBRACE :: s) = LBRACE :: s) as Ep by apply take_drop.
  assert (ends p r (drop (S k) (LBRACE :: s))) as He by (by left).
  pose proof (scan_value_app _ _ _ _ _ (enough (LBRACE :: s)) E He) as Hx. rewrite Ep, Hs in Hx.
  assert (length p <= length (LBRACE :: s))%nat as Hlp by (unfold p; rewrite length_take; lia).
  specialize (Hx ltac:(unfold enough; lia)). injection Hx as Hx. symmetry in Hx. apply app_nil in Hx as [_ Hx].
  apply (f_equal length) in Hx. rewrite length_drop in Hx. cbn [length] in *. lia.
Qed.

(** ** Members of plain_char strings *)

(** Characters a string literal holds as they are. *)
Definition plain_char (c : byte) : bool :=
  negb (Byte.eqb c QUOTE) && negb (Byte.eqb c BACKSLASH) && in_range 32 127 c.

Lemma plain_char_spec c : plain_char c = true ->
  Byte.eqb c QUOTE = false /\ Byte.eqb c BACKSLASH = false /\ (Z_of_byte c <? 32) = false /\ in_range 0 127 c = true.
Proof.
  unfold plain_char, in_range. intros [[?%negb_true_iff ?%negb_true_iff]%andb_prop [?%Z.leb_le ?%Z.leb_le]%andb_prop]%andb_prop.
  split_and!; [done|done|apply Z.ltb_ge; lia|]. apply andb_true_intro. split; apply Z.leb_le; lia.
Qed.

Lemma scan_string_plain s r : forallb plain_char s = true -> scan_string (s ++ QUOTE :: r) = Some r.
Proof.
  induction s as [|c s IH]; [done|]. cbn [forallb app]. intros [Hc Hs]%andb_prop.
  apply plain_char_spec in Hc as (E1 & E2 & E3 & _). cbn [scan_string]. rewrite E1, E2, E3. by apply IH.
Qed.

Lemma unquote_plain s : forall n, (length s <= n)%nat -> forallb plain_char s = true -> unquote n s = s.
Proof.
  induction s as [|c s IH]; intros n Hn; [by destruct n|]. destruct n as [|n]; [cbn in Hn; lia|]. cbn [forallb length] in *.
  intros [Hc Hs]%andb_prop. apply plain_char_spec in Hc as (_ & E2 & _ & E4). cbn [unquote]. rewrite E2. cbn [utf8_len]. rewrite E4.
  cbn [take drop app]. f_equal. apply IH; [lia|done].
Qed.

Lemma decode_string_plain old s : forallb plain_char s = true -> decode_string old (QUOTE :: s ++ [QUOTE]) = Some s.
Proof.
  intros Hs. cbn [decode_string]. change (Byte.eqb QUOTE QUOTE) with true. cbv iota. f_equal.
  rewrite length_app. cbn [length]. rewrite Nat.add_sub, take_app_length. apply unquote_plain; [lia|done].
Qed.

Section member.
Context (f : nat) (d : Z) (key v : bytes) (c : byte).
Context (Hk : forallb plain_char key = true) (Hv : head v = Some c) (Hc : is_space c = false).

Lemma member_text (r : bytes) :
  (take (length (key ++ QUOTE :: COLON :: v ++ r) - length (COLON :: v ++ r) - 1) (key ++ QUOTE :: COLON :: v ++ r), text (v ++ r) r) = (key, v).
Proof.
  f_equal.
  - rewrite length_app. cbn [length].
    replace (length key + S (S (length (v ++ r))) - S (length (v ++ r)) - 1)%nat with (length key) by lia. apply take_app_length.
  - unfold text. rewrite length_app, Nat.add_sub. apply take_app_length.
Qed.

Lemma scan_member_step r : scan_value f d (v ++ r) = Some r ->
  scan_members (S f) d (QUOTE :: key ++ QUOTE :: COLON :: v ++ r) =
  match skip_space r with
  | [] => None
  | e :: r3 => if Byte.eqb e COMMA then
                 match scan_members f d (skip_space r3) with Some (l, r4) => Some ((key, v) :: l, r4) | None => None end
               else if Byte.eqb e RBRACE then Some ([(key, v)], r3) else None
  end.
Proof.
  intros Es. cbn [scan_members]. change (Byte.eqb QUOTE QUOTE) with true. cbn [negb]. rewrite scan_string_plain by done.
  change (skip_space (COLON :: v ++ r)) with (COLON :: v ++ r). change (Byte.eqb COLON COLON) with true. cbn [negb]. cbv iota zeta.
  assert (skip_space (v ++ r) = v ++ r) as -> by (destruct v as [|c' v']; [done|]; injection Hv as ->; cbn; by rewrite Hc).
  rewrite Es, member_text. reflexivity.
Qed.
End member.

Lemma value_start f d s r : scan_value f d s = Some r -> exists c, head s = Some c /\ is_space c = false.
Proof.
  destruct f as [|f]; [done|]. destruct s as [|c s]; [done|]. intros E. exists c. split; [done|].
  destruct (is_space c) eqn:Es; [|done]. exfalso. revert E. unfold is_space in Es.
  assert (c = x20 \/ c = x09 \/ c = x0d \/ c = x0a) as Hc.
  { repeat (apply orb_prop in Es as [Es|Es]); apply Byte.byte_dec_bl in Es; tauto. }
  destruct Hc as [->|[->|[->| ->]]]; done.
Qed.
