(* ===== verification/Crypto.v ===== *)
(** * Nonces, associated data and authenticated metadata (crypto.go)

    The AEAD and SHA-256 are interfaces: classes that state what the code
    relies on, with concrete instances at the end of the file that show the
    interfaces can be met. Nonce and AAD construction, base64 and the envelope,
    written by concatenation and read by the decoder of Json.v, are executable. *)

From S2P Require Import Prelude Words Json.

(** ** Interfaces *)

(** [cipher.AEAD]. *)
Class AEAD := {
  Seal : bytes -> bytes -> bytes -> bytes; (* nonce, plaintext, additional data *)
  Open : bytes -> bytes -> bytes -> option bytes; (* nonce, ciphertext, additional data *)
  Overhead : Z
}.

(** GCM is a deterministic AEAD: sealing opens again, the ciphertext has the
    plaintext's length plus the tag, and only the sealed ciphertext opens to a
    given plaintext under a given nonce and additional data. *)
Class AEADLaws (A : AEAD) : Prop := {
  overhead_gcm : Overhead = 16;
  seal_length : forall n p a, blen (Seal n p a) = blen p + Overhead;
  open_seal : forall n p a, Open n (Seal n p a) a = Some p;
  open_sound : forall n c a p, Open n c a = Some p -> c = Seal n p a
}.

(** [sha256.Sum256]. *)
Class Hash := { Sum256 : bytes -> bytes }.
Class HashLaws (H : Hash) : Prop := { hash_length : forall m, length (Sum256 m) = 32%nat }.

(** ** Nonces *)

Definition DomainChunk : byte := Byte.x00.
Definition DomainWAL : byte := Byte.x01.
Definition DomainVBStateMeta : byte := Byte.x02.
Definition DomainSnapshotMeta : byte := Byte.x03.

Definition MaxSeqNum : Z := Z.shiftl 1 56 - 1.

Definition shifted_byte (seqNum k : Z) : byte := byte_of_Z (Z.land (Z.shiftr seqNum k) 0xff).

Definition makeNonce (seqNum : Z) (volumeUUID : bytes) (domain : byte) : bytes :=
  [ shifted_byte seqNum 48; shifted_byte seqNum 40; shifted_byte seqNum 32;
    shifted_byte seqNum 24; shifted_byte seqNum 16; shifted_byte seqNum 8;
    byte_of_Z (Z.land seqNum 0xff) ] ++ take 4 volumeUUID ++ [domain].

(** ** Additional data *)

Definition AADLen : Z := 32 + 8 + 8.

(** [copy(dst[lo:], src)] into a buffer long enough to hold it. *)
Definition copy_at (dst : bytes) (lo : Z) (src : bytes) : bytes :=
  take (Z.to_nat lo) dst ++ src ++ drop (Z.to_nat lo + length src) dst.

Definition makeAAD (volumeNameHash : bytes) (blockNum seqNum : Z) : bytes :=
  let aad := zeros AADLen in
  let aad := copy_at aad 0 volumeNameHash in
  let aad := copy_at aad 32 (PutUint64 blockNum) in
  copy_at aad 40 (PutUint64 seqNum).

Definition initAAD (aad volumeNameHash : bytes) : bytes := copy_at aad 0 volumeNameHash.

Definition updateAAD (aad : bytes) (blockNum seqNum : Z) : bytes :=
  copy_at (copy_at aad 32 (PutUint64 blockNum)) 40 (PutUint64 seqNum).

Definition makeMetaAAD (volumeNameHash domainTag : bytes) (stateSeqNum : Z) : bytes :=
  volumeNameHash ++ domainTag ++ PutUint64 stateSeqNum.

Definition computeVolumeNameHash `{Hash} (name : bytes) : bytes := Sum256 name.

(** ** encoding/base64, StdEncoding *)

Definition b64_char (d : Z) : byte :=
  byte_of_Z (if d <? 26 then 65 + d else if d <? 52 then 97 + (d - 26)
             else if d <? 62 then 48 + (d - 52) else if d =? 62 then 43 else 47).

Definition b64_digit (c : byte) : option Z :=
  let z := Z_of_byte c in
  if (65 <=? z) && (z <=? 90) then Some (z - 65)
  else if (97 <=? z) && (z <=? 122) then Some (z - 97 + 26)
  else if (48 <=? z) && (z <=? 57) then Some (z - 48 + 52)
  else if z =? 43 then Some 62 else if z =? 47 then Some 63 else None.

Definition b64_pad : byte := Byte.x3d.

Fixpoint b64_encode (bs : bytes) : bytes :=
  match bs with
  | [] => []
  | [a] =>
      let n := Z_of_byte a * 16 in
      [b64_char (n / 64); b64_char (n mod 64); b64_pad; b64_pad]
  | [a; b] =>
      let n := (Z_of_byte a * 256 + Z_of_byte b) * 4 in
      [b64_char (n / 4096); b64_char (n / 64 mod 64); b64_char (n mod 64); b64_pad]
  | a :: b :: c :: rest =>
      let n := (Z_of_byte a * 256 + Z_of_byte b) * 256 + Z_of_byte c in
      b64_char (n / 262144) :: b64_char (n / 4096 mod 64) :: b64_char (n / 64 mod 64)
        :: b64_char (n mod 64) :: b64_encode rest
  end.

(** Decoding quantum by quantum; padding only in the last one. *)
Fixpoint b64_quanta (bs : bytes) : option bytes :=
  match bs with
  | [] => Some []
  | c1 :: c2 :: c3 :: c4 :: rest =>
      match b64_digit c1, b64_digit c2 with
      | Some d1, Some d2 =>
          match b64_digit c3, b64_digit c4 with
          | Some d3, Some d4 =>
              let n := ((d1 * 64 + d2) * 64 + d3) * 64 + d4 in
              match b64_quanta rest with
              | Some tl => Some (byte_of_Z (n / 65536) :: byte_of_Z (n / 256) :: byte_of_Z n :: tl)
              | None => None
              end
          | Some d3, None =>
              if bool_decide (c4 = b64_pad) && bool_decide (rest = [])
              then let n := (d1 * 64 + d2) * 64 + d3 in
                   Some [byte_of_Z (n / 1024); byte_of_Z (n / 4)]
              else None
          | None, _ =>
              if bool_decide (c3 = b64_pad) && bool_decide (c4 = b64_pad) && bool_decide (rest = [])
              then Some [byte_of_Z ((d1 * 64 + d2) / 16)]
              else None
          end
      | _, _ => None
      end
  | _ => None
  end.

(** Line ends are skipped wherever they are. *)
Definition b64_decode (bs : bytes) : option bytes :=
  b64_quanta (List.filter (fun c => negb (Byte.eqb c Byte.x0d || Byte.eqb c Byte.x0a)) bs).

(** ** The metadata envelope *)

Record metaEnvelope := mkEnv { env_Version : Z; env_Payload : bytes; env_AuthTag : bytes }.

Definition envelopeVersion : Z := 1.
Definition envelope_prefix : bytes := lit "{'v':1,'payload':".
Definition envelope_suffix (tag : bytes) : bytes := lit ",'authtag':'" ++ b64_encode tag ++ lit "'}".

(** The struct fields by their tags; a raw message is the text of the value. *)
Definition set_env (e : metaEnvelope) (m : bytes * bytes) : option metaEnvelope :=
  let '(key, txt) := m in
  if key_is key "v" then
    match decode_int (env_Version e) txt with Some n => Some (mkEnv n (env_Payload e) (env_AuthTag e)) | None => None end
  else if key_is key "payload" then Some (mkEnv (env_Version e) txt (env_AuthTag e))
  else if key_is key "authtag" then
    match decode_string (env_AuthTag e) txt with Some t => Some (mkEnv (env_Version e) (env_Payload e) t) | None => None end
  else Some e.
Definition unmarshal_env : bytes -> option metaEnvelope := unmarshal_struct set_env (mkEnv 0 [] []).

(** The probe of [StateBody]: payload and authtag only. *)
Definition set_probe (p : bytes * bytes) (m : bytes * bytes) : option (bytes * bytes) :=
  let '(key, txt) := m in
  if key_is key "payload" then Some (txt, p.2)
  else if key_is key "authtag" then match decode_string p.2 txt with Some t => Some (p.1, t) | None => None end
  else Some p.
Definition unmarshal_probe : bytes -> option (bytes * bytes) := unmarshal_struct set_probe ([], []).

Section envelope.
Context `{AEAD}.

Definition sealMeta (jsonBytes aad nonce : bytes) : bytes :=
  let fullAAD := aad ++ jsonBytes in
  let tag := Seal nonce [] fullAAD in
  envelope_prefix ++ jsonBytes ++ envelope_suffix tag.

Inductive envelope_error := EnvParse | EnvMissing | EnvTag.

Definition splitEnvelope (blob : bytes) : result envelope_error (bytes * bytes) :=
  match unmarshal_env blob with
  | None => Err EnvParse
  | Some env =>
      if (blen (env_Payload env) =? 0) || bool_decide (env_AuthTag env = []) then Err EnvMissing
      else match b64_decode (env_AuthTag env) with
           | None => Err EnvTag
           | Some tag => Ok (env_Payload env, tag)
           end
  end.

(** [true] is a nil error. *)
Definition verifyMeta (payload tag aad nonce : bytes) : bool :=
  if negb (blen tag =? Overhead) then false
  else match Open nonce tag (aad ++ payload) with Some _ => true | None => false end.

Definition StateBody (raw : bytes) : bytes :=
  match unmarshal_probe raw with
  | None => raw
  | Some (payload, authTag) =>
      if (0 <? blen payload) && negb (bool_decide (authTag = [])) then payload else raw
  end.
End envelope.

(** ** The master key file *)

(** [LoadMasterKeyFromFlagOrEnv]: [LoadShared] is the predastore library's. *)
Definition LoadMasterKeyFromFlagOrEnv {K E} (LoadShared : string -> result E K)
    (env : string) (flagValue : string) : result E (option K) :=
  let keyPath := if bool_decide (flagValue = EmptyString) then env else flagValue in
  if bool_decide (keyPath = EmptyString) then Ok None
  else match LoadShared keyPath with Ok k => Ok (Some k) | Err e => Err e end.

(** ** Lemmas *)

Lemma length_PutUint64 z : length (PutUint64 z) = 8%nat.
Proof. apply length_be_put. Qed.

Lemma copy_at_app a b c src :
  length b = length src -> copy_at (a ++ b ++ c) (Z.of_nat (length a)) src = a ++ src ++ c.
Proof.
  intros Hl. unfold copy_at. rewrite Nat2Z.id, take_app_length.
  rewrite <-Hl, (app_assoc a b c), <-length_app, drop_app_length. done.
Qed.

Lemma zeros_app n m : 0 <= n -> 0 <= m -> zeros (n + m) = zeros n ++ zeros m.
Proof. intros. unfold zeros. rewrite Z2Nat.inj_add, replicate_add by done. done. Qed.

Lemma updateAAD_eq h x y b s :
  length h = 32%nat -> length x = 8%nat -> length y = 8%nat ->
  updateAAD (h ++ x ++ y) b s = h ++ PutUint64 b ++ PutUint64 s.
Proof.
  intros Hh Hx Hy. unfold updateAAD.
  replace 32 with (Z.of_nat (length h)) by lia.
  rewrite copy_at_app by (by rewrite Hx, length_PutUint64).
  replace 40 with (Z.of_nat (length (h ++ PutUint64 b)))
    by (by rewrite length_app, Hh, length_PutUint64).
  rewrite app_assoc, <-(app_nil_r y), copy_at_app by (by rewrite Hy, length_PutUint64).
  by rewrite app_nil_r, <-app_assoc.
Qed.

Lemma initAAD_eq h x y z :
  length h = 32%nat -> length z = 32%nat -> initAAD (z ++ x ++ y) h = h ++ x ++ y.
Proof.
  intros Hh Hz. unfold initAAD. change 0 with (Z.of_nat (length (@nil byte))).
  change (z ++ x ++ y) with ([] ++ z ++ (x ++ y)). by rewrite copy_at_app by congruence.
Qed.

Lemma makeAAD_eq h b s : length h = 32%nat -> makeAAD h b s = h ++ PutUint64 b ++ PutUint64 s.
Proof.
  intros Hh. unfold makeAAD. change (zeros AADLen) with (zeros 32 ++ zeros 8 ++ zeros 8).
  fold (initAAD (zeros 32 ++ zeros 8 ++ zeros 8) h). rewrite initAAD_eq by done.
  by apply (updateAAD_eq h (zeros 8) (zeros 8)).
Qed.

Lemma shifted_byte_eq s k : 0 <= k -> shifted_byte s k = byte_of_Z (Z.shiftr s k).
Proof.
  intros Hk. unfold shifted_byte. change 0xff with (Z.ones 8). rewrite Z.land_ones by lia.
  unfold byte_of_Z. change (2 ^ 8) with 256. by rewrite Z.mod_mod.
Qed.

(** The nonce's counter is the low seven bytes of the SeqNum, big-endian. *)
Lemma makeNonce_eq s u d : makeNonce s u d = be_put 7 s ++ take 4 u ++ [d].
Proof.
  unfold makeNonce. rewrite !shifted_byte_eq by lia.
  replace (byte_of_Z (Z.land s 0xff)) with (byte_of_Z (Z.shiftr s 0)).
  - reflexivity.
  - rewrite <-shifted_byte_eq by lia. unfold shifted_byte. by rewrite Z.shiftr_0_r.
Qed.

(** *** base64 *)

Lemma b64_digit_char d : 0 <= d < 64 -> b64_digit (b64_char d) = Some d.
Proof.
  intros Hd. unfold b64_digit, b64_char. rewrite Z_of_byte_of_Z.
  assert (forall k, k ∈ seqZ 0 64 ->
    (let z := (if k <? 26 then 65 + k else if k <? 52 then 97 + (k - 26)
             else if k <? 62 then 48 + (k - 52) else if k =? 62 then 43 else 47) mod 256 in
     if (65 <=? z) && (z <=? 90) then Some (z - 65)
     else if (97 <=? z) && (z <=? 122) then Some (z - 97 + 26)
     else if (48 <=? z) && (z <=? 57) then Some (z - 48 + 52)
     else if z =? 43 then Some 62 else if z =? 47 then Some 63 else None) = Some k) as H.
  { apply Forall_forall. apply (bool_decide_unpack _). vm_compute. exact I. }
  apply H, elem_of_seqZ. lia.
Qed.

Lemma b64_pad_digit : b64_digit b64_pad = None.
Proof. reflexivity. Qed.

Lemma byte_of_Z_eq z b : z mod 256 = Z_of_byte b -> byte_of_Z z = b.
Proof. intros H. apply Z_of_byte_inj. by rewrite Z_of_byte_of_Z. Qed.

Lemma bytes_ind3 (P : bytes -> Prop) :
  P [] -> (forall a, P [a]) -> (forall a b, P [a; b]) ->
  (forall a b c l, P l -> P (a :: b :: c :: l)) -> forall l, P l.
Proof.
  intros H0 H1 H2 H3. fix IH 1. intros [|a [|b [|c l]]];
    [exact H0|exact (H1 a)|exact (H2 a b)|exact (H3 a b c l (IH l))].
Qed.

Lemma b64_quanta_encode bs : b64_quanta (b64_encode bs) = Some bs.
Proof.
  induction bs as [|a|a b|a b c rest IH] using bytes_ind3; [done|..]; cbn [b64_encode b64_quanta];
    pose proof (Z_of_byte_range a); try pose proof (Z_of_byte_range b); try pose proof (Z_of_byte_range c);
    rewrite !b64_digit_char, ?b64_pad_digit by (Z.div_mod_to_equations; lia).
  - rewrite bool_decide_true by done. cbn. do 2 f_equal. apply byte_of_Z_eq.
    Z.div_mod_to_equations; lia.
  - rewrite bool_decide_true by done. cbn. f_equal. f_equal; [|f_equal]; apply byte_of_Z_eq;
      Z.div_mod_to_equations; lia.
  - rewrite IH. f_equal. f_equal; [|f_equal; [|f_equal]]; apply byte_of_Z_eq;
      Z.div_mod_to_equations; lia.
Qed.

Lemma b64_encode_nonempty bs : bs <> [] -> b64_encode bs <> [].
Proof. destruct bs as [|a [|b [|c l]]]; done. Qed.

(** *** The envelope's text *)

Lemma b64_char_plain d : 0 <= d < 64 -> plain_char (b64_char d) = true.
Proof.
  intros Hd. assert (Forall (fun k => plain_char (b64_char k) = true) (seqZ 0 64)) as H
    by (apply (bool_decide_unpack _); vm_compute; exact I).
  rewrite Forall_forall in H. apply H, elem_of_seqZ. lia.
Qed.

Lemma b64_plain bs : forallb plain_char (b64_encode bs) = true.
Proof.
  induction bs as [|a|a b|a b c rest IH] using bytes_ind3; [done|..]; cbn [b64_encode forallb];
    pose proof (Z_of_byte_range a); try pose proof (Z_of_byte_range b); try pose proof (Z_of_byte_range c);
    rewrite !b64_char_plain by (Z.div_mod_to_equations; lia); [done|done|exact IH].
Qed.

Lemma plain_kept l : forallb plain_char l = true ->
  List.filter (fun c => negb (Byte.eqb c Byte.x0d || Byte.eqb c Byte.x0a)) l = l.
Proof.
  induction l as [|c l IH]; [done|]. cbn [forallb List.filter]. intros [Hc Hl]%andb_prop. rewrite IH by done.
  destruct (Byte.eqb c Byte.x0d || Byte.eqb c Byte.x0a) eqn:E; [|done]. exfalso.
  apply orb_prop in E as [->%Byte.byte_dec_bl| ->%Byte.byte_dec_bl]; done.
Qed.

Lemma b64_decode_encode bs : b64_decode (b64_encode bs) = Some bs.
Proof. unfold b64_decode. rewrite plain_kept by apply b64_plain. apply b64_quanta_encode. Qed.

Section text.
Context (body tag : bytes) (Hv : json_valid body = true).

Definition quoted_tag : bytes := QUOTE :: b64_encode tag ++ [QUOTE].
Definition envelope_members : bytes :=
  QUOTE :: lit "v" ++ QUOTE :: COLON :: lit "1" ++ COMMA ::
  QUOTE :: lit "payload" ++ QUOTE :: COLON :: body ++ COMMA ::
  QUOTE :: lit "authtag" ++ QUOTE :: COLON :: quoted_tag ++ [RBRACE].

Lemma envelope_text : envelope_prefix ++ body ++ envelope_suffix tag = LBRACE :: envelope_members.
Proof. unfold envelope_members, quoted_tag, envelope_suffix. rewrite <-!app_comm_cons, <-!app_assoc. reflexivity. Qed.

Lemma json_scan : scan_value (enough body) 1 body = Some [].
Proof. revert Hv. unfold json_valid. destruct (scan_value (enough body) 1 body) as [[]|]; done. Qed.

Lemma json_nonempty : body <> [].
Proof. intros ->. discriminate Hv. Qed.

Lemma envelope_scan f : (3 * length envelope_members <= f)%nat ->
  scan_members f 1 envelope_members = Some ([(lit "v", lit "1"); (lit "payload", body); (lit "authtag", quoted_tag)], []).
Proof.
  intros Hf. assert (exists f0, f = S (S (S f0)) /\ (3 * length body + 3 * length quoted_tag + 3 <= f0)%nat) as (f0 & -> & Hf0).
  { unfold envelope_members in Hf. repeat (rewrite length_app in Hf || cbn [length] in Hf). exists (f - 3)%nat. lia. }
  destruct (value_start _ _ _ _ json_scan) as (c & Hc & Hsp). unfold envelope_members.
  rewrite (scan_member_step _ _ _ _ Byte.x31) by reflexivity.
  change (skip_space (COMMA :: ?l)) with (COMMA :: l). cbv iota. change (Byte.eqb COMMA COMMA) with true. cbv iota.
  change (skip_space (QUOTE :: ?l)) with (QUOTE :: l).
  rewrite (scan_member_step _ _ _ _ c) by (done || (apply (scan_value_app (enough body) 1 body []); [exact json_scan|by right; right|lia])).
  change (skip_space (COMMA :: ?l)) with (COMMA :: l). cbv iota. change (Byte.eqb COMMA COMMA) with true. cbv iota.
  change (skip_space (QUOTE :: ?l)) with (QUOTE :: l).
  rewrite (scan_member_step _ _ _ _ QUOTE); [reflexivity|done..|].
  unfold quoted_tag. cbn [app]. destruct f0 as [|f1]; [lia|]. cbn [scan_value].
  change (Byte.eqb QUOTE LBRACE) with false. change (Byte.eqb QUOTE LBRACKET) with false. change (Byte.eqb QUOTE QUOTE) with true. cbv iota.
  rewrite <-app_assoc. apply scan_string_plain, b64_plain.
Qed.

Lemma envelope_object f : (3 * length envelope_members + 1 <= f)%nat ->
  scan_object f 1 envelope_members = Some ([(lit "v", lit "1"); (lit "payload", body); (lit "authtag", quoted_tag)], []).
Proof. intros Hf. destruct f as [|f]; [lia|]. rewrite <-(envelope_scan f) by lia. reflexivity. Qed.

Lemma envelope_value : scan_value (enough (LBRACE :: envelope_members)) 0 (LBRACE :: envelope_members) = Some [].
Proof.
  unfold enough. cbn [length]. replace (3 * S (length envelope_members) + 3)%nat with (S (3 * length envelope_members + 5)) by lia.
  cbn [scan_value]. change (Byte.eqb LBRACE LBRACE) with true. change (maxNestingDepth <? 0 + 1) with false. cbv iota.
  change (skip_space envelope_members) with envelope_members. change (0 + 1) with 1. by rewrite envelope_object by lia.
Qed.

(** Decoding an envelope sets the three fields in order. *)
Lemma unmarshal_envelope {T} (set : T -> bytes * bytes -> option T) zero :
  unmarshal_struct set zero (envelope_prefix ++ body ++ envelope_suffix tag) =
  fold_left (fun acc m => match acc with Some x => set x m | None => None end)
    [(lit "v", lit "1"); (lit "payload", body); (lit "authtag", quoted_tag)] (Some zero).
Proof.
  rewrite envelope_text. unfold unmarshal_struct, json_text.
  change (skip_space (LBRACE :: envelope_members)) with (LBRACE :: envelope_members). cbv zeta.
  rewrite envelope_value. change (skip_space []) with (@nil byte). cbv iota.
  assert (text (LBRACE :: envelope_members) [] = LBRACE :: envelope_members) as ->
    by (unfold text; rewrite Nat.sub_0_r; by apply take_ge).
  change (Byte.eqb LBRACE LBRACE) with true. cbv iota. change (skip_space envelope_members) with envelope_members.
  by rewrite envelope_object by (unfold enough; cbn [length]; lia).
Qed.

Lemma set_env_tag n p : set_env (mkEnv n p []) (lit "authtag", quoted_tag) = Some (mkEnv n p (b64_encode tag)).
Proof.
  unfold set_env. change (key_is (lit "authtag") "v") with false. change (key_is (lit "authtag") "payload") with false.
  change (key_is (lit "authtag") "authtag") with true. cbv iota. unfold quoted_tag. by rewrite decode_string_plain by apply b64_plain.
Qed.

Lemma unmarshal_splice :
  unmarshal_env (envelope_prefix ++ body ++ envelope_suffix tag) = Some (mkEnv envelopeVersion body (b64_encode tag)).
Proof. unfold unmarshal_env. rewrite unmarshal_envelope. cbn [fold_left]. rewrite <-set_env_tag. reflexivity. Qed.

Lemma probe_splice : unmarshal_probe (envelope_prefix ++ body ++ envelope_suffix tag) = Some (body, b64_encode tag).
Proof.
  unfold unmarshal_probe. rewrite unmarshal_envelope. cbn [fold_left]. unfold quoted_tag.
  pose proof (decode_string_plain [] _ (b64_plain tag)) as Ht.
  change (set_probe ([], []) (lit "v", lit "1")) with (Some (@nil byte, @nil byte)). cbv iota.
  change (set_probe ([], []) (lit "payload", body)) with (Some (body, @nil byte)). cbv iota.
  unfold set_probe. change (key_is (lit "authtag") "payload") with false. change (key_is (lit "authtag") "authtag") with true.
  cbv iota. cbn [fst snd]. by rewrite Ht.
Qed.

(** An envelope cut short is a syntax error. *)
Lemma unmarshal_truncated k : (k < length (envelope_prefix ++ body ++ envelope_suffix tag))%nat ->
  unmarshal_env (take k (envelope_prefix ++ body ++ envelope_suffix tag)) = None.
Proof.
  rewrite envelope_text. intros Hk. unfold unmarshal_env, unmarshal_struct.
  by rewrite object_prefix by (done || apply envelope_value).
Qed.
End text.

(** *** Metadata *)

Section meta.
Context `{AEADLaws}.

Lemma seal_nonempty n a : Seal n [] a <> [].
Proof.
  intros E. pose proof (seal_length n [] a) as Hl. rewrite E in Hl. pose proof overhead_gcm.
  unfold blen in Hl. cbn in Hl. lia.
Qed.

Lemma split_seal json aad nonce :
  json_valid json = true ->
  splitEnvelope (sealMeta json aad nonce) = Ok (json, Seal nonce [] (aad ++ json)).
Proof.
  intros Hv. unfold splitEnvelope, sealMeta. rewrite unmarshal_splice by done. cbn [env_AuthTag env_Payload].
  pose proof (json_nonempty json Hv) as Hne.
  destruct (Z.eqb_spec (blen json) 0) as [E|_].
  { destruct json; [done|]. unfold blen in E. cbn in E. lia. }
  rewrite bool_decide_false by (apply b64_encode_nonempty, seal_nonempty).
  cbn [orb]. cbn [env_AuthTag env_Payload]. by rewrite b64_decode_encode.
Qed.

Lemma verify_seal json aad nonce :
  verifyMeta json (Seal nonce [] (aad ++ json)) aad nonce = true.
Proof.
  unfold verifyMeta. rewrite seal_length. unfold blen. cbn. rewrite Z.eqb_refl. cbn.
  by rewrite open_seal.
Qed.

Lemma verify_only_sealed payload tag aad nonce :
  verifyMeta payload tag aad nonce = true -> tag = Seal nonce [] (aad ++ payload).
Proof.
  unfold verifyMeta. destruct (Z.eqb_spec (blen tag) Overhead) as [Hl|]; [|done]. cbn.
  destruct (Open nonce tag (aad ++ payload)) as [p|] eqn:Eo; [|done]. intros _.
  apply open_sound in Eo as ->. f_equal.
  rewrite seal_length in Hl. destruct p; [done|]. unfold blen in Hl. cbn in Hl. lia.
Qed.
End meta.

(** ** Concrete instances *)

(** A deterministic AEAD with a 16-byte tag: plaintext and a padded checksum. *)
Definition toy_tag (n p a : bytes) : bytes := zeros 12 ++ PutUint32 (ChecksumIEEE (n ++ a ++ p)).
Definition toy_aead : AEAD := {|
  Seal n p a := p ++ toy_tag n p a;
  Open n c a :=
    let p := take (length c - 16) c in
    if decide (c = p ++ toy_tag n p a) then Some p else None;
  Overhead := 16
|}.

Lemma toy_tag_length n p a : length (toy_tag n p a) = 16%nat.
Proof. unfold toy_tag, PutUint32. by rewrite length_app, length_zeros, length_be_put. Qed.

Lemma toy_aead_laws : AEADLaws toy_aead.
Proof.
  constructor; cbn -[toy_tag].
  - done.
  - intros. unfold blen. rewrite length_app, toy_tag_length. lia.
  - intros n p a. rewrite length_app, toy_tag_length, Nat.add_sub, take_app_length.
    by rewrite decide_True.
  - intros n c a p. destruct (decide _) as [E|]; [|done]. intros [= <-]. exact E.
Qed.

Definition toy_hash : Hash := {| Sum256 m := zeros 28 ++ PutUint32 (ChecksumIEEE m) |}.
Lemma toy_hash_laws : HashLaws toy_hash.
Proof. constructor. intros m. cbn -[zeros PutUint32]. by rewrite length_app. Qed.

(** ** The theorems *)

(** C25. No two seals share a nonce unless they are the same seal: within the
    56-bit counter range the nonce determines SeqNum, volume UUID and domain;
    one past the range wraps onto the nonce of SeqNum 0. *)
Theorem makeNonce_injective s1 s2 u1 u2 d1 d2 :
  0 <= s1 <= MaxSeqNum -> 0 <= s2 <= MaxSeqNum -> length u1 = 4%nat -> length u2 = 4%nat ->
  (makeNonce s1 u1 d1 = makeNonce s2 u2 d2 -> s1 = s2 /\ u1 = u2 /\ d1 = d2) /\
  makeNonce (MaxSeqNum + 1 + s1) u1 d1 = makeNonce s1 u1 d1.
Proof.
  intros H1 H2 L1 L2. change MaxSeqNum with (2 ^ 56 - 1) in *. rewrite !makeNonce_eq, !take_ge by lia. split.
  - intros E. apply app_inj_1 in E as [Es E]; [|by rewrite !length_be_put].
    apply app_inj_1 in E as [-> E]; [|congruence]. injection E as ->.
    apply be_put_inj in Es; [done|..]; change (256 ^ Z.of_nat 7) with (2 ^ 56); lia.
  - f_equal. apply be_get_inj; [by rewrite !length_be_put|]. unfold be_get. rewrite !be_get_acc_put.
    change (256 ^ Z.of_nat 7) with (2 ^ 56). replace (2 ^ 56 - 1 + 1 + s1) with (s1 + 1 * 2 ^ 56) by lia.
    by rewrite Z.mod_add.
Qed.

Lemma makeNonce_injective_witness :
  (makeNonce 5 (zeros 4) DomainWAL = makeNonce 5 (zeros 4) DomainChunk ->
     5 = 5 /\ zeros 4 = zeros 4 /\ DomainWAL = DomainChunk) /\
  makeNonce (MaxSeqNum + 1 + 5) (zeros 4) DomainWAL = makeNonce 5 (zeros 4) DomainWAL.
Proof. apply (makeNonce_injective 5 5 (zeros 4) (zeros 4) DomainWAL DomainChunk); done. Defined.

(** C15. The AAD buffer reused across the blocks of a run holds, for every
    block and whatever was in it, exactly the AAD built from scratch, and that
    AAD determines volume hash, block number and SeqNum: no record verifies in
    another place. *)
Theorem updateAAD_makeAAD buf h b0 s0 b s h' b' s' :
  length buf = Z.to_nat AADLen -> length h = 32%nat -> length h' = 32%nat ->
  in_u64 b -> in_u64 s -> in_u64 b' -> in_u64 s' ->
  updateAAD (updateAAD (initAAD buf h) b0 s0) b s = makeAAD h b s /\
  (makeAAD h b s = makeAAD h' b' s' -> h = h' /\ b = b' /\ s = s').
Proof.
  intros Hb Hh Hh' ? ? ? ?. rewrite !makeAAD_eq by done. split.
  - rewrite <-(take_drop 32 buf), <-(take_drop 8 (drop 32 buf)).
    rewrite initAAD_eq by (rewrite ?length_take; unfold AADLen in Hb; lia).
    rewrite (updateAAD_eq h) by (rewrite ?length_take, ?length_drop; unfold AADLen in Hb; lia).
    by rewrite (updateAAD_eq h) by (rewrite ?length_PutUint64; done).
  - intros E. apply app_inj_1 in E as [-> E]; [|congruence].
    apply app_inj_1 in E as [E1 E2]; [|by rewrite !length_PutUint64].
    apply be_put_inj in E1 as ->, E2 as ->; done.
Qed.

Lemma updateAAD_makeAAD_witness :
  updateAAD (updateAAD (initAAD (zeros 48) (zeros 32)) 1 2) 3 4 = makeAAD (zeros 32) 3 4 /\
  (makeAAD (zeros 32) 3 4 = makeAAD (zeros 32) 4 3 -> zeros 32 = zeros 32 /\ 3 = 4 /\ 4 = 3).
Proof. apply (updateAAD_makeAAD (zeros 48) (zeros 32) 1 2 3 4 (zeros 32) 4 3); done. Defined.

(** C26. Metadata round trip through the JSON decoder: for any JSON text, the
    envelope assembled by concatenation splits into that text, byte for byte,
    and its tag, verifies under the same AAD and nonce, and unwraps to the text
    for readers without a key; an envelope cut short anywhere is a parse
    error; a tag that verifies is the one seal of that payload under that AAD
    and nonce. A VBState tag and a snapshot tag are bound to different AADs. *)
Theorem meta_roundtrip `{AEADLaws} json aad nonce :
  json_valid json = true ->
  (exists tag, splitEnvelope (sealMeta json aad nonce) = Ok (json, tag) /\
     verifyMeta json tag aad nonce = true) /\
  StateBody (sealMeta json aad nonce) = json /\
  (forall k, (k < length (sealMeta json aad nonce))%nat -> splitEnvelope (take k (sealMeta json aad nonce)) = Err EnvParse) /\
  (forall payload tag, verifyMeta payload tag aad nonce = true ->
     tag = Seal nonce [] (aad ++ payload)) /\
  (forall h h' id s s', length h = length h' ->
     makeMetaAAD h (lit "vbstate") s <> makeMetaAAD h' (lit "snap:" ++ id) s').
Proof.
  intros Hv. split; [|split; [|split; [|split]]].
  - exists (Seal nonce [] (aad ++ json)). split; [by apply split_seal|apply verify_seal].
  - unfold StateBody, sealMeta. rewrite probe_splice by done.
    rewrite bool_decide_false by (apply b64_encode_nonempty, seal_nonempty).
    pose proof (json_nonempty json Hv). destruct json; done.
  - intros k Hk. unfold splitEnvelope, sealMeta in *. by rewrite unmarshal_truncated by done.
  - intros. by apply verify_only_sealed.
  - intros h h' id s s' Hl E. unfold makeMetaAAD in E. apply app_inj_1 in E as [_ E]; [|done]. done.
Qed.

Definition nested_json : bytes := lit "{'payload':'},','a':[1.5e-3,{'authtag':null}], 'v': 2}".

Lemma meta_roundtrip_witness :
  splitEnvelope (@sealMeta toy_aead nested_json (zeros 3) (zeros 12))
    = Ok (nested_json, toy_tag (zeros 12) [] (zeros 3 ++ nested_json)) /\
  StateBody (@sealMeta toy_aead nested_json (zeros 3) (zeros 12)) = nested_json.
Proof.
  destruct (@meta_roundtrip toy_aead toy_aead_laws nested_json (zeros 3) (zeros 12))
    as (_ & H & _); [reflexivity|].
  split; [vm_compute; reflexivity|exact H].
Defined.
