(* ===== verification/Paths.v ===== *)
(** * Object keys and file names (types/types.go, parseChunkObjectID)

    The names under which chunks, checkpoints, WAL segments and metadata are
    stored, and the inverse the chunk garbage collector uses on a listing. *)

From S2P Require Import Prelude Words.
From stdpp Require Import pretty.
From Stdlib Require Import Ascii.

Open Scope string_scope.
Open Scope list_scope.
Open Scope Z_scope.

Inductive FileType :=
| FileTypeConfig
| FileTypeChunk
| FileTypeBlockCheckpoint
| FileTypeWALChunk
| FileTypeWALBlock
| FileTypeSSHAuthKey
| FileTypeWALChunkShard
| FileTypeBlockCheckpointLive
| FileTypeSnapshotMarker.

#[global] Instance FileType_eq_dec : EqDecision FileType.
Proof. solve_decision. Defined.

(** [%0wd] on an unsigned value. *)
Definition fmt_0d (w : nat) (z : Z) : string :=
  let s := pretty (Z.to_N z) in
  String.concat EmptyString (replicate (w - String.length s) "0") +:+ s.

Definition GetFilePath (fileType : FileType) (objectId : Z) (volumeName : string) : string :=
  match fileType with
  | FileTypeConfig => volumeName +:+ "/config.json"
  | FileTypeChunk => volumeName +:+ "/chunks/chunk." +:+ fmt_0d 8 objectId +:+ ".bin"
  | FileTypeBlockCheckpoint => volumeName +:+ "/checkpoints/blocks." +:+ fmt_0d 8 objectId +:+ ".bin"
  | FileTypeWALChunk => volumeName +:+ "/wal/chunks/wal." +:+ fmt_0d 8 objectId +:+ ".bin"
  | FileTypeWALBlock => volumeName +:+ "/wal/blocks/blocks." +:+ fmt_0d 8 objectId +:+ ".bin"
  | FileTypeWALChunkShard =>
      let shardID := Z.land objectId 0xFF in
      let walNum := Z.shiftr objectId 8 in
      volumeName +:+ "/wal/chunks/wal." +:+ fmt_0d 8 walNum +:+ ".shard_" +:+ fmt_0d 2 shardID +:+ ".bin"
  | FileTypeBlockCheckpointLive => volumeName +:+ "/checkpoints/blocks.live.bin"
  | FileTypeSnapshotMarker => volumeName +:+ "/snapshots.marker"
  | FileTypeSSHAuthKey => volumeName +:+ "/unknown." +:+ fmt_0d 8 objectId +:+ ".bin"
  end.

Definition GetShardedWALPath (volumeName : string) (walNum shardID : Z) : string :=
  volumeName +:+ "/wal/chunks/wal." +:+ fmt_0d 8 walNum +:+ ".shard_" +:+ fmt_0d 2 shardID +:+ ".bin".

(** ** Parsing a chunk key *)

Abbreviation chars := (list Ascii.ascii).

Definition digit_val (c : Ascii.ascii) : option Z :=
  let z := Z.of_N (Ascii.N_of_ascii c) in
  if (48 <=? z) && (z <=? 57) then Some (z - 48) else None.

(** [strconv.ParseUint(s, 10, 64)] on a non-empty run of digits. *)
Definition parse_digits (acc : Z) (s : chars) : Z :=
  fold_left (fun a c => a * 10 + default 0 (digit_val c)) s acc.

(** The longest run of digits at the front, and what follows. *)
Fixpoint span_digits (s : chars) : chars * chars :=
  match s with
  | [] => ([], [])
  | c :: s' => match digit_val c with
               | Some _ => let '(d, r) := span_digits s' in (c :: d, r)
               | None => ([], s)
               end
  end.

Fixpoint strip_prefix (p s : chars) : option chars :=
  match p, s with
  | [], _ => Some s
  | c :: p', d :: s' => if decide (c = d) then strip_prefix p' s' else None
  | _ :: _, [] => None
  end.

Definition rchars (s : string) : chars := reverse (String.list_ascii_of_string s).

(** The pattern [/chunks/chunk\.(\d+)\.bin$], matched from the end of the key. *)
Definition parseChunkObjectID (key : string) : option Z :=
  match strip_prefix (rchars ".bin") (rchars key) with
  | None => None
  | Some r =>
      let '(ds, rest) := span_digits r in
      match ds, strip_prefix (rchars "/chunks/chunk.") rest with
      | _ :: _, Some _ =>
          let id := parse_digits 0 (reverse ds) in
          if id <? 2 ^ 64 then Some id else None
      | _, _ => None
      end
  end.

(** ** Lemmas *)

Abbreviation chars_of := String.list_ascii_of_string.

Lemma chars_app s1 s2 : chars_of (s1 +:+ s2) = chars_of s1 ++ chars_of s2.
Proof.
  induction s1 as [|c s1 IH]; [done|].
  change (chars_of (String c s1 +:+ s2)) with (c :: chars_of (s1 +:+ s2)). by rewrite IH.
Qed.

Lemma chars_inj s1 s2 : chars_of s1 = chars_of s2 -> s1 = s2.
Proof.
  intros H. rewrite <-(String.string_of_list_ascii_of_string s1), <-(String.string_of_list_ascii_of_string s2).
  by rewrite H.
Qed.

Lemma rchars_app s1 s2 : rchars (s1 +:+ s2) = rchars s2 ++ rchars s1.
Proof. unfold rchars. by rewrite chars_app, reverse_app. Qed.

Lemma parse_digits_app acc a b : parse_digits acc (a ++ b) = parse_digits (parse_digits acc a) b.
Proof. apply fold_left_app. Qed.

Definition all_digits (s : chars) : Prop := Forall (fun c => is_Some (digit_val c)) s.

Lemma digit_char x : (x < 10)%N -> digit_val (pretty_N_char x) = Some (Z.of_N x).
Proof.
  intros Hx. assert (x ∈ [0; 1; 2; 3; 4; 5; 6; 7; 8; 9]%N) as Hin by (rewrite !elem_of_cons; lia).
  clear Hx. revert x Hin. apply Forall_forall. by repeat constructor.
Qed.

(** Printing a number in decimal and reading it back, with a tail to follow. *)
Lemma parse_pretty_go x : forall s,
  exists ds, chars_of (pretty_N_go x s) = ds ++ chars_of s /\ all_digits ds /\
    parse_digits 0 ds = Z.of_N x /\ ((0 < x)%N -> ds <> []).
Proof.
  induction (N.lt_wf_0 x) as [x _ IH]. intros s.
  destruct (decide (0 < x)%N) as [Hx|Hx].
  - rewrite pretty_N_go_step by done.
    destruct (IH (x / 10)%N ltac:(apply N.div_lt; lia) (String (pretty_N_char (x mod 10)) s))
      as (ds & E & Ha & Hp & _).
    pose proof (N.mod_lt x 10 ltac:(lia)) as Hm.
    exists (ds ++ [pretty_N_char (x mod 10)]). split; [|split; [|split]].
    + rewrite E. cbn. by rewrite <-app_assoc.
    + apply Forall_app. split; [done|]. apply Forall_singleton. rewrite digit_char by done. eauto.
    + rewrite parse_digits_app, Hp. cbn. rewrite digit_char by done. cbn.
      pose proof (N.div_mod x 10 ltac:(lia)). lia.
    + intros _ [_ [=]]%app_nil.
  - assert (x = 0%N) as -> by lia. rewrite pretty_N_go_0. exists []. repeat split; [constructor|lia].
Qed.

Lemma parse_pretty x :
  all_digits (chars_of (pretty x)) /\ parse_digits 0 (chars_of (pretty x)) = Z.of_N x /\
  chars_of (pretty x) <> [].
Proof.
  unfold pretty, pretty_N. destruct (decide (x = 0)%N) as [->|Hx].
  { split; [|done]. repeat constructor. by eexists. }
  destruct (parse_pretty_go x "") as (ds & E & Ha & Hp & Hn). rewrite E. cbn. rewrite app_nil_r.
  split; [done|]. split; [done|]. apply Hn. lia.
Qed.

Lemma zeros_digits n :
  all_digits (chars_of (String.concat EmptyString (replicate n "0"))) /\
  parse_digits 0 (chars_of (String.concat EmptyString (replicate n "0"))) = 0.
Proof.
  induction n as [|n [IH1 IH2]]; [split; [constructor|done]|].
  assert (String.concat EmptyString (replicate (S n) "0")
    = "0" +:+ String.concat EmptyString (replicate n "0")) as ->.
  { cbn [replicate String.concat]. destruct n; done. }
  rewrite chars_app. split.
  - apply Forall_app. split; [|done]. repeat constructor. by eexists.
  - rewrite parse_digits_app. exact IH2.
Qed.

Lemma fmt_0d_digits w z :
  0 <= z -> all_digits (chars_of (fmt_0d w z)) /\ parse_digits 0 (chars_of (fmt_0d w z)) = z /\
  chars_of (fmt_0d w z) <> [].
Proof.
  intros Hz. unfold fmt_0d. rewrite chars_app.
  destruct (parse_pretty (Z.to_N z)) as (H1 & H2 & H3).
  destruct (zeros_digits (w - String.length (pretty (Z.to_N z)))) as [Z1 Z2].
  split; [by apply Forall_app|]. split.
  - rewrite parse_digits_app, Z2, H2. lia.
  - by intros [_ ?]%app_nil.
Qed.

Lemma span_digits_app ds c s :
  all_digits ds -> digit_val c = None -> span_digits (ds ++ c :: s) = (ds, c :: s).
Proof.
  intros Hd Hc. induction Hd as [|d ds [v Hv] _ IH]; cbn; [by rewrite Hc|]. by rewrite Hv, IH.
Qed.

Lemma strip_prefix_app p s : strip_prefix p (p ++ s) = Some s.
Proof. induction p as [|c p IH]; [done|]. cbn. by rewrite decide_True. Qed.

Lemma all_digits_reverse ds : all_digits ds -> all_digits (reverse ds).
Proof. apply Forall_reverse. Qed.

(** What [parseChunkObjectID] reads from a key: a chunk name, whatever the
    volume is called. *)
Lemma parse_chunk_key vol ds :
  all_digits ds -> ds <> [] ->
  parseChunkObjectID (vol +:+ "/chunks/chunk." +:+ String.string_of_list_ascii ds +:+ ".bin")
  = let id := parse_digits 0 ds in if id <? 2 ^ 64 then Some id else None.
Proof.
  intros Ha Hn. unfold parseChunkObjectID. rewrite !rchars_app, <-!app_assoc, strip_prefix_app.
  unfold rchars at 1. rewrite String.list_ascii_of_string_of_list_ascii.
  change (rchars "/chunks/chunk.") with
    ("."%char :: reverse (chars_of "/chunks/chunk")) at 1.
  cbn [app]. rewrite span_digits_app by (try done; by apply all_digits_reverse).
  change ("."%char :: reverse (chars_of "/chunks/chunk") ++ rchars vol)
    with (rchars "/chunks/chunk." ++ rchars vol).
  rewrite strip_prefix_app, reverse_involutive.
  destruct (reverse ds) eqn:E; [|done].
  apply (f_equal reverse) in E. by rewrite reverse_involutive in E.
Qed.

Lemma str_assoc (a b d : string) : a +:+ b +:+ d = (a +:+ b) +:+ d.
Proof. apply chars_inj. rewrite !chars_app. apply (assoc_L app). Qed.

Lemma string_prefix_spec a b : String.prefix a b = true <-> exists r, b = a +:+ r.
Proof.
  revert b. induction a as [|c a IH]; intros b.
  - split; [by exists b|]. by destruct b.
  - destruct b as [|d b]; cbn [String.prefix].
    + split; [done|]. by intros [r H].
    + destruct (Ascii.ascii_dec c d) as [<-|Hne].
      * rewrite IH. split; intros [r H]; exists r; [by rewrite H|by injection H].
      * split; [done|]. intros [r H]. by injection H.
Qed.

(** The id of a chunk of this volume. *)
Lemma parse_own_chunk vol id : in_u64 id -> parseChunkObjectID (GetFilePath FileTypeChunk id vol) = Some id.
Proof.
  intros Hid. unfold GetFilePath. destruct (fmt_0d_digits 8 id ltac:(apply Hid)) as (Ha & Hp & Hn).
  rewrite <-(String.string_of_list_ascii_of_string (fmt_0d 8 id)), parse_chunk_key, Hp by done.
  cbn zeta. destruct (Z.ltb_spec id (2 ^ 64)); [done|]. unfold_widths. lia.
Qed.

(** Packing a small number below a shifted one is addition. *)
Lemma lor_shiftl_low a k b : 0 <= k -> 0 <= b < 2 ^ k -> Z.lor (Z.shiftl a k) b = a * 2 ^ k + b.
Proof.
  intros Hk Hb. rewrite <-Z.shiftl_mul_pow2 by done.
  assert (Z.land (Z.shiftl a k) b = 0) as Hl.
  { apply Z.bits_inj'. intros n Hn. rewrite Z.land_spec, Z.bits_0.
    destruct (Z.ltb_spec n k) as [H|H].
    - by rewrite Z.shiftl_spec_low.
    - rewrite <-(Z.mod_small b (2 ^ k)) by done. rewrite Z.mod_pow2_bits_high by lia. apply andb_false_r. }
  by rewrite Z.add_nocarry_lxor, Z.lxor_lor by done.
Qed.

(** ** The theorems *)

(** ** Names are different *)

Lemma append_inj_l (s a b : string) : s +:+ a = s +:+ b -> a = b.
Proof. intros H. apply (f_equal chars_of) in H. rewrite !chars_app in H. by apply app_inv_head, chars_inj in H. Qed.

Lemma append_inj_r (s a b : string) : a +:+ s = b +:+ s -> a = b.
Proof. intros H. apply (f_equal chars_of) in H. rewrite !chars_app in H. by apply app_inv_tail, chars_inj in H. Qed.

Lemma fmt_0d_inj w i j : 0 <= i -> 0 <= j -> fmt_0d w i = fmt_0d w j -> i = j.
Proof.
  intros Hi Hj H. destruct (fmt_0d_digits w i Hi) as (_ & <- & _), (fmt_0d_digits w j Hj) as (_ & <- & _). by rewrite H.
Qed.

Lemma numbered_inj (pre post : string) w i j :
  0 <= i -> 0 <= j -> pre +:+ fmt_0d w i +:+ post = pre +:+ fmt_0d w j +:+ post -> i = j.
Proof. intros Hi Hj H%append_inj_l%append_inj_r. by eapply fmt_0d_inj. Qed.

Lemma chunk_key_inj i j vol :
  0 <= i -> 0 <= j -> GetFilePath FileTypeChunk i vol = GetFilePath FileTypeChunk j vol -> i = j.
Proof. intros Hi Hj H. cbn in H. apply append_inj_l in H. by eapply (numbered_inj "/chunks/chunk."). Qed.

Lemma wal_name_inj i j vol :
  0 <= i -> 0 <= j -> GetFilePath FileTypeWALChunk i vol = GetFilePath FileTypeWALChunk j vol -> i = j.
Proof. intros Hi Hj H. cbn in H. apply append_inj_l in H. by eapply (numbered_inj "/wal/chunks/wal."). Qed.

Lemma chunk_not_config i vol : GetFilePath FileTypeChunk i vol <> GetFilePath FileTypeConfig 0 vol.
Proof. intros H. cbn in H. by apply append_inj_l in H. Qed.

Lemma chunk_not_live i vol : GetFilePath FileTypeChunk i vol <> GetFilePath FileTypeBlockCheckpointLive 0 vol.
Proof. intros H. cbn in H. by apply append_inj_l in H. Qed.

Lemma live_not_config vol : GetFilePath FileTypeBlockCheckpointLive 0 vol <> GetFilePath FileTypeConfig 0 vol.
Proof. intros H. cbn in H. by apply append_inj_l in H. Qed.

(** A chunk's key determines its volume, whatever characters the name has. *)
Lemma chunk_key_rchars i vol : 0 <= i ->
  exists ds, all_digits ds /\ ds = reverse (chars_of (fmt_0d 8 i)) /\
    rchars (GetFilePath FileTypeChunk i vol) = rchars ".bin" ++ ds ++ "."%char :: reverse (chars_of "/chunks/chunk") ++ rchars vol.
Proof.
  intros Hi. destruct (fmt_0d_digits 8 i Hi) as (Ha & _). exists (reverse (chars_of (fmt_0d 8 i))).
  split; [by apply Forall_reverse|]. split; [done|]. cbn [GetFilePath]. rewrite !rchars_app, <-!app_assoc. reflexivity.
Qed.

Lemma chunk_key_volume i j vol vol' :
  0 <= i -> 0 <= j -> GetFilePath FileTypeChunk i vol = GetFilePath FileTypeChunk j vol' -> i = j /\ vol = vol'.
Proof.
  intros Hi Hj H. destruct (chunk_key_rchars i vol Hi) as (ds & Hd & Ed & Er), (chunk_key_rchars j vol' Hj) as (ds' & Hd' & Ed' & Er').
  rewrite H in Er. rewrite Er in Er'. apply app_inv_head in Er'.
  apply (f_equal span_digits) in Er'. rewrite !span_digits_app in Er' by done. injection Er' as E1 E2.
  split.
  - subst ds ds'. apply (inj reverse), chars_inj in E1. by eapply fmt_0d_inj.
  - apply (inj reverse), chars_inj in E2. done.
Qed.

(** [%08d] prints an unsigned number. *)
Lemma chunk_key_max i vol : GetFilePath FileTypeChunk i vol = GetFilePath FileTypeChunk (Z.max 0 i) vol.
Proof. by destruct i. Qed.

(** The metadata keys of a volume are not chunks of any volume. *)
Lemma config_not_chunk vol i vol' : GetFilePath FileTypeConfig 0 vol <> GetFilePath FileTypeChunk i vol'.
Proof.
  intros H. rewrite chunk_key_max in H. destruct (chunk_key_rchars (Z.max 0 i) vol' ltac:(lia)) as (ds & _ & _ & E). rewrite <-H in E.
  cbn [GetFilePath] in E. by rewrite rchars_app in E.
Qed.

Lemma marker_not_chunk vol i vol' : GetFilePath FileTypeSnapshotMarker 0 vol <> GetFilePath FileTypeChunk i vol'.
Proof.
  intros H. rewrite chunk_key_max in H. destruct (chunk_key_rchars (Z.max 0 i) vol' ltac:(lia)) as (ds & _ & _ & E). rewrite <-H in E.
  cbn [GetFilePath] in E. by rewrite rchars_app in E.
Qed.

Lemma live_not_chunk vol i vol' : GetFilePath FileTypeBlockCheckpointLive 0 vol <> GetFilePath FileTypeChunk i vol'.
Proof.
  intros H. rewrite chunk_key_max in H. destruct (chunk_key_rchars (Z.max 0 i) vol' ltac:(lia)) as (ds & Hd & _ & E). rewrite <-H in E.
  cbn [GetFilePath] in E. rewrite rchars_app in E. change (rchars "/checkpoints/blocks.live.bin")
    with (rchars ".bin" ++ rchars "/checkpoints/blocks.live") in E. rewrite <-app_assoc in E. apply app_inv_head in E.
  apply (f_equal (fun l => (span_digits l).2)) in E. rewrite span_digits_app in E by done. by cbn in E.
Qed.

Lemma checkpoint_not_chunk vol j i vol' :
  0 <= j -> GetFilePath FileTypeBlockCheckpoint j vol <> GetFilePath FileTypeChunk i vol'.
Proof.
  intros Hj H. rewrite chunk_key_max in H. destruct (chunk_key_rchars (Z.max 0 i) vol' ltac:(lia)) as (ds & Hd & _ & E). rewrite <-H in E.
  destruct (fmt_0d_digits 8 j Hj) as (Ha & _).
  cbn [GetFilePath] in E. rewrite !rchars_app, <-!app_assoc in E. apply app_inv_head in E.
  apply (f_equal (fun l => (span_digits l).2)) in E.
  change (rchars "/checkpoints/blocks.") with ("."%char :: rchars "/checkpoints/blocks") in E.
  cbn [app] in E. rewrite !span_digits_app in E by (try done; by apply all_digits_reverse). by cbn in E.
Qed.

(** A log segment and the state file of one directory. *)
Lemma wal_not_config base i vol :
  base +:+ "/" +:+ GetFilePath FileTypeWALChunk i vol <> base +:+ "/" +:+ GetFilePath FileTypeConfig 0 vol /\
  base +:+ "/" +:+ GetFilePath FileTypeWALChunk i vol <> (base +:+ "/" +:+ GetFilePath FileTypeConfig 0 vol) +:+ ".tmp".
Proof.
  split; intros H; apply (f_equal chars_of) in H; cbn [GetFilePath] in H; rewrite !chars_app in H;
    rewrite <-?app_assoc in H; by apply app_inv_head, app_inv_head, app_inv_head in H.
Qed.

(** A numbered key of a directory that is not the chunk directory. *)
Lemma parse_numbered_none vol dir q w n :
  0 <= n -> rchars dir = "."%char :: q ->
  strip_prefix (rchars "/chunks/chunk.") (rchars dir ++ rchars vol) = None ->
  parseChunkObjectID (vol +:+ dir +:+ fmt_0d w n +:+ ".bin") = None.
Proof.
  intros Hn Eq Hs. destruct (fmt_0d_digits w n Hn) as (Ha & _). unfold parseChunkObjectID.
  rewrite !rchars_app, <-!app_assoc, strip_prefix_app. rewrite Eq in *. cbn [app] in *.
  unfold rchars at 1. rewrite span_digits_app by (try done; by apply all_digits_reverse). rewrite Hs. by destruct (reverse _).
Qed.

(** A shard's number follows [".shard_"], which is no run of digits. *)
Lemma parse_shard_none vol walNum shard : 0 <= shard -> parseChunkObjectID (GetShardedWALPath vol walNum shard) = None.
Proof.
  intros Hs. destruct (fmt_0d_digits 2 shard Hs) as (Ha & _). unfold GetShardedWALPath, parseChunkObjectID.
  rewrite !rchars_app, <-!app_assoc, strip_prefix_app. change (rchars ".shard_") with ("_"%char :: rchars ".shard").
  cbn [app]. unfold rchars at 1. rewrite span_digits_app by (try done; by apply all_digits_reverse).
  by destruct (reverse _).
Qed.

(** Only the chunk type names chunks. *)
Lemma parse_other_none t id vol : 0 <= id -> t <> FileTypeChunk -> parseChunkObjectID (GetFilePath t id vol) = None.
Proof.
  intros Hid Ht. destruct t; [|done|..].
  - unfold GetFilePath, parseChunkObjectID. by rewrite rchars_app.
  - by eapply (parse_numbered_none vol "/checkpoints/blocks.").
  - by eapply (parse_numbered_none vol "/wal/chunks/wal.").
  - by eapply (parse_numbered_none vol "/wal/blocks/blocks.").
  - by eapply (parse_numbered_none vol "/unknown.").
  - apply parse_shard_none. by apply Z.land_nonneg; right.
  - unfold GetFilePath, parseChunkObjectID. by rewrite rchars_app.
  - unfold GetFilePath, parseChunkObjectID. by rewrite rchars_app.
Qed.

(** C27. Listing and naming agree: the object id recovered from a chunk's key
    is the id it was stored under, for every 64-bit id and whatever characters
    the volume name contains; no key of another file type (state, numbered and
    live checkpoint, log segment, block log, log shard, snapshot marker,
    unknown) and no name of a sharded segment is taken for a chunk, whatever
    its number; and a sharded segment has the name the generic naming function
    gives to its packed id. *)
Theorem chunk_key_roundtrip vol id walNum shard :
  in_u64 id -> 0 <= walNum -> 0 <= shard < 256 ->
  parseChunkObjectID (GetFilePath FileTypeChunk id vol) = Some id /\
  (forall t, t <> FileTypeChunk -> parseChunkObjectID (GetFilePath t id vol) = None) /\
  parseChunkObjectID (GetShardedWALPath vol walNum shard) = None /\
  GetFilePath FileTypeWALChunkShard (Z.lor (Z.shiftl walNum 8) shard) vol
    = GetShardedWALPath vol walNum shard.
Proof.
  intros Hid Hw Hs. split; [by apply parse_own_chunk|]. split; [|split].
  - intros t Ht. apply parse_other_none; [apply Hid|done].
  - apply parse_shard_none. lia.
  - unfold GetFilePath, GetShardedWALPath.
    rewrite lor_shiftl_low by lia.
    change 0xFF with (Z.ones 8). rewrite Z.land_ones, Z.shiftr_div_pow2 by lia.
    rewrite Z.add_comm, Z.mod_add, Z.div_add, Z.div_small, Z.mod_small by lia. done.
Qed.

Lemma chunk_key_roundtrip_witness :
  parseChunkObjectID (GetFilePath FileTypeChunk 123456789 "vol/chunks/chunk.7.bin") = Some 123456789 /\
  parseChunkObjectID (GetFilePath FileTypeWALChunk 123456789 "vol/chunks/chunk.7.bin") = None /\
  GetFilePath FileTypeWALChunkShard (Z.lor (Z.shiftl 5 8) 3) "v" = GetShardedWALPath "v" 5 3.
Proof.
  destruct (chunk_key_roundtrip "vol/chunks/chunk.7.bin" 123456789 5 3) as (H & Ho & _); [done|lia..|].
  destruct (chunk_key_roundtrip "v" 1 5 3) as (_ & _ & _ & H'); [done|lia..|].
  split; [exact H|]. split; [by apply Ho|exact H'].
Defined.
