(* ===== verification/Volume.v ===== *)
(** * The volume: state, world and effects (type VB, types.Backend, os)

    The record of a [VB], the world it acts on (the local disk and the
    backend's objects, both of which may fail), and the monad in which the
    operations of viperblock.go are written: Go's [(value, error)] results over
    an explicitly threaded state. *)

From S2P Require Import Prelude Words BlockMap BlockStore Crypto Paths.
From coqutil Require Export Datatypes.RecordSetters.
Export TriangleBracketNotations.

(** ** Errors *)

(** The sentinels [errors.Is] is asked for. *)
Inductive sentinel :=
| ErrZeroBlock
| ErrRequestTooLarge
| ErrRequestOutOfRange
| ErrRequestBlockSize
| ErrRequestBufferEmpty
| ErrNoSpace
| ErrStateNotFound
| ErrStateBackendUnavailable
| ErrEncryptionMismatch
| ErrIntegrity
| ErrPreEncryptionFormat
| ErrNotExist
| ErrShortRead
| GoPanic. (* not an error value: the goroutine panics *)

#[global] Instance sentinel_eq_dec : EqDecision sentinel.
Proof. solve_decision. Defined.

(** A non-nil error is the list of sentinels it wraps: [fmt.Errorf] with [%w]
    keeps them, without [%w] it makes an error that wraps none. *)
Abbreviation error := (list sentinel).
Definition errors_Is (e : error) (s : sentinel) : bool := bool_decide (s ∈ e).
Definition plain : error := [].

(** ** The world *)

(** The outcome of one call into the operating system or the backend: it
    works, or it fails with an error after [k] bytes took effect, or (a read)
    it returns only the first [k] bytes. *)
Inductive outcome :=
| Works
| Fails (e : error) (k : nat)
| Short (k : nat).

Record World := mkWorld {
  files : gmap string bytes;    (* local disk *)
  objects : gmap string bytes;  (* backend *)
  plan : list outcome;          (* outcomes of the next calls; [Works] when exhausted *)
  entropy : list bytes;         (* crypto/rand *)
  now : Z                       (* time.Now().Unix() *)
}.

Definition with_files (f : gmap string bytes -> gmap string bytes) (w : World) : World :=
  mkWorld (f (files w)) (objects w) (plan w) (entropy w) (now w).
Definition with_objects (f : gmap string bytes -> gmap string bytes) (w : World) : World :=
  mkWorld (files w) (f (objects w)) (plan w) (entropy w) (now w).

Definition with_entropy (e : list bytes) (w : World) : World :=
  mkWorld (files w) (objects w) (plan w) e (now w).

(** ** The volume *)

Record WAL := mkWAL {
  DB : list string;             (* names of the segment files; the last one is active *)
  WallNum : Z;
  wal_BaseDir : string;
  WALMagic : bytes;
  wal_dirty : bool;
  wal_closed : bool             (* the last handle of DB was closed and has no successor *)
}.

Record VolumeConfig := mkVolumeConfig {
  SizeGiB : Z;                  (* VolumeMetadata.SizeGiB *)
  other_config : string         (* the fields the engine never reads *)
}.

Record VBState := mkVBState {
  vs_VolumeName : string;
  vs_VolumeSize : Z;
  vs_BlockSize : Z;
  vs_ObjBlockSize : Z;
  vs_SeqNum : Z;
  vs_ObjectNum : Z;
  vs_WALNum : Z;
  vs_BlockToObjectWALNum : Z;
  vs_Version : Z;
  vs_VolumeConfig : VolumeConfig;
  vs_ShardedWAL : bool;
  vs_SnapshotID : string;
  vs_SourceVolumeName : string;
  vs_EncryptionEnabled : bool;
  vs_VolumeUUID : bytes;
  vs_SeqNumHighWater : Z;
  vs_StateSeqNum : Z;
  vs_KeyFingerprint : string
}.

(** [VBState{}] *)
Definition VBState0 : VBState :=
  mkVBState "" 0 0 0 0 0 0 0 0 (mkVolumeConfig 0 "") false "" "" false (zeros 4) 0 0 "".

Record snapshotAncestor := mkAncestor {
  anc_blocks : gmap Z BlockLookup;
  anc_sourceVolumeName : string;
  anc_sourceVolumeUUID : bytes;
  anc_sourceVolumeNameHash : bytes
}.

Record VB := mkVB {
  VolumeName : string;
  VolumeSize : Z;
  BlockSize : Z;
  ObjBlockSize : Z;
  FlushSize : Z;
  MaxPendingBytes : Z;
  SeqNum : Z;
  ObjectNum : Z;
  BlocksToObject : gmap Z BlockLookup;
  bto_dirty : bool;
  Writes : list Block;
  PendingBackendWrites : list Block;
  pendingBytes : Z;
  backendFull : bool;
  uploadTriggered : bool;       (* the buffered slot of chunkUploadTrigger *)
  vb_WAL : WAL;
  ShardWAL : list (option string); (* shard.DB of each shard: the open file, if any *)
  ShardWallNum : Z;
  UseShardedWAL : bool;
  BlockToObjectWAL : WAL;
  BStore : UnifiedBlockStore;
  UseBlockStore : bool;
  Version : Z;
  ChunkMagic : bytes;
  BaseDir : string;
  vb_Config : VolumeConfig;
  BaseBlockMap : option (gmap Z BlockLookup);
  SourceVolumeName : string;
  SnapshotID : string;
  ancestors : list snapshotAncestor;
  MasterKey : option string;    (* its fingerprint *)
  EncryptionEnabled : bool;
  volumeNameHash : bytes;
  VolumeUUID : bytes;
  SourceVolumeUUID : bytes;
  sourceVolumeNameHash : bytes;
  chunkMagicChecked : gset (string * Z);
  seqNumHighWater : Z;
  nextStateSeqNum : Z;
  GCEnabled : bool;
  gcRefcount : gmap Z Z;
  gcReconciled : bool;
  gcFloor : Z;
  gcFloorReady : bool;
  gcSnapshotSafe : bool;
  gcSnapshotChecked : bool;
  gcMarkerBaseline : option bytes;
  gcLatchedOff : bool;
  shard_dirty : list bool        (* shard.dirty of each shard *)
}.

(** ** The effect monad *)

Record St := mkSt { vb : VB; world : World }.

Definition M (A : Type) : Type := St -> result error A * St.

Definition ret {A} (a : A) : M A := fun s => (Ok a, s).
Definition throw {A} (e : error) : M A := fun s => (Err e, s).
Definition bind {A B} (m : M A) (k : A -> M B) : M B := fun s =>
  match m s with
  | (Ok a, s') => k a s'
  | (Err e, s') => (Err e, s')
  end.
(** Runs [m] and hands its result, error or not, to the continuation. *)
Definition try {A} (m : M A) : M (result error A) := fun s => let '(r, s') := m s in (Ok r, s').
Definition get : M VB := fun s => (Ok (vb s), s).
Definition modify (f : VB -> VB) : M unit := fun s => (Ok tt, mkSt (f (vb s)) (world s)).
Definition of_result {A} (r : result error A) : M A := fun s => (r, s).

Declare Scope m_scope.
Delimit Scope m_scope with m.
Notation "'do' x <- m ; k" := (bind m (fun x => k))
  (at level 10, x pattern, m at level 100, k at level 200) : m_scope.
Notation "'run' m ; k" := (bind m (fun _ => k))
  (at level 10, m at level 100, k at level 200) : m_scope.
Notation "'when' b 'then' m ; k" := (bind (if b then m else ret tt) (fun _ => k))
  (at level 10, b at level 100, m at level 100, k at level 200) : m_scope.
Open Scope m_scope.

(** [for _, x := range l] with early return. *)
Fixpoint mfor {A} (l : list A) (body : A -> M unit) : M unit :=
  match l with
  | [] => ret tt
  | x :: l' => run body x; mfor l' body
  end.

(** ** Calls into the operating system *)

(** The outcome of the next call. *)
Definition next : M outcome := fun s =>
  let w := world s in
  match plan w with
  | [] => (Ok Works, s)
  | o :: p => (Ok o, mkSt (vb s) (w <| plan := p |>))
  end.

(** A call with no effect on file contents (mkdir, close, fsync, ...). *)
Definition os_call : M unit :=
  do o <- next;
  match o with
  | Fails e _ => throw e
  | _ => ret tt
  end.

Definition get_file (name : string) : M (option bytes) := fun s => (Ok (files (world s) !! name), s).
Definition set_file (name : string) (d : bytes) : M unit := fun s =>
  (Ok tt, mkSt (vb s) (with_files <[name := d]> (world s))).
Definition del_file (name : string) : M unit := fun s =>
  (Ok tt, mkSt (vb s) (with_files (delete name) (world s))).

(** [os.Open] + read to the end. *)
Definition os_ReadFile (name : string) : M bytes :=
  do o <- next;
  do f <- get_file name;
  match o, f with
  | Fails e _, _ => throw e
  | _, None => throw [ErrNotExist]
  | _, Some d => ret d
  end.

(** [f.Write(d)] at the end of an open file: the bytes written and the error. *)
Definition file_append (name : string) (d : bytes) : M (Z * option error) :=
  do o <- next;
  do f <- get_file name;
  let cur := default [] f in
  match o with
  | Works => run set_file name (cur ++ d); ret (blen d, None)
  | Short k => run set_file name (cur ++ take k d); ret (blen (take k d), Some plain)
  | Fails e k => run set_file name (cur ++ take k d); ret (blen (take k d), Some e)
  end.

(** [f.Truncate(n)] *)
Definition file_truncate (name : string) (n : Z) : M (option error) :=
  do o <- next;
  do f <- get_file name;
  match o with
  | Fails e _ => ret (Some e)
  | _ => run set_file name (take (Z.to_nat n) (default [] f)); ret None
  end.

(** [f.Stat().Size()] *)
Definition file_size (name : string) : M Z :=
  do o <- next;
  do f <- get_file name;
  match o with
  | Fails e _ => throw e
  | _ => ret (blen (default [] f))
  end.

(** [time.Now().Unix()] *)
Definition get_now : M Z := fun s => (Ok (now (world s)), s).

(** ** Calls into the backend: an object store *)

Definition get_object (key : string) : M (option bytes) := fun s => (Ok (objects (world s) !! key), s).
Definition set_object (key : string) (d : bytes) : M unit := fun s =>
  (Ok tt, mkSt (vb s) (with_objects <[key := d]> (world s))).
Definition del_object (key : string) : M unit := fun s =>
  (Ok tt, mkSt (vb s) (with_objects (delete key) (world s))).

(** [Backend.ReadFromCtx]: length 0 reads the whole object; a range past the
    end is an error, or (a clamping store) a short answer. *)
Definition backend_ReadFrom (volume : string) (t : FileType) (id offset length : Z) : M bytes :=
  do o <- next;
  do d <- get_object (GetFilePath t id volume);
  match o, d with
  | Fails e _, _ => throw e
  | _, None => throw [ErrNotExist]
  | _, Some d =>
      let len := if length =? 0 then SafeInt64ToUint32 (blen d) else length in
      let r := slice d offset (offset + len) in
      match o with
      | Short k => ret (take k r)
      | _ => if blen d <? offset + len then throw plain else ret r
      end
  end.

(** [Backend.ReadCtx]: the same, on the volume's own objects. *)
Definition backend_Read (t : FileType) (id offset length : Z) : M bytes :=
  do v <- get; backend_ReadFrom (VolumeName v) t id offset length.

(** [Backend.WriteToCtx]: a failed write leaves the old object or a proper
    prefix of the new one behind. *)
Definition backend_WriteTo (volume : string) (t : FileType) (id : Z) (headers data : bytes) : M unit :=
  do o <- next;
  let key := GetFilePath t id volume in
  match o with
  | Fails e O => throw e
  | Fails e (S k) => run set_object key (take k (headers ++ data)); throw e
  | _ => set_object key (headers ++ data)
  end.

Definition backend_Write (t : FileType) (id : Z) (headers data : bytes) : M unit :=
  do v <- get; backend_WriteTo (VolumeName v) t id headers data.

(** [Backend.DeleteCtx]: a failed call may have removed the object, and a
    store may or may not report an object that is already gone. *)
Definition backend_Delete (t : FileType) (id : Z) : M unit :=
  do v <- get;
  do o <- next;
  let key := GetFilePath t id (VolumeName v) in
  do d <- get_object key;
  match o, d with
  | Fails e O, _ => throw e
  | Fails e (S _), _ => run del_object key; throw e
  | Works, None => throw [ErrNotExist]
  | _, _ => del_object key
  end.

(** [Backend.ListObjectsCtx]: every key under a prefix, in some order. *)
Definition backend_ListObjects (prefix : string) : M (list string) := fun s =>
  match next s with
  | (Ok (Fails e _), s') => (Err e, s')
  | (_, s') => (Ok (filter (fun k => String.prefix prefix k = true) (map_to_list (objects (world s'))).*1), s')
  end.

(** The first path segment of a key that has one. *)
Fixpoint top_segment (key : string) : option string :=
  match key with
  | EmptyString => None
  | String c key' =>
      if Ascii.eqb c (Ascii.ascii_of_N 47) then Some EmptyString (* a slash *)
      else match top_segment key' with Some s => Some (String c s) | None => None end
  end.

(** [Backend.ListPrefixesCtx]: the top-level names under a prefix. *)
Definition backend_ListPrefixes (prefix : string) : M (list string) := fun s =>
  match next s with
  | (Ok (Fails e _), s') => (Err e, s')
  | (_, s') =>
      (Ok (remove_dups (filter (fun n => String.prefix prefix n = true)
             (omap top_segment (map_to_list (objects (world s'))).*1))), s')
  end.

(** ** Small accessors *)

(** [vb.blockStride()] *)
Definition blockStride (v : VB) : Z :=
  u32 (if EncryptionEnabled v then BlockSize v + 16 else BlockSize v).

Definition GetVolumeSize (v : VB) : Z := VolumeSize v.
Definition GetVolume (v : VB) : string := VolumeName v.

(** [vb.PendingBytes()]: an int64 counter read as a uint64. *)
Definition PendingBytes (v : VB) : Z := u64 (pendingBytes v).

Definition DefaultMaxPendingBytes : Z := 256 * 1024 * 1024.
Definition maxPendingBytes (v : VB) : Z :=
  if MaxPendingBytes v =? 0 then DefaultMaxPendingBytes else MaxPendingBytes v.

(** ** Running monadic code *)

Lemma bind_Ok {A B} (m : M A) (k : A -> M B) s a s' :
  m s = (Ok a, s') -> bind m k s = k a s'.
Proof. unfold bind. by intros ->. Qed.

Lemma bind_Err {A B} (m : M A) (k : A -> M B) s e s' :
  m s = (Err e, s') -> bind m k s = (Err e, s').
Proof. unfold bind. by intros ->. Qed.

(** A bind that returns: the first part returned, and so did the rest. *)
Lemma bind_inv {A B} (m : M A) (k : A -> M B) s b s2 :
  bind m k s = (Ok b, s2) -> exists a s1, m s = (Ok a, s1) /\ k a s1 = (Ok b, s2).
Proof. unfold bind. destruct (m s) as [[a|e] s1]; [eauto|done]. Qed.

(** *** What the primitive calls leave alone *)

(** Same volume, files and objects: only outcomes were consumed. *)
Definition quiet (s s' : St) : Prop :=
  vb s' = vb s /\ files (world s') = files (world s) /\ objects (world s') = objects (world s).

Lemma quiet_refl s : quiet s s.
Proof. done. Qed.

Lemma quiet_trans s1 s2 s3 : quiet s1 s2 -> quiet s2 s3 -> quiet s1 s3.
Proof. unfold quiet. intuition congruence. Qed.

Lemma next_quiet s r s' : next s = (r, s') -> quiet s s' /\ exists o, r = Ok o.
Proof.
  unfold next. destruct (plan (world s)); intros [= <- <-]; split; eauto; done.
Qed.

(** ** A weakest-precondition calculus *)

Definition post {A} (m : M A) (s : St) (Q : result error A -> St -> Prop) : Prop :=
  Q (m s).1 (m s).2.

Section wp.
Context {A B : Type}.
Implicit Types (s : St).

Lemma post_run (m : M A) s Q : post m s Q -> forall r s', m s = (r, s') -> Q r s'.
Proof. unfold post. intros H r s' E. by rewrite E in H. Qed.

Lemma post_mono (m : M A) s (Q Q' : result error A -> St -> Prop) :
  post m s Q -> (forall r s', Q r s' -> Q' r s') -> post m s Q'.
Proof. unfold post. auto. Qed.

Lemma post_ret (a : A) s Q : Q (Ok a) s -> post (ret a) s Q.
Proof. done. Qed.

Lemma post_throw e s (Q : result error A -> St -> Prop) : Q (Err e) s -> post (throw e) s Q.
Proof. done. Qed.

Lemma post_of_result (r : result error A) s Q : Q r s -> post (of_result r) s Q.
Proof. done. Qed.

Lemma post_bind (m : M A) (k : A -> M B) s Q :
  post m s (fun r s1 => match r with Ok a => post (k a) s1 Q | Err e => Q (Err e) s1 end) ->
  post (bind m k) s Q.
Proof. unfold post, bind. destruct (m s) as [[a|e] s1]; done. Qed.

Lemma post_try (m : M A) s Q : post m s (fun r s1 => Q (Ok r) s1) -> post (try m) s Q.
Proof. unfold post, try. by destruct (m s). Qed.
End wp.

Lemma post_get s Q : Q (Ok (vb s)) s -> post get s Q.
Proof. done. Qed.

Lemma post_modify f s Q : Q (Ok tt) (mkSt (f (vb s)) (world s)) -> post (modify f) s Q.
Proof. done. Qed.

Lemma post_get_file n s Q : Q (Ok (files (world s) !! n)) s -> post (get_file n) s Q.
Proof. done. Qed.

Lemma post_set_file n d s Q :
  Q (Ok tt) (mkSt (vb s) (with_files <[n := d]> (world s))) -> post (set_file n d) s Q.
Proof. done. Qed.

Lemma post_del_file n s Q :
  Q (Ok tt) (mkSt (vb s) (with_files (delete n) (world s))) -> post (del_file n) s Q.
Proof. done. Qed.

Lemma post_get_object n s Q : Q (Ok (objects (world s) !! n)) s -> post (get_object n) s Q.
Proof. done. Qed.

Lemma post_set_object n d s Q :
  Q (Ok tt) (mkSt (vb s) (with_objects <[n := d]> (world s))) ->
  post (set_object n d) s Q.
Proof. done. Qed.

Lemma post_del_object n s Q :
  Q (Ok tt) (mkSt (vb s) (with_objects (delete n) (world s))) ->
  post (del_object n) s Q.
Proof. done. Qed.

Lemma post_next s Q : (forall o s', quiet s s' -> Q (Ok o) s') -> post next s Q.
Proof.
  intros H. unfold post. destruct (next s) as [r s'] eqn:E.
  apply next_quiet in E as [Hq [o ->]]. by apply H.
Qed.

(** No call is going to fail. *)
Definition calm (s : St) : Prop := Forall (fun o => o = Works) (plan (world s)).

Lemma post_next_calm s Q :
  (forall o s', quiet s s' -> (calm s -> o = Works /\ calm s') -> Q (Ok o) s') -> post next s Q.
Proof.
  intros H. unfold post. destruct (next s) as [r s'] eqn:E.
  pose proof (next_quiet _ _ _ E) as [Hq [o ->]]. apply H; [done|]. unfold next in E.
  destruct (plan (world s)) as [|o' p] eqn:Ep; injection E as <- <-; intros Hc; [done|].
  unfold calm in *. rewrite Ep in Hc. apply Forall_cons in Hc as [-> Hp]. done.
Qed.

Lemma post_os_call s Q : (forall r s', quiet s s' -> Q r s') -> post os_call s Q.
Proof.
  intros H. unfold os_call. apply post_bind, post_next. intros o s' Hq.
  destruct o; apply H; done.
Qed.

Lemma post_file_append n d s Q :
  (forall k err s1, quiet s s1 -> (err = None -> take k d = d) ->
    Q (Ok (blen (take k d), err))
      (mkSt (vb s1) (with_files <[n := default [] (files (world s1) !! n) ++ take k d]> (world s1)))) ->
  post (file_append n d) s Q.
Proof.
  intros H. unfold file_append. apply post_bind, post_next. intros o s1 Hq. cbn beta iota.
  apply post_bind, post_get_file. cbn beta iota zeta.
  destruct o as [|e k|k]; apply post_bind, post_set_file; cbn beta iota; apply post_ret.
  - specialize (H (length d) None s1 Hq). rewrite take_ge in H by lia. by apply H.
  - by apply (H k (Some e)).
  - by apply (H k (Some plain)).
Qed.

(** One step of symbolic execution. *)
Ltac mstep :=
  lazymatch goal with
  | |- post (bind _ _) _ _ => apply post_bind
  | |- post (try _) _ _ => apply post_try
  | |- post (ret _) _ _ => apply post_ret
  | |- post (throw _) _ _ => apply post_throw
  | |- post (of_result _) _ _ => apply post_of_result
  | |- post get _ _ => apply post_get
  | |- post (modify _) _ _ => apply post_modify
  | |- post (get_file _) _ _ => apply post_get_file
  | |- post (set_file _ _) _ _ => apply post_set_file
  | |- post (del_file _) _ _ => apply post_del_file
  | |- post (get_object _) _ _ => apply post_get_object
  | |- post (set_object _ _) _ _ => apply post_set_object
  | |- post (del_object _) _ _ => apply post_del_object
  | |- post os_call _ _ => apply post_os_call; intros ? ? ?
  | |- post next _ _ => apply post_next; intros ? ? ?
  | |- post (file_append _ _) _ _ => apply post_file_append; intros ? ? ? ? ?
  | |- match ?r with Ok _ => _ | Err _ => _ end => destruct r
  | |- post (match ?r with Ok _ => _ | Err _ => _ end) _ _ => destruct r
  end; cbn beta iota.
Ltac mgo := repeat mstep.

(** Reads every fact about the world off the calls made so far. *)
Ltac world_facts :=
  repeat match goal with
  | H : quiet _ _ |- _ => destruct H as (? & ? & ?)
  end;
  cbn [vb world files objects with_files with_objects] in *;
  repeat match goal with
  | H : files (world ?s) = _ |- _ => rewrite H in *; clear H
  | H : objects (world ?s) = _ |- _ => rewrite H in *; clear H
  | H : vb ?s = _ |- _ => rewrite H in *; clear H
  end;
  cbn [vb world files objects with_files with_objects] in *.

(** ** Calls on a machine where nothing fails *)

Lemma post_and {X} (m : M X) s (Q1 Q2 : result error X -> St -> Prop) :
  post m s Q1 -> post m s Q2 -> post m s (fun r s' => Q1 r s' /\ Q2 r s').
Proof. by split. Qed.

Lemma post_call_calm s Q : calm s -> (forall s', quiet s s' -> calm s' -> Q (Ok tt) s') -> post os_call s Q.
Proof.
  intros Hc H. unfold os_call. apply post_bind, post_next_calm. intros o s' Hq Ho. destruct (Ho Hc) as [-> ?]. by apply H.
Qed.

Lemma post_append_calm n d s Q : calm s ->
  (forall s', vb s' = vb s -> objects (world s') = objects (world s) ->
    files (world s') = <[n := default [] (files (world s) !! n) ++ d]> (files (world s)) -> calm s' -> Q (Ok (blen d, None)) s') ->
  post (file_append n d) s Q.
Proof.
  intros Hc H. unfold file_append. apply post_bind, post_next_calm. intros o s' (Ev & Ef & Eo) Ho. destruct (Ho Hc) as [-> Hc'].
  mgo. apply H; cbn [vb world files objects with_files]; rewrite ?Ef; done.
Qed.

(** Symbolic execution on such a machine. *)
Ltac cstep :=
  lazymatch goal with
  | |- post os_call _ _ => apply post_call_calm; [assumption|intros ? ? ?; cbn beta iota]
  | |- post (file_append _ _) _ _ => apply post_append_calm; [assumption|intros ? ? ? ? ?; cbn beta iota]
  | |- _ => mstep
  end.
Ltac cgo := repeat cstep.
