(* ===== verification/ObjectStore.v ===== *)
(** * The interface between the engine and its backends ([types.Backend])

    The engine's theorems are proved against the object store of [Volume]: one
    call works, fails after some bytes took effect, or answers short, as the
    world's plan says.  This file states what a backend promises the engine, a
    [BackendImpl]: every call it answers is one the object store could have
    answered under some plan.  The file and S3 backends are instances. *)

From S2P Require Import Prelude Words BlockMap BlockStore Crypto Paths Volume.

(** ** The calls *)

Inductive bk_op :=
| BkRead (t : FileType) (id offset length : Z)
| BkReadFrom (vol : string) (t : FileType) (id offset length : Z)
| BkWrite (t : FileType) (id : Z) (headers data : bytes)
| BkWriteTo (vol : string) (t : FileType) (id : Z) (headers data : bytes)
| BkDelete (t : FileType) (id : Z).

Definition bk_unit (m : M unit) : M bytes := run m; ret [].

(** The engine's view of a call, on a volume [v]. *)
Definition spec_op (op : bk_op) : M bytes :=
  match op with
  | BkRead t id off len => backend_Read t id off len
  | BkReadFrom vol t id off len => backend_ReadFrom vol t id off len
  | BkWrite t id h d => bk_unit (backend_Write t id h d)
  | BkWriteTo vol t id h d => bk_unit (backend_WriteTo vol t id h d)
  | BkDelete t id => bk_unit (backend_Delete t id)
  end.

(** One call on a store of objects, with the outcome it meets. *)
Definition spec_run (v : VB) (op : bk_op) (o : outcome) (objs : gmap string bytes)
    : result error bytes * gmap string bytes :=
  let '(r, s) := spec_op op (mkSt v (mkWorld ∅ objs [o] [] 0)) in (r, objects (world s)).

(** The key a call is about, for the backend's own volume [own]. *)
Definition op_key (own : string) (op : bk_op) : string :=
  match op with
  | BkRead t id _ _ | BkWrite t id _ _ | BkDelete t id => GetFilePath t id own
  | BkReadFrom vol t id _ _ | BkWriteTo vol t id _ _ => GetFilePath t id vol
  end.

(** Calls the engine makes: 32-bit ranges that end below 4 GiB, a read of a
    whole object starts at 0, objects are smaller than 4 GiB. *)
Definition op_valid (own : string) (objs : gmap string bytes) (op : bk_op) : Prop :=
  match op with
  | BkRead _ _ off len | BkReadFrom _ _ _ off len =>
      in_u32 off /\ in_u32 len /\ off + len <= 2 ^ 32 /\ (len = 0 -> off = 0)
      /\ (forall d, objs !! op_key own op = Some d -> blen d <= MaxUint32)
  | _ => True
  end.

(** ** What a backend promises *)

Class BackendImpl (S : Type) := {
  bk_own : string;                                  (* its own volume *)
  bk_repr : S -> gmap string bytes -> Prop;         (* the objects it holds *)
  bk_fit : S -> bk_op -> Prop;                      (* calls it can represent *)
  bk_run : bk_op -> S -> result error bytes * S;
  bk_sim : forall v op s objs r s',
    VolumeName v = bk_own -> bk_repr s objs -> bk_fit s op -> op_valid bk_own objs op ->
    bk_run op s = (r, s') ->
    exists o objs', spec_run v op o objs = (r, objs') /\ bk_repr s' objs' }.

(** ** Runs *)

Section runs.
Context {S : Type} `{BackendImpl S}.

Fixpoint bk_runs (ops : list bk_op) (s : S) : list (result error bytes) * S :=
  match ops with
  | [] => ([], s)
  | op :: ops =>
      let '(r, s1) := bk_run op s in let '(rs, s2) := bk_runs ops s1 in (r :: rs, s2)
  end.

(** Every call of a run can be represented, and is valid for the objects at
    that point. *)
Fixpoint runs_valid (ops : list bk_op) (s : S) : Prop :=
  match ops with
  | [] => True
  | op :: ops =>
      bk_fit s op /\ (forall objs, bk_repr s objs -> op_valid bk_own objs op)
      /\ runs_valid ops (bk_run op s).2
  end.
End runs.

Fixpoint spec_runs (v : VB) (ops : list bk_op) (p : list outcome) (objs : gmap string bytes)
    : list (result error bytes) * gmap string bytes :=
  match ops, p with
  | op :: ops, o :: p =>
      let '(r, objs1) := spec_run v op o objs in
      let '(rs, objs2) := spec_runs v ops p objs1 in (r :: rs, objs2)
  | _, _ => ([], objs)
  end.

Section refinement.
Context {S : Type} `{BackendImpl S}.

(** Any sequence of calls a backend answers is one the engine's object store
    answers under some plan of outcomes. *)
Lemma backend_runs_refine v ops s objs rs s' :
  VolumeName v = bk_own -> bk_repr s objs -> runs_valid ops s ->
  bk_runs ops s = (rs, s') ->
  exists p objs', length p = length ops
    /\ spec_runs v ops p objs = (rs, objs') /\ bk_repr s' objs'.
Proof.
  intros Hv. revert s objs rs s'. induction ops as [|op ops IH]; intros s objs rs s' Hr.
  - intros _ [= <- <-]. by exists [], objs.
  - intros (Hfit & Hval & Hrest) E. cbn [bk_runs] in E.
    destruct (bk_run op s) as [r s1] eqn:E1. destruct (bk_runs ops s1) as [rs1 s2] eqn:E2.
    injection E as <- <-.
    destruct (bk_sim v op s objs r s1 Hv Hr Hfit (Hval _ Hr) E1) as (o & objs1 & Es & Hr1).
    destruct (IH s1 objs1 rs1 s2 Hr1 Hrest E2) as (p & objs2 & Hl & Es2 & Hr2).
    exists (o :: p), objs2. cbn [spec_runs length]. rewrite Es, Es2. split; [congruence|done].
Qed.
End refinement.

(** ** The object store, call by call *)

Lemma spec_read v vol t id off len o objs :
  spec_run v (BkReadFrom vol t id off len) o objs =
    (match o, objs !! GetFilePath t id vol with
     | Fails e _, _ => Err e
     | _, None => Err [ErrNotExist]
     | _, Some d =>
         let n := if len =? 0 then SafeInt64ToUint32 (blen d) else len in
         match o with
         | Short k => Ok (take k (slice d off (off + n)))
         | _ => if blen d <? off + n then Err plain else Ok (slice d off (off + n))
         end
     end, objs).
Proof.
  unfold spec_run. cbn. destruct o, (objs !! GetFilePath t id vol); cbn; try done. by destruct (_ <? _).
Qed.

Lemma spec_own_read v t id off len o objs :
  spec_run v (BkRead t id off len) o objs
  = spec_run v (BkReadFrom (VolumeName v) t id off len) o objs.
Proof. reflexivity. Qed.

Lemma spec_write v vol t id h d o objs :
  spec_run v (BkWriteTo vol t id h d) o objs =
    match o with
    | Fails e O => (Err e, objs)
    | Fails e (S k) => (Err e, <[GetFilePath t id vol := take k (h ++ d)]> objs)
    | _ => (Ok [], <[GetFilePath t id vol := h ++ d]> objs)
    end.
Proof. unfold spec_run. cbn. by destruct o as [|e [|k]|]. Qed.

Lemma spec_own_write v t id h d o objs :
  spec_run v (BkWrite t id h d) o objs
  = spec_run v (BkWriteTo (VolumeName v) t id h d) o objs.
Proof. reflexivity. Qed.

Lemma next_one v objs o :
  next (mkSt v (mkWorld ∅ objs [o] [] 0)) = (Ok o, mkSt v (mkWorld ∅ objs [] [] 0)).
Proof. reflexivity. Qed.

Lemma spec_delete v t id o objs :
  spec_run v (BkDelete t id) o objs =
    match o, objs !! GetFilePath t id (VolumeName v) with
    | Fails e O, _ => (Err e, objs)
    | Fails e (S _), _ => (Err e, delete (GetFilePath t id (VolumeName v)) objs)
    | Works, None => (Err [ErrNotExist], objs)
    | _, _ => (Ok [], delete (GetFilePath t id (VolumeName v)) objs)
    end.
Proof.
  unfold spec_run, spec_op, bk_unit, backend_Delete, bind, get. cbn [vb]. rewrite next_one.
  unfold get_object. cbn [world objects].
  destruct o as [|e [|k]|k], (objs !! GetFilePath t id (VolumeName v)); reflexivity.
Qed.
