(* ===== verification/FileBackend.v ===== *)
(** * The file backend ([viperblock/backends/file/file.go])

    Objects are files below a base directory.  The file system is a map of
    regular files, a set of directories, a count of open descriptors, and a
    plan that says which of the next system calls fail and after how many
    bytes.  Paths are strings in the clean form the code builds them in. *)

From S2P Require Import Prelude Words BlockMap BlockStore Crypto Paths Volume ObjectStore.
From Stdlib Require Import Ascii.

(** ** The file system *)

Inductive errno := ENOENT | ENOSPC | ENOTDIR | EISDIR | EOF | EIO.
#[export] Instance errno_eq_dec : EqDecision errno.
Proof. solve_decision. Defined.

Record fsys := mkFsys {
  fs_files : gmap string bytes;
  fs_dirs : gset string;
  fs_open : Z;                            (* descriptors open *)
  fs_plan : list (option (errno * nat))   (* [None]: the call works *)
}.

Definition with_fs (fs : fsys) (f : gmap string bytes) : fsys :=
  mkFsys f (fs_dirs fs) (fs_open fs) (fs_plan fs).
Definition with_dirs (fs : fsys) (d : gset string) : fsys :=
  mkFsys (fs_files fs) d (fs_open fs) (fs_plan fs).
Definition with_open (fs : fsys) (n : Z) : fsys :=
  mkFsys (fs_files fs) (fs_dirs fs) n (fs_plan fs).

(** What the next system call meets. *)
Definition syscall (fs : fsys) : option (errno * nat) * fsys :=
  match fs_plan fs with
  | [] => (None, fs)
  | o :: p => (o, mkFsys (fs_files fs) (fs_dirs fs) (fs_open fs) p)
  end.

(** ** Paths *)

Definition slash : ascii := ascii_of_N 47.

(** The path up to its last slash ([filepath.Dir] of a clean path that has
    one and is not a child of the root). *)
Fixpoint cut_last (s : chars) : option chars :=
  match s with
  | [] => None
  | c :: s' =>
      match cut_last s' with
      | Some d => Some (c :: d)
      | None => if Ascii.eqb c slash then Some [] else None
      end
  end.

Definition filepath_Dir (p : string) : string :=
  match cut_last (chars_of p) with
  | None => "."
  | Some [] => "/"
  | Some d => String.string_of_list_ascii d
  end.

(** Every ancestor of a path, and the path: what [MkdirAll] makes. *)
Fixpoint ancestors_from (acc : chars) (s : chars) : list chars :=
  match s with
  | [] => [reverse acc]
  | c :: s' =>
      (if Ascii.eqb c slash then match acc with [] => [] | _ => [reverse acc] end else [])
      ++ ancestors_from (c :: acc) s'
  end.

Definition path_ancestors (p : string) : list string :=
  String.string_of_list_ascii <$> ancestors_from [] (chars_of p).

(** ** System calls *)

(** [os.Stat] *)
Definition os_Stat (fs : fsys) (p : string) : result errno Z * fsys :=
  let (o, fs) := syscall fs in
  match o, fs_files fs !! p with
  | Some (e, _), _ => (Err e, fs)
  | None, Some d => (Ok (blen d), fs)
  | None, None => if bool_decide (p ∈ fs_dirs fs) then (Ok 0, fs) else (Err ENOENT, fs)
  end.

(** [os.MkdirAll]: a failure may leave some of the ancestors made. *)
Definition os_MkdirAll (fs : fsys) (p : string) : result errno unit * fsys :=
  let (o, fs) := syscall fs in
  let anc := path_ancestors p in
  match o with
  | Some (e, k) => (Err e, with_dirs fs (fs_dirs fs ∪ list_to_set (take k anc)))
  | None =>
      if bool_decide (Forall (fun a => fs_files fs !! a = None) anc)
      then (Ok tt, with_dirs fs (fs_dirs fs ∪ list_to_set anc))
      else (Err ENOTDIR, fs)
  end.

(** [os.OpenFile(name, O_RDONLY, _)] on a regular file. *)
Definition os_OpenRead (fs : fsys) (p : string) : result errno unit * fsys :=
  let (o, fs) := syscall fs in
  match o, fs_files fs !! p with
  | Some (e, _), _ => (Err e, fs)
  | None, None => (Err (if bool_decide (p ∈ fs_dirs fs) then EISDIR else ENOENT), fs)
  | None, Some _ => (Ok tt, with_open fs (fs_open fs + 1))
  end.

(** [os.Create]: truncates or creates; the parent must be a directory. *)
Definition os_Create (fs : fsys) (p : string) : result errno unit * fsys :=
  let (o, fs) := syscall fs in
  match o with
  | Some (e, _) => (Err e, fs)
  | None =>
      if bool_decide (p ∈ fs_dirs fs) then (Err EISDIR, fs)
      else if bool_decide (filepath_Dir p ∈ fs_dirs fs)
      then (Ok tt, with_open (with_fs fs (<[p := []]> (fs_files fs))) (fs_open fs + 1))
      else (Err ENOENT, fs)
  end.

(** [file.Write] at the end of the file. *)
Definition file_Write (fs : fsys) (p : string) (d : bytes) : result errno unit * fsys :=
  let (o, fs) := syscall fs in
  let cur := default [] (fs_files fs !! p) in
  match o with
  | Some (e, k) => (Err e, with_fs fs (<[p := cur ++ take k d]> (fs_files fs)))
  | None => (Ok tt, with_fs fs (<[p := cur ++ d]> (fs_files fs)))
  end.

(** [f.Close()]: the descriptor is gone even when an error is reported. *)
Definition file_Close (fs : fsys) : result errno unit * fsys :=
  let (o, fs) := syscall fs in
  let fs := with_open fs (fs_open fs - 1) in
  match o with Some (e, _) => (Err e, fs) | None => (Ok tt, fs) end.

(** [f.ReadAt(data, off)] with [len(data) = n]: fewer bytes is [io.EOF]. *)
Definition file_ReadAt (fs : fsys) (p : string) (off n : Z) : result errno bytes * fsys :=
  let (o, fs) := syscall fs in
  let d := default [] (fs_files fs !! p) in
  match o with
  | Some (e, _) => (Err e, fs)
  | None =>
      if bool_decide (n = 0) then (Ok [], fs)
      else if blen d <? off + n then (Err EOF, fs)
      else (Ok (slice d off (off + n)), fs)
  end.

(** [os.Remove] of a regular file. *)
Definition os_Remove (fs : fsys) (p : string) : result errno unit * fsys :=
  let (o, fs) := syscall fs in
  match o, fs_files fs !! p with
  | Some (e, _), _ => (Err e, fs)
  | None, None => (Err ENOENT, fs)
  | None, Some _ => (Ok tt, with_fs fs (delete p (fs_files fs)))
  end.

(** ** The backend *)

Record FileConfig := mkFileConfig {
  fc_VolumeName : string; fc_VolumeSize : Z; fc_BaseDir : string }.

(** A configuration of another type makes the constructor panic. *)
Inductive any_config := AnyFile (c : FileConfig) | AnyOther.
Definition file_New (c : any_config) : option FileConfig :=
  match c with AnyFile c => Some c | AnyOther => None end.
Definition file_SetConfig (old : FileConfig) (c : any_config) : option FileConfig :=
  match c with AnyFile c => Some c | AnyOther => None end.

(** What [errors.Is] sees of a system error. *)
Definition to_error (e : errno) : error :=
  match e with ENOENT => [ErrNotExist] | _ => plain end.

Definition classifyWriteErr (e : errno) : error :=
  if decide (e = ENOSPC) then ErrNoSpace :: to_error e else to_error e.

Definition writeLen (headers data : option bytes) : Z :=
  match headers with Some h => blen h | None => 0 end
  + match data with Some d => blen d | None => 0 end.

Definition object_path (c : FileConfig) (vol : string) (t : FileType) (id : Z) : string :=
  fc_BaseDir c +:+ "/" +:+ GetFilePath t id vol.

Definition volume_dirs : list string :=
  ["chunks"; "checkpoints"; "wal"; "wal/chunks"; "wal/blocks"].

(** The loop over the directories of [Init]. *)
Fixpoint make_dirs (fs : fsys) (l : list string) : result error unit * fsys :=
  match l with
  | [] => (Ok tt, fs)
  | d :: l =>
      match os_MkdirAll fs d with
      | (Err e, fs) => (Err (to_error e), fs)
      | (Ok _, fs) => make_dirs fs l
      end
  end.

(** [Init]: only a missing base directory is reported by the stat. *)
Definition file_Init (c : FileConfig) (fs : fsys) : result error unit * fsys :=
  let root := fc_BaseDir c +:+ "/" +:+ fc_VolumeName c in
  match os_Stat fs (fc_BaseDir c) with
  | (Err ENOENT, fs) => (Err (to_error ENOENT), fs)
  | (_, fs) =>
      make_dirs fs (root :: ((fun d => root +:+ "/" +:+ d) <$> volume_dirs))
  end.

(** [ReadFrom]; [defer f.Close()] runs on every return after the open. *)
Definition file_ReadFrom (c : FileConfig) (vol : string) (t : FileType) (id off len : Z)
    (fs : fsys) : result error bytes * fsys :=
  let p := object_path c vol t id in
  match os_OpenRead fs p with
  | (Err e, fs) => (Err (to_error e), fs)
  | (Ok _, fs) =>
      let '(n, fs) :=
        if len =? 0 then
          match os_Stat fs p with
          | (Err e, fs) => (Err e, fs)
          | (Ok size, fs) => (Ok (SafeInt64ToUint32 size), fs)
          end
        else (Ok len, fs) in
      match n with
      | Err e => (Err (to_error e), with_open fs (fs_open fs - 1))
      | Ok n =>
          match file_ReadAt fs p off n with
          | (Err e, fs) => (Err (to_error e), with_open fs (fs_open fs - 1))
          | (Ok d, fs) => (Ok d, with_open fs (fs_open fs - 1))
          end
      end
  end.

(** [Read]: the same body on the backend's own volume. *)
Definition file_Read (c : FileConfig) (t : FileType) (id off len : Z) (fs : fsys)
    : result error bytes * fsys :=
  file_ReadFrom c (fc_VolumeName c) t id off len fs.

(** [Write]: no directory is made, and an error of a write leaves the
    descriptor open. *)
Definition file_Write_object (c : FileConfig) (t : FileType) (id : Z) (headers data : bytes)
    (fs : fsys) : result error unit * fsys :=
  let p := object_path c (fc_VolumeName c) t id in
  match os_Create fs p with
  | (Err e, fs) => (Err (classifyWriteErr e), fs)
  | (Ok _, fs) =>
      match file_Write fs p headers with
      | (Err e, fs) => (Err (classifyWriteErr e), fs)
      | (Ok _, fs) =>
          match file_Write fs p data with
          | (Err e, fs) => (Err (classifyWriteErr e), fs)
          | (Ok _, fs) =>
              match file_Close fs with
              | (Err e, fs) => (Err (classifyWriteErr e), fs)
              | (Ok _, fs) => (Ok tt, fs)
              end
          end
      end
  end.

(** One optional write of [WriteTo], which closes the file when it fails. *)
Definition write_part (p : string) (d : option bytes) (fs : fsys) : result error unit * fsys :=
  match d with
  | None => (Ok tt, fs)
  | Some d =>
      match file_Write fs p d with
      | (Err e, fs) => let (_, fs) := file_Close fs in (Err (classifyWriteErr e), fs)
      | (Ok _, fs) => (Ok tt, fs)
      end
  end.

(** [headers != nil && len( *headers ) > 0] *)
Definition nonempty (h : option bytes) : option bytes :=
  match h with Some [] => None | h => h end.

(** [WriteTo]: makes the parent directory; nil or empty headers are skipped. *)
Definition file_WriteTo (c : FileConfig) (vol : string) (t : FileType) (id : Z)
    (headers data : option bytes) (fs : fsys) : result error unit * fsys :=
  let p := object_path c vol t id in
  match os_MkdirAll fs (filepath_Dir p) with
  | (Err e, fs) => (Err (to_error e), fs)
  | (Ok _, fs) =>
      match os_Create fs p with
      | (Err e, fs) => (Err (classifyWriteErr e), fs)
      | (Ok _, fs) =>
          match write_part p (nonempty headers) fs with
          | (Err e, fs) => (Err e, fs)
          | (Ok _, fs) =>
              match write_part p data fs with
              | (Err e, fs) => (Err e, fs)
              | (Ok _, fs) =>
                  match file_Close fs with
                  | (Err e, fs) => (Err (classifyWriteErr e), fs)
                  | (Ok _, fs) => (Ok tt, fs)
                  end
              end
          end
      end
  end.

Definition file_Delete (c : FileConfig) (t : FileType) (id : Z) (fs : fsys)
    : result error unit * fsys :=
  match os_Remove fs (object_path c (fc_VolumeName c) t id) with
  | (Err e, fs) => (Err (to_error e), fs)
  | (Ok _, fs) => (Ok tt, fs)
  end.

(** The rest of [p] below directory [d]. *)
Definition below (d p : string) : option string :=
  String.string_of_list_ascii <$> strip_prefix (chars_of (d +:+ "/")) (chars_of p).

Definition has_slash (s : string) : bool := bool_decide (slash ∈ chars_of s).

(** The order of [os.ReadDir]. *)
Definition name_le (a b : string) : Prop := String.leb a b = true.
#[export] Instance name_le_dec a b : Decision (name_le a b).
Proof. unfold name_le. apply _. Defined.

(** [ListPrefixes]: the directories one level below the base directory. *)
Definition file_ListPrefixes (c : FileConfig) (prefix : string) (fs : fsys)
    : result error (list string) * fsys :=
  let (o, fs) := syscall fs in
  match o with
  | Some (ENOENT, _) => (Ok [], fs)
  | Some (e, _) => (Err (to_error e), fs)
  | None =>
      if bool_decide (fc_BaseDir c ∈ fs_dirs fs) then
        let names := filter (fun n => has_slash n = false)
                       (omap (below (fc_BaseDir c)) (elements (fs_dirs fs))) in
        (Ok (filter (fun n => String.prefix prefix n = true)
               (merge_sort name_le names)), fs)
      else (Ok [], fs)
  end.

(** A trailing slash of a prefix is dropped by [filepath.Join]. *)
Definition trim_slash (s : string) : string :=
  match reverse (chars_of s) with
  | c :: r => if Ascii.eqb c slash then String.string_of_list_ascii (reverse r) else s
  | [] => s
  end.

(** [ListObjects]: the keys of the regular files at or below the directory
    [BaseDir/prefix]; a missing directory is an empty listing. *)
Definition file_ListObjects (c : FileConfig) (prefix : string) (fs : fsys)
    : result error (list string) * fsys :=
  let (o, fs) := syscall fs in
  let root := if decide (trim_slash prefix = EmptyString) then fc_BaseDir c
              else fc_BaseDir c +:+ "/" +:+ trim_slash prefix in
  match o with
  | Some (ENOENT, _) => (Ok [], fs)
  | Some (e, _) => (Err (to_error e), fs)
  | None =>
      (Ok (omap (below (fc_BaseDir c))
             (filter (fun p => p = root \/ is_Some (below root p)) (map_to_list (fs_files fs)).*1)), fs)
  end.

(** [Open], [Sync], [GetBackendType], [GetHost] *)
Definition file_Open (fname : string) : result error unit := Ok tt.
Definition file_Sync (fs : fsys) : fsys := fs.
Definition file_GetBackendType : string := "file".
Definition file_GetHost : string := "".

(** The context variants only add telemetry. *)
Definition file_run (c : FileConfig) (op : bk_op) (fs : fsys) : result error bytes * fsys :=
  let unit_result r := match r with (Ok _, fs) => (Ok [], fs) | (Err e, fs) => (Err e, fs) end in
  match op with
  | BkRead t id off len => file_Read c t id off len fs
  | BkReadFrom vol t id off len => file_ReadFrom c vol t id off len fs
  | BkWrite t id h d => unit_result (file_Write_object c t id h d fs)
  | BkWriteTo vol t id h d => unit_result (file_WriteTo c vol t id (Some h) (Some d) fs)
  | BkDelete t id => unit_result (file_Delete c t id fs)
  end.
