(* ===== verification/FileBackendFacts.v ===== *)
(** * Facts on the file backend

    The file backend is a [BackendImpl]: whatever the file system does, each
    call answers as the object store under some outcome.  After [Init] on a
    healthy file system every object of the volume can be written and reads
    back; and the descriptors each call leaves open. *)

From S2P Require Import Prelude Words BlockMap BlockStore Crypto Paths Volume ObjectStore FileBackend.
From Stdlib Require Import Ascii.

(** ** Representation *)

Definition file_repr (c : FileConfig) (fs : fsys) (objs : gmap string bytes) : Prop :=
  forall k, objs !! k = fs_files fs !! (fc_BaseDir c +:+ "/" +:+ k).

Lemma path_inj c k1 k2 :
  fc_BaseDir c +:+ "/" +:+ k1 = fc_BaseDir c +:+ "/" +:+ k2 -> k1 = k2.
Proof. intros H. by apply append_inj_l, append_inj_l in H. Qed.

Lemma repr_insert c fs fs' objs k x : file_repr c fs objs ->
  fs_files fs' = <[fc_BaseDir c +:+ "/" +:+ k := x]> (fs_files fs) ->
  file_repr c fs' (<[k := x]> objs).
Proof.
  intros H E q. rewrite E. destruct (decide (k = q)) as [<-|Hne].
  - by rewrite !lookup_insert_eq.
  - rewrite !lookup_insert_ne; [done| |done]. intros Q. by apply path_inj in Q.
Qed.

Lemma repr_delete c fs fs' objs k : file_repr c fs objs ->
  fs_files fs' = delete (fc_BaseDir c +:+ "/" +:+ k) (fs_files fs) ->
  file_repr c fs' (delete k objs).
Proof.
  intros H E q. rewrite E. destruct (decide (k = q)) as [<-|Hne].
  - by rewrite !lookup_delete_eq.
  - rewrite !lookup_delete_ne; [done| |done]. intros Q. by apply path_inj in Q.
Qed.

Lemma repr_same c fs fs' objs : file_repr c fs objs ->
  fs_files fs' = fs_files fs -> file_repr c fs' objs.
Proof. intros H E k. by rewrite E. Qed.

(** ** Reads *)

Lemma syscall_frame fs o fs' : syscall fs = (o, fs') ->
  fs_files fs' = fs_files fs /\ fs_dirs fs' = fs_dirs fs /\ fs_open fs' = fs_open fs.
Proof. unfold syscall. destruct (fs_plan fs); by intros [= <- <-]. Qed.

(** Case analysis on what a system call meets, with the frame at hand. *)
Ltac sys :=
  match goal with
  | |- context [syscall ?fs] =>
      let o := fresh "o" in let fs' := fresh "fs" in let E := fresh "Esys" in
      let F := fresh "Ff" in let D := fresh "Fd" in let O := fresh "Fo" in
      destruct (syscall fs) as [o fs'] eqn:E;
      destruct (syscall_frame _ _ _ E) as (F & D & O); clear E;
      cbn [fs_files fs_dirs fs_open with_fs with_open with_dirs] in F, D, O
  end.

(** A failed system call is a failed call of the store. *)
Ltac failed Hfail e :=
  intros [= <- <-]; destruct (Hfail (to_error e)) as [o Eo]; exists o;
  (split; [exact Eo|]); cbn; split_and!; congruence || lia.

Lemma read_sim c v vol t id off len fs objs r fs' :
  file_repr c fs objs ->
  fc_BaseDir c +:+ "/" +:+ GetFilePath t id vol ∉ fs_dirs fs ->
  in_u32 off -> in_u32 len -> (len = 0 -> off = 0) ->
  (forall d, objs !! GetFilePath t id vol = Some d -> blen d <= MaxUint32) ->
  file_ReadFrom c vol t id off len fs = (r, fs') ->
  exists o, spec_run v (BkReadFrom vol t id off len) o objs = (r, objs)
    /\ fs_files fs' = fs_files fs /\ fs_dirs fs' = fs_dirs fs /\ fs_open fs' = fs_open fs.
Proof.
  intros Hr Hnd Ho Hl H0 Hsz. unfold file_ReadFrom, object_path, os_OpenRead.
  set (p := fc_BaseDir c +:+ "/" +:+ GetFilePath t id vol) in *.
  assert (objs !! GetFilePath t id vol = fs_files fs !! p) as Hk by apply Hr.
  assert (forall e, exists o, spec_run v (BkReadFrom vol t id off len) o objs = (Err e, objs)) as Hfail
    by (intros e; exists (Fails e 0); by rewrite spec_read).
  sys. destruct o as [[e k]|].
  { failed Hfail e. }
  rewrite Ff, Fd. destruct (fs_files fs !! p) as [d|] eqn:Ep.
  2: { rewrite bool_decide_false by done. intros [= <- <-]. exists Works.
       rewrite spec_read, Hk. done. }
  specialize (Hsz d Hk). assert (0 <= blen d) by (unfold blen; lia).
  assert (SafeInt64ToUint32 (blen d) = blen d) as Hsafe
    by (unfold SafeInt64ToUint32; zcrush).
  destruct (Z.eqb_spec len 0) as [Hz|Hz].
  - unfold os_Stat. sys. destruct o as [[e k]|].
    { failed Hfail e. }
    rewrite Ff0, Ff, Ep, Hsafe. unfold file_ReadAt. sys. destruct o as [[e k]|].
    { failed Hfail e. }
    rewrite Ff1, Ff0, Ff, Ep. cbn [default from_option Datatypes.id]. rewrite (H0 Hz), Z.add_0_l, Z.ltb_irrefl.
    assert ((if bool_decide (blen d = 0) then (Ok (E := errno) [], fs2) else (Ok (slice d 0 (blen d)), fs2))
            = (Ok (slice d 0 (blen d)), fs2)) as ->.
    { case_bool_decide as Q; [|done]. by rewrite Q, slice_0_0. }
    intros [= <- <-]. exists Works. rewrite spec_read, Hk, Hz. cbn.
    rewrite Hsafe, Z.ltb_irrefl. split; [done|]. split_and!; congruence || lia.
  - unfold file_ReadAt. sys. destruct o as [[e k]|].
    { failed Hfail e. }
    rewrite Ff0, Ff, Ep. cbn [default from_option Datatypes.id]. rewrite bool_decide_false by done.
    destruct (Z.ltb_spec (blen d) (off + len)) as [Q|Q]; intros [= <- <-]; exists Works;
      rewrite spec_read, Hk, (proj2 (Z.eqb_neq _ _) Hz); cbn.
    + destruct (Z.ltb_spec (blen d) (off + len)); [|lia]. split; [done|]. split_and!; congruence || lia.
    + destruct (Z.ltb_spec (blen d) (off + len)); [lia|]. split; [done|]. split_and!; congruence || lia.
Qed.

(** ** Writes *)

(** The content a failed write of [h ++ d] leaves is a prefix of it. *)
Lemma write_prefix v vol t id h d objs e k :
  spec_run v (BkWriteTo vol t id h d) (Fails e (S k)) objs
  = (Err e, <[GetFilePath t id vol := take k (h ++ d)]> objs).
Proof. by rewrite spec_write. Qed.

Lemma take_within (h d : bytes) k : take (Nat.min k (length h)) (h ++ d) = take k h.
Proof.
  rewrite take_app_le by lia. destruct (decide (k <= length h)%nat).
  - by rewrite Nat.min_l by lia.
  - rewrite Nat.min_r by lia. by rewrite !take_ge by lia.
Qed.

Lemma take_beyond (h d : bytes) k : take (length h + k) (h ++ d) = h ++ take k d.
Proof. rewrite take_app_ge by lia. f_equal. f_equal. lia. Qed.

(** A call of the store on [key] that ends in result [r] with content [x]
    there, or leaves the store alone. *)
Definition write_ends (c : FileConfig) (v : VB) (vol : string) (t : FileType) (id : Z)
    (h d : bytes) (objs : gmap string bytes) (r : result error unit) (fs' : fsys) : Prop :=
  exists o objs', spec_run v (BkWriteTo vol t id h d) o objs
      = (match r with Ok _ => Ok [] | Err e => Err e end, objs') /\ file_repr c fs' objs'.

Lemma ends_untouched c v vol t id h d objs fs fs' e :
  file_repr c fs objs -> fs_files fs' = fs_files fs ->
  write_ends c v vol t id h d objs (Err e) fs'.
Proof.
  intros Hr E. exists (Fails e 0), objs. rewrite spec_write. split; [done|].
  by apply (repr_same c fs).
Qed.

Lemma ends_prefix c v vol t id h d objs fs fs' e x k :
  file_repr c fs objs -> x = take k (h ++ d) ->
  fs_files fs' = <[fc_BaseDir c +:+ "/" +:+ GetFilePath t id vol := x]> (fs_files fs) ->
  write_ends c v vol t id h d objs (Err e) fs'.
Proof.
  intros Hr -> E. exists (Fails e (S k)). eexists. rewrite spec_write. split; [done|].
  by apply (repr_insert c fs).
Qed.

Lemma ends_done c v vol t id h d objs fs fs' :
  file_repr c fs objs ->
  fs_files fs' = <[fc_BaseDir c +:+ "/" +:+ GetFilePath t id vol := h ++ d]> (fs_files fs) ->
  write_ends c v vol t id h d objs (Ok tt) fs'.
Proof.
  intros Hr E. exists Works. eexists. rewrite spec_write. split; [done|].
  by apply (repr_insert c fs).
Qed.

(** [os.Create] empties the file, or fails and leaves the files alone. *)
Lemma Create_files fs p r fs' : os_Create fs p = (r, fs') ->
  match r with
  | Ok _ => fs_files fs' = <[p := []]> (fs_files fs) /\ fs_open fs' = fs_open fs + 1
  | Err _ => fs_files fs' = fs_files fs /\ fs_open fs' = fs_open fs
  end.
Proof.
  unfold os_Create. sys. destruct o as [[e k]|]; [by intros [= <- <-]|].
  case_bool_decide; [by intros [= <- <-]|]. case_bool_decide; intros [= <- <-]; [|done].
  cbn. by rewrite Ff, Fo.
Qed.

(** [file.Write] extends the file by what was written. *)
Lemma Write_files fs p d x m r fs' : file_Write fs p d = (r, fs') -> fs_files fs = <[p := x]> m ->
  fs_open fs' = fs_open fs /\
  match r with
  | Ok _ => fs_files fs' = <[p := x ++ d]> m
  | Err _ => exists k, fs_files fs' = <[p := x ++ take k d]> m
  end.
Proof.
  unfold file_Write. sys. rewrite Ff. intros H E. rewrite E, lookup_insert_eq in H. cbn in H.
  destruct o as [[e k]|]; injection H as <- <-; cbn; (split; [done|]);
    rewrite insert_insert_eq; [by eexists|done].
Qed.

Lemma Close_files fs r fs' : file_Close fs = (r, fs') ->
  fs_files fs' = fs_files fs /\ fs_open fs' = fs_open fs - 1.
Proof.
  unfold file_Close. sys. destruct o as [[e k]|]; intros [= <- <-]; cbn; by rewrite Ff, Fo.
Qed.

Lemma write_sim c v t id h d fs objs r fs' :
  file_repr c fs objs -> file_Write_object c t id h d fs = (r, fs') ->
  write_ends c v (fc_VolumeName c) t id h d objs r fs'.
Proof.
  intros Hr. unfold file_Write_object, object_path. set (p := _ +:+ _ +:+ _).
  destruct (os_Create fs p) as [[u|e] fs1] eqn:Ec; apply Create_files in Ec as [Ef _].
  2: { intros [= <- <-]. by apply (ends_untouched _ _ _ _ _ _ _ _ fs). }
  destruct (file_Write fs1 p h) as [[?|e] fs2] eqn:Eh; apply (Write_files _ _ _ _ _ _ _ Eh) in Ef as [_ Eh'].
  2: { intros [= <- <-]. destruct Eh' as [k Ek].
       apply (ends_prefix _ _ _ _ _ _ _ _ fs _ _ (take k h) (Nat.min k (length h))); [done|by rewrite take_within|done]. }
  destruct (file_Write fs2 p d) as [[?|e] fs3] eqn:Ed; apply (Write_files _ _ _ _ _ _ _ Ed) in Eh' as [_ Ed'].
  2: { intros [= <- <-]. destruct Ed' as [k Ek].
       apply (ends_prefix _ _ _ _ _ _ _ _ fs _ _ (h ++ take k d) (length h + k)); [done|by rewrite take_beyond|done]. }
  destruct (file_Close fs3) as [[?|e] fs4] eqn:El; apply Close_files in El as [El _]; intros [= <- <-].
  - apply (ends_done _ _ _ _ _ _ _ _ fs); [done|]. rewrite El. exact Ed'.
  - apply (ends_prefix _ _ _ _ _ _ _ _ fs _ _ (h ++ d) (length h + length d)); [done| |by rewrite El].
    by rewrite take_beyond, take_ge.
Qed.

(** One part of [WriteTo]. *)
Lemma part_files fs p d x m r fs' : write_part p d fs = (r, fs') -> fs_files fs = <[p := x]> m ->
  match r with
  | Ok _ => fs_files fs' = <[p := x ++ default [] d]> m /\ fs_open fs' = fs_open fs
  | Err _ => (exists k, fs_files fs' = <[p := x ++ take k (default [] d)]> m)
             /\ fs_open fs' = fs_open fs - 1
  end.
Proof.
  unfold write_part. destruct d as [d|]; cbn.
  - destruct (file_Write fs p d) as [[?|e] fs1] eqn:E.
    + intros [= <- <-] Ef. by apply (Write_files _ _ _ _ _ _ _ E) in Ef as [? ?].
    + destruct (file_Close fs1) as [? fs2] eqn:E2. intros [= <- <-] Ef.
      apply (Write_files _ _ _ _ _ _ _ E) in Ef as [Eo [k Ek]]. apply Close_files in E2 as [E2 E3].
      rewrite E2, E3, Eo. eauto.
  - intros [= <- <-] Ef. by rewrite app_nil_r.
Qed.

Lemma MkdirAll_files fs p r fs' : os_MkdirAll fs p = (r, fs') ->
  fs_files fs' = fs_files fs /\ fs_open fs' = fs_open fs.
Proof.
  unfold os_MkdirAll. sys. destruct o as [[e k]|]; [by intros [= <- <-]|].
  case_bool_decide; by intros [= <- <-].
Qed.

Lemma writeto_sim c v vol t id h d fs objs r fs' :
  file_repr c fs objs -> file_WriteTo c vol t id (Some h) (Some d) fs = (r, fs') ->
  write_ends c v vol t id h d objs r fs' /\ fs_open fs' = fs_open fs.
Proof.
  intros Hr. unfold file_WriteTo, object_path. set (p := fc_BaseDir c +:+ _ +:+ _).
  destruct (os_MkdirAll fs _) as [[?|e] fs0] eqn:Em; apply MkdirAll_files in Em as [Em Eo].
  2: { intros [= <- <-]. split; [by apply (ends_untouched _ _ _ _ _ _ _ _ fs)|done]. }
  destruct (os_Create fs0 p) as [[u|e] fs1] eqn:Ec; apply Create_files in Ec as [Ef Eo1].
  2: { intros [= <- <-]. split; [apply (ends_untouched _ _ _ _ _ _ _ _ fs); congruence|lia]. }
  rewrite Em in Ef.
  assert (default [] (nonempty (Some h)) = h) as Hh by (by destruct h).
  destruct (write_part p _ fs1) as [[?|e] fs2] eqn:Eh; apply (part_files _ _ _ _ _ _ _ Eh) in Ef as [Eh' Eo2];
    rewrite Hh in Eh'.
  2: { intros [= <- <-]. destruct Eh' as [k Ek]. split; [|lia].
       apply (ends_prefix _ _ _ _ _ _ _ _ fs _ _ (take k h) (Nat.min k (length h))); [done|by rewrite take_within|done]. }
  destruct (write_part p (Some d) fs2) as [[?|e] fs3] eqn:Ed; apply (part_files _ _ _ _ _ _ _ Ed) in Eh' as [Ed' Eo3].
  2: { intros [= <- <-]. destruct Ed' as [k Ek]. split; [|lia].
       apply (ends_prefix _ _ _ _ _ _ _ _ fs _ _ (h ++ take k d) (length h + k)); [done|by rewrite take_beyond|done]. }
  destruct (file_Close fs3) as [[?|e] fs4] eqn:El; apply Close_files in El as [El Eo4]; intros [= <- <-];
    (split; [|lia]).
  - apply (ends_done _ _ _ _ _ _ _ _ fs); [done|]. by rewrite El.
  - apply (ends_prefix _ _ _ _ _ _ _ _ fs _ _ (h ++ d) (length h + length d)); [done| |by rewrite El].
    by rewrite take_beyond, take_ge.
Qed.

Lemma delete_sim c v t id fs objs r fs' : VolumeName v = fc_VolumeName c ->
  file_repr c fs objs -> file_Delete c t id fs = (r, fs') ->
  (exists o objs', spec_run v (BkDelete t id) o objs
     = (match r with Ok _ => Ok [] | Err e => Err e end, objs') /\ file_repr c fs' objs')
  /\ fs_open fs' = fs_open fs.
Proof.
  intros Hv Hr. unfold file_Delete, object_path, os_Remove. set (p := _ +:+ _ +:+ _).
  assert (objs !! GetFilePath t id (fc_VolumeName c) = fs_files fs !! p) as Hk by apply Hr.
  sys. destruct o as [[e k]|].
  { intros [= <- <-]. split; [|done]. exists (Fails (to_error e) 0), objs.
    rewrite spec_delete. split; [done|]. by apply (repr_same c fs). }
  rewrite Ff. destruct (fs_files fs !! p) as [d|] eqn:Ep; intros [= <- <-]; (split; [|done]);
    exists Works; eexists; rewrite spec_delete, Hv, Hk; (split; [done|]).
  - by apply (repr_delete c fs).
  - by apply (repr_same c fs).
Qed.

(** ** The instance *)

Definition file_fit (c : FileConfig) (fs : fsys) (op : bk_op) : Prop :=
  fc_BaseDir c +:+ "/" +:+ op_key (fc_VolumeName c) op ∉ fs_dirs fs.

Lemma file_sim c v op fs objs r fs' :
  VolumeName v = fc_VolumeName c -> file_repr c fs objs -> file_fit c fs op ->
  op_valid (fc_VolumeName c) objs op -> file_run c op fs = (r, fs') ->
  exists o objs', spec_run v op o objs = (r, objs') /\ file_repr c fs' objs'.
Proof.
  intros Hv Hr Hfit Hval. destruct op as [t id off len|vol t id off len|t id h d|vol t id h d|t id];
    cbn [file_run].
  - destruct Hval as (? & ? & _ & H0 & Hsz). intros E.
    destruct (read_sim c v _ t id off len fs objs r fs' Hr Hfit) as (o & Eo & Ef & _); auto.
    exists o, objs. rewrite spec_own_read, Hv. split; [done|]. by apply (repr_same c fs).
  - destruct Hval as (? & ? & _ & H0 & Hsz). intros E.
    destruct (read_sim c v vol t id off len fs objs r fs' Hr Hfit) as (o & Eo & Ef & _); auto.
    exists o, objs. split; [done|]. by apply (repr_same c fs).
  - destruct (file_Write_object c t id h d fs) as [r0 fs0] eqn:E.
    apply (write_sim c v) with (objs := objs) in E as (o & objs' & Eo & Hr'); [|done].
    intros E'. exists o, objs'. rewrite spec_own_write, Hv, Eo.
    destruct r0; injection E' as <- <-; done.
  - destruct (file_WriteTo c vol t id (Some h) (Some d) fs) as [r0 fs0] eqn:E.
    apply (writeto_sim c v) with (objs := objs) in E as [(o & objs' & Eo & Hr') _]; [|done].
    intros E'. exists o, objs'. rewrite Eo. destruct r0; injection E' as <- <-; done.
  - destruct (file_Delete c t id fs) as [r0 fs0] eqn:E.
    apply (delete_sim c v) with (objs := objs) in E as [(o & objs' & Eo & Hr') _]; [|done|done].
    intros E'. exists o, objs'. rewrite Eo. destruct r0; injection E' as <- <-; done.
Qed.

#[export] Instance file_backend (c : FileConfig) : BackendImpl fsys := {
  bk_own := fc_VolumeName c; bk_repr := file_repr c; bk_fit := file_fit c;
  bk_run := file_run c; bk_sim := file_sim c }.

(** ** Directories *)

Lemma cut_last_app d f : slash ∉ f -> cut_last (d ++ slash :: f) = Some d.
Proof.
  intros Hf. assert (cut_last f = None) as Hn.
  { induction f as [|c f IH]; [done|]. apply not_elem_of_cons in Hf as [Hc Hf]. cbn [cut_last].
    rewrite (IH Hf). destruct (Ascii.eqb_spec c slash); [congruence|done]. }
  induction d as [|c d IH]; cbn [cut_last app]; [by rewrite Hn|by rewrite IH].
Qed.

(** The parent of [d/f] is [d]. *)
Lemma Dir_join d f : d <> EmptyString -> has_slash f = false ->
  filepath_Dir (d +:+ "/" +:+ f) = d.
Proof.
  intros Hd Hf. unfold has_slash in Hf. rewrite bool_decide_eq_false in Hf.
  unfold filepath_Dir. rewrite !chars_app.
  change (chars_of "/" ++ chars_of f) with (slash :: chars_of f). rewrite cut_last_app by done.
  destruct (chars_of d) as [|c l] eqn:E; [by apply (chars_inj d EmptyString) in E|].
  by rewrite <-E, String.string_of_list_ascii_of_string.
Qed.

(** An ancestor is a prefix of the path. *)
Lemma ancestors_prefix a s acc : a ∈ ancestors_from acc s ->
  exists rest, reverse acc ++ s = a ++ rest.
Proof.
  revert acc. induction s as [|c s IH]; intros acc; cbn [ancestors_from].
  - intros ->%list_elem_of_singleton. by exists [].
  - rewrite elem_of_app. intros [H|H].
    + destruct (Ascii.eqb c slash); [|by apply not_elem_of_nil in H].
      destruct acc; [by apply not_elem_of_nil in H|]. apply list_elem_of_singleton in H as ->. eauto.
    + apply IH in H as [rest E]. rewrite reverse_cons, <-(assoc_L app) in E. eauto.
Qed.

Lemma path_prefix a p : a ∈ path_ancestors p -> exists rest, p = a +:+ rest.
Proof.
  unfold path_ancestors. intros (l & -> & H)%list_elem_of_fmap.
  apply ancestors_prefix in H as [rest E]. exists (String.string_of_list_ascii rest).
  apply chars_inj. rewrite chars_app, !String.list_ascii_of_string_of_list_ascii. done.
Qed.

Lemma path_self p : p ∈ path_ancestors p.
Proof.
  assert (forall s acc, reverse acc ++ s ∈ ancestors_from acc s) as H.
  { induction s as [|c s IH]; intros acc; cbn.
    - rewrite app_nil_r. by apply list_elem_of_singleton.
    - rewrite elem_of_app. right. specialize (IH (c :: acc)).
      by rewrite reverse_cons, <-(assoc_L app) in IH. }
  apply list_elem_of_fmap. exists (chars_of p). split; [|by apply (H _ [])].
  by rewrite String.string_of_list_ascii_of_string.
Qed.

(** ** A healthy start *)

Definition root_dir (c : FileConfig) : string := fc_BaseDir c +:+ "/" +:+ fc_VolumeName c.
Definition init_paths (c : FileConfig) : list string :=
  root_dir c :: ((fun d => root_dir c +:+ "/" +:+ d) <$> volume_dirs).

(** A file system on which no call fails, with the base directory, and nothing
    in the way of the volume's directories and objects. *)
Record healthy (c : FileConfig) (fs : fsys) : Prop := {
  h_plan : fs_plan fs = [];
  h_base : fc_BaseDir c ∈ fs_dirs fs;
  h_clear : forall p a, p ∈ init_paths c -> a ∈ path_ancestors p -> fs_files fs !! a = None;
  h_objs : forall t id, object_path c (fc_VolumeName c) t id ∉ fs_dirs fs }.

Lemma make_dirs_calm fs l : fs_plan fs = [] ->
  (forall p a, p ∈ l -> a ∈ path_ancestors p -> fs_files fs !! a = None) ->
  make_dirs fs l = (Ok tt, with_dirs fs (fs_dirs fs ∪ list_to_set (mjoin (path_ancestors <$> l)))).
Proof.
  revert fs. induction l as [|p l IH]; intros fs Hp Hc; cbn.
  - rewrite (right_id_L ∅ (∪)). by destruct fs.
  - unfold os_MkdirAll, syscall. rewrite Hp. rewrite bool_decide_true.
    2: { apply Forall_forall. intros a Ha. apply (Hc p a); [left|done]. }
    rewrite IH; [|done|]; cbn.
    + unfold with_dirs. cbn. rewrite list_to_set_app_L. do 2 f_equal. set_solver.
    + intros q a Hq. apply Hc. by right.
Qed.

(** Every object's parent is one of the directories of [Init]. *)
Lemma no_slash_digits w n s : 0 <= n -> has_slash s = false -> has_slash (fmt_0d w n +:+ s) = false.
Proof.
  unfold has_slash. rewrite !bool_decide_eq_false, chars_app, elem_of_app. intros Hn Hs [H|H]; [|done].
  destruct (fmt_0d_digits w n Hn) as [Hd _]. unfold all_digits in Hd. rewrite Forall_forall in Hd.
  apply Hd in H as [? H]. done.
Qed.

(** The directory below the volume, and the file name, of each kind of object. *)
Definition object_dir (t : FileType) : string :=
  match t with
  | FileTypeChunk => "/chunks"
  | FileTypeBlockCheckpoint | FileTypeBlockCheckpointLive => "/checkpoints"
  | FileTypeWALChunk | FileTypeWALChunkShard => "/wal/chunks"
  | FileTypeWALBlock => "/wal/blocks"
  | _ => ""
  end.

Definition object_name (t : FileType) (id : Z) : string :=
  match t with
  | FileTypeConfig => "config.json"
  | FileTypeChunk => "chunk." +:+ fmt_0d 8 id +:+ ".bin"
  | FileTypeBlockCheckpoint => "blocks." +:+ fmt_0d 8 id +:+ ".bin"
  | FileTypeWALChunk => "wal." +:+ fmt_0d 8 id +:+ ".bin"
  | FileTypeWALBlock => "blocks." +:+ fmt_0d 8 id +:+ ".bin"
  | FileTypeWALChunkShard =>
      "wal." +:+ fmt_0d 8 (Z.shiftr id 8) +:+ ".shard_" +:+ fmt_0d 2 (Z.land id 0xFF) +:+ ".bin"
  | FileTypeBlockCheckpointLive => "blocks.live.bin"
  | FileTypeSnapshotMarker => "snapshots.marker"
  | FileTypeSSHAuthKey => "unknown." +:+ fmt_0d 8 id +:+ ".bin"
  end.

Lemma object_path_split c t id :
  object_path c (fc_VolumeName c) t id
  = root_dir c +:+ object_dir t +:+ "/" +:+ object_name t id.
Proof.
  unfold object_path, root_dir. rewrite <-!str_assoc. by destruct t.
Qed.

Lemma object_name_flat t id : 0 <= id -> has_slash (object_name t id) = false.
Proof.
  intros H. assert (0 <= Z.shiftr id 8) by (by apply Z.shiftr_nonneg).
  assert (0 <= Z.land id 0xFF) by (apply Z.land_nonneg; lia).
  assert (forall a s, has_slash a = false -> has_slash s = false -> has_slash (a +:+ s) = false) as Happ.
  { unfold has_slash. intros a s. rewrite !bool_decide_eq_false, chars_app, elem_of_app. tauto. }
  destruct t; unfold object_name; repeat first [reflexivity | apply no_slash_digits; [done|] | apply Happ].
Qed.

Lemma object_dir_made c t : root_dir c +:+ object_dir t ∈ init_paths c.
Proof.
  assert (root_dir c +:+ "" = root_dir c) as Hnil by (apply chars_inj; rewrite chars_app; apply app_nil_r).
  unfold init_paths, volume_dirs. cbn [fmap list_fmap].
  destruct t; cbn [object_dir]; rewrite ?Hnil; rewrite ?elem_of_cons;
    repeat (first [by left | right]).
Qed.

Lemma object_parent c t id : 0 <= id -> fc_BaseDir c <> EmptyString ->
  filepath_Dir (object_path c (fc_VolumeName c) t id) = root_dir c +:+ object_dir t.
Proof.
  intros Hid Hb. rewrite object_path_split, str_assoc. apply Dir_join; [|by apply object_name_flat].
  unfold root_dir. intros H. apply (f_equal chars_of) in H. rewrite !chars_app in H.
  destruct (fc_BaseDir c); done.
Qed.

(** No directory of [Init] has the name of an object. *)
Lemma object_not_dir c p t id : p ∈ init_paths c ->
  object_path c (fc_VolumeName c) t id ∉ path_ancestors p.
Proof.
  intros Hp H. apply path_prefix in H as [rest E]. rewrite object_path_split in E.
  assert (root_dir c +:+ "" = root_dir c) as Hnil by (apply chars_inj; rewrite chars_app; apply app_nil_r).
  assert (exists d, d ∈ "" :: ((fun d => "/" +:+ d) <$> volume_dirs) /\ p = root_dir c +:+ d) as (d & Hd & ->).
  { unfold init_paths in Hp. apply elem_of_cons in Hp as [->|Hp].
    - exists "". rewrite Hnil. split; [left|done].
    - apply list_elem_of_fmap in Hp as (d & -> & Hd). exists ("/" +:+ d). split; [|done].
      right. apply list_elem_of_fmap. eauto. }
  rewrite <-!str_assoc in E. apply append_inj_l in E. unfold volume_dirs in Hd. cbn in Hd.
  repeat (apply elem_of_cons in Hd as [->|Hd]); [..|by apply not_elem_of_nil in Hd];
    destruct t; cbn in E; discriminate E.
Qed.

Lemma Write_calm fs p d : fs_plan fs = [] ->
  file_Write fs p d = (Ok tt, with_fs fs (<[p := default [] (fs_files fs !! p) ++ d]> (fs_files fs))).
Proof. intros H. unfold file_Write, syscall. by rewrite H. Qed.

Lemma Close_calm fs : fs_plan fs = [] -> file_Close fs = (Ok tt, with_open fs (fs_open fs - 1)).
Proof. intros H. unfold file_Close, syscall. by rewrite H. Qed.

(** Reading a whole object on a file system that does not fail. *)
Lemma whole_read c fs t id x : fs_plan fs = [] ->
  fs_files fs !! object_path c (fc_VolumeName c) t id = Some x -> blen x <= MaxUint32 ->
  file_Read c t id 0 0 fs = (Ok x, with_open fs (fs_open fs + 1 - 1)).
Proof.
  intros Hp E Hlen. unfold file_Read, file_ReadFrom, os_OpenRead, os_Stat, file_ReadAt, syscall.
  rewrite Hp, E. cbn. rewrite Hp. cbn. rewrite E. cbn. rewrite Hp. cbn. rewrite E. cbn.
  assert (0 <= blen x) by (unfold blen; lia).
  assert (SafeInt64ToUint32 (blen x) = blen x) as -> by (unfold SafeInt64ToUint32; zcrush).
  case_bool_decide as Q.
  - assert (x = []) as -> by (apply length_zero_iff_nil; unfold blen in Q; lia). reflexivity.
  - by rewrite Z.ltb_irrefl, slice_all.
Qed.

(** ** Descriptors *)

Lemma ReadFrom_open c vol t id off len fs :
  fs_open (file_ReadFrom c vol t id off len fs).2 = fs_open fs.
Proof.
  unfold file_ReadFrom, os_OpenRead. sys. destruct o as [[e k]|]; [done|].
  destruct (fs_files fs0 !! _) as [d|]; [|done].
  assert (forall n fs1, fs_open fs1 = fs_open fs + 1 ->
    fs_open (match file_ReadAt fs1 (object_path c vol t id) off n with
             | (Err e, fs2) => (Err (to_error e), with_open fs2 (fs_open fs2 - 1))
             | (Ok d, fs2) => (Ok d, with_open fs2 (fs_open fs2 - 1))
             end).2 = fs_open fs) as Hread.
  { intros n fs1 H1. unfold file_ReadAt. sys. destruct o as [[e k]|]; [cbn; lia|].
    case_bool_decide; [cbn; lia|]. destruct (_ <? _); cbn; lia. }
  destruct (len =? 0).
  - unfold os_Stat. sys. destruct o as [[e k]|]; [cbn; lia|].
    destruct (fs_files fs1 !! _); [|case_bool_decide]; cbn [snd];
      try (rewrite Hread; [done|cbn; lia]). cbn. lia.
  - rewrite Hread; [done|cbn; lia].
Qed.

Lemma Write_object_open c t id h d fs :
  match file_Write_object c t id h d fs with
  | (Ok _, fs') => fs_open fs' = fs_open fs
  | (Err _, fs') => fs_open fs' = fs_open fs \/ fs_open fs' = fs_open fs + 1
  end.
Proof.
  unfold file_Write_object. set (p := object_path _ _ _ _).
  destruct (os_Create fs p) as [[u|e] fs1] eqn:Ec; apply Create_files in Ec as [Ef E1]; [|lia].
  destruct (file_Write fs1 p h) as [[?|e] fs2] eqn:Eh;
    destruct (Write_files _ _ _ _ _ _ _ Eh Ef) as [E2 Eh']; [|lia].
  destruct (file_Write fs2 p d) as [[?|e] fs3] eqn:Ed;
    destruct (Write_files _ _ _ _ _ _ _ Ed Eh') as [E3 Ed']; [|lia].
  destruct (file_Close fs3) as [[?|e] fs4] eqn:El; apply Close_files in El as [_ E4]; lia.
Qed.

Lemma WriteTo_open c vol t id h d fs :
  fs_open (file_WriteTo c vol t id (Some h) (Some d) fs).2 = fs_open fs.
Proof.
  unfold file_WriteTo. set (p := object_path _ _ _ _).
  destruct (os_MkdirAll fs _) as [[?|e] fs0] eqn:Em; apply MkdirAll_files in Em as [_ E0]; [|done].
  destruct (os_Create fs0 p) as [[u|e] fs1] eqn:Ec; apply Create_files in Ec as [Ef E1]; [|cbn; lia].
  destruct (write_part p _ fs1) as [[?|e] fs2] eqn:Eh;
    destruct (part_files _ _ _ _ _ _ _ Eh Ef) as [Eh' E2]; [|cbn; lia].
  destruct (write_part p (Some d) fs2) as [[?|e] fs3] eqn:Ed;
    destruct (part_files _ _ _ _ _ _ _ Ed Eh') as [_ E3]; [|cbn; lia].
  destruct (file_Close fs3) as [[?|e] fs4] eqn:El; apply Close_files in El as [_ E4]; cbn; lia.
Qed.

Lemma Delete_open c t id fs : fs_open (file_Delete c t id fs).2 = fs_open fs.
Proof.
  unfold file_Delete, os_Remove. sys. destruct o as [[e k]|]; [done|].
  by destruct (fs_files fs0 !! _).
Qed.

(** ** Listings *)

Lemma strip_prefix_Some p s r : strip_prefix p s = Some r <-> s = p ++ r.
Proof.
  split; [|intros ->; apply strip_prefix_app]. revert s.
  induction p as [|c p IH]; intros [|d s]; cbn; try (by intros [= ->]).
  case_decide; [|done]. subst. intros E. by rewrite (IH _ E).
Qed.

Lemma below_Some d p r : below d p = Some r <-> p = d +:+ "/" +:+ r.
Proof.
  unfold below. rewrite fmap_Some. split.
  - intros (l & H & ->). apply strip_prefix_Some in H. apply chars_inj.
    rewrite H, !chars_app, String.list_ascii_of_string_of_list_ascii. by rewrite <-(assoc_L app).
  - intros ->. exists (chars_of r). rewrite String.string_of_list_ascii_of_string. split; [|done].
    apply strip_prefix_Some. rewrite !chars_app. apply (assoc_L app).
Qed.

Lemma trim_slash_dir q : trim_slash (q +:+ "/") = q.
Proof.
  unfold trim_slash. rewrite chars_app, reverse_app.
  change (reverse (chars_of "/") ++ reverse (chars_of q)) with (slash :: reverse (chars_of q)).
  cbv iota. change (Ascii.eqb slash slash) with true. cbn iota. by rewrite reverse_involutive, String.string_of_list_ascii_of_string.
Qed.

(** The listing of a directory: exactly the objects whose key starts with it. *)
Lemma ListObjects_spec c q fs objs k : file_repr c fs objs -> fs_plan fs = [] ->
  q <> EmptyString -> fs_files fs !! (fc_BaseDir c +:+ "/" +:+ q) = None ->
  exists keys, (file_ListObjects c (q +:+ "/") fs).1 = Ok keys /\
    (k ∈ keys <-> is_Some (objs !! k) /\ String.prefix (q +:+ "/") k = true).
Proof.
  intros Hr Hp Hq Hroot. unfold file_ListObjects, syscall. rewrite Hp, trim_slash_dir, decide_False by done.
  eexists. split; [reflexivity|]. rewrite list_elem_of_omap, string_prefix_spec. split.
  - intros (p & Hin & Hb). apply below_Some in Hb as ->.
    apply list_elem_of_filter in Hin as [Hpr Hin].
    apply list_elem_of_fmap in Hin as ([p' d] & Ep & Hin). cbn in Ep. subst p'.
    apply elem_of_map_to_list in Hin. rewrite <-(Hr k) in Hin. split; [eauto|].
    destruct Hpr as [Hpr|[r Hb]].
    + rewrite (Hr k), Hpr in Hin. congruence.
    + apply below_Some in Hb. rewrite <-!str_assoc in Hb. apply append_inj_l, append_inj_l in Hb. exists r.
      by rewrite Hb, str_assoc.
  - intros ([d Hd] & r & ->). exists (fc_BaseDir c +:+ "/" +:+ ((q +:+ "/") +:+ r)).
    split; [|by apply below_Some]. apply list_elem_of_filter. split.
    + right. exists r. apply below_Some. by rewrite <-!str_assoc.
    + apply list_elem_of_fmap. exists (fc_BaseDir c +:+ "/" +:+ ((q +:+ "/") +:+ r), d). split; [done|].
      apply elem_of_map_to_list. by rewrite <-(Hr _).
Qed.
