(* ===== verification/S3Backend.v ===== *)
(** * The S3 backend ([viperblock/backends/s3/s3.go])

    The AWS SDK client is not part of the repository: it is a parameter, a
    record of the four calls the backend makes.  What S3 documents of them is
    the class [S3Laws]; the backend's own logic (request construction, error
    classification, body assembly, short-read check, pagination, the
    pool-pressure flag) is translated from the source. *)

From S2P Require Import Prelude Words BlockMap BlockStore Crypto Paths Volume ObjectStore.
From stdpp Require Import pretty.
From Stdlib Require Import Ascii.

Open Scope string_scope.
Open Scope list_scope.
Open Scope Z_scope.

(** ** The SDK client *)

(** An SDK error: the API code ([smithy.APIError]) and the HTTP status
    ([smithyhttp.ResponseError]), where it carries one. *)
Record sdk_error := mkSdkError { api_code : option string; http_status : option Z }.

Record list_page := mkPage {
  pg_Contents : list (option string);        (* Key of each object *)
  pg_CommonPrefixes : list (option string);  (* Prefix of each group *)
  pg_IsTruncated : option bool;
  pg_NextContinuationToken : option string }.

(** The calls, on a server state [S].  A body that cannot be read to its end
    is [None].  A put reports, for each attempt, the pool-pressure header of
    the raw response ([None]: no response). *)
Record s3_client (S : Type) := mkClient {
  GetObject : string -> string -> option string -> S -> result sdk_error (option bytes) * S;
  PutObject : string -> string -> bytes -> S -> result sdk_error unit * list (option string) * S;
  DeleteObject : string -> string -> S -> result sdk_error unit * S;
  ListObjectsV2 : string -> string -> option string -> option string -> S ->
                  result sdk_error list_page * S }.
Arguments GetObject {S}. Arguments PutObject {S}.
Arguments DeleteObject {S}. Arguments ListObjectsV2 {S}. Arguments mkClient {S}.

(** ** Endpoints and errors *)

(** The text after the first colon, if a non-empty text precedes it. *)
Fixpoint after_colon (s : chars) : option chars :=
  match s with
  | [] => None
  | c :: s' => if Ascii.eqb c ":" then Some s' else after_colon s'
  end.

(** [schemeRE]: [^[^:]+://] *)
Definition has_scheme (host : string) : bool :=
  match chars_of host with
  | [] => false
  | c :: r =>
      if Ascii.eqb c ":" then false
      else match after_colon r with
           | Some ("/"%char :: "/"%char :: _) => true
           | _ => false
           end
  end.

Definition normalizeEndpoint (host : string) : string :=
  if has_scheme host then host else "https://" +:+ host.

Definition not_found_codes : list string := ["NoSuchKey"; "NoSuchBucket"; "NotFound"; "NoSuchVersion"].

Definition wrapNotFound (e : sdk_error) : error :=
  match api_code e with
  | Some code => if bool_decide (code ∈ not_found_codes) then [ErrNotExist] else plain
  | None => plain
  end.

Definition StatusInsufficientStorage : Z := 507.

Definition s3_classifyWriteErr (e : sdk_error) : error :=
  match http_status e with
  | Some code => if code =? StatusInsufficientStorage then [ErrNoSpace] else plain
  | None => plain
  end.

(** ** The backend *)

Record S3Config := mkS3Config {
  s3_VolumeName : string; s3_Region : string; s3_Bucket : string; s3_Host : string;
  s3_initialized : bool      (* s3Client != nil *) }.

(** A configuration of another type makes [New] and [SetConfig] panic.  The
    client is an unexported field of the configuration: replacing the
    configuration drops it, until the next [Init]. *)
Inductive s3_any := S3Any (c : S3Config) | S3Other.
Definition s3_New (c : s3_any) : option S3Config :=
  match c with S3Any c => Some c | S3Other => None end.
Definition s3_SetConfig (old : S3Config) (c : s3_any) : option S3Config :=
  match c with S3Any c => Some c | S3Other => None end.

Record s3_state (S : Type) := mkS3State { server : S; backendNearFull : bool }.
Arguments mkS3State {S}. Arguments server {S}. Arguments backendNearFull {S}.

Definition poolPressureNearFull : string := "nearfull".
Definition putObjectOperationName : string := "PutObject".

(** ** The client of Init *)

(** The settings of the default transport, in seconds. *)
Record http_transport := mkTransport {
  ClientSessionCache : Z; NextProtos : list string; MaxIdleConns : Z; MaxIdleConnsPerHost : Z;
  MaxConnsPerHost : Z; IdleConnTimeout : Z; DisableKeepAlives : bool; ForceAttemptHTTP2 : bool;
  TLSHandshakeTimeout : Z; ResponseHeaderTimeout : Z; ExpectContinueTimeout : Z; ClientTimeout : Z }.

Definition default_transport : http_transport :=
  mkTransport 256 ["h2"; "http/1.1"] 200 200 0 120 false true 10 60 1 120.

Record S3Options := mkS3Options {
  BaseEndpoint : string; UsePathStyle : bool; ContinueHeaderThresholdBytes : Z; opt_Region : string;
  opt_HTTPClient : option http_transport (* None: the client of the configuration *) }.

(** The options [InitCtx] makes the client with. *)
Definition client_options (c : S3Config) (givenClient : bool) : S3Options :=
  mkS3Options (normalizeEndpoint (s3_Host c)) true (-1) (s3_Region c)
    (if givenClient then None else Some default_transport).

(** What the SDK documents of the threshold: zero means 2 MiB, a negative one
    switches the header off. *)
Definition sends_expect (o : S3Options) (bodyLen : Z) : bool :=
  let t := ContinueHeaderThresholdBytes o in
  if t =? 0 then 2097152 <=? bodyLen else (0 <? t) && (t <=? bodyLen).

(** No upload, whatever its size, carries "Expect: 100-continue". *)
Lemma no_expect_header c given bodyLen : sends_expect (client_options c given) bodyLen = false.
Proof. reflexivity. Qed.

Section backend.
Context {S : Type} (sdk : s3_client S).

(** The pool-pressure observer on one response: only those of a PutObject
    attempt change the flag. *)
Definition observe_pressure (operation : string) (flag : bool) (resp : option string) : bool :=
  if negb (bool_decide (operation = putObjectOperationName)) then flag
  else
    match resp with
    | Some h => bool_decide (h = poolPressureNearFull)
    | None => false
    end.

Definition NearFull (s : s3_state S) : bool := backendNearFull s.

(** [InitCtx]: the client is set before the probe, and stays set when the
    probe fails. *)
Definition s3_Init (c : S3Config) (s : s3_state S) : result error unit * S3Config * s3_state S :=
  let c := mkS3Config (s3_VolumeName c) (s3_Region c) (s3_Bucket c) (s3_Host c) true in
  match ListObjectsV2 sdk (s3_Bucket c) "" None None (server s) with
  | (Err _, s') => (Err plain, c, mkS3State s' (backendNearFull s))
  | (Ok _, s') => (Ok tt, c, mkS3State s' (backendNearFull s))
  end.

(** [fmt.Sprintf("bytes=%d-%d", lo, hi)] *)
Definition byte_range (lo hi : Z) : string :=
  "bytes=" +:+ pretty (Z.to_N lo) +:+ "-" +:+ pretty (Z.to_N hi).

(** The Range header of a read: [offset+length-1] in [uint32] arithmetic. *)
Definition range_header (offset length : Z) : option string :=
  if 0 <? length then Some (byte_range offset (u32 (u32 (offset + length) - 1))) else None.

(** The common part of [ReadCtx] and [ReadFromCtx]: request and body. *)
Definition fetch (c : S3Config) (key : string) (offset length : Z) (s : s3_state S)
    : result error bytes * s3_state S :=
  if negb (s3_initialized c) then (Err plain, s)
  else
    match GetObject sdk (s3_Bucket c) key (range_header offset length) (server s) with
    | (Err e, s') => (Err (wrapNotFound e), mkS3State s' (backendNearFull s))
    | (Ok None, s') => (Err plain, mkS3State s' (backendNearFull s))
    | (Ok (Some body), s') => (Ok body, mkS3State s' (backendNearFull s))
    end.

(** [ReadCtx]: a ranged read that comes back short is refused. *)
Definition s3_Read (c : S3Config) (t : FileType) (id offset length : Z) (s : s3_state S)
    : result error bytes * s3_state S :=
  match fetch c (GetFilePath t id (s3_VolumeName c)) offset length s with
  | (Ok res, s') =>
      if (0 <? length) && negb (blen res =? length) then (Err [ErrShortRead], s') else (Ok res, s')
  | (Err e, s') => (Err e, s')
  end.

(** [ReadFromCtx]: no such check. *)
Definition s3_ReadFrom (c : S3Config) (vol : string) (t : FileType) (id offset length : Z)
    (s : s3_state S) : result error bytes * s3_state S :=
  fetch c (GetFilePath t id vol) offset length s.

(** The body of [WriteCtx] and [WriteToCtx]. *)
Definition put_body (headers data : option bytes) : bytes :=
  match headers with
  | Some (b :: h) => (b :: h) ++ default [] data
  | _ => default [] data
  end.

Definition s3_put (c : S3Config) (key : string) (headers data : option bytes) (s : s3_state S)
    : result error unit * s3_state S :=
  if negb (s3_initialized c) then (Err plain, s)
  else
    match PutObject sdk (s3_Bucket c) key (put_body headers data) (server s) with
    | (r, resps, s') =>
        let flag := fold_left (observe_pressure putObjectOperationName) resps (backendNearFull s) in
        match r with
        | Err e => (Err (s3_classifyWriteErr e), mkS3State s' flag)
        | Ok _ => (Ok tt, mkS3State s' flag)
        end
    end.

Definition s3_Write (c : S3Config) (t : FileType) (id : Z) (headers data : option bytes)
    (s : s3_state S) : result error unit * s3_state S :=
  s3_put c (GetFilePath t id (s3_VolumeName c)) headers data s.

Definition s3_WriteTo (c : S3Config) (vol : string) (t : FileType) (id : Z)
    (headers data : option bytes) (s : s3_state S) : result error unit * s3_state S :=
  s3_put c (GetFilePath t id vol) headers data s.

Definition s3_Delete (c : S3Config) (t : FileType) (id : Z) (s : s3_state S)
    : result error unit * s3_state S :=
  if negb (s3_initialized c) then (Err plain, s)
  else
    match DeleteObject sdk (s3_Bucket c) (GetFilePath t id (s3_VolumeName c)) (server s) with
    | (Err e, s') => (Err (wrapNotFound e), mkS3State s' (backendNearFull s))
    | (Ok _, s') => (Ok tt, mkS3State s' (backendNearFull s))
    end.

(** The listing loop: pages are fetched until one is not truncated.
    [None] is running out of fuel. *)
Fixpoint list_pages (fuel : nat) (bucket prefix : string) (delimiter : option string)
    (take_page : list_page -> list string) (token : option string) (acc : list string) (s : S)
    : option (result error (list string) * S) :=
  match fuel with
  | O => None
  | Datatypes.S fuel =>
      match ListObjectsV2 sdk bucket prefix delimiter token s with
      | (Err _, s') => Some (Err plain, s')
      | (Ok pg, s') =>
          let acc := acc ++ take_page pg in
          match pg_IsTruncated pg with
          | Some true =>
              list_pages fuel bucket prefix delimiter take_page (pg_NextContinuationToken pg) acc s'
          | _ => Some (Ok acc, s')
          end
      end
  end.

(** [strings.TrimSuffix(p, "/")] *)
Definition trim_suffix_slash (p : string) : string :=
  match reverse (chars_of p) with
  | "/"%char :: r => String.string_of_list_ascii (reverse r)
  | _ => p
  end.

Definition page_prefixes (pg : list_page) : list string :=
  trim_suffix_slash <$> omap id (pg_CommonPrefixes pg).
Definition page_keys (pg : list_page) : list string := omap id (pg_Contents pg).

Definition s3_list (fuel : nat) (c : S3Config) (prefix : string) (delimiter : option string)
    (take_page : list_page -> list string) (s : s3_state S)
    : option (result error (list string) * s3_state S) :=
  if negb (s3_initialized c) then Some (Err plain, s)
  else
    match list_pages fuel (s3_Bucket c) prefix delimiter take_page None [] (server s) with
    | Some (r, s') => Some (r, mkS3State s' (backendNearFull s))
    | None => None
    end.

Definition s3_ListPrefixes (fuel : nat) (c : S3Config) (prefix : string) (s : s3_state S)
    : option (result error (list string) * s3_state S) :=
  s3_list fuel c prefix (Some "/") page_prefixes s.

Definition s3_ListObjects (fuel : nat) (c : S3Config) (prefix : string) (s : s3_state S)
    : option (result error (list string) * s3_state S) :=
  s3_list fuel c prefix None page_keys s.

Definition s3_GetBackendType : string := "s3".
Definition s3_GetHost (c : S3Config) : string := s3_Host c.

Definition s3_run (c : S3Config) (op : bk_op) (s : s3_state S) : result error bytes * s3_state S :=
  let unit_result r := match r with (Ok _, s) => (Ok [], s) | (Err e, s) => (Err e, s) end in
  match op with
  | BkRead t id off len => s3_Read c t id off len s
  | BkReadFrom vol t id off len => s3_ReadFrom c vol t id off len s
  | BkWrite t id h d => unit_result (s3_Write c t id (Some h) (Some d) s)
  | BkWriteTo vol t id h d => unit_result (s3_WriteTo c vol t id (Some h) (Some d) s)
  | BkDelete t id => unit_result (s3_Delete c t id s)
  end.
End backend.

(** ** What S3 documents *)

(** [stored]: the objects of a bucket.  A get that succeeds returns the object,
    or the part of it in the range, clamped to its end; the range must start
    inside it.  A put that succeeds stored the body; one that reports an error
    (a timeout) may have stored it.  The same for deletes; whether deleting a
    missing key is an error is left open.  Reads and listings change nothing. *)
Class S3Laws {S : Type} (sdk : s3_client S) (stored : string -> S -> gmap string bytes) := {
  get_frame : forall b k r s x s', GetObject sdk b k r s = (x, s') -> stored b s' = stored b s;
  get_whole : forall b k s body s', GetObject sdk b k None s = (Ok (Some body), s') ->
    stored b s !! k = Some body;
  get_range : forall b k lo hi s body s', 0 <= lo <= hi ->
    GetObject sdk b k (Some (byte_range lo hi)) s = (Ok (Some body), s') ->
    exists d, stored b s !! k = Some d /\ lo < blen d /\ body = slice d lo (hi + 1);
  put_ok : forall b k body s resps s', PutObject sdk b k body s = (Ok tt, resps, s') ->
    stored b s' = <[k := body]> (stored b s);
  put_err : forall b k body s e resps s', PutObject sdk b k body s = (Err e, resps, s') ->
    stored b s' = stored b s \/ stored b s' = <[k := body]> (stored b s);
  delete_ok : forall b k s s', DeleteObject sdk b k s = (Ok tt, s') ->
    stored b s' = delete k (stored b s);
  delete_err : forall b k s e s', DeleteObject sdk b k s = (Err e, s') ->
    stored b s' = stored b s \/ stored b s' = delete k (stored b s) }.
