(* ===== verification/S3BackendFacts.v ===== *)
(** * Facts on the S3 backend

    Over any client that keeps the laws of S3, the backend is a
    [BackendImpl]; the listing loop collects every page; and a small in-memory
    server shows that the laws can be met. *)

From stdpp Require Import pretty.
From Stdlib Require Import Ascii Strings.Byte.
From S2P Require Import Prelude Words BlockMap BlockStore Crypto Paths Volume ObjectStore S3Backend.

Open Scope string_scope.
Open Scope list_scope.
Open Scope Z_scope.

Section laws.
Context {S : Type} (sdk : s3_client S) (stored : string -> S -> gmap string bytes).
Context `{!S3Laws sdk stored}.
Variable c : S3Config.

Definition s3_repr (s : s3_state S) (objs : gmap string bytes) : Prop :=
  stored (s3_Bucket c) (server s) = objs.

(** The end of the range does not wrap. *)
Lemma range_end off len : 0 <= off -> 0 < len -> off + len <= 2 ^ 32 ->
  u32 (u32 (off + len) - 1) = off + len - 1.
Proof.
  intros Ho Hl He. destruct (decide (off + len = 2 ^ 32)) as [->|Hne].
  - reflexivity.
  - rewrite (u32_small (off + len)) by wsolve. apply u32_small. wsolve.
Qed.

(** What a fetch returns is a prefix of the object's range, or an error. *)
Lemma fetch_spec key off len s r s' : in_u32 off -> in_u32 len -> off + len <= 2 ^ 32 ->
  fetch sdk c key off len s = (r, s') ->
  stored (s3_Bucket c) (server s') = stored (s3_Bucket c) (server s) /\
  match r with
  | Err _ => True
  | Ok body => exists d, stored (s3_Bucket c) (server s) !! key = Some d /\
      (if len =? 0 then body = d else body = slice d off (off + len))
  end.
Proof.
  intros Ho Hl He. unfold fetch. destruct (s3_initialized c); cbn [negb]; [|by intros [= <- <-]].
  destruct (GetObject sdk (s3_Bucket c) key (range_header off len) (server s)) as [x s1] eqn:E.
  pose proof (get_frame _ _ _ _ _ _ E) as Hf.
  destruct x as [[body|]|e]; intros [= <- <-]; (split; [exact Hf|]); [|done|done].
  unfold range_header in E. destruct (Z.eqb_spec len 0) as [Hz|Hz].
  - subst. cbn in E. apply get_whole in E. eauto.
  - destruct (Z.ltb_spec 0 len); [|unfold_widths; lia]. rewrite range_end in E by (unfold_widths; lia).
    apply get_range in E as (d & Hd & _ & ->); [|unfold_widths; lia]. exists d.
    split; [done|]. f_equal. lia.
Qed.

Lemma read_ok v vol t id off len (objs : gmap string bytes) d :
  objs !! GetFilePath t id vol = Some d -> blen d <= MaxUint32 -> (len = 0 -> off = 0) ->
  exists o, spec_run v (BkReadFrom vol t id off len) o objs
    = (Ok (if len =? 0 then d else slice d off (off + len)), objs).
Proof.
  intros Hd Hsz H0. assert (0 <= blen d) by (unfold blen; lia).
  exists (Short (length (slice d off (off + if len =? 0 then blen d else len)))).
  rewrite spec_read, Hd. cbn [negb].
  assert (SafeInt64ToUint32 (blen d) = blen d) as -> by (unfold SafeInt64ToUint32; zcrush).
  rewrite firstn_all. destruct (Z.eqb_spec len 0) as [Hz|Hz]; [|done].
  by rewrite (H0 Hz), slice_all.
Qed.

Lemma read_err v vol t id off len objs e :
  spec_run v (BkReadFrom vol t id off len) (Fails e 0) objs = (Err e, objs).
Proof. by rewrite spec_read. Qed.

Lemma put_body_app h d : put_body (Some h) (Some d) = h ++ d.
Proof. by destruct h. Qed.

Lemma put_sim v vol t id h d s objs r s' : s3_repr s objs ->
  s3_put sdk c (GetFilePath t id vol) (Some h) (Some d) s = (r, s') ->
  exists o objs', spec_run v (BkWriteTo vol t id h d) o objs
    = (match r with Ok _ => Ok [] | Err e => Err e end, objs') /\ s3_repr s' objs'.
Proof.
  intros Hr. unfold s3_put. destruct (s3_initialized c); cbn [negb].
  2: { intros [= <- <-]. exists (Fails plain 0), objs. by rewrite spec_write. }
  rewrite put_body_app.
  destruct (PutObject sdk _ _ _ _) as [[[[]|e] resps] s1] eqn:E; intros [= <- <-].
  - apply put_ok in E. exists Works. eexists. rewrite spec_write. split; [done|].
    unfold s3_repr in *. cbn. by rewrite E, Hr.
  - apply put_err in E. unfold s3_repr in *. cbn. rewrite Hr in E. destruct E as [E|E].
    + exists (Fails (s3_classifyWriteErr e) 0), objs. by rewrite spec_write.
    + exists (Fails (s3_classifyWriteErr e) (Datatypes.S (length (h ++ d)))). eexists.
      rewrite spec_write, firstn_all. done.
Qed.

Lemma s3_sim v op s objs r s' :
  VolumeName v = s3_VolumeName c -> s3_repr s objs -> True ->
  op_valid (s3_VolumeName c) objs op -> s3_run sdk c op s = (r, s') ->
  exists o objs', spec_run v op o objs = (r, objs') /\ s3_repr s' objs'.
Proof.
  intros Hv Hr _ Hval.
  destruct op as [t id off len|vol t id off len|t id h d|vol t id h d|t id]; cbn [s3_run].
  - destruct Hval as (Ho & Hl & He & H0 & Hsz). unfold s3_Read.
    destruct (fetch sdk c _ off len s) as [r0 s1] eqn:E.
    destruct (fetch_spec _ _ _ _ _ _ Ho Hl He E) as [Hf Hbody]. rewrite Hr in Hf, Hbody.
    destruct r0 as [body|e].
    2: { intros [= <- <-]. exists (Fails e 0), objs. by rewrite spec_own_read, read_err. }
    destruct ((0 <? len) && negb (blen body =? len)); intros [= <- <-].
    { exists (Fails [ErrShortRead] 0), objs. by rewrite spec_own_read, read_err. }
    destruct Hbody as (d & Hd & Hb).
    destruct (read_ok v (s3_VolumeName c) t id off len objs d Hd (Hsz d Hd) H0) as [o Eo].
    exists o, objs. rewrite spec_own_read, Hv, Eo. split; [|done].
    by destruct (len =? 0); subst.
  - destruct Hval as (Ho & Hl & He & H0 & Hsz). unfold s3_ReadFrom. intros E.
    destruct (fetch_spec _ _ _ _ _ _ Ho Hl He E) as [Hf Hbody]. rewrite Hr in Hf, Hbody.
    destruct r as [body|e].
    2: { exists (Fails e 0), objs. by rewrite read_err. }
    destruct Hbody as (d & Hd & Hb).
    destruct (read_ok v vol t id off len objs d Hd (Hsz d Hd) H0) as [o Eo].
    exists o, objs. rewrite Eo. split; [|done]. by destruct (len =? 0); subst.
  - unfold s3_Write. destruct (s3_put _ _ _ _ _ _) as [r0 s1] eqn:E.
    apply (put_sim v) with (objs := objs) in E as (o & objs' & Eo & Hr'); [|done].
    intros E'. exists o, objs'. rewrite spec_own_write, Hv, Eo.
    destruct r0; injection E' as <- <-; done.
  - unfold s3_WriteTo. destruct (s3_put _ _ _ _ _ _) as [r0 s1] eqn:E.
    apply (put_sim v) with (objs := objs) in E as (o & objs' & Eo & Hr'); [|done].
    intros E'. exists o, objs'. rewrite Eo. destruct r0; injection E' as <- <-; done.
  - unfold s3_Delete. destruct (s3_initialized c); cbn [negb].
    2: { intros [= <- <-]. exists (Fails plain 0), objs. by rewrite spec_delete. }
    unfold s3_repr in *. rewrite <-Hv.
    destruct (DeleteObject sdk _ _ _) as [[[]|e] s1] eqn:E; intros [= <- <-]; cbn.
    + apply delete_ok in E. rewrite Hr in E. exists (Short 0). eexists. rewrite spec_delete.
      by destruct (objs !! GetFilePath t id (VolumeName v)).
    + apply delete_err in E. rewrite Hr in E. destruct E as [E|E].
      * exists (Fails (wrapNotFound e) 0), objs. by rewrite spec_delete.
      * exists (Fails (wrapNotFound e) 1). eexists. by rewrite spec_delete.
Qed.

#[export] Instance s3_backend : BackendImpl (s3_state S) := {
  bk_own := s3_VolumeName c; bk_repr := s3_repr; bk_fit := fun _ _ => True;
  bk_run := s3_run sdk c; bk_sim := s3_sim }.
End laws.

(** ** Listings *)

Section pages.
Context {S : Type} (sdk : s3_client S) (bucket prefix : string) (delimiter : option string).

(** The server answers a listing with these pages: every page but the last
    is truncated and carries the token of the next. *)
Inductive answers : option string -> S -> list list_page -> S -> Prop :=
| answer_last token s pg s' :
    ListObjectsV2 sdk bucket prefix delimiter token s = (Ok pg, s') ->
    pg_IsTruncated pg <> Some true -> answers token s [pg] s'
| answer_more token s pg s1 pgs s' :
    ListObjectsV2 sdk bucket prefix delimiter token s = (Ok pg, s1) ->
    pg_IsTruncated pg = Some true ->
    answers (pg_NextContinuationToken pg) s1 pgs s' -> answers token s (pg :: pgs) s'.

(** As many rounds as there are pages collect every page, in order. *)
Lemma list_pages_all take_page token s pgs s' acc fuel :
  answers token s pgs s' -> (length pgs <= fuel)%nat ->
  list_pages sdk fuel bucket prefix delimiter take_page token acc s
  = Some (Ok (acc ++ mjoin (take_page <$> pgs)), s').
Proof.
  intros H. revert acc fuel. induction H as [token s pg s' E Ht|token s pg s1 pgs s' E Ht _ IH];
    intros acc [|fuel] Hf; cbn in Hf; try lia; cbn; rewrite E.
  - rewrite app_nil_r. by destruct (pg_IsTruncated pg) as [[]|].
  - rewrite Ht, IH by lia. by rewrite (assoc_L app).
Qed.
End pages.

(** ** A server that keeps the laws *)

(** One bucket in memory.  Ranges are parsed from the header; a range that
    starts past the end is refused with status 416. *)
Definition parse_range (r : string) : option (Z * Z) :=
  match strip_prefix (chars_of "bytes=") (chars_of r) with
  | None => None
  | Some rest =>
      let '(lo, rest) := span_digits rest in
      match rest with
      | "-"%char :: hi => Some (parse_digits 0 lo, parse_digits 0 hi)
      | _ => None
      end
  end.

Definition no_such_key : sdk_error := mkSdkError (Some "NoSuchKey") (Some 404).
Definition bad_range : sdk_error := mkSdkError (Some "InvalidRange") (Some 416).

Definition mem_get (m : gmap string bytes) (key : string) (range : option string)
    : result sdk_error (option bytes) :=
  match m !! key with
  | None => Err no_such_key
  | Some d =>
      match range with
      | None => Ok (Some d)
      | Some r =>
          match parse_range r with
          | Some (lo, hi) => if lo <? blen d then Ok (Some (slice d lo (hi + 1))) else Err bad_range
          | None => Ok (Some d)
          end
      end
  end.

Definition mem_s3 : s3_client (gmap string bytes) := mkClient
  (fun _ key range m => (mem_get m key range, m))
  (fun _ key body m => (Ok tt, [Some ""], <[key := body]> m))
  (fun _ key m => match m !! key with
                  | Some _ => (Ok tt, delete key m)
                  | None => (Err no_such_key, m)
                  end)
  (fun _ prefix _ _ m =>
     (Ok (mkPage (Some <$> filter (fun k => String.prefix prefix k = true) (map_to_list m).*1)
            [] None None), m)).

Lemma parse_byte_range lo hi : 0 <= lo -> 0 <= hi -> parse_range (byte_range lo hi) = Some (lo, hi).
Proof.
  intros Hlo Hhi. unfold parse_range, byte_range. rewrite !chars_app, strip_prefix_app.
  destruct (parse_pretty (Z.to_N lo)) as (Hd & Hp & _).
  destruct (parse_pretty (Z.to_N hi)) as (_ & Hp' & _).
  change (chars_of "-" ++ chars_of (pretty (Z.to_N hi))) with ("-"%char :: chars_of (pretty (Z.to_N hi))).
  rewrite span_digits_app by done. rewrite Hp, Hp'. by rewrite !Z2N.id by lia.
Qed.

#[export] Instance mem_s3_laws : S3Laws mem_s3 (fun _ m => m).
Proof.
  split; cbn.
  - by intros b k r s x s' [= _ <-].
  - unfold mem_get. intros b k s body s'. destruct (s !! k); [|done]. by intros [= -> _].
  - intros b k lo hi s body s' Hr. unfold mem_get. destruct (s !! k) as [d|]; [|done].
    rewrite parse_byte_range by lia. destruct (Z.ltb_spec lo (blen d)); [|done].
    intros [= <- _]. by exists d.
  - by intros b k body s resps s' [= _ <-].
  - done.
  - intros b k s s'. destruct (s !! k) eqn:E; [|done]. by intros [= <-].
  - intros b k s e s'. destruct (s !! k) eqn:E; [done|]. intros [= _ <-]. by left.
Qed.
