(* ===== verification/WAL.v ===== *)
(** * The write-ahead log (viperblock.go)

    WAL segments and shards: their headers and records, appending with
    roll-back of torn writes, opening segments, and the three readers of a
    segment: consolidation of the single-file log, consolidation of a shard,
    and recovery after a crash. *)

From S2P Require Import Prelude Words BlockStore Crypto Paths Volume.

Section wal.
Context {A : AEAD}.

(** ** Headers *)

Definition WALHeaderSize : Z := 4 + 2 + 4 + 8.

Definition WALHeader (v : VB) (now : Z) : bytes :=
  WALMagic (vb_WAL v) ++ PutUint16 (Version v) ++ PutUint32 (BlockSize v)
  ++ PutUint64 (SafeInt64ToUint64 now).

(** ** Records *)

(** SeqNum, block number and length, big-endian. *)
Definition record_header (b : Block) : bytes :=
  PutUint64 (b_SeqNum b) ++ PutUint64 (b_Block b) ++ PutUint64 (b_Len b).

(** The unencrypted layout (VBWL): header, CRC32 of header and data, data. *)
Definition plain_record (b : Block) : bytes :=
  let checksum := crc32_update (ChecksumIEEE (record_header b)) (b_Data b) in
  record_header b ++ PutUint32 checksum ++ b_Data b.

(** [initAAD] then [updateAAD] on a zeroed buffer. *)
Definition block_aad (nameHash : bytes) (blockNum seqNum : Z) : bytes :=
  updateAAD (initAAD (zeros AADLen) nameHash) blockNum seqNum.

(** The encrypted layout (VBWE): header, ciphertext with its tag. *)
Definition sealed_record (v : VB) (b : Block) : bytes :=
  let nonce := makeNonce (b_SeqNum b) (VolumeUUID v) DomainWAL in
  record_header b ++ Seal nonce (b_Data b) (block_aad (volumeNameHash v) (b_Block b) (b_SeqNum b)).

Definition wal_record (v : VB) (b : Block) : bytes :=
  if EncryptionEnabled v then sealed_record v b else plain_record b.

(** The first 24 bytes of a record. *)
Definition decode_header (record : bytes) : Z * Z * Z :=
  (be_get (slice record 0 8), be_get (slice record 8 16), be_get (slice record 16 24)).

(** A record of the unencrypted layout, [None] when its checksum is wrong. *)
Definition decode_plain (record : bytes) : option Block :=
  let checksum := be_get (slice record 24 28) in
  let validated := crc32_update (ChecksumIEEE (slice record 0 24)) (drop 28 record) in
  let '(seqNum, blockNum, blockLen) := decode_header record in
  if validated =? checksum then Some (mkBlock (drop 28 record) seqNum blockNum 0 blockLen) else None.

(** A record of the encrypted layout, [None] when it does not authenticate. *)
Definition decode_sealed (v : VB) (record : bytes) : option Block :=
  let '(seqNum, blockNum, blockLen) := decode_header record in
  let nonce := makeNonce seqNum (VolumeUUID v) DomainWAL in
  match Open nonce (drop 24 record) (block_aad (volumeNameHash v) blockNum seqNum) with
  | Some plaintext => Some (mkBlock plaintext seqNum blockNum 0 blockLen)
  | None => None
  end.

(** ** Appending a record *)

Definition set_wal_dirty (d : bool) (v : VB) : VB := v <| vb_WAL := (vb_WAL v) <| wal_dirty := d |> |>.

Definition WriteWAL (block : Block) : M unit :=
  do v <- get;
  let record := wal_record v block in
  match last (DB (vb_WAL v)) with
  | None => throw [GoPanic] (* no segment was ever opened: the index is out of range *)
  | Some currentWAL =>
      do preSize <- (if wal_closed (vb_WAL v) then throw plain else file_size currentWAL);
      do w <- file_append currentWAL record;
      run modify (set_wal_dirty true);
      let '(n, err) := w in
      if bool_decide (err = None) && (n =? blen record) then ret tt
      else
        do truncErr <- file_truncate currentWAL preSize;
        match truncErr with
        | Some e => throw e
        | None => throw (default plain err)
        end
  end.

Definition set_shard_dirty (i : nat) (d : bool) (v : VB) : VB := v <| shard_dirty := <[i := d]> (shard_dirty v) |>.

(** [sw.Shards[block.Block & ShardMask]]; a nil file writes nothing. *)
Definition WriteShardedWAL (block : Block) : M unit :=
  do v <- get;
  let record := plain_record block in
  let shardIdx := getShard (b_Block block) in
  match ShardWAL v !! shardIdx with
  | Some (Some shard) =>
      do w <- file_append shard record;
      run modify (set_shard_dirty shardIdx true);
      let '(n, err) := w in
      if negb (n =? blen record) then throw plain
      else match err with None => ret tt | Some e => throw e end
  | _ => run modify (set_shard_dirty shardIdx true); throw plain
  end.

(** ** Opening *)

(** Which of the two logs of the volume [wal] points to. *)
Inductive wal_sel := TheWAL | TheBlockWAL.

Definition sel_wal (w : wal_sel) (v : VB) : WAL :=
  match w with TheWAL => vb_WAL v | TheBlockWAL => BlockToObjectWAL v end.
Definition set_wal (w : wal_sel) (x : WAL) (v : VB) : VB :=
  match w with TheWAL => v <| vb_WAL := x |> | TheBlockWAL => v <| BlockToObjectWAL := x |> end.

(** [os.OpenFile] with [O_CREATE|O_APPEND]: an existing file keeps its bytes. *)
Definition os_OpenAppend (filename : string) : M unit :=
  run os_call;
  do f <- get_file filename;
  match f with
  | None => set_file filename []
  | Some _ => ret tt
  end.

(** The header of the block-to-object log and of its checkpoints. *)
Definition BlockToObjectWALHeader (v : VB) (now : Z) : bytes :=
  WALMagic (BlockToObjectWAL v) ++ PutUint16 (Version v) ++ PutUint64 (SafeInt64ToUint64 now).

Definition openWALLocked (wal : wal_sel) (filename : string) : M unit :=
  run os_call; (* os.MkdirAll *)
  run os_OpenAppend filename;
  do v <- get;
  do t <- get_now;
  let magic := WALMagic (sel_wal wal v) in
  do headers <-
    (if bool_decide (magic = WALMagic (vb_WAL v)) then ret (WALHeader v t)
     else if bool_decide (magic = WALMagic (BlockToObjectWAL v)) then ret (BlockToObjectWALHeader v t)
     else throw plain);
  do w <- file_append filename headers;
  match w.2 with
  | Some e => throw e
  | None => modify (fun v => set_wal wal ((sel_wal wal v) <| DB := DB (sel_wal wal v) ++ [filename] |> <| wal_closed := false |>) v)
  end.

Definition OpenWAL := openWALLocked.

Definition shard_path (v : VB) (walNum : Z) (i : Z) : string :=
  (BaseDir v +:+ "/" +:+ GetShardedWALPath (GetVolume v) walNum i)%string.

Definition set_shard (i : Z) (f : option string) (v : VB) : VB :=
  v <| ShardWAL := <[Z.to_nat i := f]> (ShardWAL v) |>.

(** Closing shards [0..i-1] after shard [i] failed to open; close errors are
    only logged. *)
Definition close_shards_below (i : Z) : M unit :=
  mfor (seqZ 0 i) (fun j =>
    do v <- get;
    match ShardWAL v !! Z.to_nat j with
    | Some (Some _) => run try os_call; modify (set_shard j None)
    | _ => ret tt
    end).

Definition OpenShardedWAL : M unit :=
  do v <- get;
  do t <- get_now;
  let walNum := ShardWallNum v in
  let header := WALHeader v t in
  mfor (seqZ 0 NumShards) (fun i =>
    let filename := shard_path v walNum i in
    run os_call; (* os.MkdirAll *)
    do r <- try (os_OpenAppend filename);
    match r with
    | Err e => run close_shards_below i; throw e
    | Ok _ =>
        do w <- file_append filename header;
        match w.2 with
        | Some e => run try os_call; throw e
        | None => modify (set_shard i (Some filename))
        end
    end).

(** [NewShardedWAL]: shards with no file open. The base directory and the
    magic are those of the volume. *)
Definition NewShardedWAL (v : VB) : VB :=
  v <| ShardWAL := repeat None (Z.to_nat NumShards) |> <| shard_dirty := repeat false (Z.to_nat NumShards) |>
    <| ShardWallNum := 0 |>.

(** ** Background fsync *)

Definition syncWALIfDirty : M unit :=
  do v <- get;
  if negb (wal_dirty (vb_WAL v)) then ret tt
  else
    run modify (set_wal_dirty false);
    match last (DB (vb_WAL v)) with
    | None => ret tt
    | Some _ =>
        do r <- try (if wal_closed (vb_WAL v) then throw plain else os_call); (* activeWAL.Sync *)
        match r with
        | Ok _ => ret tt
        | Err _ => modify (set_wal_dirty true)
        end
    end.

(** Shard by shard; a failed fsync leaves the shard dirty. *)
Definition syncShardedWALIfDirty : M unit :=
  mfor (seqZ 0 NumShards) (fun i =>
    let i := Z.to_nat i in
    do v <- get;
    match shard_dirty v !! i with
    | Some true =>
        run modify (set_shard_dirty i false);
        match ShardWAL v !! i with
        | Some (Some _) =>
            do r <- try os_call; (* shard.DB.Sync *)
            match r with
            | Ok _ => ret tt
            | Err _ => modify (set_shard_dirty i true)
            end
        | _ => ret tt
        end
    | _ => ret tt
    end).

(** ** Reading a segment *)

(** Consolidation, unencrypted: [Read] into a zeroed buffer, so a torn tail is
    a record padded with zeros. The recursion ends when the file does. *)
Fixpoint chunk_read_plain (fuel : nat) (recordSize : Z) (data : bytes) : result error (list Block) :=
  match fuel, data with
  | O, _ | _, [] => Ok []
  | S fuel', _ =>
      let got := take (Z.to_nat recordSize) data in
      let record := got ++ zeros (recordSize - blen got) in
      match decode_plain record with
      | None => Err plain
      | Some b =>
          let? rest := chunk_read_plain fuel' recordSize (drop (Z.to_nat recordSize) data) in
          Ok (b :: rest)
      end
  end.

(** Consolidation, encrypted: [io.ReadFull], a torn tail is an error. *)
Fixpoint chunk_read_sealed (fuel : nat) (v : VB) (recordSize : Z) (data : bytes) : result error (list Block) :=
  match fuel, data with
  | O, _ | _, [] => Ok []
  | S fuel', _ =>
      let record := take (Z.to_nat recordSize) data in
      if blen record <? recordSize then Err plain
      else
        match decode_sealed v record with
        | None => Err [ErrIntegrity]
        | Some b =>
            let? rest := chunk_read_sealed fuel' v recordSize (drop (Z.to_nat recordSize) data) in
            Ok (b :: rest)
        end
  end.

(** Consolidation of one shard: an incomplete record ends the shard. *)
Fixpoint shard_read (fuel : nat) (recordSize : Z) (data : bytes) : result error (list Block) :=
  match fuel, data with
  | O, _ | _, [] => Ok []
  | S fuel', _ =>
      let record := take (Z.to_nat recordSize) data in
      if blen record <? recordSize then Ok []
      else
        match decode_plain record with
        | None => Err plain
        | Some b =>
            let? rest := shard_read fuel' recordSize (drop (Z.to_nat recordSize) data) in
            Ok (b :: rest)
        end
  end.

(** Recovery, unencrypted: stop at the first incomplete or damaged record. *)
Fixpoint recover_plain (fuel : nat) (recordSize : Z) (data : bytes) : list Block :=
  match fuel with
  | O => []
  | S fuel' =>
      let record := take (Z.to_nat recordSize) data in
      if blen record <? recordSize then []
      else
        match decode_plain record with
        | None => []
        | Some b => b :: recover_plain fuel' recordSize (drop (Z.to_nat recordSize) data)
        end
  end.

(** Recovery, encrypted: stop at an incomplete record, refuse a damaged one. *)
Fixpoint recover_sealed (fuel : nat) (v : VB) (recordSize : Z) (data : bytes) : result error (list Block) :=
  match fuel with
  | O => Ok []
  | S fuel' =>
      let record := take (Z.to_nat recordSize) data in
      if blen record <? recordSize then Ok []
      else
        match decode_sealed v record with
        | None => Err [ErrIntegrity]
        | Some b =>
            let? rest := recover_sealed fuel' v recordSize (drop (Z.to_nat recordSize) data) in
            Ok (b :: rest)
        end
  end.

Definition record_size (v : VB) : Z := (if EncryptionEnabled v then 40 else 28) + BlockSize v.

(** The magic and version checks shared by the readers of a segment. *)
Definition check_magic (v : VB) (header : bytes) : result error unit :=
  if negb (bool_decide (slice header 0 4 = WALMagic (vb_WAL v))) then
    Err (if EncryptionEnabled v && bool_decide (slice header 0 4 = lit "VBWL")
         then [ErrPreEncryptionFormat] else plain)
  else if negb (be_get (slice header 4 6) =? Version v) then Err plain
  else Ok tt.

Definition max_seq (blocks : list Block) : Z := fold_left (fun m b => Z.max m (b_SeqNum b)) blocks 0.

(** What [readWALFileForRecovery] makes of the bytes of a segment. *)
Definition recovered_blocks (v : VB) (raw : bytes) : result error (list Block) :=
  if blen raw <? WALHeaderSize then Err plain
  else
    let header := slice raw 0 WALHeaderSize in
    let? _ := check_magic v header in
    if negb (be_get (slice header 6 10) =? BlockSize v) then Err plain
    else
      let body := drop (Z.to_nat WALHeaderSize) raw in
      if EncryptionEnabled v
      then recover_sealed (S (length body)) v (record_size v) body
      else Ok (recover_plain (S (length body)) (record_size v) body).

Definition readWALFileForRecovery (filename : string) : M (list Block * Z) :=
  do v <- get;
  do raw <- os_ReadFile filename;
  do blocks <- of_result (recovered_blocks v raw);
  ret (blocks, max_seq blocks).

(** What consolidation makes of the bytes of a closed segment. *)
Definition consolidated_blocks (v : VB) (raw : bytes) : result error (list Block) :=
  match raw with
  | [] => Err plain
  | _ =>
      (* [Read] of the header may be short: the rest of the buffer is zero *)
      let got := slice raw 0 WALHeaderSize in
      let header := got ++ zeros (WALHeaderSize - blen got) in
      let? _ := check_magic v header in
      let body := drop (Z.to_nat WALHeaderSize) raw in
      if EncryptionEnabled v
      then chunk_read_sealed (length body) v (record_size v) body
      else chunk_read_plain (length body) (record_size v) body
  end.

(** One shard of a closed generation; a missing file is an empty shard. *)
Definition shard_blocks (v : VB) (raw : option bytes) : result error (list Block) :=
  match raw with
  | None => Ok []
  | Some raw => let body := drop (Z.to_nat WALHeaderSize) raw in
                shard_read (length body) (28 + BlockSize v) body
  end.

(** ** Scanning the active segment *)

(** The longest slice the run time allocates on a 64-bit platform. *)
Definition max_alloc : Z := 2 ^ 48.

(** [ReadWAL] checks the records from the descriptor's position on: lengths
    are taken from the headers, a short header is padded with zeros. *)
Fixpoint scan_wal (fuel : nat) (data : bytes) : result error unit :=
  match fuel, data with
  | O, _ | _, [] => Ok tt
  | S fuel', _ =>
      let got := take 28 data in
      let headers := got ++ zeros (28 - blen got) in
      let len := be_get (slice headers 16 24) in
      let rest := drop 28 data in
      if max_alloc <? len then Err [GoPanic] (* makeslice: len out of range *)
      else
        let d := slice rest 0 (Z.min len (blen rest)) in
        if negb (blen d =? SafeUint64ToInt len) then Err plain
        else if crc32_update (ChecksumIEEE (slice headers 0 24)) d =? be_get (slice headers 24 28)
        then scan_wal fuel' (drop (length d) rest) else Err plain
  end.

(** [pos]: the position of the open descriptor. *)
Definition ReadWAL (pos : Z) : M unit :=
  do v <- get;
  match last (DB (vb_WAL v)) with
  | None => throw [GoPanic]
  | Some currentWAL =>
      if wal_closed (vb_WAL v) then throw plain
      else
        do raw <- os_ReadFile currentWAL;
        of_result (scan_wal (length raw) (drop (Z.to_nat pos) raw))
  end.

End wal.
