(* ===== verification/Chunk.v ===== *)
(** * From the log to chunk objects (viperblock.go)

    Consolidating a closed WAL segment (or a generation of shards): dedupe by
    SeqNum, sort, cut into chunks, seal, upload, and publish the new locations
    in the block map and the block store. *)

From S2P Require Import Prelude Words BlockMap BlockStore Crypto Paths Volume WAL.

Section chunk.
Context {A : AEAD}.

(** ** Chunk format *)

Definition ChunkHeaderSize : Z := 4 + 2 + 4.

Definition ChunkHeader (v : VB) : bytes :=
  ChunkMagic v ++ PutUint16 (Version v) ++ PutUint32 (BlockSize v).

(** Block [i] of the buffer, sealed under its own SeqNum and number. *)
Definition seal_block (v : VB) (mb : Block) (plaintext : bytes) : bytes :=
  Seal (makeNonce (b_SeqNum mb) (VolumeUUID v) DomainChunk) plaintext
       (block_aad (volumeNameHash v) (b_Block mb) (b_SeqNum mb)).

(** The sealed body; [None] when the buffer is too short for the blocks. *)
Fixpoint seal_body (v : VB) (chunkBuffer : bytes) (matchedBlocks : list Block) : option bytes :=
  match matchedBlocks with
  | [] => Some []
  | mb :: rest =>
      if blen chunkBuffer <? BlockSize v then None
      else
        match seal_body v (drop (Z.to_nat (BlockSize v)) chunkBuffer) rest with
        | None => None
        | Some sealed => Some (seal_block v mb (slice chunkBuffer 0 (BlockSize v)) ++ sealed)
        end
  end.

Definition chunk_body (v : VB) (chunkBuffer : bytes) (matchedBlocks : list Block) : option bytes :=
  if EncryptionEnabled v then seal_body v chunkBuffer matchedBlocks else Some chunkBuffer.

(** ** Publishing a chunk *)

(** The maximal runs of consecutive blocks, each with the index of its first. *)
Fixpoint group_runs (runStart : Z) (first : Block) (more : list Block) (prev : Block) (i : Z)
    (l : list Block) : list (Z * (Block * list Block)) :=
  match l with
  | [] => [(runStart, (first, more))]
  | b :: l' =>
      if b_Block b =? u64 (b_Block prev + 1)
      then group_runs runStart first (more ++ [b]) b (i + 1) l'
      else (runStart, (first, more)) :: group_runs i b [] b (i + 1) l'
  end.
Definition runs_of (matchedBlocks : list Block) : list (Z * (Block * list Block)) :=
  match matchedBlocks with
  | [] => []
  | b :: l => group_runs 0 b [] b 1 l
  end.

(** The map entry of one run. *)
Definition run_lookup (chunkIndex headerLen stride runStart : Z) (first : Block) (more : list Block)
    : BlockLookup :=
  let seqNums := b_SeqNum <$> (first :: more) in
  {| bl_SeqNums := seqNums; bl_StartBlock := b_Block first; bl_ObjectID := chunkIndex;
     bl_SeqNum := b_SeqNum first;
     bl_ObjectOffset := SafeIntToUint32 (headerLen + runStart * stride);
     bl_NumBlocks := SafeIntToUint16 (Z.of_nat (length seqNums)) |}.

Definition refcounts (v : VB) : refcount := if GCEnabled v then Some (gcRefcount v) else None.

(** A run older than what the map has: the uploaded chunk becomes a GC candidate. *)
Definition reject_run (chunkIndex : Z) (v : VB) : VB :=
  if GCEnabled v then
    match gcRefcount v !! chunkIndex with
    | None => v <| gcRefcount := <[chunkIndex := 0]> (gcRefcount v) |>
    | Some _ => v
    end
  else v.

Definition accept_run (newBlock : BlockLookup) (v : VB) : VB :=
  let '(m, rc) := insertCoalescedLocked newBlock (blockStride v) (BlocksToObject v, refcounts v) in
  let v := v <| BlocksToObject := m |> <| gcRefcount := default (gcRefcount v) rc |> in
  if UseBlockStore v then
    let n := Z.of_nat (length (bl_SeqNums newBlock)) in
    let blocks := (fun i => u64 (bl_StartBlock newBlock + i)) <$> seqZ 0 n in
    v <| BStore := (MarkPersistedRange blocks (bl_ObjectID newBlock) (bl_ObjectOffset newBlock)
                      (blockStride v) (bl_SeqNums newBlock) (BStore v)).2 |>
  else v.

Definition commit_run (chunkIndex : Z) (v : VB) (r : Z * (Block * list Block)) : VB :=
  let '(runStart, (first, more)) := r in
  let newBlock := run_lookup chunkIndex ChunkHeaderSize (blockStride v) runStart first more in
  match resolveBlockLookup (BlocksToObject v) (b_Block first) with
  | Some (oldBlock, _) =>
      if bl_SeqNum newBlock <=? bl_SeqNum oldBlock then reject_run chunkIndex v
      else accept_run newBlock v
  | None => accept_run newBlock v
  end.

(** Uploaded blocks leave [PendingBackendWrites] and the backpressure counter. *)
Definition release_pending (matchedBlocks : list Block) (v : VB) : VB :=
  let matched b := bool_decide (b_Block b ∈ b_Block <$> matchedBlocks) in
  let freed := List.filter matched (PendingBackendWrites v) in
  v <| PendingBackendWrites := List.filter (fun b => negb (matched b)) (PendingBackendWrites v) |>
    <| pendingBytes := pendingBytes v - sumZ ((fun b => blen (b_Data b)) <$> freed) |>.

(** Up to and including the upload; the chunk's ObjectID. *)
Definition put_chunk (chunkBuffer : bytes) (matchedBlocks : list Block) : M Z :=
  do v <- get;
  let chunkIndex := ObjectNum v in
  run modify (fun v => v <| ObjectNum := u64 (ObjectNum v + 1) |>);
  match chunk_body v chunkBuffer matchedBlocks with
  | None => throw plain
  | Some body =>
      run backend_Write FileTypeChunk chunkIndex (ChunkHeader v) body;
      ret chunkIndex
  end.

(** After the upload: the pending list, then the map under its lock. *)
Definition commit_chunk (chunkIndex : Z) (matchedBlocks : list Block) (v : VB) : VB :=
  (fold_left (commit_run chunkIndex) (runs_of matchedBlocks) (release_pending matchedBlocks v))
    <| bto_dirty := true |>.

Definition createChunkFile (chunkBuffer : bytes) (matchedBlocks : list Block) : M unit :=
  do chunkIndex <- put_chunk chunkBuffer matchedBlocks;
  modify (commit_chunk chunkIndex matchedBlocks).

(** ** Consolidation *)

(** Highest SeqNum per block; the first of equals wins. *)
Definition dedup_step (m : gmap Z Block) (b : Block) : gmap Z Block :=
  match m !! b_Block b with
  | Some existing => if b_SeqNum existing <? b_SeqNum b then <[b_Block b := b]> m else m
  | None => <[b_Block b := b]> m
  end.
Definition dedup (blocks : list Block) : gmap Z Block := fold_left dedup_step blocks ∅.

Definition sortedBlocks (blocks : list Block) : list Block :=
  let m := dedup blocks in
  omap (fun k => m !! k) (merge_sort Z.le (map_to_list m).*1).

(** Filling chunk buffers of at least [objSize] bytes; the last may be smaller. *)
Fixpoint cut_chunks (objSize : Z) (chunkBuffer : bytes) (matchedBlocks : list Block) (l : list Block)
    : list (bytes * list Block) :=
  match l with
  | [] => if 0 <? blen chunkBuffer then [(chunkBuffer, matchedBlocks)] else []
  | b :: l' =>
      let buf := chunkBuffer ++ b_Data b in
      let mb := matchedBlocks ++ [mkBlock [] (b_SeqNum b) (b_Block b) 0 0] in
      if objSize <=? blen buf then (buf, mb) :: cut_chunks objSize [] [] l'
      else cut_chunks objSize buf mb l'
  end.

Definition chunk_jobs (v : VB) (blocks : list Block) : list (bytes * list Block) :=
  cut_chunks (ObjBlockSize v) [] [] (sortedBlocks blocks).

(** How the worker pool happened to run: the order in which the uploads of one
    drain took effect, and which of the jobs still queued when the first one
    failed ran as well. *)
Record Sched := mkSched {
  reorder : list (bytes * list Block) -> list (bytes * list Block);
  late : list bool
}.
Definition sched_ok (sc : Sched) : Prop := forall jobs, reorder sc jobs ≡ₚ jobs.
(** One worker, and nothing runs after a failure. *)
Definition serial : Sched := mkSched id [].

(** The jobs left when one has failed; their own errors are dropped. *)
Fixpoint late_jobs (late : list bool) (jobs : list (bytes * list Block)) : M unit :=
  match late, jobs with
  | runs :: late', (buf, mb) :: jobs' =>
      run (if runs : bool then (run try (createChunkFile buf mb); ret tt) else ret tt);
      late_jobs late' jobs'
  | _, _ => ret tt
  end.

(** submit every job, then wait: the first error, if any. *)
Fixpoint upload_jobs (late : list bool) (jobs : list (bytes * list Block)) : M unit :=
  match jobs with
  | [] => ret tt
  | (buf, mb) :: jobs' =>
      do r <- try (createChunkFile buf mb);
      match r with
      | Ok _ => upload_jobs late jobs'
      | Err e => run late_jobs late jobs'; throw e
      end
  end.

Definition parallelUploader (sc : Sched) (jobs : list (bytes * list Block)) : M unit :=
  upload_jobs (late sc) (reorder sc jobs).

Definition wal_path (v : VB) (n : Z) : string :=
  (wal_BaseDir (vb_WAL v) +:+ "/" +:+ GetFilePath FileTypeWALChunk n (GetVolume v))%string.

(** *** The sharded log *)

Definition shard_sizes (v : VB) : M Z :=
  (fix go (l : list (option string)) : M Z :=
     match l with
     | [] => ret 0
     | None :: l' => go l'
     | Some f :: l' =>
         do r <- try (file_size f);
         do rest <- go l';
         ret (match r with Ok n => n + rest | Err _ => rest end)
     end) (ShardWAL v).

Definition close_all_shards : M unit :=
  mfor (seqZ 0 NumShards) (fun i =>
    do v <- get;
    match ShardWAL v !! Z.to_nat i with
    | Some (Some _) =>
        run try os_call; (* Sync *)
        run try os_call; (* Close *)
        modify (set_shard i None)
    | _ => ret tt
    end).

Definition open_next_shards (v : VB) (nextWalNum : Z) (header : bytes) : M unit :=
  mfor (seqZ 0 NumShards) (fun i =>
    let filename := shard_path v nextWalNum i in
    run os_call; (* os.MkdirAll *)
    run os_OpenAppend filename;
    do w <- file_append filename header;
    match w.2 with
    | Some e => run try os_call; throw e
    | None => modify (set_shard i (Some filename))
    end).

(** Every shard is read before the first error is looked at. *)
Fixpoint read_shards (v : VB) (walNum : Z) (ids : list Z) : M (list (result error (list Block))) :=
  match ids with
  | [] => ret []
  | i :: ids' =>
      do r <- try (os_ReadFile (shard_path v walNum i));
      let blocks := match r with
                    | Ok raw => shard_blocks v (Some raw)
                    | Err e => if errors_Is e ErrNotExist then shard_blocks v None else Err e
                    end in
      do rest <- read_shards v walNum ids';
      ret (blocks :: rest)
  end.

Fixpoint concat_results (l : list (result error (list Block))) : result error (list Block) :=
  match l with
  | [] => Ok []
  | r :: l' => let? bs := r in let? rest := concat_results l' in Ok (bs ++ rest)
  end.

Definition WriteShardedWALToChunkCtx (sc : Sched) (force : bool) : M unit :=
  do v <- get;
  if negb (List.existsb (fun f => bool_decide (f <> None)) (ShardWAL v)) then ret tt
  else
    let currentWALNum := ShardWallNum v in
    do totalSize <- (if force then ret (ObjBlockSize v) else shard_sizes v);
    if totalSize <? ObjBlockSize v then ret tt
    else
      run close_all_shards;
      run modify (fun v => v <| ShardWallNum := u64 (ShardWallNum v + 1) |>);
      do t <- get_now;
      run open_next_shards v (u64 (currentWALNum + 1)) (WALHeader v t);
      do results <- read_shards v currentWALNum (seqZ 0 NumShards);
      do allBlocks <- of_result (concat_results results);
      match allBlocks with
      | [] => ret tt
      | _ => parallelUploader sc (chunk_jobs v allBlocks)
      end.

(** *** The single-file log *)

Definition WriteWALToChunkCtx (sc : Sched) (force : bool) : M unit :=
  do v <- get;
  if UseShardedWAL v then WriteShardedWALToChunkCtx sc force
  else
    match last (DB (vb_WAL v)) with
    | None => ret tt
    | Some pendingWAL =>
        let currentWALNum := WallNum (vb_WAL v) in
        let closed := wal_closed (vb_WAL v) in
        do size <- (if force then ret (ObjBlockSize v) else if closed then throw plain else file_size pendingWAL);
        if size <? ObjBlockSize v then ret tt
        else
          run (if closed then throw plain else os_call); (* pendingWAL.Sync *)
          run try os_call; (* pendingWAL.Close *)
          run modify (fun v => v <| vb_WAL := (vb_WAL v) <| WallNum := u64 (WallNum (vb_WAL v) + 1) |>
                                                       <| wal_closed := true |> |>);
          run openWALLocked TheWAL (wal_path v (u64 (currentWALNum + 1)));
          do raw <- os_ReadFile (wal_path v currentWALNum);
          do blocks <- of_result (consolidated_blocks v raw);
          parallelUploader sc (chunk_jobs v blocks)
    end.

End chunk.
