(* ===== verification/Read.v ===== *)
(** * Reading (viperblock.go)

    [ReadAt], the block-store and the legacy read paths, merging adjacent
    blocks into one backend read, the chunk-magic preflight, decryption, and
    the fall-back to the base map and the ancestors of a clone. The optional
    LRU cache is off ([Cache.Config.Size = 0], the default), so the code guarded
    by its size is not part of the model. *)

From S2P Require Import Prelude Words BlockMap BlockStore Crypto Paths Volume WAL Chunk.

(** [copy(dst[lo:hi], src)] *)
Definition copy_slice (dst : bytes) (lo hi : Z) (src : bytes) : bytes :=
  copy_at dst lo (take (Z.to_nat (hi - lo)) src).

(** [for _, x := range l] threading a value, with early return. *)
Fixpoint mfold {A B} (f : B -> A -> M B) (l : list A) (b : B) : M B :=
  match l with
  | [] => ret b
  | x :: l' => do b' <- f b x; mfold f l' b'
  end.

Record ConsecutiveBlock := mkCB {
  cb_BlockPosition : Z;
  cb_StartBlock : Z;
  cb_NumBlocks : Z;
  cb_OffsetStart : Z;
  cb_OffsetEnd : Z;
  cb_ObjectID : Z;
  cb_ObjectOffset : Z;
  cb_SeqNum : Z;
  cb_SeqNums : list Z
}.

(** ** Merging adjacent blocks of one object *)

(** How many blocks after [prev] continue its run. *)
Fixpoint run_length (prev : ConsecutiveBlock) (l : list ConsecutiveBlock) : nat :=
  match l with
  | [] => 0
  | cb :: l' =>
      if (cb_StartBlock cb =? u64 (cb_StartBlock prev + 1)) && (cb_ObjectID cb =? cb_ObjectID prev)
      then S (run_length cb l') else 0
  end.

Definition merge_run (enc : bool) (cb : ConsecutiveBlock) (group : list ConsecutiveBlock) : ConsecutiveBlock :=
  {| cb_BlockPosition := cb_BlockPosition cb; cb_StartBlock := cb_StartBlock cb;
     cb_NumBlocks := SafeIntToUint16 (1 + Z.of_nat (length group));
     cb_OffsetStart := cb_OffsetStart cb; cb_OffsetEnd := cb_OffsetEnd cb;
     cb_ObjectID := cb_ObjectID cb; cb_ObjectOffset := cb_ObjectOffset cb; cb_SeqNum := 0;
     cb_SeqNums := if enc then cb_SeqNum <$> (cb :: group) else [] |}.

(** [read] is consecutiveBlocksRead. *)
Fixpoint coalesce_reads (read : gset Z) (enc : bool) (l : list ConsecutiveBlock) : list ConsecutiveBlock :=
  match l with
  | [] => []
  | cb :: l' =>
      if decide (cb_StartBlock cb ∈ read) then coalesce_reads read enc l'
      else
        let group := take (run_length cb l') l' in
        merge_run enc cb group
        :: coalesce_reads (read ∪ list_to_set (cb_StartBlock <$> group)) enc l'
  end.

Section reads.
Context {A : AEAD}.

(** ** One run *)

Definition checkChunkMagic (volumeName : string) (objectID : Z) : M unit :=
  do v <- get;
  if negb (EncryptionEnabled v) then ret tt
  else if decide ((volumeName, objectID) ∈ chunkMagicChecked v) then ret tt
  else
    do header <- backend_ReadFrom volumeName FileTypeChunk objectID 0 4;
    if blen header <? 4 then throw plain
    else if bool_decide (slice header 0 4 = lit "VBCH") then throw [ErrPreEncryptionFormat]
    else if negb (bool_decide (slice header 0 4 = lit "VBCE")) then throw plain
    else modify (fun v => v <| chunkMagicChecked := {[ (volumeName, objectID) ]} ∪ chunkMagicChecked v |>).

(** The loop of [openChunkRun] over the blocks of the run. *)
Fixpoint open_blocks (uuid nameHash : bytes) (bs : Z) (blockNum : Z) (seqNums : list Z) (ciphertext : bytes)
    : option bytes :=
  match seqNums with
  | [] => Some []
  | seqNum :: seqNums' =>
      match Open (makeNonce seqNum uuid DomainChunk) (slice ciphertext 0 (bs + 16))
                 (block_aad nameHash blockNum seqNum) with
      | None => None
      | Some plaintext =>
          match open_blocks uuid nameHash bs (u64 (blockNum + 1)) seqNums' (drop (Z.to_nat (bs + 16)) ciphertext) with
          | None => None
          | Some rest => Some (plaintext ++ rest)
          end
      end
  end.

Definition openChunkRun (v : VB) (ciphertext : bytes) (cb : ConsecutiveBlock) (uuid nameHash : bytes) (dstLen : Z)
    : result error bytes :=
  let bs := BlockSize v in
  if negb (blen ciphertext =? cb_NumBlocks cb * (bs + 16)) then Err plain
  else if negb (dstLen =? cb_NumBlocks cb * bs) then Err plain
  else if negb (Z.of_nat (length (cb_SeqNums cb)) =? cb_NumBlocks cb) then Err plain
  else match open_blocks uuid nameHash bs (cb_StartBlock cb) (cb_SeqNums cb) ciphertext with
       | Some plaintext => Ok plaintext
       | None => Err [ErrIntegrity]
       end.

(** [BlockStore.Cache] for every block of the run. *)
Definition cache_run (cb : ConsecutiveBlock) (start : Z) (data : bytes) (v : VB) : VB :=
  v <| BStore := fold_left (fun u i =>
         let blockStart := start + i * BlockSize v in
         (Cache (u64 (cb_StartBlock cb + i)) (slice data blockStart (blockStart + BlockSize v)) u).2)
         (seqZ 0 (cb_NumBlocks cb)) (BStore v) |>.

(** Fetching one run from a volume's chunk into the buffer. *)
Definition fetch_run (volume : string) (uuid nameHash : bytes) (data : bytes) (cb : ConsecutiveBlock) : M bytes :=
  do v <- get;
  let consecutiveBlockOffset := u32 (cb_NumBlocks cb * blockStride v) in
  let start := u64 (cb_BlockPosition cb * BlockSize v) in
  let end_ := u64 (start + cb_NumBlocks cb * BlockSize v) in
  run checkChunkMagic volume (cb_ObjectID cb);
  do blockData <- backend_ReadFrom volume FileTypeChunk (cb_ObjectID cb) (cb_ObjectOffset cb) consecutiveBlockOffset;
  do chunk <- of_result
    (if EncryptionEnabled v then openChunkRun v blockData cb uuid nameHash (end_ - start)
     else if negb (blen blockData =? consecutiveBlockOffset) then Err [ErrShortRead]
     else Ok blockData);
  let data := copy_slice data start end_ chunk in
  run modify (fun v => if UseBlockStore v then cache_run cb start data v else v);
  ret data.

Definition fetchConsecutiveBlocksFromBackend (cbs : list ConsecutiveBlock) (data : bytes) : M bytes :=
  do v <- get;
  mfold (fetch_run (VolumeName v) (VolumeUUID v) (volumeNameHash v))
        (coalesce_reads ∅ (EncryptionEnabled v) cbs) data.

Definition fetchBaseBlocksFromBackend (sourceVolume : string) (uuid nameHash : bytes)
    (cbs : list ConsecutiveBlock) (data : bytes) : M bytes :=
  if bool_decide (sourceVolume = EmptyString) then throw plain
  else
    do v <- get;
    mfold (fetch_run sourceVolume uuid nameHash) (coalesce_reads ∅ (EncryptionEnabled v) cbs) data.

(** ** Where each block of a request comes from *)

Definition LookupBaseBlockToObject (v : VB) (block : Z) : option (Z * Z * Z) :=
  match BaseBlockMap v with
  | None => None
  | Some m => match m !! block with
              | Some l => Some (bl_ObjectID l, bl_ObjectOffset l, bl_SeqNum l)
              | None => None
              end
  end.

(** The first ancestor that has the block, with its index. *)
Fixpoint find_ancestor (ancs : list snapshotAncestor) (block : Z) : option (nat * BlockLookup) :=
  match ancs with
  | [] => None
  | a :: ancs' =>
      match anc_blocks a !! block with
      | Some l => Some (0%nat, l)
      | None => match find_ancestor ancs' block with
                | Some (i, l) => Some (S i, l)
                | None => None
                end
      end
  end.

(** The accumulators of the loop over the blocks of a request. *)
Record Gather := mkGather {
  ga_data : bytes;
  ga_own : list ConsecutiveBlock;
  ga_base : list ConsecutiveBlock;
  ga_anc : list (list ConsecutiveBlock);
  ga_zero : bool
}.

Definition one_block (v : VB) (block i : Z) (loc : Z * Z * Z) : ConsecutiveBlock :=
  let start := u64 (i * BlockSize v) in
  mkCB i (u64 (block + i)) 1 start (u64 (start + BlockSize v)) loc.1.1 loc.1.2 loc.2 [].

(** A block the volume itself does not have. *)
Definition gather_inherited (v : VB) (block i : Z) (g : Gather) : Gather :=
  let cur := u64 (block + i) in
  match LookupBaseBlockToObject v cur with
  | Some loc => mkGather (ga_data g) (ga_own g) (ga_base g ++ [one_block v block i loc]) (ga_anc g) (ga_zero g)
  | None =>
      match find_ancestor (ancestors v) cur with
      | Some (ai, l) =>
          let cb := one_block v block i (bl_ObjectID l, bl_ObjectOffset l, bl_SeqNum l) in
          mkGather (ga_data g) (ga_own g) (ga_base g) (alter (fun cbs => cbs ++ [cb]) ai (ga_anc g)) (ga_zero g)
      | None => mkGather (ga_data g) (ga_own g) (ga_base g) (ga_anc g) true
      end
  end.

Definition gather_memory (v : VB) (i : Z) (d : bytes) (g : Gather) : Gather :=
  let start := u64 (i * BlockSize v) in
  mkGather (copy_slice (ga_data g) start (u64 (start + BlockSize v)) d) (ga_own g) (ga_base g) (ga_anc g) (ga_zero g).

Definition gather_own (v : VB) (block i : Z) (loc : Z * Z * Z) (g : Gather) : Gather :=
  mkGather (ga_data g) (ga_own g ++ [one_block v block i loc]) (ga_base g) (ga_anc g) (ga_zero g).

(** One iteration of [readBlockStore]'s loop; [ReadEntry] counts the read. *)
Definition gather_step (block : Z) (acc : VB * Gather) (i : Z) : VB * Gather :=
  let '(v, g) := acc in
  let '(entry, u) := ReadEntry (BStore v) (u64 (block + i)) in
  let v := v <| BStore := u |> in
  match entry with
  | None => (v, gather_inherited v block i g)
  | Some e =>
      match be_State e with
      | BlockStateHot | BlockStatePending | BlockStateCached => (v, gather_memory v i (be_Data e) g)
      | BlockStatePersisted => (v, gather_own v block i (be_ObjectID e, be_ObjectOffset e, be_SeqNum e) g)
      | BlockStateEmpty => (v, gather_inherited v block i g)
      end
  end.

(** The blocks of the snapshot base and of its ancestors. *)
Definition fetch_base (g : Gather) (data : bytes) : M bytes :=
  do v <- get;
  do data <- (if decide (ga_base g = []) then ret data
              else fetchBaseBlocksFromBackend (SourceVolumeName v) (SourceVolumeUUID v)
                     (sourceVolumeNameHash v) (ga_base g) data);
  do v <- get;
  mfold (fun data (p : snapshotAncestor * list ConsecutiveBlock) =>
           if decide (p.2 = []) then ret data
           else fetchBaseBlocksFromBackend (anc_sourceVolumeName p.1) (anc_sourceVolumeUUID p.1)
                  (anc_sourceVolumeNameHash p.1) p.2 data)
        (zip (ancestors v) (ga_anc g)) data.

(** The three groups of backend reads. *)
Definition fetch_all (g : Gather) : M (bytes * bool) :=
  do data <- (if decide (ga_own g = []) then ret (ga_data g)
              else fetchConsecutiveBlocksFromBackend (ga_own g) (ga_data g));
  do data <- fetch_base g data;
  ret (data, ga_zero g).

Definition gather0 (v : VB) (blockLen : Z) : Gather :=
  mkGather (zeros blockLen) [] [] (repeat [] (length (ancestors v))) false.

(** The data and whether [ErrZeroBlock] comes with it. *)
Definition readBlockStore (block blockLen : Z) : M (bytes * bool) :=
  do v <- get;
  if negb (blockLen mod BlockSize v =? 0) then throw [ErrRequestBlockSize]
  else
    let '(v', g) := fold_left (gather_step block) (seqZ 0 (blockLen / BlockSize v)) (v, gather0 v blockLen) in
    run modify (fun _ => v');
    fetch_all g.

(** *** The legacy path *)

(** The newest buffered write of each block. *)
Definition latestWrites (l : list Block) : gmap Z Block :=
  fold_left (fun m wr => match m !! b_Block wr with
                         | Some prev => if b_SeqNum prev <? b_SeqNum wr then <[b_Block wr := wr]> m else m
                         | None => <[b_Block wr := wr]> m
                         end) l ∅.
(** The last pending write of each block. *)
Definition latestPendingWrites (l : list Block) : gmap Z Block :=
  fold_left (fun m wr => <[b_Block wr := wr]> m) l ∅.

Definition legacy_step (v : VB) (block : Z) (g : Gather) (i : Z) : Gather :=
  let cur := u64 (block + i) in
  match latestWrites (Writes v) !! cur with
  | Some wr => gather_memory v i (b_Data wr) g
  | None =>
      match latestPendingWrites (PendingBackendWrites v) !! cur with
      | Some lp => gather_memory v i (b_Data lp) g
      | None =>
          match LookupBlockToObject (blockStride v) (BlocksToObject v) cur with
          | Some loc => gather_own v block i loc g
          | None => gather_inherited v block i g
          end
      end
  end.

(** The runs of the legacy path, read from the volume's own chunks. *)
Definition legacy_fetch (cbs : list ConsecutiveBlock) (data : bytes) : M bytes :=
  do v <- get;
  mfold (fetch_run (VolumeName v) (VolumeUUID v) (volumeNameHash v))
        (coalesce_reads ∅ (EncryptionEnabled v) cbs) data.

Definition read (block blockLen : Z) : M (bytes * bool) :=
  do v <- get;
  if UseBlockStore v then readBlockStore block blockLen
  else if negb (blockLen mod BlockSize v =? 0) then throw [ErrRequestBlockSize]
  else
    let g := fold_left (legacy_step v block) (seqZ 0 (blockLen / BlockSize v)) (gather0 v blockLen) in
    do data <- legacy_fetch (ga_own g) (ga_data g);
    do data <- fetch_base g data;
    ret (data, ga_zero g).

Definition ReadAtCtx (offset length : Z) : M (bytes * bool) :=
  do v <- get;
  if GetVolumeSize v <? offset then throw [ErrRequestTooLarge]
  else if GetVolumeSize v <? u64 (offset + length) then throw [ErrRequestOutOfRange]
  else
    let blockSize := BlockSize v in
    let firstBlock := offset / blockSize in
    let lastBlock := u64 (offset + length - 1) / blockSize in
    let blockCount := u64 (lastBlock - firstBlock + 1) in
    do r <- read firstBlock (u64 (blockCount * blockSize));
    let innerOffset := offset mod blockSize in
    let hi := u64 (innerOffset + length) in
    if (hi <? innerOffset) || (blen r.1 <? hi) then throw [GoPanic] (* fullData[innerOffset:hi] *)
    else ret (slice r.1 innerOffset hi, r.2).

End reads.
