(* ===== verification/ChunkFacts.v ===== *)
(** * Consolidation: dedupe, sort, cut, seal *)

From S2P Require Import Prelude Words BlockMap BlockStore Crypto Paths Volume WAL Chunk.

(** ** Dedupe *)

(** [b] is the newest record of its block in [l]. *)
Definition newest_in (l : list Block) (b : Block) : Prop :=
  b ∈ l /\ forall b', b' ∈ l -> b_Block b' = b_Block b -> b_SeqNum b' <= b_SeqNum b.

Lemma dedup_snoc l b : dedup (l ++ [b]) = dedup_step (dedup l) b.
Proof. unfold dedup. by rewrite fold_left_app. Qed.

Lemma dedup_spec l k :
  match dedup l !! k with
  | Some b => b_Block b = k /\ newest_in l b
  | None => forall b, b ∈ l -> b_Block b <> k
  end.
Proof.
  induction l as [|x l IH] using rev_ind.
  { unfold dedup. cbn. rewrite lookup_empty. intros b Hb. inversion Hb. }
  rewrite dedup_snoc. unfold dedup_step, newest_in in *.
  destruct (decide (b_Block x = k)) as [<-|Hne].
  - destruct (dedup l !! b_Block x) as [e|] eqn:E.
    + destruct IH as (Hk & Hin & Hmax). destruct (Z.ltb_spec (b_SeqNum e) (b_SeqNum x)).
      * rewrite lookup_insert_eq. split; [done|]. split; [set_solver|].
        intros b' Hb' Hb. apply elem_of_app in Hb' as [Hb'|Hb'%list_elem_of_singleton]; [|subst; lia].
        specialize (Hmax b' Hb'). rewrite Hk in Hmax. specialize (Hmax Hb). lia.
      * rewrite E. split; [done|]. split; [set_solver|].
        intros b' Hb' Hb. apply elem_of_app in Hb' as [Hb'|Hb'%list_elem_of_singleton]; [by apply Hmax|subst; lia].
    + rewrite lookup_insert_eq. split; [done|]. split; [set_solver|].
      intros b' Hb' Hb. apply elem_of_app in Hb' as [Hb'|Hb'%list_elem_of_singleton]; [|subst; lia].
      by apply IH in Hb'.
  - assert ((match dedup l !! b_Block x with
       | Some existing => if b_SeqNum existing <? b_SeqNum x then <[b_Block x:=x]> (dedup l) else dedup l
       | None => <[b_Block x:=x]> (dedup l) end) !! k = dedup l !! k) as ->.
    { repeat case_match; by rewrite ?lookup_insert_ne. }
    destruct (dedup l !! k) as [e|].
    + destruct IH as (Hk & Hin & Hmax). split; [done|]. split; [set_solver|].
      intros b' Hb' Hb. apply elem_of_app in Hb' as [Hb'|Hb'%list_elem_of_singleton]; [by apply Hmax|subst; congruence].
    + intros b [Hb|Hb%list_elem_of_singleton]%elem_of_app; [by apply IH|subst; done].
Qed.

(** ** Sort *)

Lemma omap_total {A B} (f : A -> option B) (g : A -> B) (l : list A) :
  (forall x, x ∈ l -> f x = Some (g x)) -> omap f l = g <$> l.
Proof.
  induction l as [|x l IH]; intros H; [done|]. cbn. rewrite (H x) by (by left).
  f_equal. apply IH. intros. apply H. by right.
Qed.

Lemma sortedBlocks_blocks l :
  b_Block <$> sortedBlocks l = merge_sort Z.le (map_to_list (dedup l)).*1.
Proof.
  unfold sortedBlocks.
  rewrite (omap_total _ (fun k => default (mkBlock [] 0 0 0 0) (dedup l !! k))).
  - rewrite <-list_fmap_compose. rewrite <-(list_fmap_id (merge_sort Z.le _)) at 2.
    apply list_fmap_ext. intros i k Hk. cbn.
    assert (is_Some (dedup l !! k)) as [b Hb].
    { apply list_elem_of_lookup_2 in Hk. rewrite merge_sort_Permutation in Hk.
      apply list_elem_of_fmap in Hk as ([k' b] & -> & Hkb%elem_of_map_to_list). eauto. }
    rewrite Hb. cbn. pose proof (dedup_spec l k) as H. rewrite Hb in H. apply H.
  - intros k Hk. rewrite merge_sort_Permutation in Hk.
    apply list_elem_of_fmap in Hk as ([k' b] & -> & Hkb%elem_of_map_to_list). cbn. by rewrite Hkb.
Qed.

Lemma sortedBlocks_elem l b : b ∈ sortedBlocks l <-> dedup l !! b_Block b = Some b.
Proof.
  unfold sortedBlocks. rewrite list_elem_of_omap. split.
  - intros (k & _ & Hk). pose proof (dedup_spec l k) as H. rewrite Hk in H. destruct H as [-> _]. done.
  - intros Hb. exists (b_Block b). split; [|done]. rewrite merge_sort_Permutation.
    apply list_elem_of_fmap. exists (b_Block b, b). by rewrite elem_of_map_to_list.
Qed.

Lemma sortedBlocks_sorted l : StronglySorted Z.lt (b_Block <$> sortedBlocks l).
Proof.
  rewrite sortedBlocks_blocks.
  assert (StronglySorted Z.le (merge_sort Z.le (map_to_list (dedup l)).*1)) as Hs by (apply (StronglySorted_merge_sort _)).
  assert (NoDup (merge_sort Z.le (map_to_list (dedup l)).*1)) as Hn
    by (rewrite merge_sort_Permutation; apply NoDup_fst_map_to_list).
  revert Hs Hn. generalize (merge_sort Z.le (map_to_list (dedup l)).*1). intros ks.
  induction 1 as [|k ks Hks IH Hall]; intros Hn; constructor.
  - apply IH. by apply NoDup_cons in Hn as [_ ?].
  - apply NoDup_cons in Hn as [Hk _]. rewrite Forall_forall in *. intros x Hx. specialize (Hall x Hx).
    assert (k <> x) by (intros ->; done). lia.
Qed.

(** ** Cut *)

(** What [matchedBlocks] keeps of a record. *)
Definition mb_of (b : Block) : Block := mkBlock [] (b_SeqNum b) (b_Block b) 0 0.

(** What the map needs of a block survives the split of data and metadata. *)
Lemma mb_blocks (l : list Block) : b_Block <$> (mb_of <$> l) = b_Block <$> l.
Proof. by rewrite <-list_fmap_compose. Qed.

Lemma mb_forall (P : Z -> Z -> Prop) (l : list Block) :
  (forall x, x ∈ l -> P (b_Block x) (b_SeqNum x)) -> forall b, b ∈ mb_of <$> l -> P (b_Block b) (b_SeqNum b).
Proof. intros HP b (x & -> & Hx)%list_elem_of_fmap. exact (HP x Hx). Qed.

(** A job carries the data of its blocks, in order. *)
Definition job_of (j : bytes * list Block) (l : list Block) : Prop :=
  j.1 = List.concat (b_Data <$> l) /\ j.2 = mb_of <$> l /\ l <> [].

(** The jobs split the sorted records, in order. *)
Inductive splits : list (bytes * list Block) -> list Block -> Prop :=
| splits_nil : splits [] []
| splits_cons j jobs l ls : job_of j l -> splits jobs ls -> splits (j :: jobs) (l ++ ls).

Lemma cut_chunks_splits objSize bs l : forall pre,
  0 < bs -> Forall (fun b => blen (b_Data b) = bs) (pre ++ l) ->
  splits (cut_chunks objSize (List.concat (b_Data <$> pre)) (mb_of <$> pre) l) (pre ++ l).
Proof.
  induction l as [|b l IH]; intros pre Hbs Hf; cbn [cut_chunks].
  - rewrite app_nil_r in *. destruct pre as [|p pre].
    { cbn. constructor. }
    assert (0 < blen (List.concat (b_Data <$> p :: pre))) as Hlen.
    { apply Forall_inv in Hf. cbn in Hf. cbn. unfold blen in *. rewrite length_app. lia. }
    destruct (Z.ltb_spec 0 (blen (List.concat (b_Data <$> p :: pre)))); [|lia].
    rewrite <-(app_nil_r (p :: pre)) at 3. constructor; [|constructor]. done.
  - assert (List.concat (b_Data <$> pre) ++ b_Data b = List.concat (b_Data <$> pre ++ [b])) as ->.
    { rewrite fmap_app, concat_app. cbn. by rewrite app_nil_r. }
    assert ((mb_of <$> pre) ++ [mkBlock [] (b_SeqNum b) (b_Block b) 0 0] = mb_of <$> pre ++ [b]) as ->
      by (by rewrite fmap_app).
    replace (pre ++ b :: l) with ((pre ++ [b]) ++ l) in * by (by rewrite <-app_assoc).
    destruct (objSize <=? _).
    + constructor; [|].
      * split; [done|]. split; [done|]. by destruct pre.
      * apply (IH []); [done|]. by apply Forall_app in Hf as [_ ?].
    + by apply IH.
Qed.

Lemma chunk_jobs_splits v l :
  0 < BlockSize v -> Forall (fun b => blen (b_Data b) = BlockSize v) l ->
  splits (chunk_jobs v l) (sortedBlocks l).
Proof.
  intros Hb Hf. apply (cut_chunks_splits (ObjBlockSize v) (BlockSize v) (sortedBlocks l) []); [done|].
  rewrite app_nil_l. rewrite Forall_forall in *. intros b Hb'. apply Hf.
  apply sortedBlocks_elem in Hb'. pose proof (dedup_spec l (b_Block b)) as H. rewrite Hb' in H. apply H.
Qed.

(** Every job but the last fills a chunk; no job is larger than it needs to be. *)
Lemma cut_chunks_sizes objSize l buf mb :
  blen buf < objSize ->
  forall i j, cut_chunks objSize buf mb l !! i = Some j ->
    (S i < length (cut_chunks objSize buf mb l))%nat -> objSize <= blen j.1.
Proof.
  revert buf mb. induction l as [|b l IH]; intros buf mb Hlt i j Hi Hlen; cbn [cut_chunks] in *.
  - destruct (0 <? blen buf); cbn in *; [|done]. destruct i; cbn in *; lia.
  - destruct (Z.leb_spec objSize (blen (buf ++ b_Data b))).
    + destruct i as [|i]; cbn in Hi; [by injection Hi as <-|]. cbn in Hlen.
      assert (0 < objSize) by (unfold blen in *; lia).
      eapply (IH [] []); [done|done|lia].
    + by eapply (IH (buf ++ b_Data b)).
Qed.

(** ** Seal *)

Section seal.
Context {A : AEAD} (HA : AEADLaws A).

(** The bytes of one block of a chunk. *)
Definition slot (v : VB) (b : Block) : bytes :=
  if EncryptionEnabled v then seal_block v b (b_Data b) else b_Data b.

Definition stride_ok (v : VB) : Prop :=
  0 < BlockSize v /\ blockStride v = (if EncryptionEnabled v then BlockSize v + 16 else BlockSize v).

Lemma slot_length v b :
  stride_ok v -> blen (b_Data b) = BlockSize v -> blen (slot v b) = blockStride v.
Proof.
  intros [_ ->] Hd. unfold slot, seal_block. destruct (EncryptionEnabled v); [|done].
  rewrite seal_length, overhead_gcm. lia.
Qed.

Lemma seal_body_slots v l :
  Forall (fun b => blen (b_Data b) = BlockSize v) l ->
  seal_body v (List.concat (b_Data <$> l)) (mb_of <$> l)
    = Some (List.concat ((fun b => seal_block v b (b_Data b)) <$> l)).
Proof.
  induction 1 as [|b l Hb Hl IH]; [done|]. cbn [fmap list_fmap List.concat seal_body].
  unfold blen at 1. rewrite length_app. unfold blen in Hb.
  destruct (Z.ltb_spec (Z.of_nat (length (b_Data b) + length (List.concat (b_Data <$> l)))) (BlockSize v)); [lia|].
  rewrite drop_app_length' by lia. change (list_fmap _ _ b_Data l) with (b_Data <$> l).
  change (list_fmap _ _ mb_of l) with (mb_of <$> l). rewrite IH.
  rewrite slice_app_l by lia. done.
Qed.

(** The body of a job's chunk: one slot per block. *)
Lemma chunk_body_slots v j l :
  job_of j l -> Forall (fun b => blen (b_Data b) = BlockSize v) l ->
  chunk_body v j.1 j.2 = Some (List.concat (slot v <$> l)).
Proof.
  intros (-> & -> & _) Hf. unfold chunk_body, slot. destruct (EncryptionEnabled v); [|done].
  by apply seal_body_slots.
Qed.

(** Slot [i] of a concatenation of slots. *)
Lemma concat_slot {B} (f : B -> bytes) n l i b :
  0 < n -> Forall (fun b => blen (f b) = n) l -> l !! i = Some b ->
  slice (List.concat (f <$> l)) (Z.of_nat i * n) (Z.of_nat i * n + n) = f b.
Proof.
  intros Hn Hf. revert i. induction Hf as [|x l Hx Hf IH]; intros i Hi; [done|].
  cbn [fmap list_fmap List.concat]. unfold blen in Hx. destruct i as [|i]; cbn in Hi.
  - injection Hi as ->. rewrite Z.mul_0_l, Z.add_0_l. apply slice_app_l. done.
  - rewrite (slice_app_skip _ _ n) by lia.
    replace (Z.of_nat (S i) * n - n) with (Z.of_nat i * n) by lia.
    replace (Z.of_nat (S i) * n + n - n) with (Z.of_nat i * n + n) by lia. by apply IH.
Qed.

(** What a chunk object holds at a location: the plaintext, [None] when it does
    not authenticate or is cut off. *)
Definition stored_block (v : VB) (obj : bytes) (off seq b : Z) : option bytes :=
  let raw := slice obj off (off + blockStride v) in
  if negb (blen raw =? blockStride v) then None
  else if EncryptionEnabled v
  then Open (makeNonce seq (VolumeUUID v) DomainChunk) raw (block_aad (volumeNameHash v) b seq)
  else Some raw.

(** Each block of a chunk is stored at its slot. *)
Lemma stored_slot v l i b :
  stride_ok v -> length (ChunkMagic v) = 4%nat ->
  Forall (fun b => blen (b_Data b) = BlockSize v) l -> l !! i = Some b ->
  stored_block v (ChunkHeader v ++ List.concat (slot v <$> l))
    (ChunkHeaderSize + Z.of_nat i * blockStride v) (b_SeqNum b) (b_Block b) = Some (b_Data b).
Proof.
  intros Hst Hm Hf Hi. pose proof Hst as [Hbs Hstr].
  assert (0 < blockStride v) as Hpos by (rewrite Hstr; destruct (EncryptionEnabled v); lia).
  unfold stored_block.
  assert (Z.of_nat (length (ChunkHeader v)) = ChunkHeaderSize) as Hh.
  { unfold ChunkHeader. rewrite !length_app, !Nat2Z.inj_add, len2, len4, Hm. done. }
  rewrite (slice_app_skip _ _ ChunkHeaderSize) by (try done; lia).
  replace (ChunkHeaderSize + Z.of_nat i * blockStride v - ChunkHeaderSize) with (Z.of_nat i * blockStride v) by lia.
  replace (ChunkHeaderSize + Z.of_nat i * blockStride v + blockStride v - ChunkHeaderSize)
    with (Z.of_nat i * blockStride v + blockStride v) by lia.
  assert (Forall (fun b => blen (slot v b) = blockStride v) l) as Hfs.
  { eapply Forall_impl; [exact Hf|]. intros x Hx. by apply slot_length. }
  rewrite (concat_slot (slot v) (blockStride v) l i b) by done.
  assert (blen (b_Data b) = BlockSize v) as Hd by (rewrite Forall_forall in Hf; apply Hf; by eapply list_elem_of_lookup_2).
  rewrite slot_length, Z.eqb_refl by done. cbn [negb]. unfold slot.
  destruct (EncryptionEnabled v); [|done]. unfold seal_block. by rewrite open_seal.
Qed.
End seal.
