(* ===== verification/CommitFacts.v ===== *)
(** * Publishing a chunk

    What [commit_chunk] does to the block map and the block store when no
    writer interferes: every block of the chunk now resolves to its slot in the
    new object, in both indexes, and left memory; every other block resolves as
    before. *)

From S2P Require Import Prelude Words BlockMap Extents BlockStore BlockStoreFacts BlockStoreRace Crypto Paths Volume WAL Chunk ChunkFacts.

(** ** Runs *)

Definition consecutive (start : Z) (l : list Block) : Prop :=
  forall j b, l !! j = Some b -> b_Block b = start + Z.of_nat j.

(** The runs continue [pre] to the whole of [l], one after the other. *)
Inductive chain (l : list Block) : list Block -> list (Z * (Block * list Block)) -> Prop :=
| chain_nil : chain l l []
| chain_cons pre first more runs :
    consecutive (b_Block first) (first :: more) -> chain l (pre ++ first :: more) runs ->
    chain l pre ((Z.of_nat (length pre), (first, more)) :: runs).

Lemma chain_prefix l pre runs : chain l pre runs -> exists post, l = pre ++ post.
Proof.
  induction 1 as [|pre first more runs _ _ [post ->]]; [by exists []; rewrite app_nil_r|].
  rewrite <-app_assoc. eauto.
Qed.

Lemma consecutive_snoc start l b :
  consecutive start l -> b_Block b = start + Z.of_nat (length l) -> consecutive start (l ++ [b]).
Proof.
  intros Hc Hb j x. rewrite lookup_app. destruct (l !! j) eqn:E; [intros [= <-]; by apply Hc|].
  apply lookup_ge_None in E. intros [Hj <-]%list_lookup_singleton_Some. lia.
Qed.

Lemma consecutive_one b : consecutive (b_Block b) [b].
Proof. intros [|j] x; cbn; [intros [= <-]; lia|done]. Qed.

Lemma group_runs_chain rest : forall pre first more prev,
  last (first :: more) = Some prev -> (forall b, b ∈ (first :: more) ++ rest -> 0 <= b_Block b < 2 ^ 64 - 1) ->
  consecutive (b_Block first) (first :: more) ->
  chain (pre ++ (first :: more) ++ rest) pre
    (group_runs (Z.of_nat (length pre)) first more prev (Z.of_nat (length pre) + 1 + Z.of_nat (length more)) rest).
Proof.
  induction rest as [|b rest IH]; intros pre first more prev Hlast Hr Hc; cbn [group_runs].
  { rewrite app_nil_r. constructor; [done|constructor]. }
  assert (prev ∈ first :: more) as Hprev by (by apply last_Some_elem_of).
  pose proof (Hr prev ltac:(apply elem_of_app; by left)).
  assert (b_Block prev = b_Block first + Z.of_nat (length more)) as Hp.
  { apply Hc. rewrite last_lookup in Hlast. cbn [length] in Hlast. by rewrite Nat.pred_succ in Hlast. }
  rewrite u64_small by wsolve.
  destruct (Z.eqb_spec (b_Block b) (b_Block prev + 1)) as [Hb|Hb].
  - replace (Z.of_nat (length pre) + 1 + Z.of_nat (length more) + 1)
      with (Z.of_nat (length pre) + 1 + Z.of_nat (length (more ++ [b]))) by (rewrite length_app; cbn; lia).
    replace ((first :: more) ++ b :: rest) with ((first :: more ++ [b]) ++ rest) in * by (cbn; by rewrite <-app_assoc).
    apply IH; [by rewrite app_comm_cons, last_snoc|done|].
    rewrite app_comm_cons. apply consecutive_snoc; [done|]. cbn [length]. lia.
  - constructor; [done|].
    replace (Z.of_nat (length pre) + 1 + Z.of_nat (length more))
      with (Z.of_nat (length (pre ++ first :: more))) by (rewrite length_app; cbn; lia).
    replace (Z.of_nat (length (pre ++ first :: more)) + 1)
      with (Z.of_nat (length (pre ++ first :: more)) + 1 + Z.of_nat (length (@nil Block))) by (cbn; lia).
    replace (pre ++ (first :: more) ++ b :: rest) with ((pre ++ first :: more) ++ [b] ++ rest) by (by rewrite <-app_assoc).
    apply IH; [done| |apply consecutive_one]. intros x Hx. apply Hr. apply elem_of_app. by right.
Qed.

Lemma runs_of_chain l : (forall b, b ∈ l -> 0 <= b_Block b < 2 ^ 64 - 1) -> chain l [] (runs_of l).
Proof.
  intros Hr. destruct l as [|b l]; [constructor|].
  apply (group_runs_chain l [] b [] b); [done|done|apply consecutive_one].
Qed.

(** ** Where a chunk puts its blocks *)

Section commit.
Context (stride idx : Z).

(** The location of block [b] in a chunk whose blocks from slot [i] on are [l]. *)
Fixpoint chunk_loc (i : Z) (l : list Block) (b : Z) : option (Z * Z * Z) :=
  match l with
  | [] => None
  | x :: l' => if b_Block x =? b then Some (idx, ChunkHeaderSize + i * stride, b_SeqNum x)
               else chunk_loc (i + 1) l' b
  end.

Lemma chunk_loc_app p : forall i q b,
  chunk_loc i (p ++ q) b = match chunk_loc i p b with
                           | Some x => Some x
                           | None => chunk_loc (i + Z.of_nat (length p)) q b
                           end.
Proof.
  induction p as [|x p IH]; intros i q b; cbn -[Z.of_nat]; [by rewrite Z.add_0_r|].
  destruct (_ =? _); [done|]. rewrite IH. destruct (chunk_loc _ p b); [done|]. f_equal. lia.
Qed.

Lemma chunk_loc_None l : forall i b, chunk_loc i l b = None <-> b ∉ (b_Block <$> l).
Proof.
  induction l as [|x l IH]; intros i b; cbn; [set_solver|].
  rewrite not_elem_of_cons. destruct (Z.eqb_spec (b_Block x) b) as [->|].
  - split; [done|]. intros [? _]. done.
  - rewrite IH. intuition.
Qed.

Lemma chunk_loc_Some l : forall i b r, chunk_loc i l b = Some r ->
  exists j x, l !! j = Some x /\ b_Block x = b /\ r = (idx, ChunkHeaderSize + (i + Z.of_nat j) * stride, b_SeqNum x).
Proof.
  induction l as [|x l IH]; intros i b r; cbn; [done|]. destruct (Z.eqb_spec (b_Block x) b) as [<-|].
  - intros [= <-]. exists 0%nat, x. split; [done|]. split; [done|]. do 2 f_equal. lia.
  - intros (j & y & Hj & Hb & ->)%IH. exists (S j), y. split; [done|]. split; [done|]. do 2 f_equal. lia.
Qed.

Lemma chunk_loc_consecutive l : forall start i b, consecutive start l ->
  chunk_loc i l b =
  if (start <=? b) && (b <? start + Z.of_nat (length l))
  then Some (idx, ChunkHeaderSize + (i + (b - start)) * stride, default 0 ((b_SeqNum <$> l) !! Z.to_nat (b - start)))
  else None.
Proof.
  induction l as [|x l IH]; intros start i b Hc.
  { cbn. zcase; try lia; done. }
  pose proof (Hc 0%nat x eq_refl) as Hx. cbn [chunk_loc].
  assert (consecutive (start + 1) l) as Hc' by (intros j y Hj; rewrite (Hc (S j) y Hj); lia).
  rewrite (IH (start + 1) _ _ Hc'). cbn [length].
  destruct (Z.eqb_spec (b_Block x) b) as [Heq|Hne].
  - assert (b = start) as -> by lia. rewrite Z.sub_diag.
    destruct (Z.leb_spec start start), (Z.ltb_spec start (start + Z.of_nat (S (length l)))); try lia.
    cbn. do 2 f_equal. f_equal. lia.
  - destruct (Z.leb_spec (start + 1) b), (Z.ltb_spec b (start + 1 + Z.of_nat (length l))),
      (Z.leb_spec start b), (Z.ltb_spec b (start + Z.of_nat (S (length l)))); try lia; try done.
    cbn [andb]. replace (Z.to_nat (b - start)) with (S (Z.to_nat (b - (start + 1)))) by lia. cbn.
    do 2 f_equal. f_equal. lia.
Qed.

(** The items of a drain of sealed blocks make exactly the chunk's slots readable. *)
Lemma items_loc l : forall st i b,
  items_entry idx (ChunkHeaderSize + st * stride) stride i ((fun x => (b_Block x, b_SeqNum x, true)) <$> l) b
  = entry_of <$> chunk_loc (st + i) l b.
Proof.
  induction l as [|x l IH]; intros st i b; [done|]. cbn. rewrite (Z.eqb_sym b).
  destruct (_ =? _).
  - unfold entry_of. cbn. do 2 f_equal. lia.
  - rewrite IH. do 2 f_equal. lia.
Qed.

(** ** The two indexes *)

Context (Hstride : 0 < stride).

(** [L] was published over the map and the store. *)
Record published (m m' : gmap Z BlockLookup) (u u' : UnifiedBlockStore) (L : Z -> option (Z * Z * Z)) : Prop := {
  pu_map : map_wf stride m';
  pu_shards : shards_wf u';
  pu_exts : exts_wf stride (persistedExtents u');
  pu_lookup : forall b, LookupBlockToObject stride m' b =
    match L b with Some x => Some x | None => LookupBlockToObject stride m b end;
  pu_read : forall b, readPersisted (persistedExtents u') b =
    match L b with Some x => Some (entry_of x) | None => readPersisted (persistedExtents u) b end;
  pu_entry : forall b, get_entry u' b = match L b with Some _ => None | None => get_entry u b end
}.

Lemma published_trans m1 m2 m3 u1 u2 u3 L1 L2 L :
  published m1 m2 u1 u2 L1 -> published m2 m3 u2 u3 L2 ->
  (forall b, L b = match L1 b with Some x => Some x | None => L2 b end) ->
  (forall b x, L1 b = Some x -> L2 b = None) ->
  published m1 m3 u1 u3 L.
Proof.
  intros [] [] HL Hd. constructor; try done; intros b; rewrite HL.
  - rewrite pu_lookup1, pu_lookup0. specialize (Hd b). destruct (L1 b), (L2 b); try done. by discriminate (Hd _ eq_refl).
  - rewrite pu_read1, pu_read0. specialize (Hd b). destruct (L1 b), (L2 b); try done. by discriminate (Hd _ eq_refl).
  - rewrite pu_entry1, pu_entry0. destruct (L1 b), (L2 b); done.
Qed.

(** The part of the chunk a run is about. *)
Record run_fits (st : Z) (run_ : list Block) : Prop := {
  rf_st : 0 <= st;
  rf_range : forall b, b ∈ run_ -> 0 <= b_Block b < 2 ^ 64 - 1;
  rf_len : Z.of_nat (length run_) <= MaxUint16;
  rf_bytes : ChunkHeaderSize + (st + Z.of_nat (length run_)) * stride < 2 ^ 32
}.

Section one_run.
Context (st : Z) (first : Block) (more : list Block) (Hf : run_fits st (first :: more))
  (Hc : consecutive (b_Block first) (first :: more)).

Abbreviation blocks_ := (first :: more).
Abbreviation new := (run_lookup idx ChunkHeaderSize stride st first more).

Lemma run_offset : bl_ObjectOffset new = ChunkHeaderSize + st * stride.
Proof.
  destruct Hf. cbn. cbn [length] in *. apply SafeIntToUint32_small. unfold ChunkHeaderSize in *. unfold_widths. nia.
Qed.

Lemma run_num : bl_NumBlocks new = Z.of_nat (length blocks_).
Proof. destruct Hf. cbn -[Z.of_nat]. rewrite length_fmap. cbn [length] in *. apply SafeIntToUint16_small. wsolve. Qed.

Lemma run_end : b_Block first + Z.of_nat (length blocks_) < 2 ^ 64.
Proof.
  destruct (lookup_lt_is_Some_2 blocks_ (length more) ltac:(cbn; lia)) as [b Hb].
  pose proof (Hc _ _ Hb). pose proof (rf_range _ _ Hf b ltac:(by eapply list_elem_of_lookup_2)). cbn [length]. lia.
Qed.

Lemma run_wf : bl_wf stride new.
Proof.
  pose proof run_offset as Ho. pose proof run_num as Hn. pose proof run_end as He. destruct Hf as [H1 H2 H3 H4].
  pose proof (H2 first ltac:(by left)). cbn [length] in *.
  constructor; rewrite ?Ho, ?Hn; cbn [run_lookup bl_StartBlock bl_SeqNums bl_SeqNum]; try lia.
  - unfold ChunkHeaderSize. nia.
  - left. by rewrite length_fmap.
  - done.
Qed.

Lemma run_loc b :
  (if (bl_StartBlock new <=? b) && (b <? bl_StartBlock new + bl_NumBlocks new)
   then Some (bl_ObjectID new, bl_ObjectOffset new + (b - bl_StartBlock new) * stride,
              seqNumAt new (b - bl_StartBlock new)) else None) = chunk_loc st blocks_ b.
Proof.
  rewrite (chunk_loc_consecutive _ _ _ _ Hc), run_num, run_offset. cbn [run_lookup bl_StartBlock bl_ObjectID].
  destruct (Z.leb_spec (b_Block first) b), (Z.ltb_spec b (b_Block first + Z.of_nat (length blocks_))); try done.
  cbn [andb]. f_equal. f_equal; [f_equal; lia|]. unfold seqNumAt. cbn [run_lookup bl_SeqNums].
  rewrite length_fmap. destruct (Z.leb_spec 0 (b - b_Block first)), (Z.ltb_spec (b - b_Block first) (Z.of_nat (length blocks_))); try lia.
  done.
Qed.

Lemma run_blocks :
  (fun i => u64 (b_Block first + i)) <$> seqZ 0 (Z.of_nat (length blocks_)) = b_Block <$> blocks_.
Proof.
  apply list_eq. intros j. rewrite !list_lookup_fmap. destruct (blocks_ !! j) as [b|] eqn:E.
  - pose proof (lookup_lt_Some _ _ _ E). rewrite lookup_seqZ_lt by lia. cbn.
    rewrite (Hc j b E), Z.add_0_l. f_equal. apply u64_small.
    pose proof (rf_range _ _ Hf b ltac:(by eapply list_elem_of_lookup_2)). pose proof (Hc j b E).
    pose proof (rf_range _ _ Hf first ltac:(by left)). wsolve.
  - apply lookup_ge_None in E. rewrite lookup_seqZ_ge by lia. done.
Qed.

Lemma run_args : drain_args_ok stride (ChunkHeaderSize + st * stride) (zip (b_Block <$> blocks_) (b_SeqNum <$> blocks_)).
Proof.
  destruct Hf as [H1 H2 H3 H4]. split; [|split; [|split; [|split]]].
  - rewrite fst_zip by (rewrite !length_fmap; lia). apply NoDup_alt. intros i j x.
    rewrite !list_lookup_fmap. destruct (blocks_ !! i) as [bi|] eqn:Ei, (blocks_ !! j) as [bj|] eqn:Ej; cbn; try done.
    intros [= <-] [= Hx]. rewrite (Hc i bi Ei), (Hc j bj Ej) in Hx. lia.
  - intros [b s] Hin. cbn. apply elem_of_zip_l in Hin. apply list_elem_of_fmap in Hin as (x & -> & Hx). by apply H2.
  - unfold ChunkHeaderSize. nia.
  - rewrite length_zip_with, !length_fmap, Nat.min_id. unfold ChunkHeaderSize in *. nia.
  - done.
Qed.

Context (m : gmap Z BlockLookup) (u : UnifiedBlockStore) (Hm : map_wf stride m)
  (Hs : shards_wf u) (He : exts_wf stride (persistedExtents u))
  (Hseal : forall x, x ∈ blocks_ -> is_sealed u (b_Block x) (b_SeqNum x) = true).

(** The calls [accept_run] makes. *)
Abbreviation marked := (MarkPersistedRange ((fun i => u64 (bl_StartBlock new + i)) <$> seqZ 0 (Z.of_nat (length (bl_SeqNums new))))
  (bl_ObjectID new) (bl_ObjectOffset new) stride (bl_SeqNums new) u).2.

Lemma run_published rc :
  published m (insertCoalescedLocked new stride (m, rc)).1 u marked (chunk_loc st blocks_).
Proof.
  destruct (insert_over_resolves stride new m rc (map_to_list m).*1 Hstride run_wf Hm) as [W L].
  { intros j [e Hj]. apply list_elem_of_fmap. exists (j, e). by rewrite elem_of_map_to_list. }
  rewrite run_offset. cbn [run_lookup bl_StartBlock bl_SeqNums bl_ObjectID]. rewrite length_fmap, run_blocks.
  destruct (mark_range_parts stride Hstride u (b_Block <$> blocks_) idx (ChunkHeaderSize + st * stride) (b_SeqNum <$> blocks_))
    as (W' & X & _ & G & R); [done|done|by rewrite !length_fmap|exact run_args|].
  assert (range_pass1 u (b_Block <$> blocks_) (b_SeqNum <$> blocks_) = (fun x => (b_Block x, b_SeqNum x, true)) <$> blocks_) as E.
  { unfold range_pass1. rewrite zip_with_fmap_l, zip_with_fmap_r, zip_with_diag. apply list_fmap_ext.
    intros i x Hx. rewrite Hseal by (by eapply list_elem_of_lookup_2). done. }
  constructor; try done.
  - intros b. unfold insertCoalescedLocked. cbn [fst]. rewrite L, <-run_loc. by destruct (_ && _).
  - intros b. rewrite R, E, items_loc, Z.add_0_r. by destruct (chunk_loc st blocks_ b).
  - intros b. rewrite G, E, items_loc, Z.add_0_r. by destruct (chunk_loc st blocks_ b).
Qed.
End one_run.
End commit.

(** ** The volume *)

(** The three fields a commit changes. *)
Definition upd_map (m : gmap Z BlockLookup) (g : gmap Z Z) (u : UnifiedBlockStore) (v : VB) : VB :=
  v <| BlocksToObject := m |> <| gcRefcount := g |> <| BStore := u |>.

Lemma upd_map_id v : upd_map (BlocksToObject v) (gcRefcount v) (BStore v) v = v.
Proof. by destruct v. Qed.

(** The reference counts, which only a volume with GC keeps. *)
Definition refs_ok (v : VB) : Prop := GCEnabled v = true -> rc_exact (gcRefcount v) (BlocksToObject v).

(** Every location in the map is older than [f] in an object below [n0], or
    newer than [n0] and not among the blocks [T] still to come. *)
Definition older (stride n0 f : Z) (T : list Z) (m : gmap Z BlockLookup) : Prop :=
  forall b l, LookupBlockToObject stride m b = Some l -> (l.1.1 < n0 /\ l.2 <= f) \/ (n0 <= l.1.1 /\ b ∉ T).

(** The extent the stale-drain guard looks at is one of the old ones. *)
Lemma older_guard stride n0 f T m b old pos :
  0 < stride -> map_wf stride m -> older stride n0 f T m -> b ∈ T ->
  resolveBlockLookup m b = Some (old, pos) -> bl_SeqNum old <= f.
Proof.
  intros Hst Hm Ho HT Hr. apply (resolve_spec stride Hst) in Hr as (Hk & Hc & ->); [|done].
  assert (LookupBlockToObject stride m b = Some (loc_at stride old (b - bl_StartBlock old))) as Hb
    by (apply lookup_locates; [done..|]; by exists (bl_StartBlock old), old).
  assert (covers old (bl_StartBlock old)) as Hc0 by (destruct (mw_wf _ _ Hm _ _ Hk); unfold covers; lia).
  assert (LookupBlockToObject stride m (bl_StartBlock old) = Some (loc_at stride old 0)) as H0.
  { apply lookup_locates; [done..|]. exists (bl_StartBlock old), old. by rewrite Z.sub_diag. }
  apply Ho in Hb as [[Hid _]|[_ ?]]; [|done]. cbn in Hid.
  apply Ho in H0 as [[_ Hle]|[Hid' _]]; [|cbn in Hid'; lia].
  rewrite (blw_seq _ _ (mw_wf _ _ Hm _ _ Hk)). exact Hle.
Qed.

Section chunk.
Context (v : VB) (idx n0 f : Z) (l : list Block) (T : list Z).
Abbreviation stride := (blockStride v).
Context (Hst : 0 < stride) (Hu : UseBlockStore v = true) (Hm : map_wf stride (BlocksToObject v))
  (Hs : shards_wf (BStore v)) (He : exts_wf stride (persistedExtents (BStore v)))
  (Hold : older stride n0 f T (BlocksToObject v)) (Hn0 : n0 <= idx)
  (Hl : forall b, b ∈ l -> 0 <= b_Block b < 2 ^ 64 - 1) (Hnd : NoDup (b_Block <$> l))
  (HT : forall b, b ∈ l -> b_Block b ∈ T) (Hnew : forall b, b ∈ l -> f < b_SeqNum b)
  (Hlen : Z.of_nat (length l) <= MaxUint16) (Hfit : ChunkHeaderSize + Z.of_nat (length l) * stride < 2 ^ 32)
  (Hseal : forall b, b ∈ l -> is_sealed (BStore v) (b_Block b) (b_SeqNum b) = true).

Definition upto_run (pre : list Block) (v' : VB) : Prop :=
  exists m g u, v' = upd_map m g u v /\
    published stride (BlocksToObject v) m (BStore v) u (chunk_loc stride idx 0 pre) /\
    (refs_ok v -> refs_ok v').

Lemma upto_nil : upto_run [] v.
Proof.
  exists (BlocksToObject v), (gcRefcount v), (BStore v). split; [by rewrite upd_map_id|]. split; [by constructor|done].
Qed.

Lemma accept_eq w st first more :
  UseBlockStore w = true ->
  let new := run_lookup idx ChunkHeaderSize (blockStride w) st first more in
  exists g, accept_run new w = upd_map (insertCoalescedLocked new (blockStride w) (BlocksToObject w, refcounts w)).1 g
    (MarkPersistedRange ((fun i => u64 (bl_StartBlock new + i)) <$> seqZ 0 (Z.of_nat (length (bl_SeqNums new))))
       (bl_ObjectID new) (bl_ObjectOffset new) (blockStride w) (bl_SeqNums new) (BStore w)).2 w /\
    g = default (gcRefcount w) (insertCoalescedLocked new (blockStride w) (BlocksToObject w, refcounts w)).2.
Proof.
  intros Hw. cbv zeta. unfold accept_run. destruct (insertCoalescedLocked _ _ _) as [m rc].
  exists (default (gcRefcount w) rc). split; [|done]. cbv beta iota zeta.
  match goal with |- context [UseBlockStore ?x] => change (UseBlockStore x) with (UseBlockStore w) end.
  by rewrite Hw.
Qed.

(** An accepted run keeps the counts exact. *)
Lemma accept_refs w m g new :
  bl_wf stride new -> map_wf stride m -> GCEnabled w = GCEnabled v -> gcRefcount w = g ->
  (GCEnabled v = true -> rc_exact g m) ->
  GCEnabled v = true -> rc_exact (default g (insertCoalescedLocked new stride (m, refcounts w)).2)
    (insertCoalescedLocked new stride (m, refcounts w)).1.
Proof.
  intros Hn Hmw Eg Er Hx Hgc. unfold refcounts. rewrite Eg, Hgc, Er. unfold insertCoalescedLocked. cbn [fst].
  destruct (insert_over_refs stride new m g (map_to_list m).*1 Hst Hn Hmw) as (g' & -> & Hx').
  - intros j [e Hj]. apply list_elem_of_fmap. exists (j, e). by rewrite elem_of_map_to_list.
  - by apply Hx.
  - exact Hx'.
Qed.

(** The map has the blocks of [pre] in the new chunk, and the rest where it was. *)
Definition relocated (pre : list Block) (m : gmap Z BlockLookup) : Prop :=
  map_wf stride m /\ forall b, LookupBlockToObject stride m b =
    match chunk_loc stride idx 0 pre b with Some x => Some x | None => LookupBlockToObject stride (BlocksToObject v) b end.

Section next_run.
Context (pre : list Block) (first : Block) (more post : list Block)
  (Hl' : l = pre ++ (first :: more) ++ post) (Hc : consecutive (b_Block first) (first :: more)).
Abbreviation new := (run_lookup idx ChunkHeaderSize stride (Z.of_nat (length pre)) first more).

Lemma next_in b : b ∈ first :: more -> b ∈ l.
Proof. intros Hb. rewrite Hl', !elem_of_app. auto. Qed.

Lemma next_fresh b : b ∈ first :: more -> chunk_loc stride idx 0 pre (b_Block b) = None.
Proof.
  intros Hb. rewrite chunk_loc_None. intros Hin'. rewrite Hl', !fmap_app in Hnd.
  apply NoDup_app in Hnd as (_ & Hd & _). apply (Hd _ Hin'). rewrite elem_of_app. left.
  apply list_elem_of_fmap. eauto.
Qed.

Lemma next_fits : run_fits stride (Z.of_nat (length pre)) (first :: more).
Proof.
  pose proof next_in as Hin. assert (length l = length pre + length (first :: more) + length post)%nat as Hll by (rewrite Hl', !length_app; lia).
  constructor; [lia|auto|lia|]. nia.
Qed.

(** The stale-drain guard lets the run through. *)
Lemma commit_accepts m g u : relocated pre m ->
  exists g', commit_run idx (upd_map m g u v) (Z.of_nat (length pre), (first, more)) =
    upd_map (insertCoalescedLocked new stride (m, refcounts (upd_map m g u v))).1 g'
    (MarkPersistedRange ((fun i => u64 (b_Block first + i)) <$> seqZ 0 (Z.of_nat (length (b_SeqNum <$> first :: more))))
       idx (bl_ObjectOffset new) stride (b_SeqNum <$> first :: more) u).2 v /\
    g' = default g (insertCoalescedLocked new stride (m, refcounts (upd_map m g u v))).2.
Proof.
  intros [Hm' Hlk]. pose proof next_in as Hin. pose proof next_fresh as Hfresh.
  destruct (accept_eq (upd_map m g u v) (Z.of_nat (length pre)) first more Hu) as (g' & E & Eg).
  exists g'. split; [|exact Eg]. cbn [commit_run]. change (blockStride (upd_map m g u v)) with stride in *.
  change (BlocksToObject (upd_map m g u v)) with m in *.
  destruct (resolveBlockLookup m (b_Block first)) as [[old pos]|] eqn:Er; [|exact E].
  assert (bl_SeqNum old <= f) as Hle.
  { apply (older_guard stride n0 f [b_Block first] m (b_Block first) old pos); [done|done| |by left|done].
    intros b x. rewrite Hlk. destruct (chunk_loc stride idx 0 pre b) as [y|] eqn:Ec.
    - intros [= <-]. right. pose proof Ec as (j & z & _ & _ & ->)%chunk_loc_Some. split; [exact Hn0|].
      rewrite list_elem_of_singleton. intros ->. by rewrite Hfresh in Ec by (by left).
    - intros Hx. destruct (Hold b x Hx) as [?|[? Hni]]; [by left|right]. split; [done|].
      rewrite list_elem_of_singleton. intros ->. apply Hni, HT, Hin. by left. }
  pose proof (Hnew first ltac:(apply Hin; by left)). cbn [run_lookup bl_SeqNum].
  destruct (Z.leb_spec (b_SeqNum first) (bl_SeqNum old)); [lia|]. exact E.
Qed.
End next_run.

Lemma commit_run_step pre first more post v' :
  l = pre ++ (first :: more) ++ post -> consecutive (b_Block first) (first :: more) -> upto_run pre v' ->
  upto_run (pre ++ first :: more) (commit_run idx v' (Z.of_nat (length pre), (first, more))).
Proof.
  intros Hl' Hc (m & g & u & -> & Hp & Hrf). pose proof (next_fits pre first more post Hl') as Hf.
  pose proof (next_fresh pre first more post Hl') as Hfresh.
  destruct (commit_accepts pre first more post Hl' m g u) as (g' & Eq & Eg'); [split; apply Hp|].
  rewrite Eq. eexists _, _, _. split; [reflexivity|]. split.
  2: { intros H0 Hgc. rewrite Eg'. apply (accept_refs (upd_map m g u v) m g); try done; [by eapply run_wf|apply Hp|].
       intros _. apply (Hrf H0 Hgc). }
  eapply published_trans; [exact Hp| | |].
  - apply (run_published stride idx Hst (Z.of_nat (length pre)) first more Hf Hc m u); [apply Hp..|].
    intros x Hx. unfold is_sealed. rewrite (pu_entry _ _ _ _ _ _ Hp), Hfresh by done. by apply Hseal, (next_in pre first more post Hl').
  - intros b. by rewrite chunk_loc_app.
  - intros b x Hx. rewrite chunk_loc_None. intros (y & -> & Hy)%list_elem_of_fmap. by rewrite Hfresh in Hx.
Qed.

Lemma commit_runs pre runs : chain l pre runs -> forall v', upto_run pre v' ->
  upto_run l (fold_left (commit_run idx) runs v').
Proof.
  induction 1 as [|pre first more runs Hc Hch IH]; intros v' Hup; [done|]. cbn [fold_left]. apply IH.
  apply chain_prefix in Hch as [post Hpost]. eapply (commit_run_step pre first more post); [by rewrite Hpost, <-app_assoc|done..].
Qed.
End chunk.

(** The whole effect of a commit. *)
Lemma commit_publishes v idx n0 f l T :
  0 < blockStride v -> UseBlockStore v = true -> map_wf (blockStride v) (BlocksToObject v) ->
  shards_wf (BStore v) -> exts_wf (blockStride v) (persistedExtents (BStore v)) ->
  older (blockStride v) n0 f T (BlocksToObject v) -> n0 <= idx ->
  (forall b, b ∈ l -> 0 <= b_Block b < 2 ^ 64 - 1) -> NoDup (b_Block <$> l) ->
  (forall b, b ∈ l -> b_Block b ∈ T) -> (forall b, b ∈ l -> f < b_SeqNum b) ->
  Z.of_nat (length l) <= MaxUint16 -> ChunkHeaderSize + Z.of_nat (length l) * blockStride v < 2 ^ 32 ->
  (forall b, b ∈ l -> is_sealed (BStore v) (b_Block b) (b_SeqNum b) = true) ->
  exists m g u, commit_chunk idx l v = (upd_map m g u (release_pending l v)) <| bto_dirty := true |> /\
    published (blockStride v) (BlocksToObject v) m (BStore v) u (chunk_loc (blockStride v) idx 0 l) /\
    (refs_ok v -> GCEnabled v = true -> rc_exact g m).
Proof.
  intros. unfold commit_chunk.
  destruct (commit_runs (release_pending l v) idx n0 f l T) with (pre := @nil Block) (runs := runs_of l) (v' := release_pending l v)
    as (m & g & u & -> & Hp & Hr); try done; [by apply runs_of_chain|apply upto_nil; done|].
  exists m, g, u. done.
Qed.
