(* ===== verification/Blocks.v ===== *)
(** * Buffers of whole blocks, and merged reads

    A request's buffer as a list of blocks; how [copy] into it, the merging of
    adjacent reads and the decoding of a run act on that list. *)

From S2P Require Import Prelude Words BlockMap BlockStore Crypto Paths Volume WAL Chunk ChunkFacts Read.

(** ** Buffers *)

Definition blocks_of (bs : Z) (L : list bytes) : Prop := Forall (fun d => blen d = bs) L.

Section buffer.
Context (bs : Z) (Hbs : 0 < bs).

Lemma length_concat_blocks L : blocks_of bs L -> blen (List.concat L) = Z.of_nat (length L) * bs.
Proof.
  unfold blen. induction 1 as [|d L Hd _ IH]; [done|]. unfold blen in Hd.
  cbn [List.concat]. rewrite length_app. cbn [length]. lia.
Qed.

Lemma take_concat_blocks L k :
  blocks_of bs L -> take (Z.to_nat (Z.of_nat k * bs)) (List.concat L) = List.concat (take k L).
Proof.
  intros HL. revert k. induction HL as [|d L Hd HL IH]; intros k; [cbn [List.concat]; by rewrite !take_nil|].
  unfold blen in Hd. destruct k as [|k]; [done|]. cbn [List.concat take].
  rewrite take_app. rewrite take_ge by nia. f_equal.
  rewrite <-IH. f_equal. nia.
Qed.

Lemma drop_concat_blocks L k :
  blocks_of bs L -> drop (Z.to_nat (Z.of_nat k * bs)) (List.concat L) = List.concat (drop k L).
Proof.
  intros HL. revert k. induction HL as [|d L Hd HL IH]; intros k; [cbn [List.concat]; by rewrite !drop_nil|].
  unfold blen in Hd. destruct k as [|k]; [done|]. cbn [List.concat drop].
  rewrite drop_app. rewrite drop_ge by nia. cbn [app].
  rewrite <-IH. f_equal. nia.
Qed.

Lemma zeros_blocks n :
  0 <= n -> zeros (n * bs) = List.concat (replicate (Z.to_nat n) (zeros bs)).
Proof.
  intros Hn. unfold zeros. rewrite Z2Nat.inj_mul by lia. generalize (Z.to_nat n). intros k.
  induction k as [|k IH]; [done|]. cbn [Nat.mul replicate List.concat]. by rewrite replicate_add, IH.
Qed.

(** Byte [k] of a concatenation of blocks. *)
Lemma concat_blocks_lookup L k :
  blocks_of bs L -> 0 <= k < Z.of_nat (length L) * bs ->
  List.concat L !! Z.to_nat k = L !! Z.to_nat (k / bs) ≫= fun d => d !! Z.to_nat (k mod bs).
Proof.
  intros HL. revert k. induction HL as [|d L Hd HL IH]; intros k Hk; [cbn in Hk; lia|].
  unfold blen in Hd. cbn [List.concat length] in *. destruct (decide (k < bs)).
  - rewrite lookup_app_l by lia. rewrite Z.div_small, Z.mod_small by lia. done.
  - rewrite lookup_app_r by lia.
    assert (k / bs = (k - bs) / bs + 1) as Hq.
    { replace k with (k - bs + 1 * bs) at 1 by ring. rewrite Z.div_add by lia. done. }
    assert (k mod bs = (k - bs) mod bs) as Hr.
    { replace k with (k - bs + 1 * bs) at 1 by ring. by rewrite Z.mod_add by lia. }
    assert (0 <= (k - bs) / bs) by (apply Z.div_pos; lia).
    rewrite Hq, Hr. rewrite Z2Nat.inj_add by lia. rewrite Nat.add_comm. cbn [Nat.add Z.to_nat Pos.to_nat].
    change (Z.to_nat 1) with 1%nat. cbn [Nat.add lookup list_lookup].
    replace (Z.to_nat k - length d)%nat with (Z.to_nat (k - bs)) by lia. apply IH. nia.
Qed.

(** Copying a slice of the right length. *)
Lemma copy_slice_eq (dst src : bytes) lo hi :
  0 <= lo <= hi -> hi <= blen dst -> blen src = hi - lo ->
  copy_slice dst lo hi src = take (Z.to_nat lo) dst ++ src ++ drop (Z.to_nat hi) dst.
Proof.
  intros Hlo Hhi Hs. unfold copy_slice, copy_at, blen in *. rewrite (take_ge src) by lia.
  do 3 f_equal. lia.
Qed.

Lemma copy_slice_length (dst src : bytes) lo hi :
  0 <= lo <= hi -> hi <= blen dst -> blen src = hi - lo -> blen (copy_slice dst lo hi src) = blen dst.
Proof.
  intros Hlo Hhi Hs. rewrite copy_slice_eq by done. unfold blen in *. rewrite !length_app, length_take, length_drop. lia.
Qed.

Lemma copy_slice_lookup (dst src : bytes) lo hi i :
  0 <= lo <= hi -> hi <= blen dst -> blen src = hi - lo -> 0 <= i ->
  copy_slice dst lo hi src !! Z.to_nat i =
  if decide (lo <= i < hi) then src !! Z.to_nat (i - lo) else dst !! Z.to_nat i.
Proof.
  intros Hlo Hhi Hs Hi. rewrite copy_slice_eq by done. unfold blen in *.
  assert (length (take (Z.to_nat lo) dst) = Z.to_nat lo) as Hl by (rewrite length_take; lia).
  destruct (decide (lo <= i < hi)).
  - rewrite lookup_app_r by lia. rewrite lookup_app_l by lia. f_equal. lia.
  - destruct (decide (i < lo)).
    + rewrite lookup_app_l by lia. apply lookup_take_lt. lia.
    + rewrite lookup_app_r by lia. rewrite lookup_app_r by lia. rewrite lookup_drop. f_equal. lia.
Qed.

(** Copying whole blocks at a block boundary. *)
Lemma copy_blocks L D p :
  blocks_of bs L -> blocks_of bs D -> (p + length D <= length L)%nat ->
  copy_slice (List.concat L) (Z.of_nat p * bs) (Z.of_nat (p + length D) * bs) (List.concat D)
  = List.concat (take p L ++ D ++ drop (p + length D) L).
Proof.
  intros HL HD Hlen. unfold copy_slice, copy_at.
  pose proof (length_concat_blocks D HD) as Hl. unfold blen in Hl.
  rewrite take_concat_blocks by done.
  assert (Z.of_nat (p + length D) * bs = Z.of_nat p * bs + Z.of_nat (length D) * bs) as Hmul
    by (rewrite Nat2Z.inj_add; ring).
  assert (0 <= Z.of_nat p * bs) by nia.
  rewrite (take_ge (List.concat D)) by lia.
  replace (Z.to_nat (Z.of_nat p * bs) + length (List.concat D))%nat with (Z.to_nat (Z.of_nat (p + length D) * bs)) by lia.
  rewrite drop_concat_blocks by done. by rewrite !concat_app.
Qed.

Lemma copy_blocks_ok L D p :
  blocks_of bs L -> blocks_of bs D -> (p + length D <= length L)%nat ->
  blocks_of bs (take p L ++ D ++ drop (p + length D) L) /\
  length (take p L ++ D ++ drop (p + length D) L) = length L.
Proof.
  intros HL HD Hlen. split.
  - apply Forall_app. split; [by apply Forall_take|]. apply Forall_app. split; [done|by apply Forall_drop].
  - rewrite !length_app, length_take, length_drop. lia.
Qed.

(** Which block is where afterwards. *)
Lemma copy_blocks_lookup (L D : list bytes) p i :
  (p + length D <= length L)%nat ->
  (take p L ++ D ++ drop (p + length D) L) !! i =
  if decide (p <= i < p + length D)%nat then D !! (i - p)%nat else L !! i.
Proof.
  intros Hlen. destruct (decide (p <= i < p + length D)%nat) as [Hi|Hi].
  - rewrite lookup_app_r by (rewrite length_take; lia). rewrite length_take, Nat.min_l by lia.
    by rewrite lookup_app_l by lia.
  - destruct (decide (i < p)%nat).
    + rewrite lookup_app_l by (rewrite length_take; lia). by rewrite lookup_take_lt by lia.
    + rewrite lookup_app_r by (rewrite length_take; lia). rewrite length_take, Nat.min_l by lia.
      rewrite lookup_app_r by lia. rewrite lookup_drop. f_equal. lia.
Qed.
End buffer.

(** ** Merged reads *)

Lemma run_length_le prev l : (run_length prev l <= length l)%nat.
Proof. revert prev. induction l as [|cb l IH]; intros prev; cbn; [lia|]. destruct (_ && _); [specialize (IH cb)|]; lia. Qed.

Lemma run_length_chain l : forall prev j cb,
  (forall x, x ∈ prev :: l -> 0 <= cb_StartBlock x < 2 ^ 64 - 1) ->
  take (run_length prev l) l !! j = Some cb ->
  cb_StartBlock cb = cb_StartBlock prev + 1 + Z.of_nat j /\ cb_ObjectID cb = cb_ObjectID prev.
Proof.
  induction l as [|x l IH]; intros prev j cb Hr; [done|]. cbn [run_length].
  destruct (_ && _) eqn:E; [|done]. apply andb_true_iff in E as [E1%Z.eqb_eq E2%Z.eqb_eq].
  pose proof (Hr prev ltac:(by left)). rewrite u64_small in E1 by wsolve.
  cbn [take]. destruct j as [|j]; cbn.
  - intros [= <-]. lia.
  - intros Hj. apply IH in Hj as [Hs Ho]; [|intros; apply Hr; by right]. lia.
Qed.

(** Every merged read comes from a stretch of the list. *)
Lemma coalesce_sound enc l : forall read r,
  r ∈ coalesce_reads read enc l ->
  exists pre cb post, l = pre ++ cb :: post /\ r = merge_run enc cb (take (run_length cb post) post).
Proof.
  induction l as [|x l IH]; intros read r; cbn [coalesce_reads]; [intros H; inversion H|].
  destruct (decide _).
  - intros (pre & cb & post & -> & ->)%IH. by exists (x :: pre), cb, post.
  - intros [-> |Hr]%elem_of_cons.
    + by exists [], x, l.
    + apply IH in Hr as (pre & cb & post & -> & ->). by exists (x :: pre), cb, post.
Qed.

(** Every block is part of some merged read. *)
Lemma coalesce_cover enc l : forall read cb,
  NoDup (cb_StartBlock <$> l) -> cb ∈ l -> cb_StartBlock cb ∈ read \/
  exists pre cb0 post, l = pre ++ cb0 :: post /\ cb ∈ cb0 :: take (run_length cb0 post) post /\
    merge_run enc cb0 (take (run_length cb0 post) post) ∈ coalesce_reads read enc l.
Proof.
  induction l as [|x l IH]; intros read cb Hnd Hin; [inversion Hin|]. cbn [coalesce_reads].
  cbn [fmap list_fmap] in Hnd. apply NoDup_cons in Hnd as [Hx Hnd].
  apply elem_of_cons in Hin as [-> |Hin].
  - destruct (decide _); [by left|]. right. exists [], x, l. split; [done|]. split; by left.
  - destruct (decide _).
    + destruct (IH read cb Hnd Hin) as [?|(pre & cb0 & post & -> & ? & ?)]; [by left|].
      right. by exists (x :: pre), cb0, post.
    + set (group := take (run_length x l) l).
      destruct (IH (read ∪ list_to_set (cb_StartBlock <$> group)) cb Hnd Hin) as [Hr|(pre & cb0 & post & -> & ? & ?)].
      * apply elem_of_union in Hr as [?|Hg%elem_of_list_to_set]; [by left|].
        right. exists [], x, l. split; [done|]. split; [|by left]. right.
        apply list_elem_of_fmap in Hg as (cb' & Heq & Hg).
        assert (cb' ∈ l) as Hin' by (apply elem_of_take in Hg as (i0 & Hi0 & _); by eapply list_elem_of_lookup_2).
        assert (cb = cb') as -> ; [|done].
        apply list_elem_of_lookup in Hin as [i Hi], Hin' as [j Hj].
        assert (i = j) as ->; [|congruence].
        eapply (NoDup_lookup _ _ _ (cb_StartBlock cb) Hnd); rewrite list_lookup_fmap, ?Hi, ?Hj; cbn; congruence.
      * right. exists (x :: pre), cb0, post. split; [done|]. split; [done|]. by right.
Qed.

(** ** Decoding a run *)

(** An element whose key occurs once splits a list in one way. *)
Lemma split_at_key {X K} (key : X -> K) l : forall p1 x1 q1 p2 x2 q2,
  NoDup (key <$> l) -> l = p1 ++ x1 :: q1 -> l = p2 ++ x2 :: q2 -> key x1 = key x2 -> x1 = x2 /\ q1 = q2.
Proof.
  induction l as [|x l IH]; intros p1 x1 q1 p2 x2 q2 Hnd H1 H2 Hk; [by destruct p1|].
  cbn in Hnd. apply NoDup_cons in Hnd as [Hx Hnd].
  assert (forall p y q, l = p ++ y :: q -> key y <> key x) as Hno.
  { intros p y q -> Heq. apply Hx. rewrite <-Heq. apply list_elem_of_fmap. exists y. split; [done|].
    apply elem_of_app. right. by left. }
  destruct p1 as [|y1 p1], p2 as [|y2 p2]; cbn in H1, H2; injection H1 as -> H1; injection H2 as -> H2.
  - by subst.
  - by destruct (Hno _ _ _ H2).
  - by destruct (Hno _ _ _ H1).
  - by eapply (IH p1 x1 q1 p2 x2 q2).
Qed.

Lemma slice_split {A} (l : list A) a b c :
  0 <= a <= b -> b <= c -> slice l a c = slice l a b ++ slice l b c.
Proof.
  intros ? ?. unfold slice.
  replace (Z.to_nat b) with (Z.to_nat a + Z.to_nat (b - a))%nat by lia. rewrite <-drop_drop.
  replace (Z.to_nat (c - a)) with (Z.to_nat (b - a) + Z.to_nat (c - b))%nat by lia.
  by rewrite <-take_take_drop.
Qed.

Lemma slice_short_nil {A} (l : list A) a n :
  0 <= a -> 0 < n -> Z.of_nat (length (slice l a (a + n))) = n -> a + n <= Z.of_nat (length l).
Proof. intros ? ? H. unfold slice in H. rewrite length_take, length_drop in H. lia. Qed.

Section decode.
Context {A : AEAD} (v : VB) (obj : bytes).

(** A run of stored blocks, read as one slice, decodes to their concatenation. *)
Lemma run_decode ds : forall off start seqs,
  0 <= off -> 0 < blockStride v -> stride_ok v ->
  0 <= start -> start + Z.of_nat (length ds) < 2 ^ 64 -> length seqs = length ds ->
  (forall k s d, seqs !! k = Some s -> ds !! k = Some d ->
     stored_block v obj (off + Z.of_nat k * blockStride v) s (start + Z.of_nat k) = Some d) ->
  let raw := slice obj off (off + Z.of_nat (length ds) * blockStride v) in
  blen raw = Z.of_nat (length ds) * blockStride v /\
  (if EncryptionEnabled v
   then open_blocks (VolumeUUID v) (volumeNameHash v) (BlockSize v) start seqs raw = Some (List.concat ds)
   else raw = List.concat ds).
Proof.
  induction ds as [|d ds IH]; intros off start seqs Hoff Hpos Hst H0 Hend Hlen Hd.
  { destruct seqs; [|done]. cbn zeta. cbn [length]. change (Z.of_nat 0) with 0. rewrite Z.mul_0_l, Z.add_0_r, slice_0_0.
    split; [done|]. by destruct (EncryptionEnabled v). }
  destruct seqs as [|s seqs]; [done|]. cbn [length] in *. cbn zeta.
  set (st := blockStride v) in *.
  pose proof (Hd 0%nat s d eq_refl eq_refl) as H1. rewrite Z.mul_0_l, !Z.add_0_r in H1.
  unfold stored_block in H1. fold st in H1.
  destruct (Z.eqb_spec (blen (slice obj off (off + st))) st) as [Hl1|]; [|done]. cbn [negb] in H1.
  destruct (IH (off + st) (start + 1) seqs) as [Hlr Hdec]; [lia|done|done|lia|lia|lia| |].
  { intros k s' d' Hs' Hd'. specialize (Hd (S k) s' d' Hs' Hd').
    replace (off + st + Z.of_nat k * st) with (off + Z.of_nat (S k) * st) by lia.
    replace (start + 1 + Z.of_nat k) with (start + Z.of_nat (S k)) by lia. done. }
  cbn zeta in Hlr, Hdec. fold st in Hlr, Hdec.
  replace (off + st + Z.of_nat (length ds) * st) with (off + Z.of_nat (S (length ds)) * st) in * by lia.
  rewrite (slice_split obj off (off + st)) by (rewrite ?Nat2Z.inj_succ; nia).
  set (rest := slice obj (off + st) _) in *. unfold blen in *. split; [rewrite length_app; lia|].
  destruct (EncryptionEnabled v) eqn:He.
  - cbn [open_blocks].
    assert (BlockSize v + 16 = st) as -> by (destruct Hst as [_ E]; rewrite He in E; done).
    rewrite slice_app_l by lia. rewrite H1. rewrite drop_app_length' by lia.
    rewrite u64_small by wsolve. by rewrite Hdec.
  - injection H1 as ->. cbn [List.concat]. by rewrite Hdec.
Qed.
End decode.
