(* ===== verification/Inherit.v ===== *)
(** * The layers of a clone

    A volume opened from a snapshot reads the blocks it has not written itself
    from the chunks of other volumes: the snapshot's source first (the base
    map), then the volumes the source itself was cloned from. Each layer is a
    volume name with the identity its blocks were sealed under. *)

From S2P Require Import Prelude Words BlockMap Crypto Paths Volume WAL Chunk ChunkFacts Read.

Record layer := mkLy { ly_name : string; ly_uuid : bytes; ly_hash : bytes }.

Definition own_layer (v : VB) : layer := mkLy (VolumeName v) (VolumeUUID v) (volumeNameHash v).
Definition base_layer (v : VB) : layer := mkLy (SourceVolumeName v) (SourceVolumeUUID v) (sourceVolumeNameHash v).
Definition anc_layer (a : snapshotAncestor) : layer :=
  mkLy (anc_sourceVolumeName a) (anc_sourceVolumeUUID a) (anc_sourceVolumeNameHash a).
Definition inh_layers (v : VB) : list layer := base_layer v :: (anc_layer <$> ancestors v).

(** The volume as its layer's blocks were written: the same sizes under the
    layer's identity. *)
Definition as_layer (ly : layer) (v : VB) : VB :=
  v <| VolumeName := ly_name ly |> <| VolumeUUID := ly_uuid ly |> <| volumeNameHash := ly_hash ly |>.

Lemma as_own v : as_layer (own_layer v) v = v.
Proof. by destruct v. Qed.

(** The layer and the location of a block the volume has not written. *)
Definition inherited (v : VB) (b : Z) : option (nat * (Z * Z * Z)) :=
  match LookupBaseBlockToObject v b with
  | Some loc => Some (0%nat, loc)
  | None => (fun p => (S p.1, (bl_ObjectID p.2, bl_ObjectOffset p.2, bl_SeqNum p.2))) <$> find_ancestor (ancestors v) b
  end.

Lemma find_ancestor_lookup ancs b i l :
  find_ancestor ancs b = Some (i, l) -> exists a, ancs !! i = Some a /\ anc_blocks a !! b = Some l.
Proof.
  revert i. induction ancs as [|a ancs IH]; intros i; [done|]. cbn [find_ancestor].
  destruct (anc_blocks a !! b) as [l'|] eqn:E; [intros [= <- <-]; by exists a|].
  destruct (find_ancestor ancs b) as [[j l']|]; [|done]. intros [= <- <-]. apply IH. done.
Qed.

Lemma inherited_layer v b j l : inherited v b = Some (j, l) -> exists ly, inh_layers v !! j = Some ly.
Proof.
  unfold inherited. destruct (LookupBaseBlockToObject v b); [intros [= <- <-]; by eexists|].
  destruct (find_ancestor _ b) as [[i l']|] eqn:E; [|done]. intros [= <- <-].
  apply find_ancestor_lookup in E as (a & Ha & _). exists (anc_layer a).
  change ((anc_layer <$> ancestors v) !! i = Some (anc_layer a)). by rewrite list_lookup_fmap, Ha.
Qed.

Section layers.
Context {A : AEAD}.

(** The plaintext of a location of a layer. *)
Definition layer_data (v : VB) (objs : gmap string bytes) (ly : layer) (b : Z) (l : Z * Z * Z) : option bytes :=
  match objs !! GetFilePath FileTypeChunk l.1.1 (ly_name ly) with
  | Some obj => stored_block (as_layer ly v) obj l.1.2 l.2 b
  | None => None
  end.

(** The contents of a block the volume has not written. *)
Definition inh_data (v : VB) (objs : gmap string bytes) (b : Z) : bytes :=
  match inherited v b with
  | Some (j, l) =>
      match inh_layers v !! j with
      | Some ly => default (zeros (BlockSize v)) (layer_data v objs ly b l)
      | None => zeros (BlockSize v)
      end
  | None => zeros (BlockSize v)
  end.

(** The location holds a block of the layer's volume, at a 32-bit offset. *)
Definition layer_ok (v : VB) (objs : gmap string bytes) (ly : layer) (b : Z) (l : Z * Z * Z) : Prop :=
  0 <= l.1.2 /\ l.1.2 + blockStride v < 2 ^ 32 /\
  exists obj d, objs !! GetFilePath FileTypeChunk l.1.1 (ly_name ly) = Some obj /\
    stored_block (as_layer ly v) obj l.1.2 l.2 b = Some d /\ blen d = BlockSize v /\
    (EncryptionEnabled v = true -> slice obj 0 4 = lit "VBCE").

(** Every inherited block resolves, in a chunk of another volume. *)
Definition inh_wf (v : VB) (objs : gmap string bytes) : Prop :=
  forall b j l ly, inherited v b = Some (j, l) -> inh_layers v !! j = Some ly ->
    ly_name ly <> EmptyString /\ ly_name ly <> VolumeName v /\ 0 <= l.1.1 /\ layer_ok v objs ly b l.

(** Neighbours of one layer in one chunk are neighbours in it. *)
Definition inh_layout (v : VB) : Prop :=
  forall b j p q, inherited v b = Some (j, p) -> inherited v (b + 1) = Some (j, q) ->
    q.1.1 = p.1.1 -> q.1.2 = p.1.2 + blockStride v.

(** A volume that is not a clone inherits nothing. *)
Lemma not_clone_inherited v b : BaseBlockMap v = None -> ancestors v = [] -> inherited v b = None.
Proof. intros E1 E2. unfold inherited, LookupBaseBlockToObject. by rewrite E1, E2. Qed.

Lemma not_clone_wf v objs : BaseBlockMap v = None -> ancestors v = [] -> inh_wf v objs /\ inh_layout v.
Proof. intros E1 E2. split; intros b j l; intros; by rewrite not_clone_inherited in *. Qed.

Lemma inh_data_length v objs b : 0 < BlockSize v -> inh_wf v objs -> blen (inh_data v objs b) = BlockSize v.
Proof.
  intros Hbs Hw. assert (blen (zeros (BlockSize v)) = BlockSize v) as Hz by (unfold blen; rewrite length_zeros; lia).
  unfold inh_data. destruct (inherited v b) as [[j l]|] eqn:E; [|done]. destruct (inh_layers v !! j) as [ly|] eqn:El; [|done].
  destruct (Hw b j l ly E El) as (_ & _ & _ & _ & _ & obj & d & Ho & Hd & Hl & _). unfold layer_data. by rewrite Ho, Hd.
Qed.

(** ** What the inherited contents depend on *)

(** The chunks of the other volumes are the same. *)
Definition others_same (vol : string) (objs objs' : gmap string bytes) : Prop :=
  forall i vol', 0 <= i -> vol' <> vol ->
    objs' !! GetFilePath FileTypeChunk i vol' = objs !! GetFilePath FileTypeChunk i vol'.

Lemma others_refl vol objs : others_same vol objs objs.
Proof. done. Qed.

(** A change of one key that is not another volume's chunk. *)
Lemma others_key vol objs objs' key :
  (forall i vol', 0 <= i -> vol' <> vol -> key <> GetFilePath FileTypeChunk i vol') ->
  (forall k, k <> key -> objs' !! k = objs !! k) -> others_same vol objs objs'.
Proof. intros Hk Ho i vol' Hi Hv. apply Ho. intros E. by destruct (Hk i vol' Hi Hv). Qed.

Lemma own_chunk_key vol j i vol' :
  0 <= i -> vol' <> vol -> GetFilePath FileTypeChunk j vol <> GetFilePath FileTypeChunk i vol'.
Proof.
  intros Hi Hv E. rewrite (chunk_key_max j) in E. apply chunk_key_volume in E as [_ <-]; [done|lia..].
Qed.

Lemma others_wf v objs objs' : others_same (VolumeName v) objs objs' -> inh_wf v objs -> inh_wf v objs'.
Proof.
  intros Ho Hw b j l ly Hi Hl. destruct (Hw b j l ly Hi Hl) as (Hn & Hv & H1 & H2 & H3 & obj & d & Hobj & Hd).
  do 2 (split; [done|]). do 3 (split; [done|]). exists obj, d. by rewrite Ho.
Qed.

Lemma others_data v objs objs' b :
  others_same (VolumeName v) objs objs' -> inh_wf v objs -> inh_data v objs' b = inh_data v objs b.
Proof.
  intros Ho Hw. unfold inh_data. destruct (inherited v b) as [[j l]|] eqn:E; [|done].
  destruct (inh_layers v !! j) as [ly|] eqn:El; [|done].
  destruct (Hw b j l ly E El) as (_ & Hv & H1 & _). unfold layer_data. by rewrite Ho.
Qed.

(** The fields of the volume the inherited contents depend on. *)
Definition inh_view (v : VB) :=
  (BaseBlockMap v, base_layer v, ancestors v, VolumeName v, (BlockSize v, blockStride v, EncryptionEnabled v)).

Lemma view_inherited v v' b : inh_view v' = inh_view v -> inherited v' b = inherited v b /\ inh_layers v' = inh_layers v.
Proof.
  unfold inh_view. intros [= E1 E2 E3 E4 E5 E6 E7 E8]. unfold inherited, LookupBaseBlockToObject, inh_layers, base_layer.
  by rewrite E1, E2, E3, E4, E5.
Qed.

Lemma view_data v v' objs b : inh_view v' = inh_view v -> inh_data v' objs b = inh_data v objs b.
Proof.
  intros H. destruct (view_inherited v v' b H) as [Ei El]. unfold inh_view in H. injection H as ? ? ? ? ? ? E6 E7 E8.
  unfold inh_data. rewrite Ei, El, E6. destruct (inherited v b) as [[j l]|]; [|done].
  destruct (inh_layers v !! j) as [ly|]; [|done]. f_equal. unfold layer_data, stored_block.
  destruct (objs !! _) as [obj|]; [|done].
  change (blockStride (as_layer ly v')) with (blockStride v'). change (blockStride (as_layer ly v)) with (blockStride v).
  change (EncryptionEnabled (as_layer ly v')) with (EncryptionEnabled v').
  change (EncryptionEnabled (as_layer ly v)) with (EncryptionEnabled v). by rewrite E7, E8.
Qed.

Lemma view_wf v v' objs : inh_view v' = inh_view v -> inh_wf v objs -> inh_wf v' objs.
Proof.
  intros H Hw b j l ly. destruct (view_inherited v v' b H) as [Ei El]. unfold inh_view in H. injection H as _ _ _ _ _ E5 E6 E7 E8.
  rewrite Ei, El, E5. intros Hb Hl. destruct (Hw b j l ly Hb Hl) as (? & ? & ? & H1 & H2 & obj & d & Ho & Hd & Hs & Hm).
  do 3 (split; [done|]). split; [done|]. rewrite E7. split; [done|]. exists obj, d. rewrite E6, E8. split; [done|]. split; [|done].
  unfold stored_block in *.
  change (blockStride (as_layer ly v')) with (blockStride v'). change (EncryptionEnabled (as_layer ly v')) with (EncryptionEnabled v').
  by rewrite E7, E8.
Qed.

Lemma view_layout v v' : inh_view v' = inh_view v -> inh_layout v -> inh_layout v'.
Proof.
  intros H Hl b j p q. destruct (view_inherited v v' b H) as [E1 _], (view_inherited v v' (b + 1) H) as [E2 _]. rewrite E1, E2.
  unfold inh_view in H. injection H as ? ? ? ? ? ? ? E7 ?. rewrite E7. apply Hl.
Qed.
End layers.
