(* ===== verification/Content.v ===== *)
(** * The contents of a volume, and that reads return them

    The abstraction: a volume is an array of bytes. [vol_block] reads a block's
    contents off the state (memory first, then the chunk the block store points
    to, then the layers of the snapshot the volume was opened from, zeros
    otherwise); [ReadAt] returns exactly those bytes or an error,
    whatever the backend does. *)

From S2P Require Import Prelude Words BlockMap BlockStore BlockStoreFacts BlockStoreRace Crypto Paths Volume WAL Chunk ChunkFacts Read Blocks Inherit.

Definition chunk_key (v : VB) (id : Z) : string := GetFilePath FileTypeChunk id (VolumeName v).

Section content.
Context {A : AEAD}.

(** The plaintext a persisted entry points to. *)
Definition loc_data (s : St) (b : Z) (pe : BlockEntry) : option bytes :=
  match objects (world s) !! chunk_key (vb s) (be_ObjectID pe) with
  | Some obj => stored_block (vb s) obj (be_ObjectOffset pe) (be_SeqNum pe) b
  | None => None
  end.

Definition vol_block (s : St) (b : Z) : bytes :=
  let u := BStore (vb s) in
  match get_entry u b with
  | Some e => be_Data e
  | None =>
      match readPersisted (persistedExtents u) b with
      | Some pe => default (zeros (BlockSize (vb s))) (loc_data s b pe)
      | None => inh_data (vb s) (objects (world s)) b
      end
  end.

(** The byte at offset [o] of the volume. *)
Definition byte_at (s : St) (o : Z) : byte :=
  default Byte.x00 (vol_block s (o / BlockSize (vb s)) !! Z.to_nat (o mod BlockSize (vb s))).

(** A persisted block resolves to bytes that are really there. *)
Definition loc_ok (s : St) (b : Z) (pe : BlockEntry) : Prop :=
  0 <= be_ObjectOffset pe /\
  exists obj d, objects (world s) !! chunk_key (vb s) (be_ObjectID pe) = Some obj /\
    stored_block (vb s) obj (be_ObjectOffset pe) (be_SeqNum pe) b = Some d /\
    blen d = BlockSize (vb s) /\
    (EncryptionEnabled (vb s) = true -> slice obj 0 4 = lit "VBCE").

(** The invariant of the block store of a volume and of what it inherits. *)
Record store_inv (s : St) : Prop := {
  si_stride : stride_ok (vb s);
  si_pos : 0 < blockStride (vb s);
  si_use : UseBlockStore (vb s) = true;
  si_inh : inh_wf (vb s) (objects (world s));
  si_inh_layout : inh_layout (vb s);
  si_shards : shards_wf (BStore (vb s));
  si_exts : exts_wf (blockStride (vb s)) (persistedExtents (BStore (vb s)));
  si_mem : forall b e, get_entry (BStore (vb s)) b = Some e ->
    (be_State e = BlockStateHot \/ be_State e = BlockStatePending) /\ blen (be_Data e) = BlockSize (vb s);
  si_loc : forall b pe, readPersisted (persistedExtents (BStore (vb s))) b = Some pe -> loc_ok s b pe;
  (* neighbours in one chunk are neighbours in it *)
  si_layout : forall b p q,
    readPersisted (persistedExtents (BStore (vb s))) b = Some p ->
    readPersisted (persistedExtents (BStore (vb s))) (b + 1) = Some q ->
    be_ObjectID q = be_ObjectID p -> be_ObjectOffset q = be_ObjectOffset p + blockStride (vb s)
}.

(** What a read may change: statistics and the magic cache. *)
Definition same_store (u u' : UnifiedBlockStore) : Prop :=
  shards u' = shards u /\ persistedExtents u' = persistedExtents u.
Definition touch (u : UnifiedBlockStore) (c : gset (string * Z)) (v : VB) : VB :=
  v <| BStore := u |> <| chunkMagicChecked := c |>.
Definition reads_same (s s' : St) : Prop :=
  (exists u c, vb s' = touch u c (vb s) /\ same_store (BStore (vb s)) u) /\
  files (world s') = files (world s) /\ objects (world s') = objects (world s).

Lemma touch_id v : touch (BStore v) (chunkMagicChecked v) v = v.
Proof. by destruct v. Qed.

Lemma reads_same_refl s : reads_same s s.
Proof. split; [|done]. exists (BStore (vb s)), (chunkMagicChecked (vb s)). by rewrite touch_id. Qed.

Lemma reads_same_trans s1 s2 s3 : reads_same s1 s2 -> reads_same s2 s3 -> reads_same s1 s3.
Proof.
  intros [(u & c & E & S1 & X1) [F O]] [(u' & c' & E' & S2 & X2) [F' O']].
  split; [|split; congruence]. rewrite E in E', S2, X2. exists u', c'.
  split; [exact E'|]. split; [rewrite S2; exact S1|rewrite X2; exact X1].
Qed.

Lemma quiet_reads s s' : quiet s s' -> reads_same s s'.
Proof. intros (E & F & O). split; [|done]. exists (BStore (vb s)), (chunkMagicChecked (vb s)). by rewrite touch_id. Qed.

Lemma same_store_entry u u' b : same_store u u' -> get_entry u' b = get_entry u b.
Proof. intros [E _]. unfold get_entry. by rewrite E. Qed.

(** Reads change neither the contents nor the invariant. *)
Lemma reads_same_block s s' b : reads_same s s' -> vol_block s' b = vol_block s b.
Proof.
  intros [(u & c & E & Hs) [_ O]]. pose proof Hs as [_ X]. unfold vol_block, loc_data. rewrite E, O.
  change (BStore (touch u c (vb s))) with u. rewrite (same_store_entry (BStore (vb s))) by done. rewrite X. reflexivity.
Qed.

Lemma reads_same_inv s s' : reads_same s s' -> store_inv s -> store_inv s'.
Proof.
  intros [(u & c & E & Hs) [_ O]] [H1 H2 H3 H4 H5 H6 H7 H8 H9 H10]. pose proof Hs as [Sh X].
  assert (forall b, get_entry u b = get_entry (BStore (vb s)) b) as Hg by (intros; by apply same_store_entry).
  constructor; rewrite ?E, ?O; try assumption.
  - change (shards_wf u). constructor; rewrite Sh; apply H6.
  - change (exts_wf (blockStride (vb s)) (persistedExtents u)). by rewrite X.
  - intros b e. change (BStore (touch u c (vb s))) with u. rewrite Hg. apply H8.
  - intros b pe. change (BStore (touch u c (vb s))) with u. rewrite X. intros Hr.
    destruct (H9 b pe Hr) as (Ho & obj & d & Hd). split; [done|]. exists obj, d. rewrite E, O. exact Hd.
  - intros b p q. change (BStore (touch u c (vb s))) with u. rewrite X. apply H10.
Qed.
End content.
