(* ===== verification/Requests.v ===== *)
(** * Block-aligned reads

    [readBlockStore] on a range of blocks: gathering what memory has, sorting
    the rest by the layer it lies in, and fetching the layers one after the
    other. After each layer the buffer holds the contents of the blocks of
    every layer so far. *)

From S2P Require Import Prelude Words BlockMap BlockStore BlockStoreFacts BlockStoreRace Crypto Paths Volume WAL Chunk ChunkFacts Read Blocks Inherit Content.

Section content.
Context {A : AEAD}.

(** ** Gathering *)

Section request.
Context (s : St) (Hinv : store_inv s) (block n : Z)
  (Hb : 0 <= block) (Hn : 0 <= n <= MaxUint16) (Hend : block + n < 2 ^ 64)
  (Hlen : n * BlockSize (vb s) < 2 ^ 64).

Abbreviation v0 := (vb s).
Abbreviation bs := (BlockSize (vb s)).
Abbreviation u0 := (BStore (vb s)).

Definition pe_loc (pe : BlockEntry) : Z * Z * Z := (be_ObjectID pe, be_ObjectOffset pe, be_SeqNum pe).

(** The layers of the volume: its own chunks, then the inherited ones. *)
Definition layers : list layer := own_layer v0 :: inh_layers v0.

(** The layer and the location of block [i] of the request, if it is not in
    memory and was ever written. *)
Definition place (i : Z) : option (nat * (Z * Z * Z)) :=
  match get_entry u0 (block + i) with
  | Some _ => None
  | None =>
      match readPersisted (persistedExtents u0) (block + i) with
      | Some pe => Some (0%nat, pe_loc pe)
      | None => (fun p => (S p.1, p.2)) <$> inherited v0 (block + i)
      end
  end.

(** The location of block [i] if it lies in layer [j]. *)
Definition loc_in (j : nat) (i : Z) : option (Z * Z * Z) :=
  match place i with
  | Some (j', l) => if decide (j' = j) then Some l else None
  | None => None
  end.

Definition cb_in (j : nat) (i : Z) : option ConsecutiveBlock := one_block v0 block i <$> loc_in j i.

Lemma bs_pos : 0 < bs.
Proof. apply Hinv. Qed.

(** The accumulators after [k] blocks. *)
Record gathered (k : Z) (acc : VB * Gather) (L : list bytes) : Prop := {
  gd_v : exists u, acc.1 = touch u (chunkMagicChecked v0) v0 /\ same_store u0 u;
  gd_data : ga_data acc.2 = List.concat L;
  gd_blocks : blocks_of bs L;
  gd_len : length L = Z.to_nat n;
  gd_own : ga_own acc.2 = omap (cb_in 0) (seqZ 0 k);
  gd_base : ga_base acc.2 = omap (cb_in 1) (seqZ 0 k);
  gd_ancs : length (ga_anc acc.2) = length (ancestors v0);
  gd_anc : forall a l, ga_anc acc.2 !! a = Some l -> l = omap (cb_in (2 + a)) (seqZ 0 k);
  gd_good : forall i, 0 <= i < n ->
    L !! Z.to_nat i = Some (if decide (i < k /\ place i = None) then vol_block s (block + i) else zeros bs)
}.

Lemma gathered_0 : exists L, gathered 0 (v0, gather0 v0 (n * bs)) L.
Proof.
  pose proof bs_pos. exists (replicate (Z.to_nat n) (zeros bs)). constructor; cbn [fst snd gather0 ga_data ga_own ga_base ga_anc].
  - exists u0. split; [by rewrite touch_id|done].
  - apply zeros_blocks; lia.
  - apply Forall_replicate. unfold blen. rewrite length_zeros. lia.
  - apply length_replicate.
  - done.
  - done.
  - apply repeat_length.
  - intros a l Hl. apply list_elem_of_lookup_2, list_elem_of_In, repeat_spec in Hl. done.
  - intros i Hi. rewrite lookup_replicate_2 by lia. by rewrite decide_False by lia.
Qed.

(** One more block: its data, and the list its location goes to. *)
Lemma gathered_extend k v g v' g' L L' :
  0 <= k < n -> gathered k (v, g) L ->
  (exists u, v' = touch u (chunkMagicChecked v0) v0 /\ same_store u0 u) ->
  ga_data g' = List.concat L' -> blocks_of bs L' -> length L' = length L ->
  (forall i, 0 <= i < n -> i <> k -> L' !! Z.to_nat i = L !! Z.to_nat i) ->
  L' !! Z.to_nat k = Some (if decide (place k = None) then vol_block s (block + k) else zeros bs) ->
  ga_own g' = ga_own g ++ omap (cb_in 0) [k] -> ga_base g' = ga_base g ++ omap (cb_in 1) [k] ->
  (forall a, ga_anc g' !! a = (fun l => l ++ omap (cb_in (2 + a)) [k]) <$> ga_anc g !! a) ->
  gathered (k + 1) (v', g') L'.
Proof.
  intros Hk [_ Hd HL Hll Ho Hba Hal Ha Hg] Hv' Hd' HL' Hll' Hsame Hnew Ho' Hba' Ha'. cbn [fst snd] in *.
  assert (forall X (f : Z -> option X), omap f (seqZ 0 (k + 1)) = omap f (seqZ 0 k) ++ omap f [k]) as Hseq.
  { intros X f. rewrite seqZ_app, omap_app by lia. done. }
  constructor; cbn [fst snd]; try done.
  - congruence.
  - by rewrite Hseq, Ho', Ho.
  - by rewrite Hseq, Hba', Hba.
  - rewrite <-Hal. apply Nat.le_antisymm; apply Nat.le_ngt; intros Hlt; apply lookup_lt_is_Some in Hlt as [x Hx].
    + rewrite Ha' in Hx. rewrite (lookup_ge_None_2 (ga_anc g)) in Hx by done. done.
    + pose proof (Ha' (length (ga_anc g'))) as E. rewrite Hx, lookup_ge_None_2 in E by done. done.
  - intros a l. rewrite Ha'. destruct (ga_anc g !! a) as [l'|] eqn:E; [|done]. cbn [fmap option_fmap option_map].
    intros [= <-]. by rewrite Hseq, (Ha a l' E).
  - intros i Hi. destruct (decide (i = k)) as [->|Hne].
    + rewrite Hnew. f_equal. apply decide_ext. split; [intros; split; [lia|done]|by intros [_ ?]].
    + rewrite Hsame, Hg by done. f_equal. apply decide_ext. split; intros [? ?]; (split; [lia|done]).
Qed.

Lemma ReadEntry_same u b :
  same_store u0 u -> same_store u0 (ReadEntry u b).2 /\
  (ReadEntry u b).1 = match get_entry u0 b with
                      | Some e => Some e
                      | None => readPersisted (persistedExtents u0) b
                      end.
Proof.
  intros Hs. split.
  - destruct Hs as [S X]. unfold ReadEntry. destruct (get_entry u b); [|destruct (readPersisted _ _)]; by split.
  - rewrite (read_entry_eq u b), (same_store_entry u0) by done. destruct Hs as [_ X]. by rewrite X.
Qed.

(** A location changes no data: the block goes to its layer's list. *)
Lemma gathered_located k v g v' g' L :
  0 <= k < n -> gathered k (v, g) L ->
  (exists u, v' = touch u (chunkMagicChecked v0) v0 /\ same_store u0 u) -> ga_data g' = ga_data g ->
  (place k = None -> vol_block s (block + k) = zeros bs) ->
  ga_own g' = ga_own g ++ omap (cb_in 0) [k] -> ga_base g' = ga_base g ++ omap (cb_in 1) [k] ->
  (forall a, ga_anc g' !! a = (fun l => l ++ omap (cb_in (2 + a)) [k]) <$> ga_anc g !! a) ->
  gathered (k + 1) (v', g') L.
Proof.
  intros Hk Hg Hv Hd Hz Ho Hba Ha. eapply gathered_extend; try done.
  - rewrite Hd. by apply Hg.
  - apply Hg.
  - rewrite (gd_good _ _ _ Hg) by done. rewrite decide_False by lia. destruct (decide _) as [E|]; [|done]. by rewrite Hz.
Qed.

(** The lists a block at [place k] is added to. *)
Lemma omap_cb_in j k : omap (cb_in j) [k] = match place k with
                                            | Some (j', l) => if decide (j' = j) then [one_block v0 block k l] else []
                                            | None => []
                                            end.
Proof. cbn. unfold cb_in, loc_in. destruct (place k) as [[j' l]|]; [|done]. by destruct (decide (j' = j)). Qed.

Lemma gathered_inherited k v g v' L :
  0 <= k < n -> gathered k (v, g) L -> get_entry u0 (block + k) = None ->
  readPersisted (persistedExtents u0) (block + k) = None ->
  (exists u, v' = touch u (chunkMagicChecked v0) v0 /\ same_store u0 u) ->
  gathered (k + 1) (v', gather_inherited v' block k g) L.
Proof.
  intros Hk Hg Eg Ep Hv'.
  assert (place k = (fun p => (S p.1, p.2)) <$> inherited v0 (block + k)) as Hpl by (unfold place; by rewrite Eg, Ep).
  assert (u64 (block + k) = block + k) as Hu by (apply u64_small; wsolve).
  assert (place k = None -> vol_block s (block + k) = zeros bs) as Hz.
  { intros E. unfold vol_block. rewrite Eg, Ep. unfold inh_data. rewrite Hpl in E. by destruct (inherited v0 _). }
  assert (forall i l, one_block v' block i l = one_block v0 block i l) as Hone by (intros; by destruct Hv' as (? & -> & _)).
  unfold gather_inherited. rewrite Hu.
  assert (LookupBaseBlockToObject v' (block + k) = LookupBaseBlockToObject v0 (block + k)) as -> by (by destruct Hv' as (? & -> & _)).
  assert (ancestors v' = ancestors v0) as -> by (by destruct Hv' as (? & -> & _)).
  unfold inherited in Hpl. destruct (LookupBaseBlockToObject v0 (block + k)) as [loc|].
  - eapply gathered_located; cbn [ga_data ga_own ga_base ga_anc]; try done;
      try (rewrite omap_cb_in, Hpl; cbn; rewrite ?app_nil_r, ?Hone; done).
    intros a. rewrite omap_cb_in, Hpl. cbn. destruct (ga_anc g !! a); [cbn; by rewrite app_nil_r|done].
  - destruct (find_ancestor (ancestors v0) (block + k)) as [[ai l]|]; cbn in Hpl.
    + eapply gathered_located; cbn [ga_data ga_own ga_base ga_anc]; try done;
        try (rewrite omap_cb_in, Hpl; cbn; rewrite ?app_nil_r; done).
      intros a. rewrite omap_cb_in, Hpl, Hone. destruct (decide (ai = a)) as [->|Hne].
      * rewrite list_lookup_alter_eq. by rewrite (decide_True (P := S (S a) = _)) by done.
      * rewrite list_lookup_alter_ne by done. rewrite decide_False by lia.
        destruct (ga_anc g !! a); [cbn; by rewrite app_nil_r|done].
    + eapply gathered_located; cbn [ga_data ga_own ga_base ga_anc]; try done;
        try (rewrite omap_cb_in, Hpl; cbn; rewrite ?app_nil_r; done).
      intros a. rewrite omap_cb_in, Hpl. destruct (ga_anc g !! a); [cbn; by rewrite app_nil_r|done].
Qed.

Lemma gathered_memory k v g v' e L :
  0 <= k < n -> gathered k (v, g) L -> get_entry u0 (block + k) = Some e ->
  (exists u, v' = touch u (chunkMagicChecked v0) v0 /\ same_store u0 u) ->
  exists L', gathered (k + 1) (v', gather_memory v' k (be_Data e) g) L'.
Proof.
  intros Hk Hg Eg Hv'. destruct (si_mem _ Hinv _ _ Eg) as [_ Hdl]. pose proof bs_pos as Hbs.
  assert (place k = None) as Hpl by (unfold place; by rewrite Eg).
  pose proof (gd_blocks _ _ _ Hg) as HL. pose proof (gd_len _ _ _ Hg) as Hll.
  exists (take (Z.to_nat k) L ++ [be_Data e] ++ drop (Z.to_nat k + 1) L).
  destruct (copy_blocks_ok bs L [be_Data e] (Z.to_nat k)) as [HL' Hll']; [done|by constructor|cbn; lia|].
  pose proof (copy_blocks bs Hbs L [be_Data e] (Z.to_nat k)) as Hcopy. cbn [length List.concat] in *.
  rewrite app_nil_r in Hcopy. specialize (Hcopy HL ltac:(by constructor) ltac:(lia)).
  pose proof (copy_blocks_lookup L [be_Data e] (Z.to_nat k)) as Hcl. cbn [length] in Hcl.
  eapply gathered_extend; try done; cbn [gather_memory ga_data ga_own ga_base ga_anc].
  - assert (BlockSize v' = bs) as -> by (by destruct Hv' as (? & -> & _)). unfold_widths.
    rewrite (u64_small (k * bs)) by (unfold_widths; nia).
    rewrite u64_small by (unfold_widths; nia). pose proof (gd_data _ _ _ Hg) as Hd. cbn [snd] in Hd. rewrite Hd, <-Hcopy. f_equal; lia.
  - intros i Hi Hne. rewrite Hcl by lia. by rewrite decide_False by lia.
  - rewrite Hcl by lia. rewrite decide_True by lia. rewrite Nat.sub_diag. rewrite decide_True by done.
    unfold vol_block. by rewrite Eg.
  - by rewrite omap_cb_in, Hpl, app_nil_r.
  - by rewrite omap_cb_in, Hpl, app_nil_r.
  - intros a. rewrite omap_cb_in, Hpl. destruct (ga_anc g !! a); [cbn; by rewrite app_nil_r|done].
Qed.

Lemma gathered_step k acc L :
  0 <= k < n -> gathered k acc L -> exists L', gathered (k + 1) (gather_step block acc k) L'.
Proof.
  intros Hk Hg. destruct acc as [v g]. pose proof (gd_v _ _ _ Hg) as (u & Hv & Hs). cbn [fst snd] in Hv. subst v.
  unfold_widths. unfold gather_step. cbn [fst snd]. change (BStore (touch u (chunkMagicChecked v0) v0)) with u.
  rewrite u64_small by wsolve.
  destruct (ReadEntry_same u (block + k) Hs) as [Hs' He].
  destruct (ReadEntry u (block + k)) as [entry u']. cbn [fst snd] in *.
  set (v' := (touch u (chunkMagicChecked v0) v0) <| BStore := u' |>).
  assert (exists u1, v' = touch u1 (chunkMagicChecked v0) v0 /\ same_store u0 u1) as Hv' by (exists u'; split; [reflexivity|exact Hs']).
  destruct (get_entry u0 (block + k)) as [e|] eqn:Eg.
  - subst entry. destruct (gathered_memory k _ g v' e L Hk Hg Eg Hv') as [L' HL'].
    destruct (si_mem _ Hinv _ _ Eg) as [[-> | ->] _]; by exists L'.
  - destruct (readPersisted (persistedExtents u0) (block + k)) as [pe|] eqn:Ep; subst entry.
    + assert (be_State pe = BlockStatePersisted) as ->.
      { unfold readPersisted in Ep. destruct (findPersistedExtentLocked _ _); [by injection Ep as <-|done]. }
      assert (place k = Some (0%nat, pe_loc pe)) as Hpl by (unfold place; by rewrite Eg, Ep).
      exists L. eapply gathered_located; cbn [gather_own ga_data ga_own ga_base ga_anc]; try done;
        try (rewrite omap_cb_in, Hpl; cbn; rewrite ?app_nil_r; done).
      { by rewrite Hpl. }
      intros a. rewrite omap_cb_in, Hpl. destruct (ga_anc g !! a); [cbn; by rewrite app_nil_r|done].
    + exists L. by eapply gathered_inherited.
Qed.

Lemma gathered_all :
  exists L, gathered n (fold_left (gather_step block) (seqZ 0 n) (v0, gather0 v0 (n * bs))) L.
Proof.
  assert (forall k, 0 <= k <= n ->
    exists L, gathered k (fold_left (gather_step block) (seqZ 0 k) (v0, gather0 v0 (n * bs))) L) as H.
  { intros k [H0 Hk]. revert Hk. pattern k. apply natlike_ind; [| |done]; clear k H0.
    - intros _. apply gathered_0.
    - intros k Hk IH Hle. destruct IH as [L HL]; [lia|]. unfold Z.succ.
      rewrite seqZ_app by lia. rewrite fold_left_app. cbn [seqZ fold_left Z.to_nat Pos.to_nat].
      change (fold_left (gather_step block) [0 + k] ?x) with (gather_step block x (0 + k)).
      rewrite Z.add_0_l. apply (gathered_step k _ L); [lia|done]. }
  apply H. lia.
Qed.

(** ** Fetching *)

Lemma loc_bound b pe :
  readPersisted (persistedExtents u0) b = Some pe -> be_ObjectOffset pe + blockStride v0 < 2 ^ 32.
Proof.
  intros Hp. pose proof (si_pos _ Hinv) as Hpos. pose proof (si_exts _ Hinv) as He.
  rewrite (readPersisted_spec _ Hpos) in Hp by done.
  destruct (LookupBlockToObject _ _ b) as [l|] eqn:El; [|done]. injection Hp as <-.
  apply lookup_locates in El as (k & bl & Hk & Hc & ->); [|done|apply He].
  pose proof (mw_wf _ _ (ew_map _ _ He) _ _ Hk) as Hw. pose proof Hw as []. cbn.
  unfold covers in Hc. rewrite offsetAt_wf by (first [done|lia]). nia.
Qed.

(** What is known of a block at its place. *)
Lemma place_ok i j l ly :
  place i = Some (j, l) -> layers !! j = Some ly ->
  layer_ok v0 (objects (world s)) ly (block + i) l /\
  layer_data v0 (objects (world s)) ly (block + i) l = Some (vol_block s (block + i)) /\
  blen (vol_block s (block + i)) = bs.
Proof.
  unfold place, vol_block. destruct (get_entry u0 (block + i)); [done|].
  destruct (readPersisted (persistedExtents u0) (block + i)) as [pe|] eqn:Ep.
  - intros [= <- <-] [= <-]. destruct (si_loc _ Hinv _ _ Ep) as (Ho & obj & d & Hobj & Hd & Hlen' & Hm).
    unfold layer_ok, layer_data, loc_data. rewrite as_own. cbn [pe_loc fst snd ly_name own_layer].
    rewrite Hobj in *. unfold chunk_key in Hobj. rewrite Hobj, Hd. cbn [default from_option].
    split; [|done]. split; [done|]. split; [by eapply loc_bound|]. by exists obj, d.
  - destruct (inherited v0 (block + i)) as [[j' l']|] eqn:Ei; [|done]. intros [= <- <-] Hly.
    change (inh_layers v0 !! j' = Some ly) in Hly.
    destruct (si_inh _ Hinv _ _ _ _ Ei Hly) as (_ & _ & _ & Hok). split; [done|].
    destruct Hok as (_ & _ & obj & d & Ho & Hd & Hl & _). unfold inh_data. rewrite Ei, Hly.
    unfold layer_data. rewrite Ho, Hd. done.
Qed.

Lemma place_layout i j p q :
  place i = Some (j, p) -> place (i + 1) = Some (j, q) -> q.1.1 = p.1.1 -> q.1.2 = p.1.2 + blockStride v0.
Proof.
  unfold place. rewrite Z.add_assoc. destruct (get_entry u0 (block + i)); [done|]. destruct (get_entry u0 (block + i + 1)); [done|].
  destruct (readPersisted _ (block + i)) as [pe|] eqn:E1, (readPersisted _ (block + i + 1)) as [qe|] eqn:E2.
  - intros [= <- <-] [= <-]. apply (si_layout _ Hinv _ _ _ E1 E2).
  - destruct (inherited v0 (block + i + 1)) as [[??]|]; [|done]. by intros [= <- <-] [= ?].
  - destruct (inherited v0 (block + i)) as [[??]|]; [|done]. by intros [= <- <-] [= ?].
  - destruct (inherited v0 (block + i)) as [[j1 l1]|] eqn:I1; [|done].
    destruct (inherited v0 (block + i + 1)) as [[j2 l2]|] eqn:I2; [|done].
    intros [= <- <-] [= Hj <-]. subst j2. by apply (si_inh_layout _ Hinv _ _ _ _ I1 I2).
Qed.

(** An inherited block lies in a layer with a name. *)
Lemma place_named i j l ly : place i = Some (S j, l) -> layers !! S j = Some ly -> ly_name ly <> EmptyString.
Proof.
  unfold place. destruct (get_entry u0 (block + i)); [done|]. destruct (readPersisted _ (block + i)); [done|].
  destruct (inherited v0 (block + i)) as [[j' l']|] eqn:Ei; [|done]. intros [= <- <-] Hly.
  by destruct (si_inh _ Hinv _ _ _ _ Ei Hly).
Qed.

Lemma place_layer i j l : place i = Some (j, l) -> exists ly, layers !! j = Some ly.
Proof.
  unfold place. destruct (get_entry u0 (block + i)); [done|]. destruct (readPersisted _ (block + i)); [intros [= <- <-]; by eexists|].
  destruct (inherited v0 (block + i)) as [[j' l']|] eqn:Ei; [|done]. intros [= <- <-]. by eapply inherited_layer.
Qed.

Lemma loc_in_place j i l : loc_in j i = Some l <-> place i = Some (j, l).
Proof.
  unfold loc_in. destruct (place i) as [[j' l']|]; [|done]. destruct (decide (j' = j)) as [->|]; [naive_solver|].
  split; [done|]. by intros [= ? ?].
Qed.

(** A block that no store entry marks Persisted is not cached. *)
Lemma Cache_noop u b d :
  same_store u0 u -> (Cache b d u).2 = u.
Proof.
  intros Hs. unfold Cache. rewrite (same_store_entry u0) by done.
  destruct (get_entry u0 b) as [e|] eqn:E; [|done].
  destruct (si_mem _ Hinv _ _ E) as [Hst _]. rewrite decide_False; [done|]. destruct Hst as [-> | ->]; done.
Qed.

Lemma post_ReadFrom vol t id off len s1 Q :
  len <> 0 ->
  (forall r s2, quiet s1 s2 ->
    (forall d, r = Ok d -> exists obj k, objects (world s1) !! GetFilePath t id vol = Some obj /\
       d = take k (slice obj off (off + len))) ->
    (calm s1 -> calm s2 /\ forall obj, objects (world s1) !! GetFilePath t id vol = Some obj ->
       off + len <= blen obj -> r = Ok (slice obj off (off + len))) -> Q r s2) ->
  post (backend_ReadFrom vol t id off len) s1 Q.
Proof.
  intros Hlen0 HQ. unfold backend_ReadFrom. apply post_bind, post_next_calm. intros o s2 Hq Hc. cbn beta iota.
  apply post_bind, post_get_object. cbn beta iota. pose proof Hq as (_ & _ & Ho). rewrite Ho.
  rewrite (proj2 (Z.eqb_neq len 0) Hlen0).
  assert (forall e r, Fails e r = o -> calm s1 -> False) as Hnf by (intros e r <- H; by destruct (Hc H)).
  destruct (objects (world s1) !! GetFilePath t id vol) as [obj|] eqn:E.
  - destruct o as [|e k|k].
    + destruct (Z.ltb_spec (blen obj) (off + len)); mgo; apply HQ; try done.
      * intros Hcs. split; [by apply Hc|]. intros ? [= <-]. lia.
      * intros d [= <-]. exists obj, (length (slice obj off (off + len))). by rewrite firstn_all.
      * intros Hcs. split; [by apply Hc|]. by intros ? [= <-].
    + mgo. apply HQ; try done. intros Hcs. by destruct (Hnf e k).
    + assert (calm s1 -> False) as Hns by (intros Hcs; by destruct (Hc Hcs)).
      mgo. apply HQ; try done. intros d [= <-]. by exists obj, k.
  - destruct o as [|e k|k]; mgo; apply HQ; try done; intros Hcs; (split; [by apply Hc|done]).
Qed.

Lemma post_checkChunkMagic vol id s1 Q :
  (forall r s2, reads_same s1 s2 ->
    (calm s1 -> calm s2 /\ forall obj, objects (world s1) !! GetFilePath FileTypeChunk id vol = Some obj ->
       (EncryptionEnabled (vb s1) = true -> slice obj 0 4 = lit "VBCE") -> r = Ok tt) -> Q r s2) ->
  post (checkChunkMagic vol id) s1 Q.
Proof.
  intros HQ. unfold checkChunkMagic. mgo.
  destruct (EncryptionEnabled (vb s1)) eqn:Ee; cbn [negb]; [|mgo; apply HQ; [apply reads_same_refl|done]].
  destruct (decide _); [mgo; apply HQ; [apply reads_same_refl|done]|]. apply post_bind. apply post_ReadFrom; [done|].
  intros r s2 Hq _ Hc.
  assert (forall obj, slice obj 0 4 = lit "VBCE" -> 0 + 4 <= blen obj) as Hl4.
  { intros obj Ho. apply (f_equal length) in Ho. unfold slice in Ho. rewrite length_take in Ho.
    cbn in Ho. rewrite length_drop in Ho. unfold blen. lia. }
  assert (calm s1 -> calm s2 /\ forall obj, objects (world s1) !! GetFilePath FileTypeChunk id vol = Some obj ->
       (true = true -> slice obj 0 4 = lit "VBCE") -> r = Ok (lit "VBCE")) as Hc'.
  { intros Hcs. destruct (Hc Hcs) as [? Hr]. split; [done|]. intros obj Ho Hs. rewrite <-(Hs eq_refl).
    apply Hr; [done|]. by apply Hl4, Hs. }
  clear Hc. destruct r as [d|e]; cbn beta iota.
  - assert (forall e (P : bool), P = true -> (d = lit "VBCE" -> P = false) -> Q (Err e) s2) as Herr.
    { intros e P HP Hnp. apply HQ; [by apply quiet_reads|]. intros Hcs. destruct (Hc' Hcs) as [? Hr]. split; [done|].
      intros obj Ho Hs. specialize (Hr obj Ho Hs). injection Hr as ->. rewrite Hnp in HP; done. }
    destruct (blen d <? 4) eqn:E1; [mgo; by apply (Herr _ _ E1); intros -> |].
    destruct (bool_decide (slice d 0 4 = lit "VBCH")) eqn:E2; [mgo; by apply (Herr _ _ E2); intros -> |].
    destruct (negb (bool_decide (slice d 0 4 = lit "VBCE"))) eqn:E3; [mgo; by apply (Herr _ _ E3); intros -> |].
    mgo. apply HQ.
    + destruct Hq as (E & F & O). split; [|done].
      exists (BStore (vb s1)), ({[ (vol, id) ]} ∪ chunkMagicChecked (vb s1)). split; [|done]. cbn. by rewrite E.
    + intros Hcs. destruct (Hc' Hcs). by split.
  - apply HQ; [by apply quiet_reads|]. intros Hcs. destruct (Hc' Hcs) as [? Hr]. split; [done|].
    intros obj Ho Hs. by specialize (Hr obj Ho Hs).
Qed.

(** A run of the request: where it starts and the blocks it fetches. *)
Definition run_data (i0 : Z) (m : nat) : list bytes :=
  (fun k => vol_block s (block + i0 + k)) <$> seqZ 0 (Z.of_nat m).

Lemma run_data_length i0 m : length (run_data i0 m) = m.
Proof. unfold run_data. rewrite length_fmap, length_seqZ. lia. Qed.

Lemma run_data_lookup i0 m k :
  (k < m)%nat -> run_data i0 m !! k = Some (vol_block s (block + i0 + Z.of_nat k)).
Proof. intros Hk. unfold run_data. rewrite list_lookup_fmap, lookup_seqZ_lt by lia. by rewrite Z.add_0_l. Qed.

Lemma cache_run_noop cb st d v : same_store u0 (BStore v) -> cache_run cb st d v = v.
Proof.
  intros Hs. unfold cache_run.
  assert (forall l, fold_left (fun u i =>
    (Cache (u64 (cb_StartBlock cb + i)) (slice d (st + i * BlockSize v) (st + i * BlockSize v + BlockSize v)) u).2) l
    (BStore v) = BStore v) as ->.
  { induction l as [|i l IH]; [done|]. cbn [fold_left]. by rewrite Cache_noop. }
  by destruct v.
Qed.

(** The buffer holds every block of the first [j] layers. *)
Definition settled (j : nat) (L : list bytes) : Prop :=
  blocks_of bs L /\ length L = Z.to_nat n /\
  forall i, 0 <= i < n -> (forall j' l, place i = Some (j', l) -> (j' < j)%nat) ->
    L !! Z.to_nat i = Some (vol_block s (block + i)).

Definition fetched (j : nat) (s1 : St) (r : result error bytes) (s2 : St) : Prop :=
  reads_same s s2 /\ (calm s1 -> calm s2 /\ exists d, r = Ok d) /\
  forall d, r = Ok d -> exists L, d = List.concat L /\ settled j L.

Lemma settled_all j L : (length layers <= j)%nat -> settled j L -> L = vol_block s <$> seqZ block n.
Proof.
  intros Hj (_ & Hll & Hset). apply list_eq. intros i. rewrite list_lookup_fmap.
  destruct (decide (Z.of_nat i < n)).
  - rewrite lookup_seqZ_lt by lia. cbn. rewrite <-(Hset (Z.of_nat i)); [by rewrite Nat2Z.id|lia|].
    intros j' lc Hp. apply place_layer in Hp as [ly Hly]. apply lookup_lt_Some in Hly. lia.
  - rewrite lookup_seqZ_ge by lia. cbn. apply lookup_ge_None. lia.
Qed.

(** ** The reads of one layer *)

Section layer_reads.
Context (j : nat) (ly : layer) (Hly : layers !! j = Some ly).

Abbreviation cbs := (omap (cb_in j) (seqZ 0 n)).

Lemma loc_data_in i l :
  loc_in j i = Some l ->
  layer_ok v0 (objects (world s)) ly (block + i) l /\
  layer_data v0 (objects (world s)) ly (block + i) l = Some (vol_block s (block + i)) /\
  blen (vol_block s (block + i)) = bs.
Proof. intros Hl%loc_in_place. by eapply place_ok. Qed.

Lemma cbs_elem cb :
  cb ∈ cbs -> exists i l, 0 <= i < n /\ loc_in j i = Some l /\
    cb = one_block v0 block i l /\
    cb_StartBlock cb = block + i.
Proof.
  rewrite list_elem_of_omap. intros (i & Hi%elem_of_seqZ & Hcb). unfold cb_in in Hcb.
  destruct (loc_in j i) as [l|] eqn:E; [|done]. injection Hcb as <-.
  exists i, l. split; [lia|]. split; [done|]. split; [done|]. cbn. apply u64_small. wsolve.
Qed.

Lemma cbs_in i l : 0 <= i < n -> loc_in j i = Some l ->
  one_block v0 block i l ∈ cbs.
Proof.
  intros Hi Hl. apply list_elem_of_omap. exists i. split; [apply elem_of_seqZ; lia|]. unfold cb_in. by rewrite Hl.
Qed.

Lemma cbs_range x : x ∈ cbs -> 0 <= cb_StartBlock x < 2 ^ 64 - 1.
Proof. intros (i & l & Hi & _ & _ & ->)%cbs_elem. lia. Qed.

Lemma cbs_nodup : NoDup (cb_StartBlock <$> cbs).
Proof.
  assert (forall l : list Z, NoDup l -> (forall i, i ∈ l -> 0 <= i < n) -> NoDup (cb_StartBlock <$> omap (cb_in j) l)) as H.
  { induction l as [|i l IH]; intros Hnd Hr; cbn; [constructor|]. apply NoDup_cons in Hnd as [Hi Hnd].
    assert (NoDup (cb_StartBlock <$> omap (cb_in j) l)) as Hl by (apply IH; [done|intros; apply Hr; by right]).
    destruct (cb_in j i) as [cb|] eqn:E; [|done]. cbn. constructor; [|done].
    intros (cb' & Heq & (i' & Hi' & Ej)%list_elem_of_omap)%list_elem_of_fmap.
    pose proof (Hr i ltac:(by left)). pose proof (Hr i' ltac:(by right)).
    unfold cb_in in E, Ej. destruct (loc_in j i), (loc_in j i'); try done. injection E as <-. injection Ej as <-.
    cbn in Heq. rewrite !u64_small in Heq by wsolve. assert (i = i') as -> by lia. done. }
  apply H; [apply NoDup_seqZ|]. intros i Hi%elem_of_seqZ. lia.
Qed.

(** The locations of a merged run. *)
Lemma run_locs pre cb0 post i0 l0 :
  cbs = pre ++ cb0 :: post -> 0 <= i0 < n -> loc_in j i0 = Some l0 ->
  cb0 = one_block v0 block i0 l0 ->
  let run_ := cb0 :: take (run_length cb0 post) post in
  i0 + Z.of_nat (length run_) <= n /\
  forall k cb, run_ !! k = Some cb -> exists l, loc_in j (i0 + Z.of_nat k) = Some l /\
    l.1.1 = l0.1.1 /\ l.1.2 = l0.1.2 + Z.of_nat k * blockStride v0 /\
    cb_SeqNum cb = l.2.
Proof.
  intros Hsplit Hi0 Hl0 Hcb0 run_.
  assert (forall x, x ∈ cb0 :: post -> x ∈ cbs) as Hsub by (intros x Hx; rewrite Hsplit; apply elem_of_app; by right).
  assert (cb_StartBlock cb0 = block + i0) as Hs0 by (rewrite Hcb0; cbn; apply u64_small; wsolve).
  assert (forall k cb, run_ !! k = Some cb -> exists l, i0 + Z.of_nat k < n /\ loc_in j (i0 + Z.of_nat k) = Some l /\
    cb = one_block v0 block (i0 + Z.of_nat k) l /\
    l.1.1 = l0.1.1) as Hall.
  { intros [|k] cb Hk; cbn in Hk.
    - injection Hk as <-. exists l0. rewrite Z.add_0_r. by repeat split; try lia.
    - assert (cb ∈ cbs) as Hin.
      { apply Hsub. right. apply list_elem_of_lookup_2 in Hk. apply elem_of_take in Hk as (x & Hx & _).
        by eapply list_elem_of_lookup_2. }
      apply run_length_chain in Hk as [Hstart Hid]; [|intros x Hx; apply cbs_range, Hsub, Hx].
      apply cbs_elem in Hin as (i & l & Hi & Hl & -> & Hstart').
      assert (i = i0 + Z.of_nat (S k)) as -> by lia. exists l. split; [lia|]. split; [done|]. split; [done|].
      cbn in Hid. rewrite Hcb0 in Hid. by cbn in Hid. }
  split.
  { destruct (run_ !! (length run_ - 1)%nat) as [cb|] eqn:E.
    - apply Hall in E as (? & ? & _). unfold run_ in *. cbn [length] in *. lia.
    - apply lookup_ge_None in E. unfold run_ in E. cbn in E. lia. }
  intros k. induction k as [|k IH]; intros cb Hk.
  - destruct (Hall 0%nat cb Hk) as (l & _ & Hl & -> & Hid). exists l. split; [done|]. split; [done|].
    rewrite Z.add_0_r, Hl0 in Hl. injection Hl as <-. split; [lia|done].
  - destruct (Hall _ cb Hk) as (l & _ & Hl & -> & Hid). exists l. split; [done|]. split; [done|]. split; [|done].
    assert (exists cb', run_ !! k = Some cb') as [cb' Hk'].
    { apply lookup_lt_is_Some. apply lookup_lt_Some in Hk. lia. }
    destruct (IH cb' Hk') as (l' & Hl' & Hid' & Hoff' & _).
    apply loc_in_place in Hl, Hl'. replace (i0 + Z.of_nat (S k)) with (i0 + Z.of_nat k + 1) in Hl by lia.
    rewrite (place_layout _ _ _ _ Hl' Hl) by congruence. rewrite Hoff'. lia.
Qed.

(** The bytes a run's read has to return. *)
Lemma run_raw pre cb0 post i0 l0 :
  cbs = pre ++ cb0 :: post -> 0 <= i0 < n -> loc_in j i0 = Some l0 ->
  cb0 = one_block v0 block i0 l0 ->
  let g := take (run_length cb0 post) post in
  let m := S (length g) in
  exists obj, objects (world s) !! GetFilePath FileTypeChunk l0.1.1 (ly_name ly) = Some obj /\
    (EncryptionEnabled v0 = true -> slice obj 0 4 = lit "VBCE") /\
    let raw := slice obj (l0.1.2) (l0.1.2 + Z.of_nat m * blockStride v0) in
    Z.of_nat m * blockStride v0 < 2 ^ 32 /\ i0 + Z.of_nat m <= n /\ blocks_of bs (run_data i0 m) /\
    blen raw = Z.of_nat m * blockStride v0 /\
    (if EncryptionEnabled v0
     then open_blocks (ly_uuid ly) (ly_hash ly) bs (block + i0) (cb_SeqNum <$> cb0 :: g) raw
          = Some (List.concat (run_data i0 m))
     else raw = List.concat (run_data i0 m)).
Proof.
  intros Hsplit Hi0 Hl0 Hcb0 g m.
  destruct (run_locs pre cb0 post i0 l0 Hsplit Hi0 Hl0 Hcb0) as [Hm Hruns]. cbn [length] in Hm. fold g in Hm, Hruns. fold m in Hm.
  destruct (loc_data_in i0 l0 Hl0) as [(Hoff & _ & obj & d0 & Hobj & _ & _ & Hmagic) _]. exists obj.
  split; [exact Hobj|]. split; [exact Hmagic|]. intros raw.
  pose proof (si_pos _ Hinv) as Hpos.
  assert (forall k, (k < m)%nat -> exists cb, (cb0 :: g) !! k = Some cb) as Hlk.
  { intros k Hk. apply lookup_lt_is_Some. cbn. unfold m in Hk. lia. }
  assert (Z.of_nat m * blockStride v0 < 2 ^ 32) as Hsmall.
  { destruct (Hlk (m - 1)%nat ltac:(unfold m; lia)) as [cb Hcb]. destruct (Hruns _ _ Hcb) as (l & Hl & _ & Ho & _).
    destruct (loc_data_in _ _ Hl) as [(_ & Hlb & _) _]. rewrite Ho in Hlb.
    assert (Z.of_nat m = Z.of_nat (m - 1) + 1) as -> by (unfold m; lia). lia. }
  split; [done|]. split; [lia|].
  assert (blocks_of bs (run_data i0 m)) as HD.
  { apply Forall_forall. intros d Hd. apply list_elem_of_lookup in Hd as [k Hk].
    pose proof (lookup_lt_Some _ _ _ Hk) as Hlt. rewrite run_data_length in Hlt.
    rewrite run_data_lookup in Hk by done. injection Hk as <-.
    destruct (Hlk k Hlt) as [cb Hcb]. destruct (Hruns _ _ Hcb) as (l & Hl & _).
    rewrite <-Z.add_assoc. by eapply loc_data_in. }
  split; [done|].
  pose proof (run_decode (as_layer ly v0) obj (run_data i0 m) (l0.1.2) (block + i0) (cb_SeqNum <$> cb0 :: g)) as Hdec.
  rewrite run_data_length in Hdec. apply Hdec; try done; try (apply Hinv); try lia.
  - rewrite length_fmap. done.
  - intros k sq d Hsq Hd. pose proof (lookup_lt_Some _ _ _ Hd) as Hlt. rewrite run_data_length in Hlt.
    rewrite run_data_lookup in Hd by done. injection Hd as <-.
    destruct (Hlk k Hlt) as [cb Hcb]. rewrite list_lookup_fmap, Hcb in Hsq. injection Hsq as <-.
    destruct (Hruns _ _ Hcb) as (l & Hl & Hid & Ho & ->). change (blockStride (as_layer ly v0)) with (blockStride v0). rewrite <-Ho, <-Z.add_assoc.
    destruct (loc_data_in _ _ Hl) as (_ & Hdata & _). unfold layer_data in Hdata. rewrite Hid, Hobj in Hdata. done.
Qed.

(** Decoding what a read of a run returned: all of it gives the plaintext,
    less of it is refused. *)
Lemma decode_run v cb uuid nameHash d raw out k :
  d = take k raw -> blen raw = cb_NumBlocks cb * blockStride v ->
  (EncryptionEnabled v = true -> blockStride v = BlockSize v + 16 /\ Z.of_nat (length (cb_SeqNums cb)) = cb_NumBlocks cb) ->
  (if EncryptionEnabled v then open_blocks uuid nameHash (BlockSize v) (cb_StartBlock cb) (cb_SeqNums cb) raw = Some out else raw = out) ->
  let res := if EncryptionEnabled v then openChunkRun v d cb uuid nameHash (cb_NumBlocks cb * BlockSize v)
             else if negb (blen d =? cb_NumBlocks cb * blockStride v) then Err [ErrShortRead] else Ok d in
  res = Ok out \/ exists e, res = Err e /\ d <> raw.
Proof.
  intros Hd Hraw Henc Hout res.
  assert (blen d = cb_NumBlocks cb * blockStride v -> d = raw) as Hfull.
  { intros Hl. rewrite Hd in *. unfold blen in Hl, Hraw. rewrite length_take in Hl. apply take_ge. lia. }
  unfold res. destruct (EncryptionEnabled v) eqn:Een.
  - destruct (Henc eq_refl) as [Hs Hl]. unfold openChunkRun. rewrite <-Hs.
    destruct (Z.eqb_spec (blen d) (cb_NumBlocks cb * blockStride v)) as [El|El]; cbn [negb].
    + rewrite (Hfull El), Hl, !Z.eqb_refl, Hout. by left.
    + right. eexists. split; [done|]. by intros ->.
  - destruct (Z.eqb_spec (blen d) (cb_NumBlocks cb * blockStride v)) as [El|El]; cbn [negb].
    + left. by rewrite (Hfull El), Hout.
    + right. eexists. split; [done|]. by intros ->.
Qed.

(** Fetching a run puts the contents of its blocks in place, or fails. *)
Lemma fetch_run_spec pre cb0 post_ L s1 Q :
  cbs = pre ++ cb0 :: post_ -> reads_same s s1 -> blocks_of bs L -> length L = Z.to_nat n ->
  (forall i0, cb_StartBlock cb0 = block + i0 -> forall r s2, reads_same s s2 ->
     let m := S (length (take (run_length cb0 post_) post_)) in
     0 <= i0 -> i0 + Z.of_nat m <= n -> blocks_of bs (run_data i0 m) ->
     (forall d, r = Ok d -> d = List.concat (take (Z.to_nat i0) L ++ run_data i0 m ++ drop (Z.to_nat i0 + m) L)) ->
     (calm s1 -> calm s2 /\ exists d, r = Ok d) -> Q r s2) ->
  post (fetch_run (ly_name ly) (ly_uuid ly) (ly_hash ly) (List.concat L)
          (merge_run (EncryptionEnabled v0) cb0 (take (run_length cb0 post_) post_))) s1 Q.
Proof.
  intros Hsplit Hrs HL HlenL HQ.
  assert (cb0 ∈ cbs) as Hin by (rewrite Hsplit; apply elem_of_app; right; by left).
  apply cbs_elem in Hin as (i0 & l0 & Hi0 & Hl0 & Hcb0 & Hst0).
  destruct (run_raw pre cb0 post_ i0 l0 Hsplit Hi0 Hl0 Hcb0) as (obj & Hobj & Hmagic & Hsmall & Hm & HD & Hraw & Hdec).
  specialize (HQ i0 Hst0). set (g := take (run_length cb0 post_) post_) in *. set (m := S (length g)) in *.
  cbv zeta in HQ, Hraw, Hdec.
  set (raw := slice obj (l0.1.2) (l0.1.2 + Z.of_nat m * blockStride v0)) in *.
  pose proof bs_pos as Hbs. pose proof (si_pos _ Hinv) as Hpos. pose proof (si_stride _ Hinv) as [_ Hstr].
  assert (cb_NumBlocks (merge_run (EncryptionEnabled v0) cb0 g) = Z.of_nat m) as HN.
  { cbn. unfold SafeIntToUint16. unfold_widths. zcrush. }
  assert (cb_BlockPosition cb0 = i0 /\ cb_ObjectID cb0 = l0.1.1 /\ cb_ObjectOffset cb0 = l0.1.2)
    as (Hp0 & Hid0 & Ho0) by (by rewrite Hcb0).
  assert (Z.of_nat m * bs <= n * bs) by (apply Z.mul_le_mono_nonneg_r; lia).
  assert (i0 * bs + Z.of_nat m * bs <= n * bs) by (rewrite <-Z.mul_add_distr_r; apply Z.mul_le_mono_nonneg_r; lia).
  assert (0 < Z.of_nat m * blockStride v0) by (apply Z.mul_pos_pos; lia).
  unfold fetch_run. mgo. destruct Hrs as [(u & c & Ev & Hs) [F O]].
  assert (blockStride (vb s1) = blockStride v0) as -> by (by rewrite Ev).
  assert (BlockSize (vb s1) = bs) as -> by (by rewrite Ev).
  assert (EncryptionEnabled (vb s1) = EncryptionEnabled v0) as Ee by (by rewrite Ev). rewrite Ee.
  rewrite HN. rewrite u32_small by (unfold_widths; lia).
  cbn [cb_BlockPosition cb_ObjectID cb_ObjectOffset merge_run]. rewrite Hp0, Hid0, Ho0.
  rewrite (u64_small (i0 * bs)) by (unfold_widths; nia). rewrite (u64_small (i0 * bs + _)) by (unfold_widths; nia).
  apply post_checkChunkMagic. intros rm s2 Hrs2 Hc2. rewrite Ee, O in Hc2.
  assert (reads_same s s2) as Hrs02.
  { eapply reads_same_trans; [|done]. split; [|done]. by exists u, c. }
  assert (calm s1 -> calm s2 /\ rm = Ok tt) as Hc2'.
  { intros Hc. destruct (Hc2 Hc) as [? Hr]. split; [done|]. by apply (Hr obj). }
  destruct rm as [[]|e]; cbn beta iota; [|apply HQ; try done; try lia; intros Hc; by destruct (Hc2' Hc)].
  apply post_bind, post_ReadFrom; [lia|]. intros rd s3 Hq3 Hd3 Hc3.
  assert (objects (world s2) = objects (world s)) as O2 by apply Hrs02. rewrite O2 in Hd3, Hc3.
  assert (reads_same s s3) as Hrs03 by (eapply reads_same_trans; [done|by apply quiet_reads]).
  assert (calm s1 -> calm s3 /\ rd = Ok raw) as Hc3'.
  { intros Hc. destruct (Hc2' Hc) as [Hcs2 _]. destruct (Hc3 Hcs2) as [? Hr]. split; [done|]. apply Hr; [done|].
    unfold blen in Hraw |- *. apply slice_short_nil; [|done|exact Hraw].
    by destruct (loc_data_in i0 l0 Hl0) as [[? _] _]. }
  destruct rd as [d|e]; cbn beta iota; [|apply HQ; try done; try lia; intros Hc; by destruct (Hc3' Hc)].
  destruct (Hd3 d eq_refl) as (obj' & k & Hobj' & Hd).
  rewrite Hobj in Hobj'. injection Hobj' as <-. fold raw in Hd.
  apply post_bind, post_of_result.
  match goal with |- match ?r with _ => _ end => set (res := r) end.
  assert (res = Ok (List.concat (run_data i0 m)) \/ (exists e, res = Err e /\ d <> raw)) as Hres.
  { unfold res. replace (i0 * bs + Z.of_nat m * bs - i0 * bs) with (Z.of_nat m * bs) by lia.
    pose proof (decode_run (vb s1) (merge_run (EncryptionEnabled v0) cb0 g) (ly_uuid ly) (ly_hash ly) d raw (List.concat (run_data i0 m)) k Hd) as Hdr.
    rewrite HN, Ee in Hdr. assert (blockStride (vb s1) = blockStride v0) as Es1 by (by rewrite Ev). assert (BlockSize (vb s1) = bs) as Eb1 by (by rewrite Ev).
    rewrite Es1, Eb1 in Hdr. apply Hdr; [done| |].
    - intros Een. split; [by rewrite Hstr, Een|]. rewrite Een. cbn [merge_run cb_SeqNums]. rewrite length_fmap. done.
    - destruct (EncryptionEnabled v0); [|done]. cbn [merge_run cb_SeqNums cb_StartBlock]. by rewrite Hst0. }
  destruct Hres as [-> | (e & -> & Hne)]; cbn beta iota.
  2: { apply HQ; try done; try lia. intros Hc. destruct (Hc3' Hc) as [_ [= ?]]. done. }
  mgo.
  assert (i0 * bs = Z.of_nat (Z.to_nat i0) * bs) as Hz1 by (rewrite Z2Nat.id by lia; done).
  assert (i0 * bs + Z.of_nat m * bs = Z.of_nat (Z.to_nat i0 + m) * bs) as Hz2 by (rewrite Nat2Z.inj_add, Z2Nat.id by lia; ring).
  pose proof (copy_blocks bs Hbs L (run_data i0 m) (Z.to_nat i0) HL HD) as Hcp. rewrite run_data_length in Hcp.
  rewrite Hz2, Hz1, Hcp by lia.
  assert (UseBlockStore (vb s3) = true) as ->.
  { destruct Hrs03 as [(? & ? & -> & _) _]. apply Hinv. }
  rewrite cache_run_noop by (by destruct Hrs03 as [(? & ? & -> & ?) _]).
  apply HQ; try done; try lia.
  - by intros d' [= <-].
  - intros Hc. destruct (Hc3' Hc). split; [done|]. eauto.
Qed.

Definition is_run (r : ConsecutiveBlock) (pre : list ConsecutiveBlock) (cb0 : ConsecutiveBlock)
    (post_ : list ConsecutiveBlock) : Prop :=
  cbs = pre ++ cb0 :: post_ /\ r = merge_run (EncryptionEnabled v0) cb0 (take (run_length cb0 post_) post_).

(** Block [i] of the request lies in one of the runs. *)
Definition covered (rs : list ConsecutiveBlock) (i : Z) : Prop :=
  exists r pre cb0 post_, r ∈ rs /\ is_run r pre cb0 post_ /\
    cb_StartBlock cb0 <= block + i < cb_StartBlock cb0 + Z.of_nat (S (length (take (run_length cb0 post_) post_))).

Lemma fetch_runs_spec rs : forall L s1,
  (forall r, r ∈ rs -> exists pre cb0 post_, is_run r pre cb0 post_) ->
  reads_same s s1 -> blocks_of bs L -> length L = Z.to_nat n ->
  post (mfold (fetch_run (ly_name ly) (ly_uuid ly) (ly_hash ly)) rs (List.concat L)) s1 (fun r s2 =>
    reads_same s s2 /\ (calm s1 -> calm s2 /\ exists d, r = Ok d) /\
    forall d, r = Ok d -> exists L', d = List.concat L' /\ blocks_of bs L' /\ length L' = Z.to_nat n /\
      forall i, 0 <= i < n ->
        (L' !! Z.to_nat i = L !! Z.to_nat i \/ L' !! Z.to_nat i = Some (vol_block s (block + i))) /\
        (covered rs i -> L' !! Z.to_nat i = Some (vol_block s (block + i)))).
Proof.
  induction rs as [|r rs IH]; intros L s1 Hruns Hs HL Hll; cbn [mfold].
  - mgo. split; [done|]. split; [eauto|]. intros d [= <-]. exists L. split; [done|]. split; [done|]. split; [done|].
    intros i Hi. split; [by left|]. intros (r & ? & ? & ? & Hr & _). inversion Hr.
  - destruct (Hruns r ltac:(by left)) as (pre & cb0 & post_ & Hsp & Hr). rewrite Hr. apply post_bind.
    apply fetch_run_spec with (pre := pre); [done..|]. intros i0 Hst0 res s2 Hs2 m Hi0 Hm HD Hok Hc.
    destruct res as [d|e]; cbn beta iota.
    2: { split; [done|]. split; [|done]. intros Hcs. by destruct (Hc Hcs) as [? [? ?]]. }
    specialize (Hok d eq_refl). subst d.
    set (L1 := take (Z.to_nat i0) L ++ run_data i0 m ++ drop (Z.to_nat i0 + m) L).
    pose proof (copy_blocks_ok bs L (run_data i0 m) (Z.to_nat i0) HL HD) as HL1.
    pose proof (copy_blocks_lookup L (run_data i0 m) (Z.to_nat i0)) as Hlk. rewrite run_data_length in HL1, Hlk. fold L1 in HL1, Hlk.
    destruct HL1 as [HL1 Hll1]; [lia|].
    assert (forall i, 0 <= i < n -> L1 !! Z.to_nat i =
      if decide (i0 <= i < i0 + Z.of_nat m) then Some (vol_block s (block + i)) else L !! Z.to_nat i) as Hlk1.
    { intros i Hi. rewrite Hlk by lia. destruct (decide (i0 <= i < _)).
      - rewrite decide_True by lia. rewrite run_data_lookup by lia. do 2 f_equal. lia.
      - by rewrite decide_False by lia. }
    eapply post_mono.
    { apply (IH L1 s2); [intros r' Hr'; apply Hruns; by right|done|done|congruence]. }
    intros res s3 (Hs3 & Hc3 & Hok3). split; [done|]. split.
    { intros Hcs. destruct (Hc Hcs) as [Hcs2 _]. by apply Hc3. }
    intros d Hd. destruct (Hok3 d Hd) as (L' & -> & HL' & Hll' & Hi'). exists L'. do 3 (split; [done|]).
    intros i Hi. destruct (Hi' i Hi) as [Hkeep Hcov]. rewrite Hlk1 in Hkeep by done. split.
    + destruct (decide _); naive_solver.
    + intros (r' & pre' & cb' & post' & Hr' & Hrun & Hin). apply elem_of_cons in Hr' as [-> |Hr'].
      * destruct Hrun as [Hsp' Heq'].
        assert (cb' = cb0 /\ post' = post_) as [-> ->].
        { assert (cb_StartBlock cb' = cb_StartBlock cb0) as Hsame by (injection Heq'; congruence).
          apply (split_at_key cb_StartBlock cbs pre' cb' post' pre cb0 post_); [apply cbs_nodup|done..]. }
        rewrite decide_True in Hkeep by (fold m in Hin; lia). naive_solver.
      * apply Hcov. by exists r', pre', cb', post'.
Qed.

Lemma cbs_covered i l :
  0 <= i < n -> loc_in j i = Some l -> covered (coalesce_reads ∅ (EncryptionEnabled v0) cbs) i.
Proof.
  intros Hi Hl. pose proof (cbs_in i l Hi Hl) as Hin.
  destruct (coalesce_cover (EncryptionEnabled v0) cbs ∅ _ cbs_nodup Hin) as [Hbad|(pre & cb0 & post_ & Hsp & Hmem & Hr)];
    [by apply elem_of_empty in Hbad|].
  set (x := one_block v0 block i _) in *.
  assert (cb_StartBlock x = block + i) as Hx by (cbn; apply u64_small; wsolve).
  eexists _, pre, cb0, post_. split; [exact Hr|]. split; [by split|]. rewrite <-Hx.
  apply elem_of_cons in Hmem as [-> |Hmem]; [lia|]. apply list_elem_of_lookup in Hmem as [x' Hx'].
  pose proof (lookup_lt_Some _ _ _ Hx') as Hlt.
  apply run_length_chain in Hx' as [-> _]; [lia|]. intros y Hy. apply cbs_range. rewrite Hsp. apply elem_of_app. by right.
Qed.

(** Fetching the layer settles its blocks. *)
Lemma layer_fetched L s1 :
  settled j L -> reads_same s s1 ->
  post (mfold (fetch_run (ly_name ly) (ly_uuid ly) (ly_hash ly)) (coalesce_reads ∅ (EncryptionEnabled v0) cbs) (List.concat L))
    s1 (fetched (S j) s1).
Proof.
  intros (HL & Hll & Hset) Hs1. eapply post_mono; [apply fetch_runs_spec; [|done..]|].
  { intros r (pre & cb & post_ & ? & ?)%coalesce_sound. by exists pre, cb, post_. }
  intros r s2 (Hs2 & Hc2 & Hok). split; [done|]. split; [exact Hc2|]. intros d Hd.
  destruct (Hok d Hd) as (L' & -> & HL' & Hll' & Hi'). exists L'. split; [done|]. split; [done|]. split; [done|].
  intros i Hi Hpl. destruct (Hi' i Hi) as [Hkeep Hcov]. destruct (loc_in j i) as [l|] eqn:E.
  - apply Hcov. by apply cbs_covered with l.
  - assert (L !! Z.to_nat i = Some (vol_block s (block + i))) as HLi.
    { apply Hset; [done|]. intros j' l Hp. specialize (Hpl j' l Hp). assert (j' <> j); [|lia]. intros ->.
      apply loc_in_place in Hp. congruence. }
    destruct Hkeep as [-> | ->]; done.
Qed.

Lemma layer_empty L : cbs = [] -> settled j L -> settled (S j) L.
Proof.
  intros Hnil (HL & Hll & Hset). split; [done|]. split; [done|]. intros i Hi Hpl. apply Hset; [done|].
  intros j' l Hp. specialize (Hpl j' l Hp). assert (j' <> j); [|lia]. intros ->.
  apply loc_in_place in Hp. pose proof (cbs_in i l Hi Hp) as Hin. rewrite Hnil in Hin. inversion Hin.
Qed.

(** An inherited layer, when the request has blocks in it. *)
Lemma base_fetched k L s1 :
  j = S k -> settled j L -> reads_same s s1 ->
  post (if decide (cbs = []) then ret (List.concat L)
        else fetchBaseBlocksFromBackend (ly_name ly) (ly_uuid ly) (ly_hash ly) cbs (List.concat L)) s1 (fetched (S j) s1).
Proof.
  intros Hj HL Hs1. destruct (decide (cbs = [])) as [Hnil|Hne].
  - mgo. split; [done|]. split; [eauto|]. intros d [= <-]. exists L. split; [done|]. by apply layer_empty.
  - unfold fetchBaseBlocksFromBackend. rewrite bool_decide_false.
    2: { destruct (omap _ _) as [|cb l] eqn:E; [done|].
         assert (cb ∈ cbs) as Hin by (rewrite E; by left). apply cbs_elem in Hin as (i & lc & _ & Hl & _).
         apply loc_in_place in Hl. rewrite Hj in Hl, Hly. by eapply place_named. }
    mgo. assert (EncryptionEnabled (vb s1) = EncryptionEnabled v0) as -> by (by destruct Hs1 as [(? & ? & -> & _) _]).
    by apply layer_fetched.
Qed.
End layer_reads.

(** The ancestors, nearest first. *)
Lemma ancestors_fetched : forall ancs cbss k L s1,
  drop k (ancestors v0) = ancs -> length cbss = length ancs ->
  (forall a l, cbss !! a = Some l -> l = omap (cb_in (2 + (k + a))) (seqZ 0 n)) ->
  settled (2 + k) L -> reads_same s s1 ->
  post (mfold (fun data (p : snapshotAncestor * list ConsecutiveBlock) =>
           if decide (p.2 = []) then ret data
           else fetchBaseBlocksFromBackend (anc_sourceVolumeName p.1) (anc_sourceVolumeUUID p.1)
                  (anc_sourceVolumeNameHash p.1) p.2 data) (zip ancs cbss) (List.concat L)) s1
    (fetched (2 + (k + length ancs)) s1).
Proof.
  induction ancs as [|a ancs IH]; intros cbss k L s1 Hdrop Hlen' Hcbs HL Hs1.
  - cbn [zip zip_with mfold length]. rewrite Nat.add_0_r. mgo. split; [done|]. split; [eauto|]. intros d [= <-]. by exists L.
  - destruct cbss as [|cs cbss]; [done|]. cbn [zip zip_with mfold fst snd]. apply post_bind.
    assert (cs = omap (cb_in (2 + k)) (seqZ 0 n)) as -> by (specialize (Hcbs 0%nat cs eq_refl); by rewrite Nat.add_0_r in Hcbs).
    assert (ancestors v0 !! k = Some a) as Ha by (rewrite <-(Nat.add_0_r k), <-lookup_drop, Hdrop; done).
    assert (layers !! (2 + k)%nat = Some (anc_layer a)) as Hly.
    { change ((anc_layer <$> ancestors v0) !! k = Some (anc_layer a)). by rewrite list_lookup_fmap, Ha. }
    eapply post_mono; [apply (base_fetched (2 + k) (anc_layer a) Hly (1 + k)); [done..]|].
    intros r s2 (Hs2 & Hc2 & Hok). destruct r as [d|e]; cbn beta iota.
    2: { split; [done|]. split; [|done]. intros Hcs. by destruct (Hc2 Hcs) as [? [? ?]]. }
    destruct (Hok d eq_refl) as (L' & -> & HL').
    eapply post_mono; [apply (IH cbss (S k) L' s2)|].
    + rewrite <-(Nat.add_1_r k), <-drop_drop, Hdrop. done.
    + cbn in Hlen'. lia.
    + intros x l Hx. specialize (Hcbs (S x) l Hx). by replace (S k + x)%nat with (k + S x)%nat by lia.
    + done.
    + done.
    + intros r s3 (Hs3 & Hc3 & Hok3). replace (2 + (k + length (a :: ancs)))%nat with (2 + (S k + length ancs))%nat by (cbn; lia).
      split; [done|]. split; [|done]. intros Hcs. apply Hc3. by apply Hc2.
Qed.

(** *** What a block-aligned read returns *)
Lemma readBlockStore_spec :
  post (readBlockStore block (n * bs)) s (fun r s2 =>
    reads_same s s2 /\ (calm s -> calm s2 /\ exists d, r = Ok d) /\
    forall d, r = Ok d -> d.1 = List.concat (vol_block s <$> seqZ block n)).
Proof.
  pose proof bs_pos as Hbs. unfold readBlockStore. mgo. rewrite Z.mod_mul by lia. cbn [negb Z.eqb].
  rewrite Z.div_mul by lia. destruct gathered_all as [L HG].
  destruct (fold_left _ _ _) as [v' g]. destruct HG as [(u & Hv & Hs) Hd HL Hll Hown Hbase Halen Hanc Hgood]. cbn [fst snd] in *.
  mgo. set (s1 := mkSt v' (world s)).
  assert (reads_same s s1) as Hs1 by (split; [exists u, (chunkMagicChecked v0); done|done]).
  assert (settled 0 L) as HL0.
  { split; [done|]. split; [done|]. intros i Hi Hpl. rewrite Hgood by done. rewrite decide_True; [done|]. split; [lia|].
    destruct (place i) as [[j' l]|]; [|done]. specialize (Hpl j' l eq_refl). lia. }
  unfold fetch_all. apply post_bind. rewrite Hown, Hd.
  apply (post_mono _ _ (fetched 1 s1)).
  { destruct (decide (omap (cb_in 0) (seqZ 0 n) = [])) as [Hnil|_].
    - mgo. split; [done|]. split; [eauto|]. intros d [= <-]. exists L. split; [done|]. by apply (layer_empty 0).
    - unfold fetchConsecutiveBlocksFromBackend. mgo.
      assert (vb s1 = touch u (chunkMagicChecked v0) v0) as -> by done.
      by apply (layer_fetched 0 (own_layer v0) eq_refl L s1). }
  intros r s2 (Hs2 & Hc2 & Hok). destruct r as [d|e]; cbn beta iota.
  2: { split; [done|]. split; [|done]. intros Hcs. by destruct (Hc2 Hcs) as [? [? ?]]. }
  destruct (Hok d eq_refl) as (L1 & -> & HL1). apply post_bind. unfold fetch_base. mgo. rewrite Hbase.
  assert (exists u c, vb s2 = touch u c v0) as (u2 & c2 & ->) by (destruct Hs2 as [(? & ? & ? & _) _]; eauto).
  eapply post_mono; [apply (base_fetched 1 (base_layer v0) eq_refl 0 L1 s2); done|].
  intros r s3 (Hs3 & Hc3 & Hok3). destruct r as [d|e]; cbn beta iota.
  2: { split; [done|]. split; [|done]. intros Hcs. destruct (Hc2 Hcs) as [Hcs2 _]. by destruct (Hc3 Hcs2) as [? [? ?]]. }
  destruct (Hok3 d eq_refl) as (L2 & -> & HL2). mgo.
  assert (exists u c, vb s3 = touch u c v0) as (u3 & c3 & ->) by (destruct Hs3 as [(? & ? & ? & _) _]; eauto).
  change (ancestors (touch u3 c3 v0)) with (ancestors v0).
  eapply post_mono; [apply (ancestors_fetched (ancestors v0) (ga_anc g) 0 L2 s3); done|].
  intros r s4 (Hs4 & Hc4 & Hok4).
  assert (calm s -> calm s4 /\ exists d, r = Ok d) as Hc4' by (intros Hcs; by apply Hc4, Hc3, Hc2).
  destruct r as [d|e]; cbn beta iota.
  2: { split; [done|]. split; [|done]. intros Hcs. by destruct (Hc4' Hcs) as [? [? ?]]. }
  destruct (Hok4 d eq_refl) as (L3 & -> & HL3). mgo. split; [done|]. split; [intros Hcs; split; [by apply Hc4'|eauto]|].
  intros d [= <-]. cbn [fst]. f_equal. eapply settled_all; [|done]. cbn. rewrite length_fmap. lia.
Qed.

End request.
End content.
