(* ===== verification/ReadFacts.v ===== *)
(** * Reads return the contents of the volume

    [ReadAt] at any offset and length, over the block-aligned reads of
    [Content]: the bytes are those of the abstract volume, an error otherwise,
    and nothing a later read could observe changes. *)

From S2P Require Import Prelude Words BlockMap BlockStore BlockStoreFacts Crypto Paths Volume WAL Chunk ChunkFacts Read Blocks Inherit Content Requests.

Section facts.
Context {A : AEAD} (s : St) (Hinv : store_inv s).
Abbreviation bs := (BlockSize (vb s)).

Lemma vol_block_length b : blen (vol_block s b) = bs.
Proof.
  pose proof (bs_pos s Hinv). unfold vol_block. destruct (get_entry _ b) as [e|] eqn:Eg; [by apply (si_mem _ Hinv) in Eg as [_ ?]|].
  assert (blen (zeros bs) = bs) as Hz by (unfold blen; rewrite length_zeros; lia).
  destruct (readPersisted _ b) as [pe|] eqn:Ep; [|apply inh_data_length; [done|apply Hinv]]. unfold loc_data.
  destruct (si_loc _ Hinv _ _ Ep) as (_ & obj & d & -> & -> & Hd & _). done.
Qed.

(** The bytes of a range are a slice of the blocks that cover it. *)
Lemma slice_bytes offset length :
  0 <= offset -> 0 < length ->
  let fb := offset / bs in
  let n := (offset + length - 1) / bs - fb + 1 in
  slice (List.concat (vol_block s <$> seqZ fb n)) (offset mod bs) (offset mod bs + length)
  = byte_at s <$> seqZ offset length.
Proof.
  intros Ho Hl fb n. pose proof (bs_pos s Hinv) as Hbs.
  pose proof (Z.div_mod offset bs ltac:(lia)) as Hdm. pose proof (Z.mod_pos_bound offset bs Hbs) as Hmod. fold fb in Hdm.
  pose proof (Z.div_mod (offset + length - 1) bs ltac:(lia)) as Hdm2.
  pose proof (Z.mod_pos_bound (offset + length - 1) bs Hbs) as Hmod2.
  assert (offset mod bs + length <= n * bs) as Hfit by (unfold n; nia).
  assert (0 <= n) as Hn0 by nia.
  set (L := vol_block s <$> seqZ fb n).
  assert (blocks_of bs L) as HL.
  { apply Forall_forall. intros d (b & -> & _)%list_elem_of_fmap. apply vol_block_length. }
  assert (List.length L = Z.to_nat n) as HlL by (unfold L; by rewrite length_fmap, length_seqZ).
  apply list_eq. intros k. rewrite list_lookup_fmap. unfold slice. rewrite lookup_take.
  destruct (decide (Z.of_nat k < length)).
  - rewrite decide_True by lia. rewrite lookup_seqZ_lt by lia. cbn [fmap option_fmap option_map]. rewrite lookup_drop.
    replace (Z.to_nat (offset mod bs) + k)%nat with (Z.to_nat (offset mod bs + Z.of_nat k)) by lia.
    rewrite (concat_blocks_lookup bs Hbs) by (try done; rewrite HlL; lia).
    set (j := offset mod bs + Z.of_nat k).
    assert (offset + Z.of_nat k = j + fb * bs) as Hoj by (unfold j; lia).
    unfold byte_at. rewrite Hoj, Z.div_add, Z.mod_add by lia.
    assert (0 <= j / bs) by (apply Z.div_pos; unfold j; lia).
    assert (j / bs < n) by (apply Z.div_lt_upper_bound; unfold j; lia).
    unfold L at 1. rewrite list_lookup_fmap, lookup_seqZ_lt by lia. cbn [fmap option_fmap option_map mbind option_bind].
    replace (fb + Z.of_nat (Z.to_nat (j / bs))) with (j / bs + fb) by lia.
    destruct (vol_block s (j / bs + fb) !! Z.to_nat (j mod bs)) eqn:E; [done|].
    apply lookup_ge_None in E. pose proof (vol_block_length (j / bs + fb)) as Hvl. unfold blen in Hvl.
    pose proof (Z.mod_pos_bound j bs Hbs). lia.
  - rewrite decide_False by lia. by rewrite lookup_seqZ_ge by lia.
Qed.

Lemma ReadAt_spec offset length :
  VolumeSize (vb s) + bs < 2 ^ 64 -> 0 <= offset -> 0 < length -> offset + length <= VolumeSize (vb s) ->
  (offset + length - 1) / bs - offset / bs < MaxUint16 ->
  post (ReadAtCtx offset length) s (fun r s2 =>
    reads_same s s2 /\ (calm s -> calm s2 /\ exists d, r = Ok d) /\
    forall d, r = Ok d -> d.1 = byte_at s <$> seqZ offset length).
Proof.
  intros Hvs Ho Hl Hfit Hmax. pose proof (bs_pos s Hinv) as Hbs. unfold ReadAtCtx. mgo.
  unfold GetVolumeSize. destruct (Z.ltb_spec (VolumeSize (vb s)) offset); [lia|].
  rewrite (u64_small (offset + length)) by wsolve. destruct (Z.ltb_spec (VolumeSize (vb s)) (offset + length)); [lia|].
  rewrite (u64_small (offset + length - 1)) by wsolve.
  pose proof (Z.div_mod offset bs ltac:(lia)) as Hdm. pose proof (Z.mod_pos_bound offset bs Hbs) as Hmod.
  pose proof (Z.div_mod (offset + length - 1) bs ltac:(lia)) as Hdm2.
  pose proof (Z.mod_pos_bound (offset + length - 1) bs Hbs) as Hmod2.
  assert (0 <= offset / bs <= (offset + length - 1) / bs) as Hord.
  { split; [apply Z.div_pos; lia|]. apply Z.div_le_mono; lia. }
  set (fb := offset / bs) in *. set (lb := (offset + length - 1) / bs) in *.
  assert (lb * bs <= VolumeSize (vb s)) by lia.
  assert (lb <= lb * bs) by nia.
  rewrite (u64_small (lb - fb + 1)) by wsolve.
  assert ((lb - fb + 1) * bs <= lb * bs + bs) by nia.
  rewrite (u64_small ((lb - fb + 1) * bs)) by (unfold_widths; nia).
  unfold read. mgo. rewrite (si_use _ Hinv).
  eapply post_mono; [apply (readBlockStore_spec s Hinv fb (lb - fb + 1)); unfold_widths; lia|].
  intros r s2 (Hs2 & Hc2 & Hok). destruct r as [d|e]; cbn beta iota.
  2: { split; [done|]. split; [|done]. intros Hcs. by destruct (Hc2 Hcs) as [? [? ?]]. }
  rewrite (u64_small (offset mod bs + length)) by (unfold_widths; lia).
  assert (offset mod bs + length <= blen d.1) as Hdl.
  { rewrite (Hok d eq_refl). rewrite (length_concat_blocks bs) by
      (apply Forall_forall; intros x (b & -> & _)%list_elem_of_fmap; apply vol_block_length).
    rewrite length_fmap, length_seqZ. nia. }
  destruct (Z.ltb_spec (offset mod bs + length) (offset mod bs)); [lia|].
  destruct (Z.ltb_spec (blen d.1) (offset mod bs + length)); [lia|]. cbn [orb].
  mgo. split; [done|]. split; [intros Hcs; split; [by apply Hc2|eauto]|]. intros d' [= <-]. cbn [fst].
  rewrite (Hok d eq_refl). by apply slice_bytes.
Qed.
End facts.
