(* ===== verification/Checkpoint.v ===== *)
(** * Block-map checkpoints

    The wire format of the block-to-object checkpoint, saving it (numbered and
    live) and loading it back, from viperblock.go. *)

From S2P Require Import Prelude Words BlockMap Extents BlockStore BlockStoreFacts Crypto Paths Volume WAL.

(** ** The record and the stream *)

Definition blockWalChunkSize : Z := 34.
Definition blockCheckpointHeaderSize : Z := 14.
Definition blockToObjectWALMagic : bytes := lit "VBWB".

Definition writeBlockWalChunk (block : BlockLookup) : bytes :=
  let data := PutUint64 (bl_StartBlock block) ++ PutUint16 (bl_NumBlocks block)
              ++ PutUint64 (bl_ObjectID block) ++ PutUint32 (bl_ObjectOffset block)
              ++ PutUint64 (bl_SeqNum block) in
  data ++ PutUint32 (ChecksumIEEE data).

Definition decodeBlockWalChunk (data : bytes) : result error BlockLookup :=
  if negb (blen data =? blockWalChunkSize) then Err plain
  else
    let block := mkBL [] (be_get (slice data 0 8)) (be_get (slice data 10 18))
                      (be_get (slice data 22 30)) (be_get (slice data 18 22)) (be_get (slice data 8 10)) in
    let checksum := be_get (slice data 30 34) in
    if ChecksumIEEE (slice data 0 30) =? checksum then Ok block else Err plain.

(** The decoder with its error logged. *)
Definition readBlockWalChunk (data : bytes) : result error BlockLookup := decodeBlockWalChunk data.

(** [for offset := ...; offset += blockWalChunkSize], [n] records. *)
Fixpoint walk_records (n : nat) (data : bytes) : result error (list BlockLookup) :=
  match n with
  | O => Ok []
  | S n' =>
      let? block := decodeBlockWalChunk (slice data 0 blockWalChunkSize) in
      let? rest := walk_records n' (drop (Z.to_nat blockWalChunkSize) data) in
      Ok (block :: rest)
  end.

(** The records handed to the callback, in on-disk order. *)
Definition walkBlockCheckpoint (raw : bytes) (version : Z) (walMagic : bytes)
    : result error (list BlockLookup) :=
  if blen raw <? blockCheckpointHeaderSize then Err plain
  else if negb (bool_decide (slice raw 0 4 = walMagic)) then Err plain
  else if negb (be_get (slice raw 4 6) =? version) then Err plain
  else
    let dataSize := blen raw - blockCheckpointHeaderSize in
    if negb (dataSize mod blockWalChunkSize =? 0) then Err plain
    else walk_records (Z.to_nat (dataSize / blockWalChunkSize))
           (drop (Z.to_nat blockCheckpointHeaderSize) raw).

Definition ParseBlockCheckpointBytes (raw : bytes) (version : Z) : result error (gmap Z BlockLookup) :=
  let? recs := walkBlockCheckpoint raw version blockToObjectWALMagic in
  Ok (flat_of recs).

(** Header and one record per block, extent by extent in map order. *)
Definition serialize_map (v : VB) (now : Z) : bytes :=
  BlockToObjectWALHeader v now ++
  List.concat (writeBlockWalChunk <$>
    expand_all (map_to_list (BlocksToObject v)).*2 (blockStride v)).

(** ** Loading *)

(** The highest ObjectID of a list of records, if any. *)
Definition max_object (recs : list BlockLookup) : option Z :=
  fold_left (fun acc r => match acc with
                          | None => Some (bl_ObjectID r)
                          | Some m => if m <? bl_ObjectID r then Some (bl_ObjectID r) else Some m
                          end) recs None.

(** [gcRefcount[entry.ObjectID]++] over the coalesced entries. *)
Definition count_refs (m : gmap Z BlockLookup) : gmap Z Z :=
  fold_left (fun g e => <[bl_ObjectID e := u64 (default 0 (g !! bl_ObjectID e) + 1)]> g) (map_to_list m).*2 ∅.

(** Installing every extent of the map in the block store. *)
Definition install_extent (stride : Z) (u : UnifiedBlockStore) (entry : BlockLookup) : UnifiedBlockStore :=
  SetPersistedRange ((fun i => u64 (bl_StartBlock entry + i)) <$> seqZ 0 (bl_NumBlocks entry))
    (bl_ObjectID entry) (bl_ObjectOffset entry) stride
    (seqNumAt entry <$> seqZ 0 (bl_NumBlocks entry)) u.
Definition sync_store (m : gmap Z BlockLookup) (stride : Z) (u : UnifiedBlockStore) : UnifiedBlockStore :=
  fold_left (install_extent stride) (map_to_list m).*2 u.

Definition parse_into (recs : list BlockLookup) (v : VB) : VB :=
  let m := coalesceBlockLookup (flat_of recs) (blockStride v) in
  v <| BlocksToObject := m |>
    <| gcRefcount := if GCEnabled v then count_refs m else gcRefcount v |>
    <| BStore := if UseBlockStore v then sync_store m (blockStride v) (BStore v) else BStore v |>
    <| ObjectNum := match max_object recs with
                    | Some maxID => if u64 (maxID + 1) <=? ObjectNum v then ObjectNum v else u64 (maxID + 1)
                    | None => ObjectNum v
                    end |>.

Definition parseBlockCheckpoint (checkpoint : bytes) : M unit :=
  run modify (fun v => v <| gcRefcount := if GCEnabled v then ∅ else gcRefcount v |>);
  do v <- get;
  do recs <- of_result (walkBlockCheckpoint checkpoint (Version v) (WALMagic (BlockToObjectWAL v)));
  modify (parse_into recs).

Definition numbered_path (v : VB) : string :=
  (BaseDir v +:+ "/" +:+ GetFilePath FileTypeBlockCheckpoint (WallNum (BlockToObjectWAL v)) (GetVolume v))%string.

Definition LoadBlockStateCtx : M unit :=
  do v <- get;
  do st <- get_file (numbered_path v);
  do o <- next; (* os.Stat *)
  match o, st with
  | Fails _ _, _ | _, None =>
      do r <- try (backend_Read FileTypeBlockCheckpoint (WallNum (BlockToObjectWAL v)) 0 0);
      match r with
      | Err _ => ret tt
      | Ok checkpoint => parseBlockCheckpoint checkpoint
      end
  | _, Some _ =>
      do checkpoint <- os_ReadFile (numbered_path v);
      parseBlockCheckpoint checkpoint
  end.

Definition LoadLiveCheckpointCtx : M unit :=
  do r <- try (backend_Read FileTypeBlockCheckpointLive 0 0 0);
  match r with
  | Err e => if errors_Is e ErrNotExist then LoadBlockStateCtx else throw e
  | Ok checkpoint => parseBlockCheckpoint checkpoint
  end.

(** ** Saving *)

Definition SaveBlockStateCtx : M unit :=
  do v <- get;
  do t <- get_now;
  let checkpoint := serialize_map v t in
  run os_call; (* os.Create *)
  run set_file (numbered_path v) [];
  do w <- file_append (numbered_path v) checkpoint;
  match w.2 with
  | Some e => throw e
  | None =>
      run backend_Write FileTypeBlockCheckpoint (WallNum (BlockToObjectWAL v)) [] checkpoint;
      modify (fun v => v <| BlockToObjectWAL := (BlockToObjectWAL v) <| WallNum := u64 (WallNum (BlockToObjectWAL v) + 1) |> |>)
  end.

(** Three attempts; the sleeps in between have no effect on the state. *)
Fixpoint live_attempts (n : nat) (checkpoint : bytes) (last_err : error) : M unit :=
  match n with
  | O => throw last_err
  | S n' =>
      do r <- try (backend_Write FileTypeBlockCheckpointLive 0 [] checkpoint);
      match r with
      | Ok _ => modify (fun v => v <| bto_dirty := false |>)
      | Err e => live_attempts n' checkpoint e
      end
  end.

Definition SaveLiveCheckpointCtx : M unit :=
  do v <- get;
  if negb (bto_dirty v) then ret tt
  else
    do t <- get_now;
    live_attempts 3 (serialize_map v t) plain.
