(* ===== verification/CheckpointFacts.v ===== *)
(** * Block-map checkpoints: round trips

    The record codec, the stream, and saving then loading the block map. *)

From S2P Require Import Prelude Words BlockMap Extents BlockStore BlockStoreFacts Crypto Paths Volume WAL Checkpoint.

(** ** The record codec *)

(** A one-block record whose fields fit their widths. *)
Record rec_fits (r : BlockLookup) : Prop := {
  rf_seqs : bl_SeqNums r = [];
  rf_start : in_u64 (bl_StartBlock r);
  rf_num : in_u16 (bl_NumBlocks r);
  rf_id : in_u64 (bl_ObjectID r);
  rf_off : in_u32 (bl_ObjectOffset r);
  rf_seq : in_u64 (bl_SeqNum r)
}.

Lemma length_writeBlockWalChunk r : length (writeBlockWalChunk r) = 34%nat.
Proof. unfold writeBlockWalChunk. rewrite !length_app. unfold PutUint64, PutUint32, PutUint16. rewrite !length_be_put. done. Qed.

Lemma decode_write r : rec_fits r -> decodeBlockWalChunk (writeBlockWalChunk r) = Ok r.
Proof.
  intros [Hs ? ? ? ? ?]. unfold decodeBlockWalChunk.
  unfold blen. rewrite length_writeBlockWalChunk. change (negb _) with false. cbn iota.
  unfold writeBlockWalChunk.
  set (data := PutUint64 (bl_StartBlock r) ++ _).
  assert (Z.of_nat (length data) = 30) as Hl.
  { subst data. rewrite !length_app, !Nat2Z.inj_add, !len8, !len4, !len2. done. }
  rewrite (slice_app_l data) by done.
  rewrite (slice_app_skip data _ 30 30 34) by lia. rewrite (slice_all (PutUint32 _)) by apply len4.
  rewrite be_get_put4 by apply ChecksumIEEE_range. rewrite Z.eqb_refl.
  subst data. rewrite <-!app_assoc. field_slice.
  rewrite !be_get_put8, be_get_put4, be_get_put2 by done.
  destruct r; cbn in *; by subst.
Qed.

(** Every accepted record is the encoding of what it decodes to. *)
Lemma write_decode d r : decodeBlockWalChunk d = Ok r -> writeBlockWalChunk r = d /\ rec_fits r.
Proof.
  unfold decodeBlockWalChunk, blen, blockWalChunkSize.
  destruct (Z.eqb_spec (Z.of_nat (length d)) 34) as [Hl|]; [|done]. cbn [negb].
  destruct (Z.eqb_spec (ChecksumIEEE (slice d 0 30)) (be_get (slice d 30 34))) as [Hc|]; [|done].
  intros [= <-].
  assert (forall lo hi, 0 <= lo <= hi -> hi <= 34 -> length (slice d lo hi) = Z.to_nat (hi - lo)) as Hsl.
  { intros lo hi ? ?. unfold slice. rewrite length_take, length_drop. lia. }
  assert (forall lo hi n, 0 <= lo <= hi -> hi <= 34 -> Z.to_nat (hi - lo) = n ->
    be_put n (be_get (slice d lo hi)) = slice d lo hi) as Hpg.
  { intros lo hi n ? ? <-. rewrite <-(Hsl lo hi) by done. apply be_put_get. }
  assert (forall a b c, 0 <= a <= b -> b <= c <= 34 -> slice d a b ++ slice d b c = slice d a c) as Hcat.
  { intros a b c ? ?. unfold slice. 
    replace (Z.to_nat b) with (Z.to_nat a + Z.to_nat (b - a))%nat by lia.
    rewrite <-drop_drop.
    replace (Z.to_nat (c - a)) with (Z.to_nat (b - a) + Z.to_nat (c - b))%nat by lia.
    by rewrite <-take_take_drop. }
  split.
  - unfold writeBlockWalChunk. cbn [bl_StartBlock bl_NumBlocks bl_ObjectID bl_ObjectOffset bl_SeqNum].
    unfold PutUint64, PutUint32, PutUint16. rewrite !Hpg by (try lia; done).
    rewrite !Hcat by lia. rewrite Hc, Hpg by (try lia; done). rewrite Hcat by lia.
    apply slice_all. lia.
  - assert (forall lo hi n, 0 <= lo <= hi -> hi <= 34 -> 8 * (hi - lo) = n ->
      in_u n (be_get (slice d lo hi))) as Hr.
    { intros lo hi n ? ? <-. pose proof (be_get_range (slice d lo hi)) as Hb.
      rewrite Hsl in Hb by done. rewrite Z2Nat.id in Hb by lia. unfold in_u.
      rewrite Z.pow_mul_r by lia. done. }
    constructor; cbn; try (apply Hr; lia). done.
Qed.

(** ** The stream *)

Lemma walk_write recs rest :
  Forall rec_fits recs ->
  walk_records (length recs) (List.concat (writeBlockWalChunk <$> recs) ++ rest) = Ok recs.
Proof.
  induction 1 as [|r recs Hr _ IH]; [done|].
  cbn [length walk_records fmap list_fmap List.concat]. rewrite <-app_assoc.
  rewrite slice_app_l by (rewrite length_writeBlockWalChunk; done).
  rewrite decode_write by done. cbn [rbind].
  rewrite drop_app_length' by (rewrite length_writeBlockWalChunk; done).
  by rewrite IH.
Qed.

Lemma length_records recs : length (List.concat (writeBlockWalChunk <$> recs)) = (34 * length recs)%nat.
Proof.
  induction recs as [|r recs IH]; [done|].
  cbn [fmap list_fmap List.concat length]. rewrite length_app, length_writeBlockWalChunk, IH. lia.
Qed.

Definition magic_ok (v : VB) : Prop :=
  length (WALMagic (BlockToObjectWAL v)) = 4%nat /\ in_u16 (Version v).

Lemma walk_stream v t recs :
  magic_ok v -> Forall rec_fits recs ->
  walkBlockCheckpoint (BlockToObjectWALHeader v t ++ List.concat (writeBlockWalChunk <$> recs))
    (Version v) (WALMagic (BlockToObjectWAL v)) = Ok recs.
Proof.
  intros [Hm Hv] Hf. unfold walkBlockCheckpoint, blen.
  set (body := List.concat _).
  assert (length (BlockToObjectWALHeader v t) = 14%nat) as Hh.
  { unfold BlockToObjectWALHeader, PutUint64, PutUint16. rewrite !length_app, !length_be_put, Hm. done. }
  assert (length body = 34 * length recs)%nat as Hb by apply length_records.
  rewrite length_app, Hh, Hb. unfold blockCheckpointHeaderSize, blockWalChunkSize.
  destruct (Z.ltb_spec (Z.of_nat (14 + 34 * length recs)) 14); [lia|].
  replace (Z.of_nat (14 + 34 * length recs) - 14) with (Z.of_nat (length recs) * 34) by lia.
  rewrite Z.mod_mul, Z.div_mul, Nat2Z.id by lia.
  rewrite drop_app_length' by (rewrite Hh; done).
  unfold BlockToObjectWALHeader. rewrite <-!app_assoc.
  rewrite slice_app_l by lia. rewrite bool_decide_eq_true_2 by done.
  rewrite (slice_app_skip (WALMagic _) _ 4) by lia.
  change (4 - 4) with 0. change (6 - 4) with 2. rewrite slice_app_l by apply len2.
  rewrite be_get_put2, Z.eqb_refl by done. cbn [negb].
  rewrite <-(app_nil_r body). by apply walk_write.
Qed.

(** A stream that was cut anywhere but between two records is refused. *)
Lemma walk_truncated raw n version magic :
  (n < length raw)%nat -> Z.of_nat n - 14 <> 34 * Z.of_nat ((n - 14) / 34) ->
  exists e, walkBlockCheckpoint (take n raw) version magic = Err e.
Proof.
  intros Hn Hcut. unfold walkBlockCheckpoint, blen, blockCheckpointHeaderSize, blockWalChunkSize.
  rewrite length_take, Nat.min_l by lia.
  destruct (Z.ltb_spec (Z.of_nat n) 14); [eauto|].
  destruct (negb (bool_decide _)); [eauto|]. destruct (negb (_ =? version)); [eauto|].
  destruct (Z.eqb_spec ((Z.of_nat n - 14) mod 34) 0) as [Hz|]; [|cbn; eauto].
  exfalso. apply Hcut. rewrite Nat2Z.inj_div, Nat2Z.inj_sub by lia.
  apply Z.div_exact in Hz; [|lia]. done.
Qed.

(** ** What loading installs *)

Lemma count_refs_fold l g m :
  rc_exact g m -> Z.of_nat (size m) + Z.of_nat (length l) < 2 ^ 64 ->
  NoDup l.*1 -> (forall k, k ∈ l.*1 -> m !! k = None) ->
  rc_exact (fold_left (fun g e => <[bl_ObjectID e := u64 (default 0 (g !! bl_ObjectID e) + 1)]> g) l.*2 g)
    (list_to_map l ∪ m).
Proof.
  revert g m. induction l as [|[k e] l IH]; intros g m Hx Hsz Hnd Hfr.
  { cbn. by rewrite map_empty_union. }
  cbn [fmap list_fmap fst snd fold_left list_to_map foldr] in *. apply NoDup_cons in Hnd as [Hk Hnd].
  cbn [length] in Hsz.
  assert (m !! k = None) as Hm by (apply Hfr; by left).
  destruct (rc_exact_put g m k e Hx Hm) as (g' & Hg & Hx'); [lia|]. injection Hg as <-.
  rewrite <-insert_union_l, (insert_union_r _ _ _ _ (not_elem_of_list_to_map_1 _ _ Hk)).
  apply IH; [done| |done|].
  - rewrite map_size_insert_None by done. lia.
  - intros k' Hk'. rewrite lookup_insert_ne; [|intros ->; done]. apply Hfr. by right.
Qed.

(** The rebuilt reference counts are exact. *)
Lemma count_refs_exact m : Z.of_nat (size m) < 2 ^ 64 -> rc_exact (count_refs m) m.
Proof.
  intros Hsz. unfold count_refs.
  pose proof (count_refs_fold (map_to_list m) ∅ ∅) as H.
  rewrite list_to_map_to_list, map_union_empty in H. apply H.
  - intros id. unfold chunk_refs. by rewrite map_filter_empty, map_size_empty, lookup_empty.
  - rewrite map_size_empty, length_map_to_list. lia.
  - apply NoDup_fst_map_to_list.
  - intros k _. apply lookup_empty.
Qed.

(** The reconciled object number is above every object of the records. *)
Lemma max_object_spec recs :
  match max_object recs with
  | None => recs = []
  | Some mx => forall r, r ∈ recs -> bl_ObjectID r <= mx
  end.
Proof.
  induction recs as [|r recs IH] using rev_ind; [done|].
  unfold max_object in *. rewrite fold_left_app. cbn [fold_left].
  destruct (fold_left _ recs None) as [m|].
  - destruct (Z.ltb_spec m (bl_ObjectID r)); intros r'; rewrite elem_of_app, list_elem_of_singleton;
      intros [Hin| ->]; try lia; apply IH in Hin; lia.
  - subst. intros r'. rewrite elem_of_app, list_elem_of_singleton. intros [H| ->]; [inversion H|lia].
Qed.

Lemma max_object_in recs mx : max_object recs = Some mx -> exists r, r ∈ recs /\ bl_ObjectID r = mx.
Proof.
  revert mx. induction recs as [|r l IH] using rev_ind; [done|].
  unfold max_object in *. rewrite fold_left_app. cbn [fold_left]. intros mx.
  setoid_rewrite elem_of_app. setoid_rewrite list_elem_of_singleton.
  destruct (fold_left _ l None) as [m|].
  - destruct (m <? bl_ObjectID r); intros [= <-]; [eauto|].
    destruct (IH m eq_refl) as (r' & ? & ?). eauto.
  - intros [= <-]. eauto.
Qed.

(** ** The block store after a load *)

Section sync.
Context (stride : Z) (Hstride : 0 < stride).

Lemma range_items_entry e i n b :
  bl_wf stride e -> 0 <= i -> 0 <= n -> i + n <= bl_NumBlocks e ->
  items_entry (bl_ObjectID e) (bl_ObjectOffset e) stride i
    (zip_with (fun b s => (b, s, true)) ((fun i => u64 (bl_StartBlock e + i)) <$> seqZ i n)
       (seqNumAt e <$> seqZ i n)) b =
  if decide (bl_StartBlock e + i <= b < bl_StartBlock e + i + n)
  then Some (entry_of (loc_at stride e (b - bl_StartBlock e))) else None.
Proof.
  intros Hw Hi Hn. revert i Hi. pattern n. apply natlike_ind; [| |done]; clear n Hn.
  - intros i Hi Hle. cbn. by rewrite decide_False by lia.
  - intros n Hn IH i Hi Hle. rewrite seqZ_cons by lia. cbn [fmap list_fmap zip_with items_entry andb].
    replace (Z.pred (Z.succ n)) with n by lia. change (Z.succ i) with (i + 1). rewrite IH by lia.
    pose proof Hw as []. unfold_widths. rewrite u64_small by wsolve.
    destruct (Z.eqb_spec b (bl_StartBlock e + i)) as [->|].
    + rewrite decide_True by lia. unfold entry_of, loc_at. cbn [fst snd].
      replace (bl_StartBlock e + i - bl_StartBlock e) with i by lia.
      rewrite offsetAt_wf by (first [done|lia]). done.
    + apply decide_ext. lia.
Qed.

Lemma install_extent_spec e u :
  bl_wf stride e -> exts_wf stride (persistedExtents u) ->
  exts_wf stride (persistedExtents (install_extent stride u e)) /\
  shards (install_extent stride u e) = shards u /\
  forall b, readPersisted (persistedExtents (install_extent stride u e)) b =
    if decide (covers e b) then Some (entry_of (loc_at stride e (b - bl_StartBlock e)))
    else readPersisted (persistedExtents u) b.
Proof.
  intros Hw He. unfold install_extent, SetPersistedRange.
  rewrite !length_fmap, length_seqZ, Nat.eqb_refl. pose proof Hw as []. unfold_widths.
  destruct (Nat.eqb_spec (Z.to_nat (bl_NumBlocks e)) 0); [lia|]. cbn [orb negb].
  set (items := zip_with _ _ _).
  assert (items.*1.*1 = (fun i => u64 (bl_StartBlock e + i)) <$> seqZ 0 (bl_NumBlocks e)) as Hb.
  { unfold items. clear. generalize 0. intros z. generalize (bl_NumBlocks e). intros n.
    generalize (seqZ z n). intros l. induction l as [|x l IH]; [done|]. cbn. by rewrite IH. }
  assert (forall it, it ∈ items -> exists i, 0 <= i < bl_NumBlocks e /\ it.1.1 = bl_StartBlock e + i) as Hin.
  { intros it Hit. assert (it.1.1 ∈ items.*1.*1) as Hm by (by do 2 apply list_elem_of_fmap_2).
    rewrite Hb in Hm. apply list_elem_of_fmap in Hm as (i & -> & Hi). apply elem_of_seqZ in Hi.
    exists i. split; [lia|]. apply u64_small. wsolve. }
  assert (NoDup items.*1.*1) as Hnd.
  { rewrite Hb. apply NoDup_fmap_2_strong; [|apply NoDup_seqZ].
    intros x y Hx%elem_of_seqZ Hy%elem_of_seqZ. rewrite !u64_small by wsolve. lia. }
  assert (forall it, it ∈ items -> 0 <= it.1.1 < 2 ^ 64 - 1) as Hr by (intros it (i & Hi & ->)%Hin; lia).
  destruct (install_runs_spec stride (bl_ObjectID e) (bl_ObjectOffset e) Hstride ltac:(lia) items Hnd Hr
              None 0 (persistedExtents u) He) as [W L]; [done|done|done| |].
  - unfold items. rewrite length_zip_with, !length_fmap, length_seqZ. lia.
  - cbn [set_extents persistedExtents shards]. split; [done|]. split; [done|]. intros b. rewrite L. cbn [run_entry].
    unfold items. rewrite (range_items_entry e 0 (bl_NumBlocks e)) by (first [done|lia]).
    unfold covers. rewrite Z.add_0_r. by destruct (decide _).
Qed.

Lemma sync_fold l u :
  Forall (bl_wf stride) l -> exts_wf stride (persistedExtents u) ->
  let u' := fold_left (install_extent stride) l u in
  exts_wf stride (persistedExtents u') /\ shards u' = shards u /\
  forall b, readPersisted (persistedExtents u') b =
    match List.find (fun e => bool_decide (covers e b)) (rev l) with
    | Some e => Some (entry_of (loc_at stride e (b - bl_StartBlock e)))
    | None => readPersisted (persistedExtents u) b
    end.
Proof.
  induction l as [|e l IH] using rev_ind; intros Hl He; [done|]. cbn zeta.
  apply Forall_app in Hl as [Hl Hw]. pose proof (Forall_inv Hw) as Hwe.
  destruct (IH Hl He) as (W & S & L). rewrite fold_left_app. cbn [fold_left].
  destruct (install_extent_spec e _ Hwe W) as (W' & S' & L'). split; [done|].
  split; [congruence|]. intros b. rewrite L', rev_app_distr. cbn [rev app List.find].
  destruct (decide (covers e b)) as [Hc|Hc]; [by rewrite bool_decide_eq_true_2|].
  rewrite bool_decide_eq_false_2 by done. apply L.
Qed.

(** The store resolves every block of the loaded map, and the blocks the map
    does not have as before. *)
Lemma sync_store_spec m u :
  map_wf stride m -> exts_wf stride (persistedExtents u) ->
  exts_wf stride (persistedExtents (sync_store m stride u)) /\
  shards (sync_store m stride u) = shards u /\
  forall b, readPersisted (persistedExtents (sync_store m stride u)) b =
    match LookupBlockToObject stride m b with
    | Some l => Some (entry_of l)
    | None => readPersisted (persistedExtents u) b
    end.
Proof.
  intros Hm He.
  assert (forall e, e ∈ (map_to_list m).*2 <-> exists k, m !! k = Some e) as Hel.
  { intros e. rewrite list_elem_of_fmap. split.
    - intros ([k e'] & -> & H%elem_of_map_to_list). eauto.
    - intros [k H]. exists (k, e). by rewrite elem_of_map_to_list. }
  destruct (sync_fold (map_to_list m).*2 u) as (W & S & L); [|done|].
  { apply Forall_forall. intros e [k Hk]%Hel. exact (mw_wf _ _ Hm _ _ Hk). }
  split; [exact W|]. split; [exact S|]. intros b. unfold sync_store. rewrite L.
  destruct (List.find _ _) as [e|] eqn:E.
  - apply find_some in E as [Hin Hc]. apply in_rev, list_elem_of_In, Hel in Hin as [k Hk].
    apply bool_decide_eq_true in Hc.
    assert (LookupBlockToObject stride m b = Some (loc_at stride e (b - bl_StartBlock e))) as ->; [|done].
    apply lookup_locates; [done..|]. by exists k, e.
  - destruct (LookupBlockToObject stride m b) as [l|] eqn:El; [|done].
    apply lookup_locates in El as (k & e & Hk & Hc & ->); [|done..].
    assert (e ∈ rev (map_to_list m).*2) as Hin
      by (rewrite list_elem_of_In, <-in_rev, <-list_elem_of_In, Hel; eauto).
    apply list_elem_of_In, (find_none _ _ E) in Hin. apply bool_decide_eq_false in Hin. done.
Qed.
End sync.

(** ** Saving, then loading *)

(** Two volumes that read and write the same checkpoint format. *)
Record same_format (v v2 : VB) : Prop := {
  sf_name : VolumeName v2 = VolumeName v;
  sf_stride : blockStride v2 = blockStride v;
  sf_version : Version v2 = Version v;
  sf_magic : WALMagic (BlockToObjectWAL v2) = WALMagic (BlockToObjectWAL v)
}.

(** A block map that a checkpoint can hold. *)
Record map_saveable (v : VB) : Prop := {
  ms_stride : 0 < blockStride v;
  ms_magic : magic_ok v;
  ms_wf : map_wf (blockStride v) (BlocksToObject v);
  ms_small : chunks_small (blockStride v) (BlocksToObject v);
  ms_ids : forall k bl, BlocksToObject v !! k = Some bl ->
    0 <= bl_ObjectID bl < 2 ^ 64 - 1 /\ forall i, in_u64 (seqNumAt bl i);
  ms_bytes : 14 + 34 * Z.of_nat (length (expand_all (map_to_list (BlocksToObject v)).*2 (blockStride v))) < 2 ^ 32
}.

Lemma parse_run c v w :
  let v1 := v <| gcRefcount := if GCEnabled v then ∅ else gcRefcount v |> in
  parseBlockCheckpoint c (mkSt v w) =
  match walkBlockCheckpoint c (Version v) (WALMagic (BlockToObjectWAL v)) with
  | Ok recs => (Ok tt, mkSt (parse_into recs v1) w)
  | Err e => (Err e, mkSt v1 w)
  end.
Proof. reflexivity. Qed.

Section roundtrip.
Context (v : VB) (Hv : map_saveable v).

Abbreviation recs := (expand_all (map_to_list (BlocksToObject v)).*2 (blockStride v)).

Lemma order_elem x : x ∈ (map_to_list (BlocksToObject v)).*2 <-> exists k, BlocksToObject v !! k = Some x.
Proof.
  rewrite list_elem_of_fmap. split.
  - intros ([k e'] & -> & H%elem_of_map_to_list). eauto.
  - intros [k H]. exists (k, x). by rewrite elem_of_map_to_list.
Qed.

Lemma recs_fit : Forall rec_fits recs.
Proof.
  destruct Hv as [Hs _ Hm _ Hid _]. apply Forall_forall. intros e He.
  apply (expand_all_elem _ Hs _ _ _ Hm order_elem) in He as (k & bl & Hk & Hc & ->).
  destruct (Hid k bl Hk) as [? Hsq]. pose proof (mw_wf _ _ Hm k bl Hk) as Hw. pose proof Hw as [].
  unfold covers in Hc. unfold rec_of in *. cbn in Hc. unfold_widths.
  constructor; cbn; try done; try wsolve; [|apply Hsq].
  unfold in_u. nia.
Qed.

Lemma serialize_length t : blen (serialize_map v t) = 14 + 34 * Z.of_nat (length recs).
Proof.
  destruct Hv as [_ [Hm _] _ _ _ _]. unfold serialize_map, blen. rewrite length_app, length_records.
  unfold BlockToObjectWALHeader, PutUint64, PutUint16. rewrite !length_app, !length_be_put, Hm. lia.
Qed.

(** What a volume of the same format makes of the bytes of [v]'s checkpoint. *)
Lemma parse_saved v2 w t :
  same_format v v2 ->
  exists v3, parseBlockCheckpoint (serialize_map v t) (mkSt v2 w) = (Ok tt, mkSt v3 w) /\
    v3 = parse_into recs (v2 <| gcRefcount := if GCEnabled v2 then ∅ else gcRefcount v2 |>).
Proof.
  intros [_ _ Hver Hmag]. eexists. split; [|done].
  rewrite parse_run, Hver, Hmag. unfold serialize_map. rewrite walk_stream; [done|apply Hv|apply recs_fit].
Qed.

(** The map, the counts, the object number and the store after loading. *)
Lemma parse_into_recs v2 :
  same_format v v2 ->
  let v3 := parse_into recs v2 in
  map_wf (blockStride v) (BlocksToObject v3) /\
  (forall b, LookupBlockToObject (blockStride v) (BlocksToObject v3) b =
     LookupBlockToObject (blockStride v) (BlocksToObject v) b) /\
  (GCEnabled v2 = true -> rc_exact (gcRefcount v3) (BlocksToObject v3)) /\
  (forall k bl, BlocksToObject v !! k = Some bl -> bl_ObjectID bl < ObjectNum v3) /\
  (UseBlockStore v2 = true -> exts_wf (blockStride v) (persistedExtents (BStore v2)) ->
   exts_wf (blockStride v) (persistedExtents (BStore v3)) /\ shards (BStore v3) = shards (BStore v2) /\
   forall b, readPersisted (persistedExtents (BStore v3)) b =
     match LookupBlockToObject (blockStride v) (BlocksToObject v) b with
     | Some l => Some (entry_of l)
     | None => readPersisted (persistedExtents (BStore v2)) b
     end).
Proof.
  intros [_ Hst _ _]. destruct Hv as [Hs _ Hm Hsm Hid _]. cbn zeta. unfold parse_into. cbn.
  rewrite Hst.
  destruct (expand_coalesce_lookup _ _ _ Hs Hm Hsm order_elem) as [W L].
  split; [done|]. split; [done|]. split; [|split].
  - intros ->. by eapply count_refs_exact, map_wf_size.
  - intros k bl Hk. pose proof (max_object_spec recs) as Hmx. pose proof (mw_wf _ _ Hm k bl Hk) as Hw.
    assert (rec_of (blockStride v) bl (bl_StartBlock bl) ∈ recs) as Hin.
    { apply (expand_all_elem _ Hs _ _ _ Hm order_elem). exists k, bl. split; [done|]. split; [|done].
      destruct Hw. unfold covers. cbn. unfold_widths. lia. }
    destruct (max_object recs) as [mx|] eqn:Emx; [|rewrite Hmx in Hin; inversion Hin].
    apply Hmx in Hin. cbn in Hin.
    assert (mx < 2 ^ 64 - 1 /\ 0 <= mx) as [? ?].
    { assert (exists r, r ∈ recs /\ bl_ObjectID r = mx) as (r & Hr & <-) by (by apply max_object_in).
      apply (expand_all_elem _ Hs _ _ _ Hm order_elem) in Hr as (k' & bl' & Hk' & _ & ->). cbn.
      destruct (Hid k' bl' Hk'). lia. }
    rewrite u64_small by wsolve.
    unfold constant. destruct (Z.leb_spec (mx + 1) (ObjectNum v2)); lia.
  - intros -> He. destruct (sync_store_spec _ Hs _ (BStore v2) W He) as (W' & S' & L').
    split; [done|]. split; [done|]. intros b. by rewrite L', L.
Qed.
End roundtrip.
