(* ===== verification/SeqNum.v ===== *)
(** * Persistent state and SeqNum reservation

    [persistStateLocal], [SaveState], [LoadState], [EnsureVolumeUUID],
    [reserveSeqNum] and [bumpSeqNumHighWater] of viperblock.go: how VBState is
    written and read back, and how the SeqNum high-water mark keeps nonces
    unique across crashes. *)

From S2P Require Import Prelude Words Json Crypto Paths Volume.

(** [encoding/json] on VBState: marshalling, decoding, and the three-field
    peek of the encrypted open path; [None] is a decoding error. *)
Class StateJSON := {
  marshal_state : VBState -> bytes;
  unmarshal_state : bytes -> option VBState;
  peek_state : bytes -> option (bytes * Z * string)
}.

Class StateJSONLaws (S : StateJSON) : Prop := {
  marshal_valid : forall st, json_valid (marshal_state st) = true;
  unmarshal_marshal : forall st, unmarshal_state (marshal_state st) = Some st;
  peek_marshal : forall st, peek_state (marshal_state st)
    = Some (vs_VolumeUUID st, vs_StateSeqNum st, vs_KeyFingerprint st);
  (* a VBState has no "payload" field, so the probe of StateBody sees no envelope *)
  probe_state : forall st, StateBody (marshal_state st) = marshal_state st
}.

Definition seqNumReservation : Z := Z.shiftl 1 20.

(** ** Calls other goroutines may interleave with

    A call as a sequence of atomic actions with [seqNumHighWaterMu] taken and
    released in between; other goroutines may run between any two of them. *)
Inductive prog (T : Type) : Type :=
| Done (r : result error T)
| Lock (k : prog T)
| Unlock (k : prog T)
| Act {B : Type} (m : M B) (k : result error B -> prog T).
Arguments Done {T} r.
Arguments Lock {T} k.
Arguments Unlock {T} k.
Arguments Act {T B} m k.

(** The next action; an error returns from the call, and [locked] releases the
    mutex first. *)
Notation "'atomic' x <- m ; k" := (Act m (fun r => match r with Ok x => k | Err e => Done (Err e) end))
  (at level 10, x name, m at level 100, k at level 200).
Notation "'locked' x <- m ; k" := (Act m (fun r => match r with Ok x => k | Err e => Unlock (Done (Err e)) end))
  (at level 10, x name, m at level 100, k at level 200).

(** The call with nobody else running. *)
Fixpoint run_prog {T} (p : prog T) : M T := fun s =>
  match p with
  | Done r => (r, s)
  | Lock k | Unlock k => run_prog k s
  | Act m k => let '(r, s') := m s in run_prog (k r) s'
  end.

Section seqnum.
Context {A : AEAD} {S : StateJSON}.

(** ** Writing a file atomically *)

Definition fsyncDir (dir : string) : M unit :=
  run os_call; (* os.Open *)
  run os_call; (* d.Sync *)
  os_call.     (* d.Close *)

(** After a failure the temporary file is removed, errors ignored. *)
Definition drop_tmp (tmp : string) (e : error) : M unit :=
  run try os_call;
  run del_file tmp;
  throw e.

Definition writeFileAtomic (path : string) (data : bytes) : M unit :=
  run os_call; (* os.MkdirAll *)
  let tmp := (path +:+ ".tmp")%string in
  run os_call; (* os.OpenFile O_TRUNC *)
  run set_file tmp [];
  do w <- file_append tmp data;
  match w.2 with
  | Some e => run try os_call; drop_tmp tmp e
  | None =>
      do r <- try os_call; (* f.Sync *)
      match r with
      | Err e => run try os_call; drop_tmp tmp e
      | Ok _ =>
          do r <- try os_call; (* f.Close *)
          match r with
          | Err e => drop_tmp tmp e
          | Ok _ =>
              do r <- try os_call; (* os.Rename *)
              match r with
              | Err e => drop_tmp tmp e
              | Ok _ =>
                  do t <- get_file tmp;
                  run set_file path (default [] t);
                  run del_file tmp;
                  fsyncDir path
              end
          end
      end
  end.

(** ** Persisting VBState *)

Definition config_path (v : VB) : string :=
  (BaseDir v +:+ "/" +:+ GetFilePath FileTypeConfig 0 (GetVolume v))%string.

Definition state_of (v : VB) (highWater stateSeq : Z) : VBState :=
  {| vs_VolumeName := VolumeName v; vs_VolumeSize := VolumeSize v; vs_BlockSize := BlockSize v;
     vs_ObjBlockSize := ObjBlockSize v; vs_SeqNum := SeqNum v; vs_ObjectNum := ObjectNum v;
     vs_WALNum := if UseShardedWAL v then ShardWallNum v else WallNum (vb_WAL v);
     vs_BlockToObjectWALNum := WallNum (BlockToObjectWAL v); vs_Version := Version v;
     vs_VolumeConfig := vb_Config v; vs_ShardedWAL := UseShardedWAL v; vs_SnapshotID := SnapshotID v;
     vs_SourceVolumeName := SourceVolumeName v; vs_EncryptionEnabled := EncryptionEnabled v;
     vs_VolumeUUID := VolumeUUID v; vs_SeqNumHighWater := highWater; vs_StateSeqNum := stateSeq;
     vs_KeyFingerprint := if EncryptionEnabled v then default EmptyString (MasterKey v) else EmptyString |}.

(** The bytes of config.json for a state: the JSON, sealed when encrypted. *)
Definition state_blob (v : VB) (state : VBState) : bytes :=
  let jsonData := marshal_state state in
  if EncryptionEnabled v then
    let nonce := makeNonce (vs_StateSeqNum state) (VolumeUUID v) DomainVBStateMeta in
    let aad := makeMetaAAD (volumeNameHash v) (lit "vbstate") (vs_StateSeqNum state) in
    sealMeta jsonData aad nonce
  else jsonData.

Definition persistStateLocal (highWater : Z) : M bytes :=
  run modify (fun v => v <| nextStateSeqNum := u64 (nextStateSeqNum v + 1) |>);
  do v <- get;
  let state := state_of v highWater (nextStateSeqNum v) in
  let persisted := state_blob v state in
  run writeFileAtomic (config_path v) persisted;
  ret persisted.

Definition pushStateToBackend (persisted : bytes) : M unit :=
  backend_Write FileTypeConfig 0 [] persisted.

Definition saveStateWithHighWater (highWater : Z) : M unit :=
  do persisted <- persistStateLocal highWater;
  pushStateToBackend persisted.

(** [rand.Read] into the four bytes of VolumeUUID. *)
Definition rand_Read4 : M bytes := fun s =>
  match next s with
  | (Ok (Fails e _), s') => (Err e, s')
  | (_, s') =>
      match entropy (world s') with
      | b :: rest => (Ok (take 4 (b ++ zeros 4)), mkSt (vb s') (with_entropy rest (world s')))
      | [] => (Err plain, s')
      end
  end.

Definition mintVolumeUUID : M bool :=
  do v <- get;
  if negb (bool_decide (VolumeUUID v = zeros 4)) then ret false
  else
    do u <- rand_Read4;
    run modify (fun v => v <| VolumeUUID := u |>);
    ret true.

Definition save_rest : prog unit :=
  atomic v <- get;
  atomic persisted <- persistStateLocal (seqNumHighWater v);
  Act (pushStateToBackend persisted) Done.

(** No lock is held between the load of the mark and the persist. *)
Definition save_prog : prog unit :=
  atomic v <- get;
  if negb (EncryptionEnabled v) then save_rest
  else
    atomic minted <- mintVolumeUUID;
    if minted : bool then
      atomic _ <- modify (fun v => v <| seqNumHighWater := seqNumReservation |>);
      save_rest
    else save_rest.

Definition SaveStateCtx : M unit := run_prog save_prog.

(** [for hw < target { hw += seqNumReservation }], one iteration per unit of
    fuel; [advance_hw] gives it enough. *)
Fixpoint advance_loop (fuel : nat) (hw target : Z) : Z :=
  match fuel with
  | O => hw
  | Datatypes.S fuel' => if hw <? target then advance_loop fuel' (u64 (hw + seqNumReservation)) target else hw
  end.
Definition advance_hw (hw target : Z) : Z :=
  advance_loop (Z.to_nat ((target - hw) / seqNumReservation + 1)) hw target.

Definition EnsureVolumeUUID : M unit :=
  do v <- get;
  if negb (EncryptionEnabled v) then ret tt
  else if negb (bool_decide (VolumeUUID v = zeros 4)) then ret tt
  else
    do minted <- mintVolumeUUID;
    if negb minted then ret tt
    else
      do v <- get;
      let hw := advance_hw (Z.max (seqNumHighWater v) seqNumReservation) (SeqNum v) in
      do persisted <- persistStateLocal hw;
      run modify (fun v => v <| seqNumHighWater := hw |>);
      pushStateToBackend persisted.

(** ** Reserving SeqNums *)

(** [SeqNum.Add(n)]. *)
Definition add_seq (n : Z) : M Z :=
  run modify (fun v => v <| SeqNum := u64 (SeqNum v + n) |>);
  do v <- get;
  ret (SeqNum v).

Definition publish_hw (hw : Z) : M unit := modify (fun v => v <| seqNumHighWater := hw |>).

(** The call from its last action back to its first: the push of the new state
    with no lock held, ... *)
Definition reserve_push (start : Z) (persisted : bytes) : prog Z :=
  Act (pushStateToBackend persisted) (fun _ => Done (Ok start)).

(** ... the publication of the mark, once it is durable, ... *)
Definition reserve_publish (start hw : Z) (persisted : bytes) : prog Z :=
  locked _ <- publish_hw hw;
  Unlock (reserve_push start persisted).

(** ... the local persist of a mark past the interval, ... *)
Definition reserve_persist (start end_ hw : Z) : prog Z :=
  let hw := advance_hw hw end_ in
  locked persisted <- persistStateLocal hw;
  reserve_publish start hw persisted.

(** ... the re-check under the mutex and the mint, ... *)
Definition reserve_locked (start end_ : Z) : prog Z :=
  locked v <- get;
  let hw := seqNumHighWater v in
  if end_ <=? hw then Unlock (Done (Ok start))
  else
    locked _ <- mintVolumeUUID;
    reserve_persist start end_ hw.

(** ... the lock-free checks, ... *)
Definition reserve_check (start end_ : Z) : prog Z :=
  atomic v <- get;
  if negb (EncryptionEnabled v) then Done (Ok start)
  else if MaxSeqNum <? end_ then Done (Err plain)
  else if end_ <=? seqNumHighWater v then Done (Ok start)
  else Lock (reserve_locked start end_).

(** ... and the addition. *)
Definition reserve_prog (n : Z) : prog Z :=
  atomic end_ <- add_seq n;
  reserve_check (u64 (end_ - n)) end_.

Definition reserveSeqNum (n : Z) : M Z := run_prog (reserve_prog n).

Definition bumpSeqNumHighWater : M unit :=
  do v <- get;
  let newHW := u64 (seqNumHighWater v + seqNumReservation) in
  do persisted <- persistStateLocal newHW;
  run modify (fun v => v <| seqNumHighWater := newHW |>);
  run try (pushStateToBackend persisted);
  ret tt.

(** ** Loading *)

(** What [LoadStateRequestCtx] makes of the bytes of a config.json. *)
Definition decode_state (v : VB) (raw : bytes) : result error VBState :=
  let? jsonData :=
    (if EncryptionEnabled v then
       match splitEnvelope raw with
       | Err _ => Err [ErrIntegrity]
       | Ok (payload, tag) =>
           match peek_state payload with
           | None => Err [ErrIntegrity]
           | Some (uuid, stateSeq, fingerprint) =>
               if negb (bool_decide (fingerprint = default EmptyString (MasterKey v)))
               then Err [ErrEncryptionMismatch]
               else
                 let nonce := makeNonce stateSeq uuid DomainVBStateMeta in
                 let aad := makeMetaAAD (volumeNameHash v) (lit "vbstate") stateSeq in
                 if verifyMeta payload tag aad nonce then Ok payload else Err [ErrIntegrity]
           end
       end
     else Ok raw) in
  match unmarshal_state (StateBody jsonData) with
  | Some st => Ok st
  | None => Err plain
  end.

(** An empty file name asks the backend. *)
Definition LoadStateRequestCtx (filename : option string) : M VBState :=
  do raw <- (match filename with
             | Some f => os_ReadFile f
             | None => backend_Read FileTypeConfig 0 0 0
             end);
  do v <- get;
  of_result (decode_state v raw).

Definition classifyStateLoad (localErr backendErr : option error) : error :=
  let missing e := match e with Some e => errors_Is e ErrNotExist | None => true end in
  if negb (missing backendErr) then ErrStateBackendUnavailable :: default plain backendErr
  else if missing localErr then [ErrStateNotFound]
  else [ErrStateNotFound]. (* with the text "state present but BlockSize=0" *)

Definition err_of {B} (r : result error B) : option error :=
  match r with Ok _ => None | Err e => Some e end.
Definition state_or_zero (r : result error VBState) : VBState :=
  match r with Ok st => st | Err _ => VBState0 end.

Definition is_fatal_load (r : result error VBState) : bool :=
  match r with
  | Err e => errors_Is e ErrIntegrity || errors_Is e ErrEncryptionMismatch
  | Ok _ => false
  end.

(** Steps 3 and 4 of [LoadStateCtx]: the authoritative copy, checked. *)
Definition select_state (v : VB) (local backend : result error VBState) : result error VBState :=
  let state := state_or_zero local in
  let stateBackend := state_or_zero backend in
  if (vs_BlockSize stateBackend =? 0) && (vs_BlockSize state =? 0)
  then Err (classifyStateLoad (err_of local) (err_of backend))
  else
    let state := if match local with Err _ => true | Ok _ => false end
                    || (vs_StateSeqNum state <? vs_StateSeqNum stateBackend)
                 then stateBackend else state in
    if negb (Bool.eqb (EncryptionEnabled v) (vs_EncryptionEnabled state)) then Err [ErrEncryptionMismatch]
    else if EncryptionEnabled v &&
            match MasterKey v with
            | None => true
            | Some fp => negb (bool_decide (vs_KeyFingerprint state = fp))
            end
    then Err [ErrEncryptionMismatch]
    else Ok state.

Definition reconciled_size (state : VBState) : Z :=
  let configSizeBytes := u64 (SizeGiB (vs_VolumeConfig state) * 1024 * 1024 * 1024) in
  if (0 <? configSizeBytes) && (vs_VolumeSize state <? configSizeBytes)
  then configSizeBytes else vs_VolumeSize state.

Definition install_state (state : VBState) (v : VB) : VB :=
  v <| VolumeName := vs_VolumeName state |>
    <| VolumeSize := reconciled_size state |>
    <| BlockSize := vs_BlockSize state |>
    <| ObjBlockSize := vs_ObjBlockSize state |>
    <| SeqNum := vs_SeqNum state |>
    <| ObjectNum := vs_ObjectNum state |>
    <| vb_WAL := (vb_WAL v) <| WallNum := vs_WALNum state |> |>
    <| BlockToObjectWAL := (BlockToObjectWAL v) <| WallNum := vs_BlockToObjectWALNum state |> |>
    <| UseShardedWAL := vs_ShardedWAL state || UseShardedWAL v |>
    <| ShardWallNum := if vs_ShardedWAL state then vs_WALNum state else ShardWallNum v |>
    <| Version := vs_Version state |>
    <| vb_Config := vs_VolumeConfig state |>
    <| nextStateSeqNum := vs_StateSeqNum state |>.

(** [OpenFromSnapshot] is a parameter here; the snapshot component supplies it. *)
Definition LoadStateCtx (OpenFromSnapshot : string -> M unit) : M unit :=
  do v <- get;
  do local <- try (LoadStateRequestCtx (Some (config_path v)));
  if is_fatal_load local then throw (default plain (err_of local))
  else
  do backend <- try (LoadStateRequestCtx None);
  if is_fatal_load backend then throw (default plain (err_of backend))
  else
  do state <- of_result (select_state v local backend);
  run modify (install_state state);
  when negb (bool_decide (vs_SnapshotID state = EmptyString))
  then OpenFromSnapshot (vs_SnapshotID state);
  if EncryptionEnabled v then
    run modify (fun v => v <| VolumeUUID := vs_VolumeUUID state |>
                           <| SeqNum := vs_SeqNumHighWater state |>
                           <| seqNumHighWater := vs_SeqNumHighWater state |>);
    bumpSeqNumHighWater
  else ret tt.

(** ** Alone, a call is straight-line code *)

Definition save_alone : M unit :=
  do v <- get;
  when EncryptionEnabled v then
    (do minted <- mintVolumeUUID;
     if minted : bool then modify (fun v => v <| seqNumHighWater := seqNumReservation |>) else ret tt);
  do v <- get;
  saveStateWithHighWater (seqNumHighWater v).

Lemma SaveStateCtx_alone s : SaveStateCtx s = save_alone s.
Proof.
  assert (forall s, run_prog save_rest s = (do v <- get; saveStateWithHighWater (seqNumHighWater v)) s) as Hr.
  { intros t. unfold save_rest, saveStateWithHighWater, bind. cbn [run_prog get].
    destruct (persistStateLocal _ t) as [[p|e] t1]; cbn [run_prog]; [|done]. by destruct (pushStateToBackend p t1). }
  unfold SaveStateCtx, save_prog, save_alone. unfold bind at 1. cbn [run_prog get].
  destruct (EncryptionEnabled (vb s)); cbn [negb run_prog]; [|exact (Hr s)]. unfold bind at 1 2.
  destruct (mintVolumeUUID s) as [[[]|e] s1]; cbn [run_prog]; [|exact (Hr s1)|done]. exact (Hr _).
Qed.

Lemma post_save s Q : post save_alone s Q -> post SaveStateCtx s Q.
Proof. unfold post. by rewrite SaveStateCtx_alone. Qed.

Definition reserve_alone (n : Z) : M Z :=
  run modify (fun v => v <| SeqNum := u64 (SeqNum v + n) |>);
  do v <- get;
  let end_ := SeqNum v in
  let start := u64 (end_ - n) in
  if negb (EncryptionEnabled v) then ret start
  else if MaxSeqNum <? end_ then throw plain
  else if end_ <=? seqNumHighWater v then ret start
  else
    do _ <- mintVolumeUUID;
    let hw := advance_hw (seqNumHighWater v) end_ in
    do persisted <- persistStateLocal hw;
    run modify (fun v => v <| seqNumHighWater := hw |>);
    run try (pushStateToBackend persisted);
    ret start.

Lemma reserveSeqNum_alone n s : reserveSeqNum n s = reserve_alone n s.
Proof.
  unfold reserveSeqNum, reserve_prog, reserve_check, reserve_alone. unfold bind at 1 2. cbn [run_prog]. unfold add_seq, bind at 1 2. cbn [modify get ret run_prog].
  cbn zeta. repeat (match goal with |- context [if ?b then _ else _] => destruct b eqn:? end; try done).
  cbn [run_prog]. unfold reserve_locked, reserve_persist, reserve_publish, reserve_push. cbn [run_prog get]. cbn zeta.
  rewrite Heqb1. cbn [run_prog]. unfold bind at 1.
  destruct (mintVolumeUUID _) as [[m|e] s1]; cbn [run_prog]; [|done]. unfold bind at 1.
  destruct (persistStateLocal _ s1) as [[p|e] s2]; cbn [run_prog publish_hw modify]; [|done].
  unfold bind, modify, try. by destruct (pushStateToBackend p _).
Qed.

Lemma post_reserve n s Q : post (reserve_alone n) s Q -> post (reserveSeqNum n) s Q.
Proof. unfold post. by rewrite reserveSeqNum_alone. Qed.

(** ** What persisting does *)

(** Only [path] and the temporary file may have changed. *)
Definition only_files (path : string) (s s' : St) : Prop :=
  vb s' = vb s /\ objects (world s') = objects (world s) /\
  forall p, p <> path -> p <> (path +:+ ".tmp")%string -> files (world s') !! p = files (world s) !! p.

Lemma tmp_ne path : (path +:+ ".tmp")%string <> path.
Proof.
  intros H. apply (f_equal (fun x => length (chars_of x))) in H. rewrite chars_app, length_app in H.
  cbn in H. lia.
Qed.

(** An atomic write leaves the old contents or the new ones, whatever fails;
    without an error, the new ones. *)
Lemma writeFileAtomic_spec path data s :
  post (writeFileAtomic path data) s (fun r s' =>
    only_files path s s' /\
    (files (world s') !! path = files (world s) !! path \/ files (world s') !! path = Some data) /\
    (r = Ok tt -> files (world s') !! path = Some data)).
Proof.
  assert (path <> (path +:+ ".tmp")%string) as Hne by (intros E; by apply (tmp_ne path)).
  unfold writeFileAtomic, fsyncDir, drop_tmp. mgo; cbn [snd] in *; try case_match; subst; mgo;
    unfold only_files; world_facts; rewrite ?lookup_insert_eq in *; cbn [default app from_option] in *.
  all: split; [split; [done|split; [done|intros; by rewrite ?lookup_delete_ne, ?lookup_insert_ne by done]]|].
  all: rewrite ?lookup_delete_ne, ?lookup_insert_ne, ?lookup_insert_eq by done.
  all: match goal with H : None = None -> take _ _ = _ |- _ => specialize (H eq_refl); unfold id; rewrite H | _ => idtac end.
  all: split; [by auto|by intros [=] || auto].
Qed.

Lemma writeFileAtomic_calm path data s : calm s -> post (writeFileAtomic path data) s (fun r s' => r = Ok tt /\ calm s').
Proof. intros Hc. unfold writeFileAtomic, fsyncDir. cgo. cbn [snd]. cgo. by split. Qed.

End seqnum.
