(* ===== verification/Frames.v ===== *)
(** * What the state calls leave alone

    Reserving SeqNums touches three counters of the volume, config.json (and
    its temporary file) on the local disk and config.json on the backend; the
    names of chunks and log segments are different from these. *)

From S2P Require Import Prelude Words BlockMap BlockStore Crypto Paths Volume WAL Chunk SeqNum.

Section frames.
Context {A : AEAD} {S : StateJSON}.

Definition config_key (v : VB) : string := GetFilePath FileTypeConfig 0 (VolumeName v).
Definition live_key (v : VB) : string := GetFilePath FileTypeBlockCheckpointLive 0 (VolumeName v).

(** The counters of a reservation. *)
Definition counters (a b c : Z) (v : VB) : VB :=
  v <| SeqNum := a |> <| nextStateSeqNum := b |> <| seqNumHighWater := c |>.

Lemma counters_id v : counters (SeqNum v) (nextStateSeqNum v) (seqNumHighWater v) v = v.
Proof. by destruct v. Qed.

Lemma counters_counters a b c a' b' c' v : counters a b c (counters a' b' c' v) = counters a b c v.
Proof. reflexivity. Qed.

(** Everything but the counters and the state files is as before. *)
Record state_frame (s s' : St) : Prop := {
  sf_vb : exists a b c, vb s' = counters a b c (vb s);
  sf_files : forall p, p <> config_path (vb s) -> p <> (config_path (vb s) +:+ ".tmp")%string ->
    files (world s') !! p = files (world s) !! p;
  sf_objects : forall k, k <> config_key (vb s) -> objects (world s') !! k = objects (world s) !! k
}.

Lemma state_frame_refl s : state_frame s s.
Proof. constructor; [|done|done]. exists (SeqNum (vb s)), (nextStateSeqNum (vb s)), (seqNumHighWater (vb s)). by rewrite counters_id. Qed.

Lemma state_frame_trans s1 s2 s3 : state_frame s1 s2 -> state_frame s2 s3 -> state_frame s1 s3.
Proof.
  intros [(a & b & c & E1) F1 O1] [(a' & b' & c' & E2) F2 O2]. rewrite E1 in E2, F2, O2.
  constructor.
  - exists a', b', c'. by rewrite E2, counters_counters.
  - intros p H1 H2. by rewrite F2, F1.
  - intros k Hk. by rewrite O2, O1.
Qed.

Lemma state_frame_counters s a b c w :
  files w = files (world s) -> objects w = objects (world s) -> state_frame s (mkSt (counters a b c (vb s)) w).
Proof. intros Hf Ho. constructor; cbn [vb world]; [by eauto| |]; intros; by rewrite ?Hf, ?Ho. Qed.

Lemma quiet_frame s s' : quiet s s' -> state_frame s s'.
Proof.
  intros (E & F & O). constructor; [|intros; by rewrite F|intros; by rewrite O].
  exists (SeqNum (vb s)), (nextStateSeqNum (vb s)), (seqNumHighWater (vb s)). by rewrite counters_id.
Qed.

Lemma persist_frame hw s :
  post (persistStateLocal hw) s (fun _ s' => state_frame s s' /\ SeqNum (vb s') = SeqNum (vb s)).
Proof.
  unfold persistStateLocal. mgo. set (s1 := mkSt _ (world s)).
  assert (state_frame s s1) as H1.
  { replace s1 with (mkSt (counters (SeqNum (vb s)) (u64 (nextStateSeqNum (vb s) + 1)) (seqNumHighWater (vb s)) (vb s)) (world s));
      [by apply state_frame_counters|]. unfold s1. by destruct (vb s). }
  eapply post_mono; [apply writeFileAtomic_spec|]. intros r s2 ((Ev & Eo & Ef) & _ & _).
  assert (state_frame s s2 /\ SeqNum (vb s2) = SeqNum (vb s)) as Hgoal.
  { split; [|by rewrite Ev]. eapply state_frame_trans; [exact H1|]. constructor.
    - exists (SeqNum (vb s1)), (nextStateSeqNum (vb s1)), (seqNumHighWater (vb s1)). by rewrite counters_id.
    - exact Ef.
    - intros k _. by rewrite Eo. }
  destruct r; cbn beta iota; [mgo|]; exact Hgoal.
Qed.

Lemma push_frame p s :
  post (pushStateToBackend p) s (fun _ s' => state_frame s s' /\ vb s' = vb s).
Proof.
  assert (forall s' m, quiet s s' -> (forall k, k <> config_key (vb s) -> m !! k = objects (world s) !! k) ->
    state_frame s (mkSt (vb s') (with_objects (fun _ => m) (world s'))) /\
    vb (mkSt (vb s') (with_objects (fun _ => m) (world s'))) = vb s) as Hput.
  { intros s' m (E & F & O) Hm. split; [|done]. constructor; cbn [vb world files objects with_objects].
    - rewrite E. exists (SeqNum (vb s)), (nextStateSeqNum (vb s)), (seqNumHighWater (vb s)). by rewrite counters_id.
    - intros p' _ _. by rewrite F.
    - done. }
  unfold pushStateToBackend, backend_Write, backend_WriteTo. mgo.
  match goal with H : quiet s ?s' |- _ => rename H into Hq; pose proof Hq as (E & _ & O) end.
  assert (forall k d, k = config_key (vb s) -> forall k', k' <> config_key (vb s) ->
    (<[k := d]> (objects (world s'))) !! k' = objects (world s) !! k') as Hother.
  { intros k d -> k' Hk'. by rewrite lookup_insert_ne, O by done. }
  destruct o as [|e [|k]|k]; mgo; first [by split; [apply quiet_frame|] | by apply (Hput _ _ Hq), Hother].
Qed.

Lemma reserve_frame n s :
  (EncryptionEnabled (vb s) = true -> VolumeUUID (vb s) <> zeros 4) ->
  0 <= SeqNum (vb s) -> 0 <= n -> SeqNum (vb s) + n < 2 ^ 64 ->
  post (reserveSeqNum n) s (fun r s' => state_frame s s' /\ SeqNum (vb s') = SeqNum (vb s) + n /\
    forall x, r = Ok x -> x = SeqNum (vb s)).
Proof.
  intros Hu H0 Hn Hlt. apply post_reserve. unfold reserve_alone. mgo. rewrite (u64_small (SeqNum (vb s) + n)) by wsolve.
  set (v1 := (vb s) <| SeqNum := SeqNum (vb s) + n |>). set (s1 := mkSt v1 (world s)).
  assert (state_frame s s1) as H1.
  { replace s1 with (mkSt (counters (SeqNum (vb s) + n) (nextStateSeqNum (vb s)) (seqNumHighWater (vb s)) (vb s)) (world s));
      [by apply state_frame_counters|]. unfold s1, v1. by destruct (vb s). }
  change (SeqNum (vb s1)) with (SeqNum (vb s) + n). replace (SeqNum (vb s) + n - n) with (SeqNum (vb s)) by lia.
  rewrite (u64_small (SeqNum (vb s))) by wsolve. change (EncryptionEnabled (vb s1)) with (EncryptionEnabled (vb s)).
  destruct (EncryptionEnabled (vb s)) eqn:Ee; cbn [negb].
  2: { mgo. split; [exact H1|]. split; [done|]. by intros x [= <-]. }
  destruct (MaxSeqNum <? _); [mgo; split; [exact H1|]; by split|].
  destruct (_ <=? _); [mgo; split; [exact H1|]; split; [done|]; by intros x [= <-]|].
  apply post_bind. unfold mintVolumeUUID. mgo. change (VolumeUUID (vb s1)) with (VolumeUUID (vb s)).
  rewrite bool_decide_eq_false_2 by auto. cbn [negb]. mgo.
  eapply post_mono; [apply persist_frame|]. intros r s2 [H2 Hs2].
  assert (state_frame s s2) as H02 by (by eapply state_frame_trans).
  destruct r as [p|e]; cbn beta iota; [|by split].
  mgo. eapply post_mono; [apply push_frame|]. intros r s3 [H3 E3]. mgo.
  set (hw := advance_hw _ _) in *. cbn [vb] in E3. split.
  - eapply state_frame_trans; [exact H02|].
    eapply state_frame_trans; [|exact H3].
    replace ((vb s2) <| seqNumHighWater := hw |>) with (counters (SeqNum (vb s2)) (nextStateSeqNum (vb s2)) hw (vb s2)).
    + by apply state_frame_counters.
    + by destruct (vb s2).
  - rewrite E3. split; [exact Hs2|]. by intros x [= <-].
Qed.
End frames.
