(* ===== verification/Footprint.v ===== *)
(** * Which objects an operation may touch

    A volume writes under its own keys only: its state, its live checkpoint,
    and chunks; and as long as nothing is collected, the chunks it has written
    stay as they are. This is what lets volumes share a backend, and clones
    read their sources' chunks. *)

From S2P Require Import Prelude Words BlockMap BlockStore Crypto Paths Volume WAL Chunk ChunkFacts Read Blocks Inherit Content SeqNum Frames.

(** Chunk collection is off, or was latched off by a snapshot. *)
Definition no_collect (v : VB) : Prop := GCEnabled v = false \/ gcLatchedOff v = true.

Section footprint.
Context {A : AEAD} {S : StateJSON}.

Record footprint (s s' : St) : Prop := {
  fp_name : VolumeName (vb s') = VolumeName (vb s);
  fp_num : ObjectNum (vb s) <= ObjectNum (vb s');
  fp_gc : no_collect (vb s) -> no_collect (vb s');
  fp_inh : inh_view (vb s') = inh_view (vb s);
  fp_other : forall k, k <> config_key (vb s) -> k <> live_key (vb s) -> (forall i, k <> chunk_key (vb s) i) ->
    objects (world s') !! k = objects (world s) !! k;
  fp_low : no_collect (vb s) -> forall i, 0 <= i < ObjectNum (vb s) ->
    objects (world s') !! chunk_key (vb s) i = objects (world s) !! chunk_key (vb s) i
}.

Lemma footprint_trans s1 s2 s3 : footprint s1 s2 -> footprint s2 s3 -> footprint s1 s3.
Proof.
  intros [N1 M1 G1 V1 O1 L1] [N2 M2 G2 V2 O2 L2]. unfold config_key, live_key, chunk_key in *. rewrite N1 in *.
  constructor; unfold config_key, live_key, chunk_key; try congruence; try lia; auto.
  - intros k H1 H2 H3. by rewrite O2, O1.
  - intros Hg i Hi. rewrite L2, L1; auto. lia.
Qed.

(** Steps that write no object. *)
Lemma footprint_vb s s' :
  VolumeName (vb s') = VolumeName (vb s) -> ObjectNum (vb s') = ObjectNum (vb s) ->
  GCEnabled (vb s') = GCEnabled (vb s) -> gcLatchedOff (vb s') = gcLatchedOff (vb s) -> inh_view (vb s') = inh_view (vb s) ->
  objects (world s') = objects (world s) -> footprint s s'.
Proof.
  intros E1 E2 E3 E4 E5 Eo. constructor; try done; [lia|unfold no_collect; by rewrite E3, E4|by rewrite Eo|by rewrite Eo].
Qed.

Lemma footprint_refl s : footprint s s.
Proof. by apply footprint_vb. Qed.

Lemma reads_footprint s s' : reads_same s s' -> footprint s s'.
Proof. intros [(u & c & E & _) [_ O]]. apply footprint_vb; rewrite ?E; done. Qed.

(** Saving the state. *)
Lemma frame_footprint s s' : state_frame s s' -> footprint s s'.
Proof.
  intros [(a & b & c & E) _ O]. constructor; rewrite ?E; try done.
  - intros k Hk _ _. by apply O.
  - intros _ i _. apply O. apply chunk_not_config.
Qed.

(** ** What a write leaves alone on the machine *)

(** The block map, and what the log and the checkpoints are written under. *)
Definition log_view (v : VB) :=
  (BlocksToObject v, VolumeName v, BaseDir v, (wal_BaseDir (vb_WAL v), WallNum (vb_WAL v), WALMagic (vb_WAL v)),
   (Version v, WALMagic (BlockToObjectWAL v), blockStride v), (EncryptionEnabled v, VolumeUUID v, volumeNameHash v)).

(** Writes were buffered; of the files and objects only the state may have changed. *)
Record appended (s s' : St) : Prop := {
  ap_view : log_view (vb s') = log_view (vb s);
  ap_mem : forall b, get_entry (BStore (vb s')) b <> None -> get_entry (BStore (vb s)) b <> None \/ b ∈ b_Block <$> Writes (vb s');
  ap_writes : forall x, x ∈ Writes (vb s) -> x ∈ Writes (vb s');
  ap_files : forall p, p <> config_path (vb s) -> p <> (config_path (vb s) +:+ ".tmp")%string ->
    files (world s') !! p = files (world s) !! p;
  ap_objects : forall k, k <> config_key (vb s) -> objects (world s') !! k = objects (world s) !! k
}.

Definition trail (s s' : St) : Prop := footprint s s' /\ appended s s'.

Lemma appended_trans s1 s2 s3 : appended s1 s2 -> appended s2 s3 -> appended s1 s3.
Proof.
  intros [V1 M1 W1 F1 O1] [V2 M2 W2 F2 O2].
  assert (config_path (vb s2) = config_path (vb s1)) as E.
  { unfold log_view in V1. injection V1 as _ En Eb. unfold config_path, GetVolume. by rewrite Eb, En. }
  assert (config_key (vb s2) = config_key (vb s1)) as Ek by (unfold log_view in V1; injection V1 as _ En; unfold config_key; by rewrite En).
  rewrite E in F2. rewrite Ek in O2. constructor; [congruence| |auto| |].
  - intros b Hb. destruct (M2 b Hb) as [Hb2|]; [|by right]. destruct (M1 b Hb2) as [|Hin]; [by left|right].
    apply list_elem_of_fmap in Hin as (x & -> & Hx). apply list_elem_of_fmap. eauto.
  - intros p H1 H2. by rewrite F2, F1.
  - intros k Hk. by rewrite O2, O1.
Qed.

Lemma trail_trans s1 s2 s3 : trail s1 s2 -> trail s2 s3 -> trail s1 s3.
Proof. intros [F1 A1] [F2 A2]. split; [by eapply footprint_trans|by eapply appended_trans]. Qed.

Lemma trail_refl s : trail s s.
Proof. split; [apply footprint_refl|]. constructor; auto. Qed.

Lemma reads_trail s s' : reads_same s s' -> trail s s'.
Proof.
  intros Hr. split; [by apply reads_footprint|]. destruct Hr as [(u & c & E & Hs) [F O]]. constructor; rewrite ?E; try done.
  - intros b Hb. left. by rewrite <-(same_store_entry _ u b Hs).
  - intros p _ _. by rewrite F.
  - intros k _. by rewrite O.
Qed.

Lemma frame_trail s s' : state_frame s s' -> trail s s'.
Proof.
  intros Hf. split; [by apply frame_footprint|]. destruct Hf as [(a & b & c & E) F O]. constructor; rewrite ?E; try done.
  by left.
Qed.
End footprint.
