(* ===== verification/Engine.v ===== *)
(** * Writing, flushing and draining (viperblock.go)

    [WriteAt] with its per-block read-modify-write, the write buffer, flushing
    it to the log, draining to the backend and the backpressure loop.

    A call runs to completion before the next starts; the races between a drain
    and writers or readers are in [BlockStoreRace], those between reservations
    in [Nonces]. Contexts are never cancelled. *)

From S2P Require Import Prelude Words BlockMap BlockStore Crypto Paths Volume WAL Chunk Read Checkpoint SeqNum.

Section engine.
Context {A : AEAD} {S : StateJSON}.

(** ** The write buffer *)

Definition append_write (blk : Block) (v : VB) : VB :=
  v <| Writes := Writes v ++ [blk] |>
    <| BStore := if UseBlockStore v then WriteWithSeqNum (b_Block blk) (b_Data blk) (b_SeqNum blk) (BStore v)
                 else BStore v |>.

Definition writeOneBlockLocked (b blockSize : Z) (partial : bool) (writeStart writeEnd : Z) (patch : bytes)
    : M Block :=
  do existing <- (if partial then (do r <- ReadAtCtx (u64 (b * blockSize)) blockSize; ret r.1) else ret []);
  let blockData := copy_slice (zeros blockSize) 0 blockSize existing in
  let blockData := copy_slice blockData writeStart writeEnd patch in
  do start <- reserveSeqNum 1;
  let blk := mkBlock blockData (u64 (start + 1)) b 0 blockSize in
  run modify (append_write blk);
  ret blk.

(** The part of block [b] that the request covers. *)
Definition write_range (offset endOffset blockSize b : Z) : Z * Z :=
  let blockStart := u64 (b * blockSize) in
  let blockEnd := u64 (blockStart + blockSize) in
  (if blockStart <? offset then u64 (offset - blockStart) else 0,
   if endOffset <? blockEnd then u64 (endOffset - blockStart) else blockSize).

Definition write_block (offset endOffset blockSize : Z) (data : bytes) (b : Z) : M unit :=
  let blockStart := u64 (b * blockSize) in
  let '(writeStart, writeEnd) := write_range offset endOffset blockSize b in
  let partial := (0 <? writeStart) || (writeEnd <? blockSize) in
  do blk <- writeOneBlockLocked b blockSize partial writeStart writeEnd
    (slice data (u64 (blockStart + writeStart - offset)) (u64 (blockStart + writeEnd - offset)));
  ret tt.

Definition DefaultFlushSize : Z := 64 * 1024 * 1024.

(** A trigger already pending coalesces. *)
Definition signalSizeTrigger (v : VB) : VB :=
  let flushSize := if FlushSize v =? 0 then DefaultFlushSize else FlushSize v in
  if PendingBytes v <? flushSize then v else v <| uploadTriggered := true |>.

(** ** Flushing *)

(** The [WriteWAL] loop over a copy of the buffer: how many records landed and
    the blocks they belong to. *)
Fixpoint flush_loop (write : Block -> M unit) (blocks : list Block) (flushed : gset Z) (successCount : nat)
    : M (gset Z * nat * option error) :=
  match blocks with
  | [] => ret (flushed, successCount, None)
  | block :: blocks' =>
      do r <- try (write block);
      match r with
      | Err e => ret (flushed, successCount, Some e)
      | Ok _ =>
          run modify (fun v => if UseBlockStore v
                               then v <| BStore := (MarkPending (b_Block block) (BStore v)).2 |> else v);
          flush_loop write blocks' ({[ b_Block block ]} ∪ flushed) (1 + successCount)
      end
  end.

(** Blocks whose number was flushed move from the buffer to the pending list. *)
Definition settle_flush (flushBlocks : list Block) (flushed : gset Z) (v : VB) : VB :=
  let hit b := bool_decide (b_Block b ∈ flushed) in
  v <| Writes := if decide (flushed = ∅) then Writes v
                 else List.filter (fun b => negb (hit b)) (Writes v) |>
    <| PendingBackendWrites := PendingBackendWrites v ++ List.filter hit flushBlocks |>.

Definition flushLocked : M unit :=
  do v <- get;
  let flushBlocks := Writes v in
  do res <- flush_loop WriteWAL flushBlocks ∅ 0;
  let '(flushed, successCount, _) := res in
  run modify (settle_flush flushBlocks flushed);
  if (successCount <? length flushBlocks)%nat then throw plain else ret tt.

(** One goroutine per shard; they touch different shards and different blocks,
    so running them one after the other gives the same result. *)
Fixpoint flush_shards (groups : list (list Block)) : M (gset Z * option error) :=
  match groups with
  | [] => ret (∅, None)
  | g :: groups' =>
      do res <- flush_loop WriteShardedWAL g ∅ 0;
      do rest <- flush_shards groups';
      ret (res.1.1 ∪ rest.1, match res.2 with Some e => Some e | None => rest.2 end)
  end.

Definition shard_groups (blocks : list Block) : list (list Block) :=
  (fun i => List.filter (fun b => bool_decide (getShard (b_Block b) = Z.to_nat i)) blocks)
  <$> seqZ 0 NumShards.

Definition flushLockedSharded : M unit :=
  do v <- get;
  let flushBlocks := Writes v in
  match flushBlocks with
  | [] => ret tt
  | _ =>
      do res <- flush_shards (shard_groups flushBlocks);
      run modify (settle_flush flushBlocks res.1);
      match res.2 with
      | Some e => throw e
      | None => ret tt
      end
  end.

Definition Flush : M unit :=
  do v <- get;
  if UseShardedWAL v then flushLockedSharded else flushLocked.

(** The older flush: the buffer is emptied first, the pending list is not fed. *)
Definition Flush2 : M unit :=
  do v <- get;
  let flushBlocks := Writes v in
  run modify (fun v => v <| Writes := [] |>);
  mfor flushBlocks WriteWAL.

(** ** Draining *)

(** The deferred latch of [DrainToBackendCtx]. *)
Definition latch (r : result error unit) : M unit :=
  match r with
  | Err e => run (if errors_Is e ErrNoSpace then modify (fun v => v <| backendFull := true |>) else ret tt); throw e
  | Ok _ => modify (fun v => v <| backendFull := false |>)
  end.

Definition DrainToBackendCtx (sc : Sched) : M unit :=
  do r <- try (run Flush;
               do v <- get;
               run (if UseShardedWAL v then WriteShardedWALToChunkCtx sc true else WriteWALToChunkCtx sc true);
               SaveLiveCheckpointCtx);
  latch r.

Definition maxDrainFailures : Z := 10.

(** The loop of [awaitBackpressure], at most [fuel] rounds: [true] when it
    ended, [false] when the caller is still waiting. *)
Fixpoint backpressure_loop (sc : Sched) (fuel : nat) (low drainFailures : Z) : M bool :=
  do v <- get;
  if PendingBytes v <=? low then ret true
  else
    match fuel with
    | O => ret false
    | Datatypes.S fuel' =>
        do r <- try (DrainToBackendCtx sc);
        match r with
        | Ok _ => backpressure_loop sc fuel' low 0
        | Err e =>
            if errors_Is e ErrNoSpace then throw e
            else if maxDrainFailures <=? drainFailures + 1 then throw e
            else backpressure_loop sc fuel' low (drainFailures + 1)
        end
    end.

Definition awaitBackpressure (sc : Sched) (fuel : nat) : M bool :=
  do v <- get;
  let high := maxPendingBytes v in
  if PendingBytes v <=? high then ret true
  else backpressure_loop sc fuel (high / 2) 0.

(** [nearFull] is what the backend's [NearFull] answers. *)
Definition WriteAtCtx (sc : Sched) (fuel : nat) (nearFull : bool) (offset : Z) (data : bytes) : M bool :=
  do v <- get;
  if backendFull v || nearFull then throw [ErrNoSpace]
  else if GetVolumeSize v <? offset then throw [ErrRequestTooLarge]
  else if GetVolumeSize v <? u64 (offset + blen data) then throw [ErrRequestOutOfRange]
  else if blen data =? 0 then throw [ErrRequestBufferEmpty]
  else
    let blockSize := BlockSize v in
    let startBlock := offset / blockSize in
    let endOffset := u64 (offset + blen data) in
    let endBlock := u64 (endOffset - 1) / blockSize in
    let blocks := seqZ startBlock (endBlock - startBlock + 1) in
    run mfor blocks (write_block offset endOffset blockSize data);
    run modify (fun v => signalSizeTrigger (v <| pendingBytes := pendingBytes v + Z.of_nat (length blocks) * blockSize |>));
    awaitBackpressure sc fuel.

(** ** Block-granular writes *)

(** The loop of [Write]: consecutive blocks under consecutive SeqNums. *)
Definition write_blocks (block seqNum blockSize : Z) (data : bytes) (n : Z) (v : VB) : VB :=
  fold_left (fun v i =>
    append_write (mkBlock (copy_slice (zeros blockSize) 0 blockSize (slice data (i * blockSize) (i * blockSize + blockSize)))
                    (u64 (seqNum + i)) (u64 (block + i)) 0 0) v) (seqZ 0 n) v.

(** The range checks of [Write] and [WriteBlockStore], in their order. *)
Definition check_block_request (v : VB) (block blockLen : Z) : result error unit :=
  if GetVolumeSize v <? u64 (block * BlockSize v) then Err [ErrRequestTooLarge]
  else if GetVolumeSize v <? u64 (u64 (block * BlockSize v) + blockLen) then Err [ErrRequestOutOfRange]
  else if negb (blockLen mod BlockSize v =? 0) then Err [ErrRequestBlockSize]
  else Ok tt.

Definition VB_Write (block : Z) (data : bytes) : M unit :=
  do v <- get;
  run of_result (check_block_request v block (blen data));
  let blockRequests := blen data / BlockSize v in
  do start <- reserveSeqNum blockRequests;
  modify (write_blocks block (u64 (start + 1)) (BlockSize v) data blockRequests).

(** *** The block-store variants *)

Definition write_store_block (block : Z) (data : bytes) (v : VB) (i : Z) : VB :=
  let bs := BlockSize v in
  let piece := slice data (i * bs) (i * bs + bs) in
  let '(seqNum, u) := BlockStore.Write (u64 (block + i)) piece (BStore v) in
  v <| BStore := u |>
    <| SeqNum := if seqNum <=? SeqNum v then SeqNum v else seqNum |>
    <| Writes := Writes v ++ [mkBlock (copy_slice (zeros bs) 0 bs piece) seqNum (u64 (block + i)) 0 0] |>.

Definition WriteBlockStore (block : Z) (data : bytes) : M unit :=
  do v <- get;
  run of_result (check_block_request v block (blen data));
  modify (fun v => fold_left (write_store_block block data) (seqZ 0 (blen data / BlockSize v)) v).

Definition FlushBlockStore : M unit :=
  do v <- get;
  let hotBlocks := GetHotBlocks (BStore v) in
  match hotBlocks with
  | [] => ret tt
  | _ =>
      do res <- flush_loop WriteWAL hotBlocks ∅ 0;
      let '(flushed, successCount, _) := res in
      run modify (fun v =>
        if decide (flushed = ∅) then v
        else v <| Writes := List.filter (fun b => negb (bool_decide (b_Block b ∈ flushed))) (Writes v) |>
               <| PendingBackendWrites := PendingBackendWrites v ++ hotBlocks |>);
      if (successCount <? length hotBlocks)%nat then throw plain else ret tt
  end.

Definition SyncBlockStoreFromLegacy (v : VB) : VB :=
  let u := fold_left (fun u b => WriteWithSeqNum (b_Block b) (b_Data b) (b_SeqNum b) u) (Writes v) (BStore v) in
  let u := fold_left (fun u b => (MarkPending (b_Block b) (WriteWithSeqNum (b_Block b) (b_Data b) (b_SeqNum b) u)).2)
             (PendingBackendWrites v) u in
  let u := fold_left (fun u l =>
             SetPersistedRange ((fun i => u64 (bl_StartBlock l + i)) <$> seqZ 0 (bl_NumBlocks l))
               (bl_ObjectID l) (bl_ObjectOffset l) (blockStride v)
               (repeat 0 (Z.to_nat (bl_NumBlocks l))) u) (map_to_list (BlocksToObject v)).*2 u in
  v <| BStore := SetSeqNum (SeqNum v) u |>.

Definition EnableBlockStore (v : VB) : VB := v <| UseBlockStore := true |>.
Definition DisableBlockStore (v : VB) : VB := v <| UseBlockStore := false |>.

(** [ownsWAL] *)
Definition ownsWAL (v : VB) : bool :=
  if UseShardedWAL v then List.existsb (fun f => bool_decide (f <> None)) (ShardWAL v)
  else negb (bool_decide (DB (vb_WAL v) = [])).

(** ** Hot state *)

(** [SaveHotState]; [encode] is the JSON encoder. The second result: whether
    [Writes.mu] is still read-locked when the function returns, which it is
    when the file cannot be created. *)
Definition SaveHotState (encode : list Block -> bytes) (filename : string) : M (result error unit * bool) :=
  do v <- get;
  do r <- try os_call; (* os.Create *)
  match r with
  | Err e => ret (Err e, true)
  | Ok _ =>
      run set_file filename [];
      do w <- file_append filename (encode (Writes v));
      ret (match w.2 with None => Ok tt | Some e => Err e end, false)
  end.

(** ** Reset *)

Definition Reset : M unit :=
  run modify (fun v =>
    v <| gcLatchedOff := GCEnabled v || gcLatchedOff v |>
      <| BlocksToObject := ∅ |> <| Writes := [] |> <| PendingBackendWrites := [] |>
      <| pendingBytes := 0 |> <| BStore := SetSeqNum 0 (Clear (BStore v)) |>
      <| SeqNum := 0 |> <| ObjectNum := 0 |>
      <| vb_WAL := (vb_WAL v) <| WallNum := 0 |> |>);
  run mfor (seqZ 0 NumShards) (fun i =>
    do v <- get;
    match ShardWAL v !! Z.to_nat i with
    | Some (Some _) => run try os_call; modify (set_shard i None)
    | _ => ret tt
    end);
  run modify (fun v => v <| shard_dirty := (fun _ => false) <$> shard_dirty v |>);
  modify (fun v => v <| ShardWallNum := 0 |>
                     <| BlockToObjectWAL := (BlockToObjectWAL v) <| WallNum := 0 |> |>).

End engine.
