(* ===== verification/GC.v ===== *)
(** * Chunk garbage collection (viperblock.go)

    The numbered-checkpoint floor, the snapshot-safety scan and its marker, the
    one-time reconciliation with the chunk listing, and the sweep. *)

From S2P Require Import Prelude Words BlockMap BlockStore Crypto Paths Volume WAL Chunk Read Checkpoint SeqNum Engine.

(** [encoding/json] as the snapshot code uses it; [None] is a decoding error.
    Times are Unix seconds. *)
Class ProbeJSON := {
  probe_source : bytes -> option string;       (* the SourceVolumeName field *)
  marshal_marker : string -> Z -> bytes        (* snapshotMarker *)
}.

Section gc.
Context {A : AEAD} {S : StateJSON} {P : ProbeJSON}.

(** ** The floor *)

(** The highest ObjectID of the current numbered checkpoint; [None] when there
    is no such checkpoint or it is empty. *)
Definition numberedCheckpointHighWater : M (option Z) :=
  do v <- get;
  do r <- try (backend_Read FileTypeBlockCheckpoint (WallNum (BlockToObjectWAL v)) 0 0);
  match r with
  | Err e => if errors_Is e ErrNotExist then ret None else throw e
  | Ok data =>
      do recs <- of_result (walkBlockCheckpoint data (Version v) (WALMagic (BlockToObjectWAL v)));
      ret (max_object recs)
  end.

Definition MaxUint64 : Z := 2 ^ 64 - 1.

Definition ensureGCFloor : M Z :=
  do v <- get;
  if gcFloorReady v then ret (gcFloor v)
  else
    do r <- try numberedCheckpointHighWater;
    match r with
    | Err _ => ret MaxUint64
    | Ok high =>
        let floor := match high with Some h => u64 (h + 1) | None => 0 end in
        run modify (fun v => v <| gcFloor := floor |> <| gcFloorReady := true |>);
        ret floor
    end.

(** ** Snapshots of this volume *)

Definition snapPrefix : string := "snap-".

(** [false] as soon as one snapshot names this volume. *)
Fixpoint scan_names (volume : string) (names : list string) : M bool :=
  match names with
  | [] => ret true
  | name :: names' =>
      do r <- try (backend_ReadFrom name FileTypeConfig 0 0 0);
      match r with
      | Err e => if errors_Is e ErrNotExist then scan_names volume names' else throw e
      | Ok configData =>
          match probe_source (StateBody configData) with
          | None => throw plain
          | Some source => if bool_decide (source = volume) then ret false else scan_names volume names'
          end
      end
  end.

Definition scanForOwnSnapshots : M bool :=
  do v <- get;
  do names <- backend_ListPrefixes snapPrefix;
  scan_names (VolumeName v) names.

Definition writeSnapshotMarker (snapshotID : string) : M unit :=
  do t <- get_now;
  backend_Write FileTypeSnapshotMarker 0 [] (marshal_marker snapshotID t).

(** [None] when no snapshot was ever taken. *)
Definition readSnapshotMarker : M (option bytes) :=
  do r <- try (backend_Read FileTypeSnapshotMarker 0 0 0);
  match r with
  | Err e => if errors_Is e ErrNotExist then ret None else throw e
  | Ok data => ret (Some data)
  end.

Definition ensureGCSnapshotSafe : M bool :=
  do v <- get;
  if gcLatchedOff v then ret false
  else if gcSnapshotChecked v then ret (gcSnapshotSafe v)
  else
    do baseline <- try readSnapshotMarker;
    match baseline with
    | Err _ => ret false
    | Ok b =>
        do safe <- try scanForOwnSnapshots;
        match safe with
        | Err _ => ret false
        | Ok ok =>
            run modify (fun v => v <| gcMarkerBaseline := b |> <| gcSnapshotSafe := ok |> <| gcSnapshotChecked := true |>);
            ret ok
        end
    end.

(** [bytes.Equal]: nil and the empty slice are equal. *)
Definition bytes_Equal (a b : option bytes) : bool := bool_decide (default [] a = default [] b).

Definition gcSnapshotMarkerMoved : M bool :=
  do r <- try readSnapshotMarker;
  match r with
  | Err _ => ret true
  | Ok current =>
      do v <- get;
      let moved := negb (bytes_Equal current (gcMarkerBaseline v)) in
      run modify (fun v => v <| gcLatchedOff := moved || gcLatchedOff v |>);
      ret moved
  end.

(** ** Sweeping *)

(** Untracked chunks of the listing enter the counts at zero. *)
Definition track_chunks (keys : list string) (g : gmap Z Z) : gmap Z Z :=
  fold_left (fun g key =>
    match parseChunkObjectID key with
    | None => g
    | Some id => match g !! id with Some _ => g | None => <[id := 0]> g end
    end) keys g.

Definition reconcileChunksOnce : M unit :=
  do v <- get;
  if gcReconciled v then ret tt
  else
    do r <- try (backend_ListObjects (VolumeName v +:+ "/chunks/"));
    match r with
    | Err _ => ret tt
    | Ok keys => modify (fun v => v <| gcRefcount := track_chunks keys (gcRefcount v) |> <| gcReconciled := true |>)
    end.

Definition gc_candidates (v : VB) (floor watermark : Z) : list Z :=
  (filter (fun p : Z * Z => p.2 = 0 /\ floor <= p.1 /\ p.1 < watermark) (map_to_list (gcRefcount v))).*1.

Fixpoint deleteChunkObjects (ids : list Z) : M Z :=
  match ids with
  | [] => ret 0
  | id :: ids' =>
      do r <- try (backend_Delete FileTypeChunk id);
      let gone := match r with Ok _ => true | Err e => errors_Is e ErrNotExist end in
      run modify (fun v => if gone then v <| gcRefcount := delete id (gcRefcount v) |> else v);
      do swept <- deleteChunkObjects ids';
      ret (if gone then 1 + swept else swept)
  end.

Definition sweepChunks : M unit :=
  do v <- get;
  if negb (GCEnabled v) then ret tt
  else
    do safe <- ensureGCSnapshotSafe;
    if negb safe then ret tt
    else
      run reconcileChunksOnce;
      do floor <- ensureGCFloor;
      do v <- get;
      let candidates := gc_candidates v floor (ObjectNum v) in
      do moved <- gcSnapshotMarkerMoved;
      if moved : bool then ret tt
      else run deleteChunkObjects candidates; ret tt.

Definition runGCSweep (sc : Sched) : M unit :=
  do r <- try (DrainToBackendCtx sc);
  match r with
  | Err _ => ret tt
  | Ok _ => sweepChunks
  end.

End gc.
