(* ===== verification/Background.v ===== *)
(** * The background goroutines (viperblock.go)

    Three goroutines work beside the requests of a volume: the log syncer, the
    chunk uploader and the garbage collector. They are started and stopped
    under [bgMu]; a stop closes the worker's stop channel and waits, with the
    mutex held, for the worker to close its done channel. This file models the
    Start and Stop functions and the select loops as events on a state that
    any number of callers and workers interleave on. *)

From S2P Require Import Prelude Words BlockMap BlockStore Crypto Paths Volume WAL Chunk Read Checkpoint SeqNum Engine GC.

(** ** State *)

Inductive kind := Syncer | Uploader | Collector.

#[global] Instance kind_eq_dec : EqDecision kind.
Proof. solve_decision. Defined.

(** A live goroutine: the start that made its channels and ticker, which it
    holds as locals, and whether it is inside a tick. *)
Record worker := mkWorker { w_gen : nat; w_busy : bool }.

(** The fields of one goroutine in [VB], and what was made for it so far. A
    start makes a stop channel, a done channel and a ticker; they are named by
    the number of the start. *)
Record service := mkService {
  s_stop : option nat;            (* walSyncStop, chunkUploadStop, gcStop *)
  s_done : option nat;            (* walSyncDone, ... *)
  s_ticker : option nat;          (* walSyncTicker, ... *)
  s_made : nat;
  stop_closed : gset nat;
  done_closed : gset nat;
  ticker_stopped : gset nat;
  s_workers : list worker
}.

Record BG := mkBG {
  WALSyncInterval : Z;
  ChunkUploadInterval : Z;
  GCInterval : Z;
  walSync : service;
  chunkUpload : service;
  gcService : service;
  bgMu : option kind;             (* held by a Stop that waits for this worker *)
  panicked : bool                 (* a closed channel was closed again *)
}.

Definition svc (k : kind) (b : BG) : service :=
  match k with Syncer => walSync b | Uploader => chunkUpload b | Collector => gcService b end.
Definition set_svc (k : kind) (x : service) (b : BG) : BG :=
  match k with
  | Syncer => b <| walSync := x |>
  | Uploader => b <| chunkUpload := x |>
  | Collector => b <| gcService := x |>
  end.

Definition service0 : service := mkService None None None 0 ∅ ∅ ∅ [].

(** ** Start and Stop *)

(** The part of a Start function under [bgMu]: nothing when the worker runs,
    otherwise new channels and a goroutine. *)
Definition start_service (x : service) : service :=
  match s_stop x with
  | Some _ => x
  | None =>
      let g := s_made x in
      x <| s_stop := Some g |> <| s_done := Some g |> <| s_ticker := Some g |> <| s_made := S g |>
        <| s_workers := s_workers x ++ [mkWorker g false] |>
  end.

Definition StartWALSyncer (b : BG) : BG :=
  if WALSyncInterval b <=? 0 then b else set_svc Syncer (start_service (walSync b)) b.

Definition StartChunkUploader (b : BG) : BG :=
  if ChunkUploadInterval b <=? 0 then b else set_svc Uploader (start_service (chunkUpload b)) b.

Definition StartChunkGC (GCEnabled : bool) (b : BG) : BG :=
  if negb GCEnabled || (GCInterval b <=? 0) then b else set_svc Collector (start_service (gcService b)) b.

Definition Start (k : kind) (v : VB) (b : BG) : BG :=
  match k with
  | Syncer => StartWALSyncer b
  | Uploader => StartChunkUploader b
  | Collector => StartChunkGC (GCEnabled v) b
  end.

(** A Stop function up to its receive from the done channel: it returns when
    the worker does not run, otherwise it closes the stop channel and keeps
    the mutex. *)
Definition stop_begin (k : kind) (b : BG) : BG :=
  match s_stop (svc k b) with
  | None => b
  | Some g =>
      if decide (g ∈ stop_closed (svc k b)) then b <| panicked := true |>
      else (set_svc k ((svc k b) <| stop_closed := {[g]} ∪ stop_closed (svc k b) |>) b) <| bgMu := Some k |>
  end.

(** The rest of it. *)
Definition clear_service (x : service) : service :=
  x <| s_stop := None |> <| s_done := None |> <| s_ticker := None |>.

Definition stop_end (k : kind) (b : BG) : BG :=
  let b := set_svc k (clear_service (svc k b)) b in
  let b := match k with
           | Uploader => set_svc Collector ((gcService b) <| s_ticker := None |>) b (* vb.gcTicker = nil *)
           | _ => b
           end in
  b <| bgMu := None |>.

(** The Stop functions, each as its two parts. *)
Definition StopWALSyncer : (BG -> BG) * (BG -> BG) := (stop_begin Syncer, stop_end Syncer).
Definition StopChunkUploader : (BG -> BG) * (BG -> BG) := (stop_begin Uploader, stop_end Uploader).
Definition StopChunkGC : (BG -> BG) * (BG -> BG) := (stop_begin Collector, stop_end Collector).

Definition Stop (k : kind) : (BG -> BG) * (BG -> BG) :=
  match k with Syncer => StopWALSyncer | Uploader => StopChunkUploader | Collector => StopChunkGC end.

Lemma Stop_eq k : Stop k = (stop_begin k, stop_end k).
Proof. by destruct k. Qed.

Section workers.
Context {A : AEAD} {S : StateJSON} {P : ProbeJSON}.

(** ** The select loops *)

Definition sync_wal : M unit :=
  do v <- get;
  if UseShardedWAL v then syncShardedWALIfDirty else syncWALIfDirty.

(** What a worker does on a tick; errors are logged. The work of a tick is one
    step here: nothing below depends on what it does to the volume, which
    [ERequest] may change at any time. How a sweep and a drain that overlap
    affect each other is the subject of Sweep.v. *)
Definition tick (sc : Sched) (k : kind) : M unit :=
  match k with
  | Syncer => sync_wal
  | Uploader => run try (DrainToBackendCtx sc); ret tt
  | Collector => runGCSweep sc
  end.

(** What it does when its stop channel is closed. *)
Definition final (k : kind) : M unit :=
  match k with Syncer => sync_wal | _ => ret tt end.

Definition set_busy (d : bool) (i : nat) (x : service) : service :=
  x <| s_workers := alter (fun w => mkWorker (w_gen w) d) i (s_workers x) |>.

(** [defer close(done)] and [defer ticker.Stop()], and the goroutine is gone. *)
Definition leave (i : nat) (g : nat) (x : service) : service :=
  x <| s_workers := delete i (s_workers x) |> <| done_closed := {[g]} ∪ done_closed x |>
    <| ticker_stopped := {[g]} ∪ ticker_stopped x |>.

(** ** Events *)

(** Callers and workers: a Start, a Stop in its two parts, worker [i] of a
    kind taking its ticker's case, the trigger's case, finishing a tick, or
    taking the stop case; and anything else that happens to the volume. *)
Inductive event :=
| EStart (k : kind)
| EStop (k : kind)
| EStopped (k : kind)
| ETick (k : kind) (i : nat)
| ETrigger (i : nat)
| EWork (k : kind) (i : nat)
| EExit (k : kind) (i : nat)
| ERequest (s' : St).

(** [None]: the event cannot happen, its goroutine is blocked. *)
Definition occur (sc : Sched) (e : event) (b : BG) (s : St) : option (BG * St) :=
  match e with
  | EStart k => match bgMu b with None => Some (Start k (vb s) b, s) | Some _ => None end
  | EStop k => match bgMu b with None => Some ((Stop k).1 b, s) | Some _ => None end
  | EStopped k =>
      if decide (bgMu b = Some k) then
        match s_done (svc k b) with
        | Some g => if decide (g ∈ done_closed (svc k b)) then Some ((Stop k).2 b, s) else None
        | None => None
        end
      else None
  | ETick k i =>
      match s_workers (svc k b) !! i with
      | Some (mkWorker g false) =>
          if decide (g ∈ ticker_stopped (svc k b)) then None
          else Some (set_svc k (set_busy true i (svc k b)) b, s)
      | _ => None
      end
  | ETrigger i =>
      match s_workers (chunkUpload b) !! i with
      | Some (mkWorker g false) =>
          if uploadTriggered (vb s)
          then Some (set_svc Uploader (set_busy true i (chunkUpload b)) b,
                     mkSt ((vb s) <| uploadTriggered := false |>) (world s))
          else None
      | _ => None
      end
  | EWork k i =>
      match s_workers (svc k b) !! i with
      | Some (mkWorker g true) => Some (set_svc k (set_busy false i (svc k b)) b, (tick sc k s).2)
      | _ => None
      end
  | EExit k i =>
      match s_workers (svc k b) !! i with
      | Some (mkWorker g false) =>
          if decide (g ∈ stop_closed (svc k b)) then
            let b' := set_svc k (leave i g (svc k b)) b in
            Some (b' <| panicked := panicked b || bool_decide (g ∈ done_closed (svc k b)) |>, (final k s).2)
          else None
      | _ => None
      end
  | ERequest s' => Some (b, s')
  end.

Fixpoint occur_all (sc : Sched) (es : list event) (b : BG) (s : St) : option (BG * St) :=
  match es with
  | [] => Some (b, s)
  | e :: es' => match occur sc e b s with
                | Some (b', s') => occur_all sc es' b' s'
                | None => None
                end
  end.

(** ** The invariant *)

(** The life of a service; [held]: a Stop waits for it, with the mutex. *)
Inductive svc_ok (held : Prop) (x : service) : Prop :=
| ok_idle : ~ held -> s_stop x = None -> s_done x = None -> s_workers x = [] -> svc_ok held x
| ok_running g busy :
    ~ held -> s_stop x = Some g -> s_done x = Some g -> s_workers x = [mkWorker g busy] ->
    g ∉ stop_closed x -> g ∉ done_closed x -> svc_ok held x
| ok_stopping g busy :
    held -> s_stop x = Some g -> s_done x = Some g -> s_workers x = [mkWorker g busy] ->
    g ∈ stop_closed x -> g ∉ done_closed x -> svc_ok held x
| ok_left g :
    held -> s_stop x = Some g -> s_done x = Some g -> s_workers x = [] ->
    g ∈ done_closed x -> svc_ok held x.

(** Nothing is closed before it is made. *)
Definition made_first (x : service) : Prop :=
  (forall g, g ∈ stop_closed x -> (g < s_made x)%nat) /\ (forall g, g ∈ done_closed x -> (g < s_made x)%nat) /\
  (forall g, s_stop x = Some g -> (g < s_made x)%nat).

Definition bg_inv (b : BG) : Prop :=
  panicked b = false /\ forall k, svc_ok (bgMu b = Some k) (svc k b) /\ made_first (svc k b).

Lemma svc_set k k' x b : svc k (set_svc k' x b) = if decide (k = k') then x else svc k b.
Proof. by destruct k, k'. Qed.
Lemma set_svc_rest k x b : bgMu (set_svc k x b) = bgMu b /\ panicked (set_svc k x b) = panicked b.
Proof. by destruct k. Qed.

(** One service changes, the others and the mutex do not. *)
Lemma inv_set k x b : bg_inv b -> svc_ok (bgMu b = Some k) x -> made_first x -> bg_inv (set_svc k x b).
Proof.
  intros [Hp Hk] Hx Hm. destruct (set_svc_rest k x b) as [Em Ep]. split; [by rewrite Ep|].
  intros k'. rewrite Em, svc_set. destruct (decide (k' = k)) as [->|]; [done|apply Hk].
Qed.

Lemma svc_ok_ext (h h' : Prop) x : (h <-> h') -> svc_ok h x -> svc_ok h' x.
Proof. intros E []; [eapply ok_idle|eapply ok_running|eapply ok_stopping|eapply ok_left]; eauto; tauto. Qed.

Lemma start_ok held x : svc_ok held x -> made_first x -> ~ held -> svc_ok held (start_service x) /\ made_first (start_service x).
Proof.
  intros Hx Hm Hh. pose proof Hm as (H1 & H2 & H3). unfold start_service. destruct (s_stop x) eqn:Es; [done|].
  split.
  - destruct Hx as [? ? ? Hw| | |]; try congruence. rewrite Hw.
    eapply (ok_running held _ (s_made x) false); try done; intros Hin; [apply H1 in Hin|apply H2 in Hin]; lia.
  - split; [|split]; intros g Hg; [apply H1 in Hg|apply H2 in Hg|injection Hg as <-]; destruct x; cbn in *; unfold constant; lia.
Qed.

Lemma busy_ok held x d i g d0 : svc_ok held x -> s_workers x !! i = Some (mkWorker g d0) ->
  svc_ok held (set_busy d i x) /\ (made_first x -> made_first (set_busy d i x)).
Proof.
  intros Hx Hi. split; [|done].
  destruct Hx as [? ? ? Hw|g' bz ? ? ? Hw|g' bz ? ? ? Hw|g' ? ? ? Hw]; rewrite Hw in Hi; try done; destruct i; try done;
    injection Hi as <- <-; [eapply (ok_running _ _ g' d)|eapply (ok_stopping _ _ g' d)]; try done; cbn; by rewrite Hw.
Qed.

Lemma begin_inv k b : bg_inv b -> bgMu b = None -> bg_inv (stop_begin k b).
Proof.
  intros Hi Hm. pose proof Hi as [Hp Hk]. destruct (Hk k) as [Hx Hmf]. pose proof Hmf as (H1 & H2 & H3). unfold stop_begin.
  destruct (s_stop (svc k b)) as [g|] eqn:Es; [|done].
  destruct Hx as [| g' bz _ Hs Hd Hw Hc Hc'| |]; try congruence. assert (g' = g) as -> by congruence.
  rewrite decide_False by done.
  set (x := (svc k b) <| stop_closed := _ |>).
  split; [by destruct k|]. intros k'. destruct (decide (k' = k)) as [->|Hne].
  - assert (svc k ((set_svc k x b) <| bgMu := Some k |>) = x) as -> by (by destruct k). split.
    + eapply (ok_stopping _ _ g bz); try done. change (g ∈ {[g]} ∪ stop_closed (svc k b)). set_solver.
    + split; [|exact (proj2 Hmf)]. intros g' Hg'. change (g' ∈ {[g]} ∪ stop_closed (svc k b)) in Hg'.
      change (s_made x) with (s_made (svc k b)). apply elem_of_union in Hg' as [->%elem_of_singleton|?]; auto.
  - assert (svc k' ((set_svc k x b) <| bgMu := Some k |>) = svc k' b) as -> by (by destruct k, k').
    destruct (Hk k') as [Hx' Hm']. split; [|done]. eapply svc_ok_ext; [|exact Hx']. rewrite Hm. split; [done|]. intros [= ->]. done.
Qed.

Lemma end_inv k b g : bg_inv b -> bgMu b = Some k -> s_done (svc k b) = Some g -> g ∈ done_closed (svc k b) ->
  bg_inv (stop_end k b) /\ s_workers (svc k (stop_end k b)) = [].
Proof.
  intros [Hp Hk] Hm Hg Hc. destruct (Hk k) as [Hx (H1 & H2 & H3)].
  assert (s_workers (svc k b) = []) as Hw.
  { destruct Hx as [| | |]; try congruence; try done. }
  assert (forall k', s_workers (svc k' (stop_end k b)) = s_workers (svc k' b) /\
    stop_closed (svc k' (stop_end k b)) = stop_closed (svc k' b) /\ done_closed (svc k' (stop_end k b)) = done_closed (svc k' b) /\
    s_made (svc k' (stop_end k b)) = s_made (svc k' b) /\
    s_stop (svc k' (stop_end k b)) = (if decide (k' = k) then None else s_stop (svc k' b)) /\
    s_done (svc k' (stop_end k b)) = (if decide (k' = k) then None else s_done (svc k' b))) as Hs by (by destruct k, k').
  assert (panicked (stop_end k b) = panicked b /\ bgMu (stop_end k b) = None) as [Ep Em] by (by destruct k).
  split; [|by rewrite (proj1 (Hs k))]. split; [by rewrite Ep|]. intros k'.
  destruct (Hs k') as (Ew & Ec & Ed & En & Est & Edn). destruct (Hk k') as [Hx' (M1 & M2 & M3)].
  destruct (decide (k' = k)) as [->|Hne].
  - split; [|split; [|split]; rewrite ?Ec, ?Ed, ?En, ?Est; done].
    eapply ok_idle; [by rewrite Em|done|done|by rewrite Ew].
  - split; [|split; [|split]; rewrite ?Ec, ?Ed, ?En, ?Est; done].
    destruct Hx' as [| g' bz| |]; try congruence; rewrite Em; [eapply ok_idle|eapply (ok_running _ _ g' bz)]; congruence.
Qed.

Lemma leave_inv k i g b : bg_inv b -> s_workers (svc k b) !! i = Some (mkWorker g false) -> g ∈ stop_closed (svc k b) ->
  bg_inv (set_svc k (leave i g (svc k b)) b) /\ g ∉ done_closed (svc k b).
Proof.
  intros Hi Hw Hc. pose proof Hi as [Hp Hk]. destruct (Hk k) as [Hx (H1 & H2 & H3)].
  destruct Hx as [? ? ? Hw'|g' bz ? ? ? Hw'|g' bz Hh Hs Hd Hw' ? Hn|g' ? ? ? Hw']; rewrite Hw' in Hw; try done; destruct i; try done;
    injection Hw as <- ->; [done|]. split; [|done].
  apply inv_set; [done| |].
  - eapply (ok_left _ _ g'); try done.
    + change (delete 0%nat (s_workers (svc k b)) = []). by rewrite Hw'.
    + change (g' ∈ {[g']} ∪ done_closed (svc k b)). set_solver.
  - split; [done|split; [|done]]. intros g Hg. change (g ∈ {[g']} ∪ done_closed (svc k b)) in Hg.
    change (s_made (leave 0 g' (svc k b))) with (s_made (svc k b)). apply elem_of_union in Hg as [->%elem_of_singleton|?]; auto.
Qed.

Lemma occur_inv sc e b s b' s' : bg_inv b -> occur sc e b s = Some (b', s') -> bg_inv b'.
Proof.
  intros Hi. pose proof Hi as [Hp Hk]. destruct e as [k|k|k|k i|i|k i|k i|s1]; cbn [occur]; rewrite ?Stop_eq; cbn [fst snd].
  - destruct (bgMu b) eqn:Hm; [done|]. intros [= <- <-].
    assert (forall k', bg_inv (set_svc k' (start_service (svc k' b)) b)) as Hst.
    { intros k'. destruct (Hk k') as [Hx Hmf]. destruct (start_ok _ _ Hx Hmf) as [? ?]; [congruence|]. apply inv_set; [done| |done]. by rewrite Hm. }
    destruct k; cbn; unfold StartWALSyncer, StartChunkUploader, StartChunkGC.
    + destruct (_ <=? 0); [done|]. apply (Hst Syncer).
    + destruct (_ <=? 0); [done|]. apply (Hst Uploader).
    + destruct (_ || _); [done|]. apply (Hst Collector).
  - destruct (bgMu b) eqn:Hm; [done|]. intros [= <- <-]. by apply begin_inv.
  - destruct (decide _) as [Hm|]; [|done]. destruct (s_done (svc k b)) as [g|] eqn:Hd; [|done].
    destruct (decide _) as [Hc|]; [|done]. intros [= <- <-]. by eapply end_inv.
  - destruct (s_workers (svc k b) !! i) as [[g []]|] eqn:Hw; try done. destruct (decide _); [done|]. intros [= <- <-].
    destruct (busy_ok _ _ true _ _ _ (proj1 (Hk k)) Hw) as [? ?]. apply inv_set; [done|done|apply H0, Hk].
  - destruct (s_workers (chunkUpload b) !! i) as [[g []]|] eqn:Hw; try done. destruct (uploadTriggered _); [|done]. intros [= <- <-].
    destruct (busy_ok _ _ true _ _ _ (proj1 (Hk Uploader)) Hw) as [? ?]. apply (inv_set Uploader); [done|done|apply H0, (Hk Uploader)].
  - destruct (s_workers (svc k b) !! i) as [[g []]|] eqn:Hw; try done. intros [= <- <-].
    destruct (busy_ok _ _ false _ _ _ (proj1 (Hk k)) Hw) as [? ?]. apply inv_set; [done|done|apply H0, Hk].
  - destruct (s_workers (svc k b) !! i) as [[g []]|] eqn:Hw; try done. destruct (decide _) as [Hc|]; [|done]. intros [= <- <-].
    destruct (leave_inv k i g b Hi Hw Hc) as [[Hp' Hk'] Hn]. rewrite bool_decide_eq_false_2, orb_false_r by done. split; [done|].
    intros k'. specialize (Hk' k'). by destruct k, k'.
  - by intros [= <- <-].
Qed.

Lemma occur_all_inv sc es : forall b s b' s', bg_inv b -> occur_all sc es b s = Some (b', s') -> bg_inv b'.
Proof.
  induction es as [|e es IH]; intros b s b' s' Hi; cbn; [by intros [= <- <-]|].
  destruct (occur sc e b s) as [[b1 s1]|] eqn:E; [|done]. apply IH. by eapply occur_inv.
Qed.

(** ** Stopping *)

(** The mutex is held while, and only while, a Stop waits. *)
Lemma held_service b k : bg_inv b -> bgMu b = Some k ->
  exists g, s_done (svc k b) = Some g /\ s_stop (svc k b) = Some g /\
    ((exists busy, s_workers (svc k b) = [mkWorker g busy] /\ g ∈ stop_closed (svc k b)) \/
     (s_workers (svc k b) = [] /\ g ∈ done_closed (svc k b))).
Proof.
  intros [_ Hk] Hm. destruct (proj1 (Hk k)) as [|g bz|g bz|g]; try congruence; exists g; split; [done| |done|]; (split; [done|]).
  - left. eauto.
  - right. eauto.
Qed.

Lemma occur_work sc k b s g : s_workers (svc k b) = [mkWorker g true] ->
  occur sc (EWork k 0) b s = Some (set_svc k (set_busy false 0 (svc k b)) b, (tick sc k s).2).
Proof. intros Hw. cbn. by rewrite Hw. Qed.

Lemma occur_exit sc k b s g : bg_inv b -> bgMu b = Some k -> s_workers (svc k b) = [mkWorker g false] ->
  exists b', occur sc (EExit k 0) b s = Some (b', (final k s).2) /\ bgMu b' = Some k /\ s_workers (svc k b') = [].
Proof.
  intros Hi Hm Hw. destruct (held_service b k Hi Hm) as (g' & Hd & _ & [(bz & Hw' & Hc)|[Hw' _]]); [|congruence].
  assert (g' = g) as -> by congruence. assert (s_workers (svc k b) !! 0%nat = Some (mkWorker g false)) as Hw0 by (by rewrite Hw).
  cbn [occur]. rewrite Hw0, decide_True by done.
  eexists. split; [done|]. split; [by destruct k|].
  transitivity (s_workers (leave 0 g (svc k b))); [by destruct k|].
  change (delete 0%nat (s_workers (svc k b)) = []). by rewrite Hw.
Qed.

Lemma occur_stopped sc k b s : bg_inv b -> bgMu b = Some k -> s_workers (svc k b) = [] ->
  occur sc (EStopped k) b s = Some (stop_end k b, s).
Proof.
  intros Hi Hm Hw. destruct (held_service b k Hi Hm) as (g & Hd & _ & [(bz & Hw' & Hc)|[_ Hc]]); [congruence|].
  cbn [occur]. rewrite Stop_eq, decide_True by done. rewrite Hd. by rewrite decide_True by done.
Qed.

(** The steps that are left when a Stop waits. *)
Definition wind_up (k : kind) (b : BG) : list event :=
  match s_workers (svc k b) with
  | [] => [EStopped k]
  | w :: _ => (if w_busy w then [EWork k 0] else []) ++ [EExit k 0; EStopped k]
  end.

(** What they do to the volume: finish the tick, then the final work. *)
Definition wind_up_work (sc : Sched) (k : kind) (b : BG) : M unit :=
  match s_workers (svc k b) with
  | [] => ret tt
  | w :: _ => run try (if w_busy w then tick sc k else ret tt); final k
  end.

Lemma wind_up_stops sc k b s : bg_inv b -> bgMu b = Some k ->
  exists b', occur_all sc (wind_up k b) b s = Some (b', (wind_up_work sc k b s).2) /\
    bgMu b' = None /\ s_workers (svc k b') = [].
Proof.
  intros Hi Hm. unfold wind_up, wind_up_work.
  assert (forall b1 s1, bg_inv b1 -> bgMu b1 = Some k -> s_workers (svc k b1) = [] ->
    exists b', occur_all sc [EStopped k] b1 s1 = Some (b', s1) /\ bgMu b' = None /\ s_workers (svc k b') = []) as Hend.
  { intros b1 s1 Hi1 Hm1 Hw1. cbn [occur_all]. rewrite occur_stopped by done. eexists. split; [done|]. split; [by destruct k|].
    destruct (held_service b1 k Hi1 Hm1) as (g & Hd & _ & [(bz & Hw' & Hc)|[_ Hc]]); [congruence|]. by eapply end_inv. }
  assert (forall b1 s1 g, bg_inv b1 -> bgMu b1 = Some k -> s_workers (svc k b1) = [mkWorker g false] ->
    exists b', occur_all sc [EExit k 0; EStopped k] b1 s1 = Some (b', (final k s1).2) /\ bgMu b' = None /\ s_workers (svc k b') = []) as Hexit.
  { intros b1 s1 g Hi1 Hm1 Hw1. destruct (occur_exit sc k b1 s1 g Hi1 Hm1 Hw1) as (b2 & E & Hm2 & Hw2).
    cbn [occur_all]. rewrite E. apply Hend; [by eapply occur_inv|done|done]. }
  destruct (held_service b k Hi Hm) as (g & Hd & _ & [(bz & Hw & Hc)|[Hw Hc]]); rewrite Hw; [|by apply Hend].
  cbn [w_busy]. destruct bz; [|by apply (Hexit b s g)].
  cbn [app]. change (occur_all sc [EWork k 0; EExit k 0; EStopped k] b s) with
    (match occur sc (EWork k 0) b s with Some (b', s') => occur_all sc [EExit k 0; EStopped k] b' s' | None => None end).
  rewrite (occur_work sc k b s g Hw). pose proof (occur_inv sc (EWork k 0) b s _ _ Hi (occur_work sc k b s g Hw)) as Hi1.
  destruct (Hexit _ (tick sc k s).2 g Hi1) as (b' & E & H1 & H2).
  - by destruct k.
  - rewrite svc_set, decide_True by done. change (alter (fun w => mkWorker (w_gen w) false) 0%nat (s_workers (svc k b)) = [mkWorker g false]). by rewrite Hw.
  - exists b'. split; [|done]. rewrite E. unfold bind, try. by destruct (tick sc k s).
Qed.

End workers.
