(* ===== verification/Snapshot.v ===== *)
(** * Snapshots and clones (snapshot.go)

    Freezing the block map of a volume under a snapshot's own keys, the flat
    section with the blocks a clone inherits, and opening a volume on top of a
    snapshot. *)

From S2P Require Import Prelude Words BlockMap Extents BlockStore Crypto Paths Volume WAL Chunk Read Checkpoint SeqNum Engine GC.
From Stdlib Require Import Strings.Byte.
From Stdlib Require Strings.String.

Record SnapshotState := mkSnapshotState {
  ss_SnapshotID : string;
  ss_SourceVolumeName : string;
  ss_SeqNum : Z;
  ss_ObjectNum : Z;
  ss_BlockSize : Z;
  ss_ObjBlockSize : Z;
  ss_BlockCount : Z;
  ss_CreatedAt : Z;
  ss_SourceVolumeUUID : string;
  ss_SourceVolumeNameHash : string;
  ss_StateSeqNum : Z;
  ss_HasFlatSection : bool
}.

(** [encoding/json] on SnapshotState, and the peek of the encrypted open path. *)
Class SnapJSON := {
  marshal_snap : SnapshotState -> bytes;
  unmarshal_snap : bytes -> option SnapshotState;
  peek_snap : bytes -> option (string * string * Z)
}.

(** ** encoding/hex *)

Definition hex_digit (n : Z) : Ascii.ascii :=
  Ascii.ascii_of_N (Z.to_N (if n <? 10 then 48 + n else 87 + n)).
Definition hex_val (c : Ascii.ascii) : option Z :=
  let n := Z.of_N (Ascii.N_of_ascii c) in
  if (48 <=? n) && (n <=? 57) then Some (n - 48)
  else if (97 <=? n) && (n <=? 102) then Some (n - 87)
  else if (65 <=? n) && (n <=? 70) then Some (n - 55)
  else None.

Fixpoint hex_encode (bs : bytes) : string :=
  match bs with
  | [] => EmptyString
  | b :: bs' => String (hex_digit (Z_of_byte b / 16)) (String (hex_digit (Z_of_byte b mod 16)) (hex_encode bs'))
  end.
Fixpoint hex_decode (s : string) : option bytes :=
  match s with
  | EmptyString => Some []
  | String a (String b s') =>
      match hex_val a, hex_val b, hex_decode s' with
      | Some x, Some y, Some rest => Some (byte_of_Z (16 * x + y) :: rest)
      | _, _, _ => None
      end
  | String _ EmptyString => None
  end.

(** Conversions between a Go string and its bytes. *)
Definition str_bytes (s : string) : bytes := String.list_byte_of_string s.
Definition bytes_str (b : bytes) : string := String.string_of_list_byte b.

(** ** The flat section *)

Definition flatSectionMagic : bytes := lit "FLAT".

Record sourceGroup := mkSource {
  sg_name : string;
  sg_uuid : bytes;
  sg_nameHash : bytes;
  sg_blocks : list BlockLookup
}.

(** Every block of the volume's own extents. *)
Definition own_seen (m : gmap Z BlockLookup) : gset Z :=
  list_to_set (List.concat ((fun bl => (fun i => u64 (bl_StartBlock bl + i)) <$> seqZ 0 (bl_NumBlocks bl))
                              <$> (map_to_list m).*2)).

(** The entries of a layer that no nearer layer has, and the grown seen-set. *)
Definition take_layer (seen : gset Z) (m : gmap Z BlockLookup) : list BlockLookup * gset Z :=
  fold_left (fun acc (p : Z * BlockLookup) =>
    if decide (p.1 ∈ acc.2) then acc else (acc.1 ++ [p.2], {[ p.1 ]} ∪ acc.2))
    (map_to_list m) ([], seen).

Fixpoint take_ancestors (seen : gset Z) (ancs : list snapshotAncestor) : list sourceGroup :=
  match ancs with
  | [] => []
  | a :: ancs' =>
      let '(bls, seen') := take_layer seen (anc_blocks a) in
      mkSource (anc_sourceVolumeName a) (anc_sourceVolumeUUID a) (anc_sourceVolumeNameHash a) bls
      :: take_ancestors seen' ancs'
  end.

(** The layers in priority order: the base map, then the ancestors. *)
Definition flat_sources (v : VB) (base : gmap Z BlockLookup) : list sourceGroup :=
  let '(bls, seen) := take_layer (own_seen (BlocksToObject v)) base in
  mkSource (SourceVolumeName v) (SourceVolumeUUID v) (sourceVolumeNameHash v) bls
  :: take_ancestors seen (ancestors v).

Definition encode_source (src : sourceGroup) : result error bytes :=
  let nameBytes := str_bytes (sg_name src) in
  if MaxUint16 <? blen nameBytes then Err plain
  else if MaxUint32 <? Z.of_nat (length (sg_blocks src)) then Err plain
  else Ok (PutUint16 (blen nameBytes) ++ nameBytes ++ sg_uuid src ++ sg_nameHash src
           ++ PutUint32 (Z.of_nat (length (sg_blocks src)))
           ++ List.concat (writeBlockWalChunk <$> sg_blocks src)).

Fixpoint encode_sources (srcs : list sourceGroup) : result error bytes :=
  match srcs with
  | [] => Ok []
  | src :: srcs' =>
      let? b := encode_source src in
      let? rest := encode_sources srcs' in
      Ok (b ++ rest)
  end.

Definition buildFlatSection (v : VB) (base : gmap Z BlockLookup) : result error bytes :=
  let sources := flat_sources v base in
  if 255 <? Z.of_nat (length sources) then Err plain
  else
    let? body := encode_sources sources in
    Ok (flatSectionMagic ++ [x01] ++ [byte_of_Z (Z.of_nat (length sources))] ++ body).

Record InheritedLayer := mkLayer {
  il_Blocks : gmap Z BlockLookup;
  il_SourceVolumeName : string;
  il_SourceVolumeUUID : bytes;
  il_SourceVolumeNameHash : bytes
}.

(** [n] records; the rest of the data comes back with them. [short] is what
    running out of data amounts to. *)
Fixpoint parse_entries (short : error) (n : nat) (data : bytes) : result error (list BlockLookup * bytes) :=
  match n with
  | O => Ok ([], data)
  | S n' =>
      if blen data <? blockWalChunkSize then Err short
      else
        let? block := readBlockWalChunk (slice data 0 blockWalChunkSize) in
        let? p := parse_entries short n' (drop (Z.to_nat blockWalChunkSize) data) in
        Ok (block :: p.1, p.2)
  end.

Definition parse_source (data : bytes) : result error (InheritedLayer * bytes) :=
  if blen data <? 2 then Err plain
  else
    let nameLen := be_get (slice data 0 2) in
    let data := drop 2 data in
    if blen data <? nameLen then Err plain
    else
      let name := bytes_str (slice data 0 nameLen) in
      let data := drop (Z.to_nat nameLen) data in
      if blen data <? 4 + 32 + 4 then Err plain
      else
        let uuid := slice data 0 4 in
        let nameHash := slice data 4 36 in
        let numBlocks := be_get (slice data 36 40) in
        let? p := parse_entries plain (Z.to_nat numBlocks) (drop 40 data) in
        Ok (mkLayer (flat_of p.1) name uuid nameHash, p.2).

Fixpoint parse_sources (n : nat) (data : bytes) : result error (list InheritedLayer) :=
  match n with
  | O => Ok []
  | S n' =>
      let? p := parse_source data in
      let? rest := parse_sources n' p.2 in
      Ok (p.1 :: rest)
  end.

Definition parseFlatSection (data : bytes) : result error (list InheritedLayer) :=
  if blen data <? 6 then Err plain
  else if negb (bool_decide (slice data 0 4 = flatSectionMagic)) then Err plain
  else parse_sources (Z.to_nat (be_get (slice data 5 6))) (drop 6 data).

Section snapshot.
Context {A : AEAD} {S : StateJSON} {P : ProbeJSON} {SJ : SnapJSON}.

(** ** Creating *)

Definition drainForSnapshot (sc : Sched) : M unit :=
  do v <- get;
  run (if UseShardedWAL v then flushLockedSharded else flushLocked);
  run WriteWALToChunkCtx sc true;
  run try SaveLiveCheckpointCtx;
  ret tt.

Definition block_count (m : gmap Z BlockLookup) : Z :=
  fold_left (fun n bl => u64 (n + bl_NumBlocks bl)) (map_to_list m).*2 0.

Definition snap_aad (nameHash : bytes) (snapshotID : string) (stateSeq : Z) : bytes :=
  makeMetaAAD nameHash (lit "snap:" ++ str_bytes snapshotID) stateSeq.

(** The snapshot's checkpoint: the map, and for a clone the flat section. *)
Definition snapshot_checkpoint (v : VB) (now : Z) : result error bytes :=
  let checkpoint := serialize_map v now in
  match BaseBlockMap v with
  | None => Ok checkpoint
  | Some base => let? flat := buildFlatSection v base in Ok (checkpoint ++ flat)
  end.

Definition CreateSnapshot (sc : Sched) (snapshotID : string) : M SnapshotState :=
  run modify (fun v => v <| gcLatchedOff := GCEnabled v || gcLatchedOff v |>);
  run writeSnapshotMarker snapshotID;
  do v <- get;
  when ownsWAL v then drainForSnapshot sc;
  do v <- get;
  do t <- get_now;
  do checkpoint <- of_result (snapshot_checkpoint v t);
  run backend_WriteTo snapshotID FileTypeBlockCheckpoint 0 [] checkpoint;
  let snap := {|
    ss_SnapshotID := snapshotID; ss_SourceVolumeName := VolumeName v; ss_SeqNum := SeqNum v;
    ss_ObjectNum := ObjectNum v; ss_BlockSize := BlockSize v; ss_ObjBlockSize := ObjBlockSize v;
    ss_BlockCount := block_count (BlocksToObject v); ss_CreatedAt := t; ss_SourceVolumeUUID := EmptyString;
    ss_SourceVolumeNameHash := EmptyString; ss_StateSeqNum := 0;
    ss_HasFlatSection := bool_decide (BaseBlockMap v <> None) |} in
  do snap <- (if EncryptionEnabled v then
      run modify (fun v => v <| nextStateSeqNum := u64 (nextStateSeqNum v + 1) |>);
      do v1 <- get;
      run SaveStateCtx;
      do v2 <- get;
      ret {| ss_SnapshotID := snapshotID; ss_SourceVolumeName := VolumeName v; ss_SeqNum := SeqNum v;
             ss_ObjectNum := ObjectNum v; ss_BlockSize := BlockSize v; ss_ObjBlockSize := ObjBlockSize v;
             ss_BlockCount := block_count (BlocksToObject v); ss_CreatedAt := t;
             ss_SourceVolumeUUID := hex_encode (VolumeUUID v2);
             ss_SourceVolumeNameHash := hex_encode (volumeNameHash v);
             ss_StateSeqNum := nextStateSeqNum v1;
             ss_HasFlatSection := bool_decide (BaseBlockMap v <> None) |}
    else ret snap);
  let snapJSON := marshal_snap snap in
  do v <- get;
  let persisted :=
    if EncryptionEnabled v
    then sealMeta snapJSON (snap_aad (volumeNameHash v) snapshotID (ss_StateSeqNum snap))
           (makeNonce (ss_StateSeqNum snap) (VolumeUUID v) DomainSnapshotMeta)
    else snapJSON in
  run backend_WriteTo snapshotID FileTypeConfig 0 [] persisted;
  ret snap.

(** ** Loading *)

Record SnapshotIdentity := mkIdent {
  id_SourceVolumeName : string;
  id_SourceVolumeUUID : bytes;
  id_SourceVolumeNameHash : bytes;
  id_InheritedLayers : list InheritedLayer
}.

(** A hex field of the wrong length or alphabet is refused. *)
Definition hex_field (n : Z) (s : string) : option bytes :=
  match hex_decode s with
  | Some b => if blen b =? n then Some b else None
  | None => None
  end.

(** The verified JSON of a snapshot's config. *)
Definition open_snapshot_config (v : VB) (snapshotID : string) (configData : bytes) : result error bytes :=
  if EncryptionEnabled v then
    match splitEnvelope configData with
    | Err _ => Err [ErrIntegrity]
    | Ok (payload, tag) =>
        match peek_snap payload with
        | None => Err [ErrIntegrity]
        | Some (uuidHex, hashHex, stateSeq) =>
            match hex_field 4 uuidHex, hex_field 32 hashHex with
            | Some uuid, Some nameHash =>
                if verifyMeta payload tag (snap_aad nameHash snapshotID stateSeq)
                     (makeNonce stateSeq uuid DomainSnapshotMeta)
                then Ok payload else Err [ErrIntegrity]
            | _, _ => Err [ErrIntegrity]
            end
        end
    end
  else Ok configData.

(** An optional hex field of the state: empty means the zero value. *)
Definition optional_hex (n : Z) (s : string) : result error bytes :=
  if bool_decide (s = EmptyString) then Ok (zeros n)
  else match hex_field n s with Some b => Ok b | None => Err plain end.

(** The own-blocks section and the flat section of a snapshot checkpoint. The
    slice of a flat checkpoint shorter than [BlockCount] says is out of range. *)
Definition parse_snapshot_checkpoint (v : VB) (snap : SnapshotState) (checkpoint : bytes)
    : result error (gmap Z BlockLookup * list InheritedLayer) :=
  if blen checkpoint <? blockCheckpointHeaderSize then Err plain
  else if negb (bool_decide (slice checkpoint 0 4 = WALMagic (BlockToObjectWAL v))) then Err plain
  else if negb (be_get (slice checkpoint 4 6) =? Version v) then Err plain
  else
    let dataSize := blen checkpoint - blockCheckpointHeaderSize in
    if ss_HasFlatSection snap && (MaxInt / blockWalChunkSize <? ss_BlockCount snap) then Err plain
    else
      let ownBlocksSize := if ss_HasFlatSection snap then ss_BlockCount snap * blockWalChunkSize else dataSize in
      if negb (ownBlocksSize mod blockWalChunkSize =? 0) then Err plain
      else
        let? p := parse_entries [GoPanic] (Z.to_nat (ownBlocksSize / blockWalChunkSize))
                    (drop (Z.to_nat blockCheckpointHeaderSize) checkpoint) in
        let baseMap := flat_of p.1 in
        if (0 <? ss_BlockCount snap) && negb (Z.of_nat (size baseMap) =? ss_BlockCount snap) then Err plain
        else
          let? layers := (if ss_HasFlatSection snap then parseFlatSection p.2 else Ok []) in
          Ok (baseMap, layers).

Definition LoadSnapshotBlockMap (snapshotID : string) : M (gmap Z BlockLookup * SnapshotIdentity) :=
  do v <- get;
  do configData <- backend_ReadFrom snapshotID FileTypeConfig 0 0 0;
  do configData <- of_result (open_snapshot_config v snapshotID configData);
  match unmarshal_snap configData with
  | None => throw plain
  | Some snap =>
      do uuid <- of_result (optional_hex 4 (ss_SourceVolumeUUID snap));
      do nameHash <- of_result (optional_hex 32 (ss_SourceVolumeNameHash snap));
      do checkpoint <- backend_ReadFrom snapshotID FileTypeBlockCheckpoint 0 0 0;
      do p <- of_result (parse_snapshot_checkpoint v snap checkpoint);
      ret (p.1, mkIdent (ss_SourceVolumeName snap) uuid nameHash p.2)
  end.

Definition ancestor_of (l : InheritedLayer) : snapshotAncestor :=
  mkAncestor (il_Blocks l) (il_SourceVolumeName l) (il_SourceVolumeUUID l) (il_SourceVolumeNameHash l).

Definition OpenFromSnapshot (snapshotID : string) : M unit :=
  do p <- LoadSnapshotBlockMap snapshotID;
  let '(baseMap, ident) := p in
  if bool_decide (id_SourceVolumeName ident = EmptyString) then throw plain
  else modify (fun v =>
    v <| BaseBlockMap := Some baseMap |>
      <| SourceVolumeName := id_SourceVolumeName ident |>
      <| SnapshotID := snapshotID |>
      <| SourceVolumeUUID := id_SourceVolumeUUID ident |>
      <| sourceVolumeNameHash := id_SourceVolumeNameHash ident |>
      <| ancestors := ancestor_of <$> id_InheritedLayers ident |>).

(** [LoadState] with the snapshot component supplied. *)
Definition LoadState : M unit := LoadStateCtx OpenFromSnapshot.

End snapshot.
