(* ===== verification/Lifecycle.v ===== *)
(** * Opening, closing and recovering a volume (viperblock.go)

    [New], [Close], [RemoveLocalFiles] and [RecoverLocalWALs]. The background
    goroutines that [New] starts and [Close] stops run [syncWALIfDirty],
    [DrainToBackend] and [runGCSweep] at their own times; they add no operation
    of their own. *)

From S2P Require Import Prelude Words LRUCache BlockMap BlockStore Crypto Paths Volume WAL Chunk Read Checkpoint SeqNum Engine GC Snapshot.

Definition DefaultBlockSize : Z := 4096.
Definition DefaultObjBlockSize : Z := 1024 * 1024 * 4.

(** [if x == 0 { x = d }] *)
Definition or_default (x d : Z) : Z := if x =? 0 then d else x.

Section lifecycle.
Context {H : Hash} {A : AEAD} {S : StateJSON} {P : ProbeJSON} {SJ : SnapJSON} {L : LRULib}.

(** ** New *)

(** The checks of [New], in their order; [None] is the nil config. *)
Definition check_config (config : option VB) (btype : string) : result error VB :=
  match config with
  | None => Err plain
  | Some c =>
      if bool_decide (VolumeName c = EmptyString) || (VolumeSize c =? 0) then Err plain
      else if EncryptionEnabled c && bool_decide (MasterKey c = None) then Err [ErrEncryptionMismatch]
      else if negb (EncryptionEnabled c) && bool_decide (MasterKey c <> None) then Err [ErrEncryptionMismatch]
      else if EncryptionEnabled c && UseShardedWAL c then Err [ErrEncryptionMismatch]
      else if bool_decide (btype = "file"%string) || bool_decide (btype = "s3"%string) then Ok c
      else Err plain
  end.

(** The fresh volume of a checked config. *)
Definition new_volume (c : VB) : VB :=
  let baseDir := if bool_decide (BaseDir c = EmptyString) then "/tmp/viperblock"%string else BaseDir c in
  let enc := EncryptionEnabled c in
  {| VolumeName := VolumeName c; VolumeSize := VolumeSize c;
     BlockSize := or_default (BlockSize c) DefaultBlockSize;
     ObjBlockSize := or_default (ObjBlockSize c) DefaultObjBlockSize;
     FlushSize := or_default (FlushSize c) DefaultFlushSize;
     MaxPendingBytes := or_default (MaxPendingBytes c) DefaultMaxPendingBytes;
     SeqNum := 0; ObjectNum := 0; BlocksToObject := ∅; bto_dirty := false; Writes := [];
     PendingBackendWrites := []; pendingBytes := 0; backendFull := false; uploadTriggered := false;
     vb_WAL := mkWAL [] 0 baseDir (if enc then lit "VBWE" else lit "VBWL") false false;
     ShardWAL := repeat None (Z.to_nat NumShards); ShardWallNum := 0; UseShardedWAL := false;
     BlockToObjectWAL := mkWAL [] 0 baseDir blockToObjectWALMagic false false;
     BStore := NewUnifiedBlockStore (or_default (BlockSize c) DefaultBlockSize); UseBlockStore := true;
     Version := 1; ChunkMagic := if enc then lit "VBCE" else lit "VBCH"; BaseDir := baseDir;
     vb_Config := vb_Config c; BaseBlockMap := None; SourceVolumeName := EmptyString;
     SnapshotID := EmptyString; ancestors := []; MasterKey := MasterKey c; EncryptionEnabled := enc;
     volumeNameHash := if enc then computeVolumeNameHash (str_bytes (VolumeName c)) else zeros 32;
     VolumeUUID := zeros 4; SourceVolumeUUID := zeros 4; sourceVolumeNameHash := zeros 32;
     chunkMagicChecked := ∅; seqNumHighWater := 0; nextStateSeqNum := 0; GCEnabled := GCEnabled c;
     gcRefcount := ∅; gcReconciled := false; gcFloor := 0; gcFloorReady := false;
     gcSnapshotSafe := false; gcSnapshotChecked := false; gcMarkerBaseline := None; gcLatchedOff := false;
     shard_dirty := repeat false (Z.to_nat NumShards) |}.

(** The volume of the state becomes the new one. [cache] is the
    [Cache.Config] of the configuration; the LRU of the legacy read path is
    made here, and a size the library refuses makes [New] panic. *)
Definition New (config : option VB) (cache : CacheConfig) (btype : string) : M unit :=
  do c <- of_result (check_config config btype);
  run match new_cache lru_handle lru_New cache with
      | Some _ => ret tt
      | None => throw [GoPanic]
      end;
  run os_call; (* os.MkdirAll base *)
  run os_call; (* os.MkdirAll checkpoints *)
  modify (fun _ => new_volume c).

(** ** Removing local files *)

Definition local_dir (v : VB) : string := (BaseDir v +:+ "/" +:+ GetVolume v +:+ "/")%string.

(** [os.RemoveAll] of the volume's directory. *)
Definition RemoveLocalFiles : M unit :=
  do v <- get;
  run os_call;
  fun s => (Ok tt, mkSt (vb s)
    (with_files (filter (fun kv : string * bytes => String.prefix (local_dir v) kv.1 = false)) (world s))).

(** ** Recovery *)

Definition wal_dir (v : VB) : string := (local_dir v +:+ "wal/chunks/")%string.

#[global] Instance string_leb_dec : forall a b : string, Decision (String.leb a b = true).
Proof. intros a b. apply _. Defined.

(** [os.ReadDir] of the WAL directory, sorted by name. *)
Definition wal_files : M (list string) :=
  do v <- get;
  do o <- next;
  match o with
  | Fails e _ => if errors_Is e ErrNotExist then ret [] else throw e
  | _ => fun s => (Ok (merge_sort (fun a b : string => String.leb a b = true)
           (filter (fun k => String.prefix (wal_dir v) k = true) (map_to_list (files (world s))).*1)), s)
  end.

(** The blocks of every readable file and the names of those files. *)
Fixpoint recover_files (names : list string) : M (list Block * Z * list string) :=
  match names with
  | [] => ret ([], 0, [])
  | fname :: names' =>
      do r <- try (readWALFileForRecovery fname);
      match r with
      | Err e => if errors_Is e ErrIntegrity then throw e else recover_files names'
      | Ok (blocks, fileMax) =>
          do rest <- recover_files names';
          let '(bs, mx, ok) := rest in
          ret (blocks ++ bs, Z.max fileMax mx, fname :: ok)
      end
  end.

(** Remove errors are only logged. *)
Definition remove_files (names : list string) : M unit :=
  mfor names (fun f =>
    do r <- try os_call;
    match r with
    | Ok _ => del_file f
    | Err _ => ret tt
    end).

(** ObjectNum past every chunk of the loaded map. *)
Definition reconcile_object_num (v : VB) : VB :=
  match max_object (map_to_list (BlocksToObject v)).*2 with
  | None => v
  | Some m => v <| ObjectNum := if u64 (m + 1) <=? ObjectNum v then ObjectNum v else u64 (m + 1) |>
  end.

Definition RecoverLocalWALs : M unit :=
  do names <- wal_files;
  match names with
  | [] => ret tt
  | _ =>
      do r <- recover_files names;
      let '(allBlocks, maxSeqNum, successFiles) := r in
      match allBlocks with
      | [] => remove_files successFiles
      | _ =>
          run modify reconcile_object_num;
          do v <- get;
          run mfor (chunk_jobs v allBlocks) (fun j => createChunkFile j.1 j.2);
          run modify (fun v => if UseBlockStore v
                               then v <| BStore := sync_store (BlocksToObject v) (blockStride v) (BStore v) |> else v);
          run modify (fun v => v <| SeqNum := if maxSeqNum <=? SeqNum v then SeqNum v else maxSeqNum |>);
          run SaveStateCtx;
          run SaveBlockStateCtx;
          run try SaveLiveCheckpointCtx;
          remove_files successFiles
      end
  end.

(** ** Close *)

Definition Close (sc : Sched) : M unit :=
  run try Flush;
  do v <- get;
  do walErr <- try (if UseShardedWAL v then WriteShardedWALToChunkCtx sc true else WriteWALToChunkCtx sc true);
  run match walErr with
      | Err _ => ret tt
      | Ok _ =>
          do cp <- try SaveLiveCheckpointCtx;
          match cp with
          | Err _ => ret tt
          | Ok _ => sweepChunks
          end
      end;
  do st <- try SaveStateCtx;
  do bs <- try SaveBlockStateCtx;
  match st, bs with
  | Err e, _ => throw e
  | Ok _, Err e => throw e
  | Ok _, Ok _ =>
      run try RemoveLocalFiles;
      of_result walErr
  end.

End lifecycle.
