(* ===== verification/Nbd.v ===== *)
(** * The nbdkit plugin ([nbd/viperblock.go])

    Parsing and validating the plugin's parameters, opening a volume, and the
    request handlers of a connection over the engine.  The nbdkit runtime
    calls the handlers; the snapshot socket's accept loop and telemetry are
    not modelled, the socket's request handler is. *)

From Stdlib Require Import Ascii.
From S2P Require Import Prelude Words LRUCache BlockMap BlockStore Crypto Paths Volume WAL Chunk Read Checkpoint SeqNum Engine GC Snapshot Lifecycle.

Open Scope string_scope.
Open Scope list_scope.
Open Scope Z_scope.

(** ** strconv *)

Definition lower (c : ascii) : ascii :=
  let n := N_of_ascii c in
  if ((65 <=? n)%N && (n <=? 90)%N)%bool then ascii_of_N (n + 32) else c.

(** The value of a digit in any base, [None] for other characters. *)
Definition any_digit (c : ascii) : option Z :=
  match digit_val c with
  | Some d => Some d
  | None =>
      let z := Z.of_N (N_of_ascii (lower c)) in
      if (97 <=? z) && (z <=? 122) then Some (z - 97 + 10) else None
  end.

(** The base prefix of a literal, and the digits after it. *)
Definition base_prefix (s : chars) : Z * chars :=
  match s with
  | "0"%char :: c :: d :: r =>
      if Ascii.eqb (lower c) "b" then (2, d :: r)
      else if Ascii.eqb (lower c) "o" then (8, d :: r)
      else if Ascii.eqb (lower c) "x" then (16, d :: r)
      else (8, c :: d :: r)
  | "0"%char :: r => (8, r)
  | _ => (10, s)
  end.

(** [underscoreOK]: underscores only between digits or after a base prefix.
    The state is the class of the previous character. *)
Inductive seen := SeenStart | SeenDigit | SeenUnderscore | SeenOther.

Fixpoint underscores (hex : bool) (i : seen) (s : chars) : bool :=
  match s with
  | [] => match i with SeenUnderscore => false | _ => true end
  | c :: s' =>
      let is_digit :=
        match digit_val c with
        | Some _ => true
        | None => hex && match any_digit c with Some d => d <? 16 | None => false end
        end in
      if is_digit then underscores hex SeenDigit s'
      else if Ascii.eqb c "_" then
        match i with SeenDigit => underscores hex SeenUnderscore s' | _ => false end
      else match i with SeenUnderscore => false | _ => underscores hex SeenOther s' end
  end.

Definition underscoreOK (s : chars) : bool :=
  let s := match s with "-"%char :: r | "+"%char :: r => r | _ => s end in
  match s with
  | "0"%char :: c :: r =>
      if Ascii.eqb (lower c) "b" || Ascii.eqb (lower c) "o" || Ascii.eqb (lower c) "x"
      then underscores (Ascii.eqb (lower c) "x") SeenDigit r
      else underscores false SeenStart s
  | _ => underscores false SeenStart s
  end.

(** A failed conversion still returns a value: 0 for a syntax error, the
    largest value for one out of range. *)
Inductive num_error := ErrSyntax | ErrRange.

Fixpoint digits_value (base : Z) (us : bool) (acc : Z) (seen_us : bool) (s : chars)
    : Z * option num_error * bool :=
  match s with
  | [] => (acc, None, seen_us)
  | c :: s' =>
      if us && Ascii.eqb c "_" then digits_value base us acc true s'
      else
        match any_digit c with
        | None => (0, Some ErrSyntax, seen_us)
        | Some d =>
            if base <=? d then (0, Some ErrSyntax, seen_us)
            else if MaxUint64 <? acc * base + d then (MaxUint64, Some ErrRange, seen_us)
            else digits_value base us (acc * base + d) seen_us s'
        end
  end.

(** [strconv.ParseUint(s, 0, 64)] *)
Definition ParseUint0 (str : string) : Z * option num_error :=
  let s := chars_of str in
  match s with
  | [] => (0, Some ErrSyntax)
  | _ =>
      let '(base, ds) := base_prefix s in
      match digits_value base true 0 false ds with
      | (v, Some e, _) => (v, Some e)
      | (v, None, us) => if us && negb (underscoreOK s) then (0, Some ErrSyntax) else (v, None)
      end
  end.

(** [strconv.Atoi] *)
Definition Atoi (str : string) : Z * option num_error :=
  let s := chars_of str in
  let '(neg, ds) := match s with
                    | "-"%char :: r => (true, r) | "+"%char :: r => (false, r) | _ => (false, s)
                    end in
  match ds with
  | [] => (0, Some ErrSyntax)
  | _ =>
      match digits_value 10 false 0 false ds with
      | (_, Some ErrSyntax, _) => (0, Some ErrSyntax)
      | (v, _, _) =>
          if negb neg && (MaxInt64 <? v) then (MaxInt64, Some ErrRange)
          else if neg && (MaxInt64 + 1 <? v) then (- (MaxInt64 + 1), Some ErrRange)
          else ((if neg then - v else v), None)
      end
  end.

(** ** Parameters *)

Record params := mkParams {
  p_size : Z; p_volume : string; p_bucket : string; p_region : string;
  p_access_key : string; p_secret_key : string; p_host : string; p_base_dir : string;
  p_cache_size : Z; p_max_pending_bytes : Z; p_upload_workers : Z; p_use_shardwal : bool;
  p_encryption_key_file : string; p_gc_enabled : bool;
  p_loadedMasterKey : option string  (* its fingerprint *) }.

(** The values the plugin starts with. *)
Definition params0 : params :=
  mkParams 0 "" "" "" "" "" "" "" 20 0 16 false "" false None.

(** An [nbdkit.PluginError]: its message, and whether [Errno] is [ENOSPC]. *)
Record plugin_error := mkPluginError { Errmsg : string; errno_nospc : bool }.
Definition perr (msg : string) : plugin_error := mkPluginError msg false.

(** [value == "true" || value == "1"] *)
Definition flag_value (v : string) : bool := bool_decide (v = "true") || bool_decide (v = "1").

(** A numeric parameter is assigned even when the conversion fails. *)
Definition num_result (p : params) (e : option num_error) : params * result plugin_error unit :=
  (p, match e with None => Ok tt | Some _ => Err (perr "strconv") end).

Definition Config (p : params) (key value : string) : params * result plugin_error unit :=
  if decide (key = "size") then
    let (v, e) := ParseUint0 value in num_result (p <| p_size := v |>) e
  else if decide (key = "volume") then (p <| p_volume := value |>, Ok tt)
  else if decide (key = "bucket") then (p <| p_bucket := value |>, Ok tt)
  else if decide (key = "region") then (p <| p_region := value |>, Ok tt)
  else if decide (key = "access_key") then (p <| p_access_key := value |>, Ok tt)
  else if decide (key = "secret_key") then (p <| p_secret_key := value |>, Ok tt)
  else if decide (key = "host") then (p <| p_host := value |>, Ok tt)
  else if decide (key = "base_dir") then (p <| p_base_dir := value |>, Ok tt)
  else if decide (key = "cache_size") then
    let (v, e) := Atoi value in num_result (p <| p_cache_size := v |>) e
  else if decide (key = "max_pending_bytes") then
    let (v, e) := ParseUint0 value in num_result (p <| p_max_pending_bytes := v |>) e
  else if decide (key = "upload_workers") then
    let (v, e) := Atoi value in num_result (p <| p_upload_workers := v |>) e
  else if decide (key = "shardwal") then (p <| p_use_shardwal := flag_value value |>, Ok tt)
  else if decide (key = "gc_enabled") then (p <| p_gc_enabled := flag_value value |>, Ok tt)
  else if decide (key = "encryption_key_file") then (p <| p_encryption_key_file := value |>, Ok tt)
  else (p, Err (perr "unknown parameter")).

(** The key loader ([masterkey.LoadShared]) is another repository's: given a
    path it returns a key, known by its fingerprint, or an error. *)
Definition key_loader : Type := string -> result error string.

(** The required parameters, in the order they are checked. *)
Definition required (p : params) : list (bool * string) :=
  [ (p_size p =? 0, "size parameter is required");
    (bool_decide (p_volume p = ""), "volume parameter is required");
    (bool_decide (p_bucket p = ""), "bucket parameter is required");
    (bool_decide (p_region p = ""), "region parameter is required");
    (bool_decide (p_access_key p = ""), "access_key parameter is required");
    (bool_decide (p_secret_key p = ""), "secret_key parameter is required");
    (bool_decide (p_base_dir p = ""), "base_dir parameter is required");
    (bool_decide (p_host p = ""), "host parameter is required") ].

Definition ConfigComplete (load : key_loader) (env : string) (p : params)
    : params * result plugin_error unit :=
  match list_find (fun c => c.1 = true) (required p) with
  | Some (_, (_, msg)) => (p, Err (perr msg))
  | None =>
      match LoadMasterKeyFromFlagOrEnv load env (p_encryption_key_file p) with
      | Err _ => (p, Err (perr "Could not load encryption key"))
      | Ok mkey =>
          let p := p <| p_loadedMasterKey := mkey |> in
          if p_use_shardwal p && bool_decide (mkey <> None)
          then (p, Err (perr "shardwal is incompatible with encryption"))
          else (p, Ok tt)
      end
  end.

(** ** The connection *)

Section connection.
Context {H : Hash} {A : AEAD} {S : StateJSON} {P : ProbeJSON} {SJ : SnapJSON} {L : LRULib}.

(** The zero value of the engine's configuration struct. *)
Definition VB_zero : VB := {|
  VolumeName := ""; VolumeSize := 0; BlockSize := 0; ObjBlockSize := 0; FlushSize := 0;
  MaxPendingBytes := 0; SeqNum := 0; ObjectNum := 0; BlocksToObject := ∅; bto_dirty := false;
  Writes := []; PendingBackendWrites := []; pendingBytes := 0; backendFull := false;
  uploadTriggered := false; vb_WAL := mkWAL [] 0 "" [] false false; ShardWAL := []; ShardWallNum := 0;
  UseShardedWAL := false; BlockToObjectWAL := mkWAL [] 0 "" [] false false;
  BStore := NewUnifiedBlockStore 0; UseBlockStore := false; Version := 0; ChunkMagic := [];
  BaseDir := ""; vb_Config := mkVolumeConfig 0 ""; BaseBlockMap := None; SourceVolumeName := "";
  SnapshotID := ""; ancestors := []; MasterKey := None; EncryptionEnabled := false;
  volumeNameHash := zeros 32; VolumeUUID := zeros 4; SourceVolumeUUID := zeros 4;
  sourceVolumeNameHash := zeros 32; chunkMagicChecked := ∅; seqNumHighWater := 0;
  nextStateSeqNum := 0; GCEnabled := false; gcRefcount := ∅; gcReconciled := false; gcFloor := 0;
  gcFloorReady := false; gcSnapshotSafe := false; gcSnapshotChecked := false;
  gcMarkerBaseline := None; gcLatchedOff := false; shard_dirty := [] |}.

(** The configuration [Open] hands to [New]. *)
Definition vbconfig (p : params) : VB :=
  VB_zero <| VolumeName := p_volume p |> <| VolumeSize := p_size p |> <| BaseDir := p_base_dir p |>
    <| MaxPendingBytes := p_max_pending_bytes p |> <| MasterKey := p_loadedMasterKey p |>
    <| EncryptionEnabled := bool_decide (p_loadedMasterKey p <> None) |>
    <| GCEnabled := p_gc_enabled p |>.

Definition vbconfig_cache (p : params) : CacheConfig := mkCacheConfig (p_cache_size p) false 0.

(** One step of [Open]: an error becomes the plugin's error; a panic does not
    return to [Open]. *)
Definition stage (msg : string) (m : M unit) (k : M (result plugin_error unit))
    : M (result plugin_error unit) :=
  do r <- try m;
  match r with
  | Err e => if errors_Is e GoPanic then throw e else ret (Err (perr msg))
  | Ok _ => k
  end.

(** [vb.WAL.WallNum.Add(1)] *)
Definition bump_wal_num (v : VB) : VB :=
  v <| vb_WAL := (vb_WAL v) <| WallNum := u64 (WallNum (vb_WAL v) + 1) |> |>.

(** The chunk log: sharded or one file. *)
Definition open_chunk_wal : M unit :=
  do v <- get;
  if UseShardedWAL v then
    run modify (fun v => (NewShardedWAL v) <| ShardWallNum := WallNum (vb_WAL v) |>);
    OpenShardedWAL
  else
    OpenWAL TheWAL (wal_BaseDir (vb_WAL v) +:+ "/"
                    +:+ GetFilePath FileTypeWALChunk (WallNum (vb_WAL v)) (GetVolume v)).

Definition open_block_wal : M unit :=
  do v <- get;
  OpenWAL TheBlockWAL (wal_BaseDir (vb_WAL v) +:+ "/"
                       +:+ GetFilePath FileTypeWALBlock (WallNum (BlockToObjectWAL v)) (GetVolume v)).

(** [Open] of the plugin: on success the volume of the state is the connection's. *)
Definition plugin_Open (p : params) : M (result plugin_error unit) :=
  stage "Could not create Viperblock backend" (New (Some (vbconfig p)) (vbconfig_cache p) "s3") (
  run modify (fun v => v <| UseShardedWAL := p_use_shardwal p |>);
  stage "Could not initialize backend" os_call (
  stage "Could not load state" LoadState (
  stage "Could not mint volume UUID" EnsureVolumeUUID (
  stage "Could not load block state" LoadLiveCheckpointCtx (
  stage "Could not recover local WALs" RecoverLocalWALs (
  run modify bump_wal_num;
  stage "Could not open WAL" open_chunk_wal (
  stage "Could not open Block WAL" open_block_wal (
  ret (Ok tt))))))))).

Definition newline : string := String "010"%char EmptyString.

(** The request of the snapshot socket, and the answer written to it. *)
Definition snapshot_request (sc : Sched) : M string :=
  do r <- try (DrainToBackendCtx sc);
  ret (match r with Ok _ => "OK" | Err _ => "ERR" end +:+ newline).

Definition backendErrToPluginError (msgPrefix : string) (e : error) : plugin_error :=
  mkPluginError msgPrefix (errors_Is e ErrNoSpace).

Definition GetSize : M Z := do v <- get; ret (GetVolumeSize v).
Definition CanMultiConn : bool := false.
Definition CanWrite : bool := true.
Definition CanZero : bool := true.
Definition CanTrim : bool := true.
Definition CanFlush : bool := true.

(** [copy(buf, data)] *)
Definition copy_buf (buf data : bytes) : bytes :=
  take (length buf) data ++ drop (length data) buf.

(** [PRead]: [ErrZeroBlock], the flag of [ReadAtCtx], is not an error here; the
    buffer comes back filled. The panic of [ReadAtCtx] on a range that wraps
    shows as an error here; it would not return to the client. *)
Definition PRead (buf : bytes) (offset : Z) : M (result plugin_error bytes) :=
  do r <- try (ReadAtCtx offset (blen buf));
  match r with
  | Err _ => ret (Err (perr "Could not read data"))
  | Ok (data, _) => ret (Ok (copy_buf buf data))
  end.

Definition PWrite (sc : Sched) (fuel : nat) (nearFull : bool) (buf : bytes) (offset : Z)
    : M (result plugin_error unit) :=
  do r <- try (WriteAtCtx sc fuel nearFull offset buf);
  match r with
  | Err e => ret (Err (backendErrToPluginError "Could not write data" e))
  | Ok _ => ret (Ok tt)
  end.

Definition Zero (sc : Sched) (fuel : nat) (nearFull : bool) (count offset : Z)
    : M (result plugin_error unit) :=
  if count =? 0 then ret (Ok tt)
  else
    do r <- try (WriteAtCtx sc fuel nearFull offset (zeros count));
    match r with
    | Err e => ret (Err (backendErrToPluginError "Could not write zero data" e))
    | Ok _ => ret (Ok tt)
    end.

Definition Trim (count offset : Z) : M (result plugin_error unit) := ret (Ok tt).

Definition conn_Flush : M (result plugin_error unit) :=
  do r <- try Flush;
  match r with
  | Err e => ret (Err (backendErrToPluginError "Flush failed" e))
  | Ok _ => ret (Ok tt)
  end.

(** [Close] of a connection: errors are only logged.  [Unload] does the same
    when a connection is still active. *)
Definition conn_Close (sc : Sched) : M unit :=
  run try (DrainToBackendCtx sc);
  run try (Close sc);
  ret tt.

Definition Unload (sc : Sched) (active : bool) : M unit :=
  if active then conn_Close sc else ret tt.

(** ** Requests *)

Inductive request :=
| RRead (offset : Z) (buf : bytes)
| RWrite (offset : Z) (data : bytes)
| RZero (offset count : Z)
| RTrim (offset count : Z)
| RFlush.

(** The answer of a request: the buffer for a read, nothing for the others. *)
Definition serve (sc : Sched) (r : request) : M (result plugin_error bytes) :=
  let unit_answer (m : M (result plugin_error unit)) : M (result plugin_error bytes) :=
    do x <- m; ret (match x with Ok _ => Ok [] | Err e => Err e end) in
  match r with
  | RRead offset buf => PRead buf offset
  | RWrite offset data => unit_answer (PWrite sc 0 false data offset)
  | RZero offset count => unit_answer (Zero sc 0 false count offset)
  | RTrim offset count => unit_answer (Trim count offset)
  | RFlush => unit_answer conn_Flush
  end.
End connection.
