(* ===== verification/NbdPlugin.v ===== *)
(** * The globals of the nbd plugin (nbd/viperblock.go)

    [activeVB], the snapshot listener and its accept goroutine are package
    variables that [Open], [Close] and [Unload] share. Volumes are numbered by
    the connection that opened them; shutting one down is [DrainToBackend]
    then [Close], modelled in [Nbd] as [conn_Close]. *)

From S2P Require Import Prelude.
From coqutil Require Import Datatypes.RecordSetters.
Import TriangleBracketNotations.

Record plugin := mkPlugin {
  activeVB : option nat;
  snapshotListener : option nat;
  snapshotListenerDone : option nat;
  listeners : nat;              (* listeners, and done channels, made so far *)
  accepting : gset nat;         (* accept goroutines that run: their done channel is open *)
  opened : nat;                 (* volumes opened so far *)
  live : gset nat;              (* connections that were not closed *)
  shut : list nat               (* volumes drained and closed, in order *)
}.

Definition plugin0 : plugin := mkPlugin None None None 0 ∅ 0 ∅ [].

(** [listen]: whether [net.Listen] succeeds. When it does not the returned
    channel is closed at once. *)
Definition startSnapshotListener (listen : bool) (p : plugin) : nat * plugin :=
  let done := listeners p in
  (done, p <| listeners := S done |>
           <| snapshotListener := if listen then Some done else snapshotListener p |>
           <| accepting := if listen then {[done]} ∪ accepting p else accepting p |>).

(** [None]: the receive from the done channel blocks for ever. Closing the
    listener makes its goroutine's [Accept] fail, and the goroutine leave. *)
Definition stopSnapshotListener (p : plugin) : option plugin :=
  match snapshotListener p with
  | None => Some p
  | Some l =>
      let running := accepting p ∖ {[l]} in
      if (match snapshotListenerDone p with Some d => bool_decide (d ∈ running) | None => false end) then None
      else Some (p <| accepting := running |> <| snapshotListener := None |> <| snapshotListenerDone := None |>)
  end.

(** The end of a successful [Open]. *)
Definition open_conn (listen : bool) (p : plugin) : plugin :=
  let c := opened p in
  let p := p <| activeVB := Some c |> <| opened := S c |> <| live := {[c]} ∪ live p |> in
  let '(done, p) := startSnapshotListener listen p in
  p <| snapshotListenerDone := Some done |>.

Definition shutdown (c : nat) (p : plugin) : plugin := p <| shut := shut p ++ [c] |>.

(** [Close] of connection [c]. *)
Definition close_conn (c : nat) (p : plugin) : option plugin :=
  match stopSnapshotListener p with
  | None => None
  | Some p => Some ((shutdown c p) <| live := live p ∖ {[c]} |> <| activeVB := None |>)
  end.

Definition unload (p : plugin) : option plugin :=
  match activeVB p with
  | None => Some p
  | Some c =>
      match stopSnapshotListener p with
      | None => None
      | Some p => Some ((shutdown c p) <| activeVB := None |>)
      end
  end.

(** ** One connection after the other *)

(** A client that connects and is closed. *)
Definition session (listen : bool) (p : plugin) : option plugin := close_conn (opened p) (open_conn listen p).

Fixpoint sessions (l : list bool) (p : plugin) : option plugin :=
  match l with
  | [] => Some p
  | listen :: l' => match session listen p with Some p' => sessions l' p' | None => None end
  end.

(** Between sessions: no goroutine runs and every volume was shut down once. *)
Record at_rest (p : plugin) : Prop := {
  ar_active : activeVB p = None;
  ar_listener : snapshotListener p = None;
  ar_accepting : accepting p = ∅;
  ar_shut : shut p = seq 0 (opened p)
}.

Lemma seq_snoc n : seq 0 (S n) = seq 0 n ++ [n].
Proof. by rewrite seq_S. Qed.

(** Opening, then stopping the listener of that connection. *)
Lemma open_stop listen p : at_rest p ->
  exists p', stopSnapshotListener (open_conn listen p) = Some p' /\
    snapshotListener p' = None /\ accepting p' = ∅ /\ opened p' = S (opened p) /\ shut p' = shut p.
Proof.
  intros [Ha Hl Hacc Hs]. destruct p as [a l d n acc op lv sh]. cbn in Ha, Hl, Hacc, Hs. subst.
  destruct listen; unfold stopSnapshotListener; cbn; unfold constant; cbn.
  - rewrite bool_decide_eq_false_2 by set_solver. eexists. split; [done|]. cbn. unfold constant. split_and!; try done. set_solver.
  - eexists. split; [done|]. by cbn.
Qed.

Lemma session_rest listen p : at_rest p -> exists p', session listen p = Some p' /\ at_rest p' /\ opened p' = S (opened p).
Proof.
  intros Hr. destruct (open_stop listen p Hr) as (p1 & E & Hl & Hacc & Hop & Hs).
  unfold session, close_conn. rewrite E. eexists. split; [done|]. destruct p1. cbn in *. split; [|done].
  constructor; cbn; try done. by rewrite Hs, Hop, (ar_shut _ Hr), seq_snoc.
Qed.

Lemma sessions_rest l : forall p, at_rest p -> exists p', sessions l p = Some p' /\ at_rest p' /\ opened p' = (opened p + length l)%nat.
Proof.
  induction l as [|listen l IH]; intros p Hr; cbn [sessions length]; [exists p; split; [done|split; [done|lia]]|].
  destruct (session_rest listen p Hr) as (p1 & -> & Hr1 & Ho1). destruct (IH p1 Hr1) as (p2 & -> & Hr2 & Ho2).
  exists p2. split; [done|]. split; [done|]. lia.
Qed.

Lemma rest0 : at_rest plugin0.
Proof. by constructor. Qed.

(** When clients connect one after the other, nothing ever blocks and every
    volume is drained and closed exactly once, in order, by its Close or, if
    nbdkit exits with the last client still connected, by Unload; then no
    accept goroutine is left. *)
Lemma volumes_shut_once l last :
  exists p p', sessions l plugin0 = Some p /\
    unload (match last with Some listen => open_conn listen p | None => p end) = Some p' /\
    activeVB p' = None /\ accepting p' = ∅ /\
    shut p' = seq 0 (length l + match last with Some _ => 1 | None => 0 end).
Proof.
  destruct (sessions_rest l plugin0 rest0) as (p & E & Hr & Ho). cbn [opened plugin0] in Ho. exists p.
  destruct last as [listen|].
  - destruct (open_stop listen p Hr) as (p1 & E1 & Hl & Hacc & Hop & Hs). unfold unload.
    assert (activeVB (open_conn listen p) = Some (opened p)) as -> by (by destruct p, listen). rewrite E1.
    eexists. split; [done|]. split; [done|]. destruct p1. cbn in *. split; [done|]. split; [done|].
    rewrite Hs, (ar_shut _ Hr), Ho, Nat.add_1_r, seq_snoc. done.
  - exists p. split; [done|]. unfold unload. rewrite (ar_active _ Hr). split; [done|]. split; [done|]. split; [apply Hr|].
    by rewrite (ar_shut _ Hr), Ho, Nat.add_0_r.
Qed.

(** Two connections at once: closing the first clears [activeVB] and takes the
    second one's listener, and Unload does not shut the second volume down.
    The globals rely on nbdkit keeping connections apart. *)
Lemma overlap_skips_unload :
  exists p p', close_conn 0 (open_conn true (open_conn true plugin0)) = Some p /\ live p = {[1%nat]} /\
    unload p = Some p' /\ shut p' = [0%nat] /\ accepting p' = {[0%nat]}.
Proof. do 2 eexists. split; [reflexivity|]. split; [vm_compute; reflexivity|]. split; [reflexivity|]. split; vm_compute; reflexivity. Qed.
