(* ===== verification/Import.v ===== *)
(** * Importing a disk image ([viperblock/v_utils/v_utils.go])

    [ImportDiskImage] copies a file into a new volume block by block, skips
    blocks of zeros, flushes and consolidates from time to time, reports
    progress, snapshots the result for machine images and closes the volume.
    What [f.Read] returns is an argument, one entry per call. *)

From stdpp Require Import pretty.
From S2P Require Import Prelude Words LRUCache BlockMap BlockStore Crypto Paths Volume WAL Chunk Read Checkpoint SeqNum Engine GC Snapshot Lifecycle.

Open Scope string_scope.
Open Scope list_scope.
Open Scope Z_scope.

(** ** Progress *)

(** The callback is recorded: the calls made so far, oldest first. *)
Record progressReporter := mkReporter {
  pr_enabled : bool; pr_total : Z; pr_lastPct : Z; pr_calls : list (Z * Z) }.

Definition newProgressReporter (enabled : bool) (total : Z) : progressReporter :=
  mkReporter enabled total (-1) [].

Definition report (p : progressReporter) (current : Z) : progressReporter :=
  if negb (pr_enabled p) || (pr_total p =? 0) then p
  else
    let pct := SafeUint64ToInt (u64 (current * 100) / pr_total p) in
    if pr_lastPct p <? pct
    then mkReporter (pr_enabled p) (pr_total p) pct (pr_calls p ++ [(current, pr_total p)])
    else p.

Definition finish (p : progressReporter) : progressReporter :=
  if negb (pr_enabled p) || (pr_total p =? 0) || (100 <=? pr_lastPct p) then p
  else mkReporter (pr_enabled p) (pr_total p) (pr_lastPct p)
         (pr_calls p ++ [(pr_total p, pr_total p)]).

(** ** Volume metadata *)

Record ImportMeta := mkImportMeta {
  im_VolumeID : string; im_VolumeName : string; im_SizeGiB : Z; im_State : string;
  im_CreatedAt : option Z; im_AvailabilityZone : string;
  ami_Name : string; ami_ImageID : string; ami_CreationDate : option Z; ami_Architecture : string;
  ami_PlatformDetails : string; ami_RootDeviceType : string; ami_Virtualization : string;
  ami_ImageOwnerAlias : string; ami_VolumeSizeGiB : Z }.

Definition or_string (s d : string) : string := if decide (s = EmptyString) then d else s.
Definition or_time (t : option Z) (d : Z) : option Z := match t with Some _ => t | None => Some d end.
Definition gib (size : Z) : Z := SafeInt64ToUint64 size / 1024 / 1024 / 1024.

(** [%d] on a non-negative [int64]. *)
Definition fmt_int (z : Z) : string := pretty (Z.to_N z).

(** [GenerateVolumeID] ([viperblock.go]) *)
Definition GenerateVolumeID {H : Hash} (voltype name bucket : string) (timestamp : Z) : string :=
  let input := voltype +:+ "-" +:+ name +:+ "-" +:+ bucket +:+ "-" +:+ fmt_int timestamp in
  voltype +:+ "-" +:+ String.substring 0 17 (hex_encode (Sum256 (str_bytes input))).

(** The defaults of missing fields; [now] is the clock, [region] and [bucket]
    come from the S3 configuration. *)
Definition fill_metadata {H : Hash} (bucket region : string) (now size : Z) (m : ImportMeta) : ImportMeta :=
  let volumeName := if decide (im_VolumeID m = EmptyString) then "vol-" +:+ fmt_int now else EmptyString in
  let ami := negb (bool_decide (ami_Name m = EmptyString)) in
  let dflt (b : bool) (s d : string) := if b then or_string s d else s in
  mkImportMeta
    (or_string (im_VolumeID m) (GenerateVolumeID "vol" volumeName bucket now))
    (or_string (im_VolumeName m) volumeName)
    (if im_SizeGiB m =? 0 then gib size else im_SizeGiB m)
    (or_string (im_State m) "available")
    (or_time (im_CreatedAt m) now)
    (or_string (im_AvailabilityZone m) region)
    (ami_Name m)
    (dflt ami (ami_ImageID m) (GenerateVolumeID "ami" volumeName bucket now))
    (if ami then or_time (ami_CreationDate m) now else ami_CreationDate m)
    (dflt ami (ami_Architecture m) "x86_64")
    (dflt ami (ami_PlatformDetails m) "Linux/UNIX")
    (dflt ami (ami_RootDeviceType m) "ebs")
    (dflt ami (ami_Virtualization m) "hvm")
    (dflt ami (ami_ImageOwnerAlias m) "spinifex")
    (if ami && (ami_VolumeSizeGiB m =? 0) then gib size else ami_VolumeSizeGiB m).

(** ** The copy *)

(** What one [f.Read] returns: bytes, and [io.EOF] or another error. *)
Inductive read_status := ReadOk | ReadEOF | ReadFailed.
Abbreviation file_read := (bytes * read_status)%type.

Section import.
Context {H : Hash} {A : AEAD} {S : StateJSON} {P : ProbeJSON} {SJ : SnapJSON} {L : LRULib}.

(** Every [BlockSize] blocks. *)
Definition import_checkpoint (sc : Sched) (bs block : Z) : M unit :=
  if block mod bs =? 0 then run Flush; WriteWALToChunkCtx sc true else ret tt.

(** The loop; when the list of reads ends the file is at its end. *)
Fixpoint import_loop (sc : Sched) (fuel : nat) (bs : Z) (reads : list file_read)
    (block current : Z) (p : progressReporter) : M progressReporter :=
  match reads with
  | [] => ret p
  | (d, st) :: reads' =>
      if bool_decide (d = zeros bs) then
        let current' := u64 (current + blen d) in
        import_loop sc fuel bs reads' (u64 (block + 1)) current' (report p current')
      else
        match st with
        | ReadEOF => ret p
        | ReadFailed => throw plain
        | ReadOk =>
            do _ <- WriteAtCtx sc fuel false (u64 (block * bs)) d;
            let block' := u64 (block + 1) in
            let current' := u64 (current + blen d) in
            let p' := report p current' in
            run import_checkpoint sc bs block';
            import_loop sc fuel bs reads' block' current' p'
        end
  end.

(** The whole import.  [size] is what the stat of the file says, [cache] the
    cache configuration of [vbConfig]. *)
Definition ImportDiskImage (sc : Sched) (fuel : nat) (vbConfig : VB) (cache : CacheConfig) (m : ImportMeta)
    (bucket region : string) (reads : list file_read) (size : Z) (progress : bool)
    : M progressReporter :=
  run os_call; (* os.OpenFile *)
  run os_call; (* f.Stat *)
  do t <- get_now;
  let m := fill_metadata bucket region t size m in
  run New (Some (vbConfig <| vb_Config := mkVolumeConfig (im_SizeGiB m) (other_config (vb_Config vbConfig)) |>)) cache "s3";
  run os_call; (* Backend.Init *)
  run try LoadState;
  run LoadBlockStateCtx;
  do v <- get;
  run OpenWAL TheWAL (wal_BaseDir (vb_WAL v) +:+ "/"
        +:+ GetFilePath FileTypeWALChunk (WallNum (vb_WAL v)) (GetVolume v));
  do v <- get;
  run OpenWAL TheBlockWAL (wal_BaseDir (vb_WAL v) +:+ "/"
        +:+ GetFilePath FileTypeWALBlock (WallNum (BlockToObjectWAL v)) (GetVolume v));
  do v <- get;
  when EncryptionEnabled v then SaveStateCtx;
  if size <? 0 then throw plain
  else
    do v <- get;
    do p <- import_loop sc fuel (BlockSize v) reads 0 0
              (newProgressReporter progress (SafeInt64ToUint64 size));
    let p := finish p in
    when negb (bool_decide (ami_Name m = EmptyString)) then
      (do v <- get; do _ <- CreateSnapshot sc ("snap-" +:+ VolumeName v); ret tt);
    run Close sc;
    ret p.
End import.

(** ** The callback is called at most 101 times *)

(** A reporter between calls: the percentages reported are increasing and end
    at [pr_lastPct], so there are at most [pr_lastPct + 1] calls. *)
Definition throttled (p : progressReporter) : Prop :=
  -1 <= pr_lastPct p <= 100 /\ Z.of_nat (length (pr_calls p)) <= pr_lastPct p + 1.

Lemma new_throttled e t : throttled (newProgressReporter e t).
Proof. split; cbn; lia. Qed.

Lemma report_throttled p current :
  0 <= current <= pr_total p -> current * 100 < 2 ^ 64 -> throttled p ->
  throttled (report p current) /\ pr_total (report p current) = pr_total p.
Proof.
  intros Hc Hw [Hl Hn]. unfold report.
  destruct (negb (pr_enabled p) || (pr_total p =? 0)) eqn:E; [done|].
  apply orb_false_iff in E as [_ E%Z.eqb_neq].
  rewrite u64_small by wsolve.
  assert (0 <= current * 100 / pr_total p <= 100) as Hp.
  { split; [apply Z.div_pos; lia|]. apply Z.div_le_upper_bound; lia. }
  rewrite SafeUint64ToInt_small by (unfold_widths; lia).
  destruct (Z.ltb_spec (pr_lastPct p) (current * 100 / pr_total p)); [|done].
  split; [|done]. split; cbn; [lia|]. rewrite length_app. cbn. lia.
Qed.

Definition read_total (reads : list file_read) : Z := foldr (fun r n => blen r.1 + n) 0 reads.

Lemma read_total_nonneg reads : 0 <= read_total reads.
Proof.
  induction reads as [|[d st] reads IH]; [done|].
  change (read_total ((d, st) :: reads)) with (blen d + read_total reads). unfold blen. lia.
Qed.

(** The copy keeps the reporter throttled, whatever the volume does. *)
Lemma import_loop_throttled {A : AEAD} {S : StateJSON} sc fuel bs reads block current p s p' s' :
  0 <= current -> current + read_total reads <= pr_total p -> pr_total p * 100 < 2 ^ 64 -> throttled p ->
  import_loop sc fuel bs reads block current p s = (Ok p', s') ->
  throttled p' /\ pr_total p' = pr_total p.
Proof.
  revert block current p s. induction reads as [|[d st] reads IH]; intros block current p s Hc Ht Hw Hp; cbn [import_loop].
  { by intros [= <- <-]. }
  change (read_total ((d, st) :: reads)) with (blen d + read_total reads) in Ht. pose proof (read_total_nonneg reads).
  assert (0 <= blen d) by (unfold blen; lia).
  rewrite (u64_small (current + blen d)) by wsolve.
  destruct (report_throttled p (current + blen d)) as [Hp' E]; [lia|lia|done|].
  assert (forall b s1, import_loop sc fuel bs reads b (current + blen d) (report p (current + blen d)) s1 = (Ok p', s') ->
    throttled p' /\ pr_total p' = pr_total p) as Hnext.
  { intros b s1 Hrun. rewrite <-E. apply (IH b (current + blen d) _ s1); rewrite ?E; auto; lia. }
  case_bool_decide; [apply Hnext|]. destruct st; [|by intros [= <- <-]|done].
  unfold bind. destruct (WriteAtCtx _ _ _ _ _ s) as [[?|?] s1]; [|done].
  destruct (import_checkpoint _ _ _ s1) as [[?|?] s2]; [|done]. apply Hnext.
Qed.
