(* ===== verification/Sfs.v ===== *)
(** * The file-copy tool (cmd/sfs/sfs.go)

    [main] copies the files of a directory into a volume through SimpleFS,
    flushes and consolidates the log, and reads every file back from the
    chunks to compare checksums. Flags, the directory listing and what the
    reads of the input files return are arguments; an [os.Exit] is an error. *)

From S2P Require Import Prelude Words LRUCache BlockMap BlockStore Crypto Paths SimpleFS Volume WAL Chunk Read Checkpoint SeqNum Engine GC Snapshot Lifecycle Nbd Import Blocks Frames.

Record sfs_flags := mkFlags {
  f_btype : string; f_vol : string; f_sfsstate : string; f_createvol : bool;
  f_voldata : string; f_size : Z; f_masterKey : option string (* fingerprint of the loaded key *) }.

(** A file of the walked tree: its path, the size the listing reports, and
    what its reads return. *)
Record tree_file := mkTreeFile { tf_path : string; tf_size : Z; tf_reads : list file_read }.

(** The [SHA256] entry of a copied file. *)
Record checksum := mkChecksum { ck_Filename : string; ck_Checksum : bytes; ck_Len : Z }.

Section sfs.
Context {H : Hash} {A : AEAD} {S : StateJSON} {P : ProbeJSON} {SJ : SnapJSON} {L : LRULib}.

(** ** Copying a file *)

(** The read loop: each read is one block, padded with zeros; a read error
    other than the end of the file is only logged. The bytes go to the hash. *)
Fixpoint copy_reads (bs : Z) (reads : list file_read) (blocks : list Z) : M bytes :=
  match reads with
  | [] => ret []
  | (d, ReadEOF) :: _ => ret d
  | (d, _) :: reads' =>
      match blocks with
      | [] => throw [GoPanic] (* blocks[currentBlock]: index out of range *)
      | block :: blocks' =>
          run VB_Write block (d ++ zeros (bs - blen d));
          do rest <- copy_reads bs reads' blocks';
          ret (d ++ rest)
      end
  end.

(** The function of [filepath.Walk], for one file. *)
Definition copy_file (sfs : SimpleFS) (f : tree_file) : M (SimpleFS * checksum) :=
  match CreateFile sfs (tf_path f) (SafeInt64ToUint64 (tf_size f)) with
  | (_, Err _) => throw plain
  | (sfs, Ok blocks) =>
      run os_call; (* os.Open *)
      do v <- get;
      do read <- copy_reads (BlockSize v) (tf_reads f) blocks;
      ret (sfs, mkChecksum (tf_path f) (Sum256 read) (blen read))
  end.

(** [localSHA256] is a map by path: the last entry of a path counts. *)
Fixpoint copy_tree (sfs : SimpleFS) (tree : list tree_file) (sums : gmap string checksum)
    : M (SimpleFS * gmap string checksum) :=
  match tree with
  | [] => ret (sfs, sums)
  | f :: tree' =>
      do r <- copy_file sfs f;
      copy_tree r.1 tree' (<[tf_path f := r.2]> sums)
  end.

(** ** Reading back *)

(** The loop over the blocks of a file; [i] is the index of the next one. *)
Fixpoint read_blocks (blocksize : Z) (blocks : list Z) (i : Z) (buf : bytes) : M bytes :=
  match blocks with
  | [] => ret buf
  | block :: blocks' =>
      do v <- get;
      match LookupBlockToObject (blockStride v) (BlocksToObject v) block with
      | None => throw [ErrZeroBlock]
      | Some (objectID, objectOffset, _) =>
          do data <- backend_Read FileTypeChunk objectID objectOffset (SafeUint64ToUint32 blocksize);
          let pos := i * SafeUint64ToInt blocksize in
          if blen buf <=? pos then ret buf
          else
            let bytesToCopy := if blen buf <? pos + SafeUint64ToInt blocksize then blen buf - pos
                               else SafeUint64ToInt blocksize in
            if blen data <? bytesToCopy then throw [GoPanic] (* data[:bytesToCopy] *)
            else read_blocks blocksize blocks' (i + 1)
                   (copy_slice buf pos (pos + bytesToCopy) (slice data 0 bytesToCopy))
      end
  end.

(** Whether the checksum matches; a mismatch is only printed. *)
Definition verify_file (sfs : SimpleFS) (file : checksum) : M bool :=
  match map_get (Blocks sfs) (ck_Filename file) with
  | None => ret (bool_decide (Sum256 [] = ck_Checksum file)) (* the zero SimpleBlock *)
  | Some f =>
      do buf <- read_blocks (Blocksize sfs) (FileBlocks f) 0 (zeros (FileSize f));
      ret (bool_decide (Sum256 buf = ck_Checksum file))
  end.

Fixpoint verify_all (sfs : SimpleFS) (files : list checksum) : M (list bool) :=
  match files with
  | [] => ret []
  | f :: files' =>
      do ok <- verify_file sfs f;
      do rest <- verify_all sfs files';
      ret (ok :: rest)
  end.

(** ** main *)

(** The file system of the run: loaded from the state file if there is one,
    formatted by -createvol. *)
Definition open_fs (fl : sfs_flags) (disk : state_disk) : result error SimpleFS :=
  let sfs := SimpleFS.New in
  let? sfs :=
    (if bool_decide (f_sfsstate fl = EmptyString) then Ok sfs
     else match disk !! f_sfsstate fl with
          | None => Ok sfs (* will create a new one on save *)
          | Some _ => match SimpleFS.LoadState disk sfs (f_sfsstate fl) with
                      | (sfs, Ok _) => Ok sfs
                      | (_, Err _) => Err plain
                      end
          end) in
  if f_createvol fl then
    match CreateVolume sfs (f_vol fl) (f_size fl) with
    | (sfs, Ok _) => Ok sfs
    | (_, Err _) => Err plain
    end
  else Ok sfs.

(** The configuration handed to [New]. *)
Definition sfs_config (fl : sfs_flags) : VB :=
  VB_zero <| VolumeName := f_vol fl |> <| VolumeSize := f_size fl |> <| MasterKey := f_masterKey fl |>
               <| EncryptionEnabled := bool_decide (f_masterKey fl <> None) |>.

(** The log the tool opens lies beside the volume, not where the engine keeps
    its segments. *)
Definition sfs_wal (fl : sfs_flags) (v : VB) : string :=
  f_voldata fl +:+ "/" +:+ GetVolume v +:+ "/wal." +:+ fmt_0d 8 (WallNum (vb_WAL v)) +:+ ".bin".

Definition open_volume (fl : sfs_flags) : M unit :=
  run Lifecycle.New (Some (sfs_config fl)) (mkCacheConfig 0 false 0) (f_btype fl);
  run os_call; (* vb.Backend.Init *)
  run Snapshot.LoadState;
  run modify (fun v => v <| vb_WAL := (vb_WAL v) <| wal_BaseDir := f_voldata fl |>
                                                <| WallNum := u64 (WallNum (vb_WAL v) + 1) |> |>);
  do v <- get;
  run OpenWAL TheWAL (sfs_wal fl v);
  (* the header was appended: the descriptor is at the end of the file *)
  do size <- file_size (sfs_wal fl v);
  ReadWAL size.

(** [order]: in which order the map of checksums is ranged over; [io]: whether
    the state file can be written. The result has the comparisons made and the
    state files. *)
Definition sfs_main (sc : Sched) (order : list checksum -> list checksum) (io : bool) (fl : sfs_flags)
    (disk : state_disk) (tree : list tree_file) : M (list bool * state_disk) :=
  if negb (f_createvol fl) && bool_decide (f_vol fl = EmptyString) then throw plain
  else
    run os_call; (* os.Stat of the directory *)
    when negb (bool_decide (f_voldata fl = EmptyString)) then os_call; (* os.MkdirAll when it is missing *)
    do sfs <- of_result (open_fs fl disk);
    run open_volume fl;
    do r <- copy_tree sfs tree ∅;
    run Flush;
    do v <- get;
    run (if UseShardedWAL v then WriteShardedWALToChunkCtx sc false else WriteWALToChunkCtx sc false);
    run SaveBlockStateCtx;
    do checks <- verify_all r.1 (order (map_to_list r.2).*2);
    let disk := if bool_decide (f_sfsstate fl = EmptyString) then disk
                else (SimpleFS.SaveState disk io r.1 (f_sfsstate fl)).1 in
    run try SaveStateCtx;
    ret (checks, disk).

(** ** The copy is faithful *)

(** The block number and the data of a buffered write. *)
Definition written (b : Block) : Z * bytes := (b_Block b, b_Data b).

Definition padded (bs : Z) (d : bytes) : bytes := d ++ zeros (bs - blen d).

Lemma padded_length bs d : blen d <= bs -> blen (padded bs d) = bs.
Proof. intros Hd. unfold padded, blen in *. rewrite length_app, length_zeros. lia. Qed.

(** A whole block copied over a zero buffer is the block. *)
Lemma copy_whole bs (d : bytes) : 0 <= bs -> blen d = bs -> copy_slice (zeros bs) 0 bs d = d.
Proof.
  intros Hb Hd. rewrite copy_slice_eq by (unfold blen in *; rewrite ?length_zeros; lia).
  cbn [Z.to_nat take app]. rewrite drop_ge by (rewrite length_zeros; lia). apply app_nil_r.
Qed.

Lemma VB_Write_one s block d :
  0 < BlockSize (vb s) -> blen d = BlockSize (vb s) -> in_u64 block ->
  (EncryptionEnabled (vb s) = true -> VolumeUUID (vb s) <> zeros 4) -> 0 <= SeqNum (vb s) -> SeqNum (vb s) + 1 < 2 ^ 64 ->
  post (VB_Write block d) s (fun r s' => r = Ok tt ->
    BlockSize (vb s') = BlockSize (vb s) /\ SeqNum (vb s') = SeqNum (vb s) + 1 /\
    (EncryptionEnabled (vb s') = true -> VolumeUUID (vb s') <> zeros 4) /\
    written <$> Writes (vb s') = (written <$> Writes (vb s)) ++ [(block, d)]).
Proof.
  intros Hbs Hd Hb Hu H0 Hlt. unfold VB_Write. mgo. 2: by intros [=].
  rewrite Hd, Z.div_same by lia.
  eapply post_mono; [apply reserve_frame; [done|done|lia|lia]|]. cbn beta.
  intros [x|e] s1 ([(c1 & c2 & c3 & Ev) _ _] & Es & Hx); [|by intros [=]].
  cbn beta iota. specialize (Hx x eq_refl). subst x. mgo. intros _. cbn [vb].
  assert (write_blocks block (u64 (SeqNum (vb s) + 1)) (BlockSize (vb s)) d 1 (vb s1)
    = append_write (mkBlock d (SeqNum (vb s) + 1) block 0 0) (vb s1)) as ->.
  { unfold write_blocks. change (seqZ 0 1) with [0]. cbn [fold_left]. f_equal. f_equal.
    - rewrite Z.mul_0_l, Z.add_0_l. rewrite slice_all by (unfold blen in Hd; lia). by apply copy_whole; [lia|].
    - rewrite (u64_small (SeqNum (vb s) + 1)) by wsolve. rewrite u64_small by wsolve. lia.
    - rewrite u64_small by (unfold_widths; lia). lia. }
  rewrite Ev. unfold append_write. cbn. rewrite fmap_app. split; [done|]. split; [|done]. rewrite Ev in Es. exact Es.
Qed.

(** The copy of a file writes block by block what its reads returned, each
    padded to a block, to the blocks of the file, in order; and hashes exactly
    the bytes read. *)
Lemma copy_reads_writes bs reads : forall blocks s,
  bs = BlockSize (vb s) -> 0 < bs -> Forall (fun r : file_read => blen r.1 <= bs) reads ->
  Forall (fun b => in_u64 b) blocks -> (EncryptionEnabled (vb s) = true -> VolumeUUID (vb s) <> zeros 4) ->
  0 <= SeqNum (vb s) -> SeqNum (vb s) + Z.of_nat (length reads) < 2 ^ 64 ->
  Forall (fun r : file_read => r.2 = ReadOk) reads ->
  post (copy_reads bs (reads ++ [([], ReadEOF)]) blocks) s (fun r s' => forall d, r = Ok d ->
    d = List.concat (fst <$> reads) /\ (length reads <= length blocks)%nat /\
    written <$> Writes (vb s') = (written <$> Writes (vb s)) ++ zip blocks (padded bs <$> (fst <$> reads))).
Proof.
  induction reads as [|[d st] reads IH]; intros blocks s Hbs Hpos Hlen Hb Hu H0 Hlt Hok; cbn [app copy_reads].
  { mgo. intros d [= <-]. split; [done|]. split; [cbn; lia|]. cbn. destruct blocks; by rewrite app_nil_r. }
  apply Forall_cons in Hlen as [Hd Hlen]. apply Forall_cons in Hok as [Hst Hok]. cbn in Hd, Hst. subst st.
  destruct blocks as [|b blocks]; [by mgo|]. apply Forall_cons in Hb as [Hb1 Hb]. cbn [length] in Hlt.
  apply post_bind. eapply post_mono.
  { apply (VB_Write_one s b (d ++ zeros (bs - blen d))); try done; try lia. rewrite <-Hbs. by apply padded_length. }
  cbn beta. intros [[]|e] s1 Hw; [|done]. destruct (Hw eq_refl) as (E1 & E2 & E3 & E4). cbn beta iota. apply post_bind.
  eapply post_mono; [apply (IH blocks s1); try done; try lia; congruence|]. cbn beta. intros [rest|e] s2 Hr; [|done]. mgo.
  intros x [= <-]. destruct (Hr rest eq_refl) as (-> & Hle & HW). cbn. split; [done|]. split; [lia|].
  by rewrite HW, E4, <-app_assoc.
Qed.
End sfs.
