(* ===== verification/Vblock.v ===== *)
(** * The import tool (cmd/vblock/main.go)

    [main] checks its flags, reads the volume's metadata and the master key,
    and runs [ImportDiskImage]. The flags, the metadata parser, the key loader
    and what the reads of the image return are arguments; an [os.Exit] is an
    error. *)

From S2P Require Import Prelude Words LRUCache BlockMap BlockStore Crypto Paths Volume WAL Chunk Read Checkpoint SeqNum Engine GC Snapshot Lifecycle Nbd Import Frames.

Record vblock_flags := mkVblockFlags {
  vf_file : string; vf_size : Z; vf_volume : string; vf_bucket : string; vf_region : string;
  vf_access_key : string; vf_secret_key : string; vf_host : string; vf_base_dir : string;
  vf_metadata : string; vf_encryptionKeyFile : string }.

(** The required arguments, in the order of the checks: [true] when all are there. *)
Definition flags_complete (f : vblock_flags) : bool :=
  let given s := negb (bool_decide (s = EmptyString)) in
  given (vf_file f) && negb (vf_size f =? 0) && given (vf_volume f) && given (vf_bucket f) && given (vf_region f)
  && given (vf_access_key f) && given (vf_secret_key f) && given (vf_host f) && given (vf_base_dir f).

(** The zero [VolumeConfig]. *)
Definition no_metadata : ImportMeta :=
  mkImportMeta "" "" 0 "" None "" "" "" None "" "" "" "" "" 0.

(** The image's id when there is one, the volume's otherwise. *)
Definition volID (m : ImportMeta) : string :=
  if bool_decide (ami_ImageID m = EmptyString) then im_VolumeID m else ami_ImageID m.

Section vblock.
Context {H : Hash} {A : AEAD} {S : StateJSON} {P : ProbeJSON} {SJ : SnapJSON} {L : LRULib}.
(** [json.Unmarshal] into a [VolumeConfig]: the fields the import reads and the others. *)
Context (Unmarshal : bytes -> option (ImportMeta * string)).

(** Only a missing file ends the program at [os.Stat]; another error of it is
    met again by the read. *)
Definition read_metadata (path : string) : M (ImportMeta * string) :=
  if bool_decide (path = EmptyString) then ret (no_metadata, EmptyString)
  else
    do st <- next; (* os.Stat *)
    do f <- get_file path;
    match st, f with
    | Works, None => throw plain
    | _, _ =>
        do raw <- os_ReadFile path;
        match Unmarshal raw with Some c => ret c | None => throw plain end
    end.

Definition vblock_config (f : vblock_flags) (m : ImportMeta) (other : string) (mkey : option string) : VB :=
  VB_zero <| VolumeName := volID m |> <| VolumeSize := SafeIntToUint64 (vf_size f) |> <| BaseDir := vf_base_dir f |>
    <| vb_Config := mkVolumeConfig (im_SizeGiB m) other |> <| MasterKey := mkey |>
    <| EncryptionEnabled := bool_decide (mkey <> None) |>.

(** [reads] and [size] are what the image file gives. *)
Definition vblock_main (LoadShared : string -> result error string) (env : string) (sc : Sched) (fuel : nat)
    (f : vblock_flags) (reads : list file_read) (size : Z) : M progressReporter :=
  if negb (flags_complete f) then throw plain
  else
    do c <- read_metadata (vf_metadata f);
    let '(m, other) := c in
    do mkey <- of_result (LoadMasterKeyFromFlagOrEnv LoadShared env (vf_encryptionKeyFile f));
    ImportDiskImage sc fuel (vblock_config f m other mkey) (mkCacheConfig 0 false 0) m (vf_bucket f) (vf_region f) reads size true.

(** ** The volume's id comes from the metadata alone *)

(** The id is read from the metadata before [ImportDiskImage] generates
    missing ones, and -volume, although required, is not used: without an id in
    the metadata the import ends at the checks of [New] and stores nothing. *)
Theorem vblock_needs_metadata_id LoadShared env sc fuel f reads size s :
  (forall raw m o, Unmarshal raw = Some (m, o) -> volID m = EmptyString) ->
  post (vblock_main LoadShared env sc fuel f reads size) s (fun r s' =>
    (exists e, r = Err e) /\ quiet s s').
Proof.
  intros Hid. unfold vblock_main. destruct (flags_complete f); cbn [negb]; [|mgo; split; [by eexists|done]].
  apply post_bind. apply (post_mono _ _ (fun r q => quiet s q /\ forall m o, r = Ok (m, o) -> volID m = EmptyString)).
  { unfold read_metadata. destruct (bool_decide _); [mgo; split; [done|]; by intros m o [= <- _]|].
    do 2 mstep. do 2 mstep. match goal with H : quiet s ?q |- _ => rename H into Hq; set (s1 := q) in * end.
    assert (post (do raw <- os_ReadFile (vf_metadata f); match Unmarshal raw with Some c => ret c | None => throw plain end) s1
      (fun r q => quiet s q /\ forall m o, r = Ok (m, o) -> volID m = EmptyString)) as Hread.
    { unfold os_ReadFile. apply post_bind, post_bind, post_next. intros o2 s2 Hq2. cbn beta iota. do 2 mstep.
      pose proof (quiet_trans _ _ _ Hq Hq2). destruct o2, (files (world s2) !! vf_metadata f) as [raw|]; mgo; try (split; [done|]; discriminate).
      all: destruct (Unmarshal raw) as [[m' o']|] eqn:E; mgo; split; try done; intros ? ? [= <- <-]; by eapply Hid. }
    destruct o, (files (world s1) !! vf_metadata f); try exact Hread. mgo. split; [done|discriminate]. }
  intros r s1 [Hq Hm]. destruct r as [[m other]|e]; cbn beta iota; [|split; [by eexists|done]]. specialize (Hm m other eq_refl).
  apply post_bind, post_of_result. destruct (LoadMasterKeyFromFlagOrEnv _ _ _) as [mkey|e]; cbn beta iota; [|split; [by eexists|done]].
  unfold ImportDiskImage.
  do 2 (apply post_bind, post_os_call; intros r ? Hq'; pose proof (quiet_trans _ _ _ Hq Hq') as Hq2; clear Hq Hq'; rename Hq2 into Hq;
        destruct r as [[]|e]; cbn beta iota; [|split; [by eexists|done]]).
  apply post_bind. unfold get_now, post at 1. cbn [fst snd]. unfold New. apply post_bind, post_bind, post_of_result.
  unfold check_config. match goal with |- context [bool_decide (VolumeName ?c = _)] => change (VolumeName c) with (volID m) end.
  rewrite Hm. rewrite bool_decide_true by done. cbn [orb]. split; [by eexists|done].
Qed.
End vblock.
