(* ===== verification/SeqNumFacts.v ===== *)
(** * Crash safety of SeqNum reservation

    Histories of an encrypted volume: reservations, saves and UUID minting,
    one call at a time, and crashes followed by [LoadState] at any
    point. No SeqNum is handed out twice, so no nonce is. *)

From S2P Require Import Prelude Words Json Crypto Paths Volume SeqNum.

Section facts.
Context {A : AEAD} {S : StateJSON}.
Context {AL : AEADLaws A} {SL : StateJSONLaws S}.

(** ** The sealed blob *)

Definition blob_of (nh : bytes) (st : VBState) : bytes :=
  sealMeta (marshal_state st) (makeMetaAAD nh (lit "vbstate") (vs_StateSeqNum st))
    (makeNonce (vs_StateSeqNum st) (vs_VolumeUUID st) DomainVBStateMeta).

Lemma state_blob_eq v hw n :
  EncryptionEnabled v = true -> state_blob v (state_of v hw n) = blob_of (volumeNameHash v) (state_of v hw n).
Proof. intros H. unfold state_blob. by rewrite H. Qed.

Lemma decode_blob v st fp :
  EncryptionEnabled v = true -> MasterKey v = Some fp -> vs_KeyFingerprint st = fp ->
  decode_state v (blob_of (volumeNameHash v) st) = Ok st.
Proof.
  intros He Hm Hf. unfold decode_state, blob_of. rewrite He.
  rewrite split_seal by apply marshal_valid. rewrite peek_marshal, Hm. cbn.
  rewrite bool_decide_true by done. cbn. rewrite verify_seal. cbn.
  by rewrite probe_state, unmarshal_marshal.
Qed.

Lemma decode_truncated v nh st k :
  EncryptionEnabled v = true -> (k < length (blob_of nh st))%nat ->
  decode_state v (take k (blob_of nh st)) = Err [ErrIntegrity].
Proof.
  intros He Hk. unfold decode_state. rewrite He. unfold splitEnvelope, blob_of, sealMeta in *.
  rewrite unmarshal_truncated; [done|apply marshal_valid|done].
Qed.

(** ** Identity of a volume across crashes *)

Context (nm base : string) (nh : bytes) (fp : string).

Record ident (v : VB) : Prop := {
  id_name : VolumeName v = nm;
  id_base : BaseDir v = base;
  id_hash : volumeNameHash v = nh;
  id_key : MasterKey v = Some fp;
  id_enc : EncryptionEnabled v = true
}.

Record good (st : VBState) : Prop := {
  g_name : vs_VolumeName st = nm;
  g_key : vs_KeyFingerprint st = fp;
  g_enc : vs_EncryptionEnabled st = true;
  g_uuid : vs_VolumeUUID st <> zeros 4;
  g_hw : 0 <= vs_SeqNumHighWater st;
  g_ssn : 0 <= vs_StateSeqNum st
}.

Definition cfg : string := (base +:+ "/" +:+ GetFilePath FileTypeConfig 0 nm)%string.
Definition key : string := GetFilePath FileTypeConfig 0 nm.

Lemma config_path_ident v : ident v -> config_path v = cfg.
Proof. intros []. unfold config_path, GetVolume, cfg. congruence. Qed.

Lemma state_of_good v hw n :
  ident v -> VolumeUUID v <> zeros 4 -> 0 <= hw -> 0 <= n -> good (state_of v hw n).
Proof. intros [] Hu Hw Hn. constructor; cbn; try done. rewrite id_enc0, id_key0. done. Qed.

(** ** What each call does to the durable state *)

(** The local file after a persist: the old one, or the new state. *)
Lemma persist_spec hw s :
  ident (vb s) ->
  post (persistStateLocal hw) s (fun r s' =>
    let v' := (vb s) <| nextStateSeqNum := u64 (nextStateSeqNum (vb s) + 1) |> in
    let st := state_of v' hw (nextStateSeqNum v') in
    vb s' = v' /\ objects (world s') = objects (world s) /\
    (files (world s') !! cfg = files (world s) !! cfg \/
     files (world s') !! cfg = Some (blob_of nh st)) /\
    (forall p, r = Ok p -> p = blob_of nh st /\ files (world s') !! cfg = Some (blob_of nh st))).
Proof.
  intros Hi. unfold persistStateLocal. mgo. cbn [vb].
  set (v' := (vb s) <| nextStateSeqNum := u64 (nextStateSeqNum (vb s) + 1) |>).
  assert (ident v') as Hi' by (destruct Hi; by constructor).
  rewrite (config_path_ident v' Hi'), (state_blob_eq v') by apply Hi'. rewrite (id_hash v' Hi').
  eapply post_mono; [apply writeFileAtomic_spec|]. intros r s' ((Hv & Ho & _) & Hf & Hok).
  cbn [vb world] in *. destruct r as [[]|e].
  - apply post_ret. cbn zeta. specialize (Hok eq_refl). split; [done|]. split; [done|].
    split; [by right|]. by intros p [= <-].
  - cbn zeta. split; [done|]. split; [done|]. split; [done|]. by intros p [=].
Qed.

(** ** The durable invariant *)

Definition hw_of (ol : option VBState) : Z := from_option vs_SeqNumHighWater 0 ol.
Definition ssn_of (ol : option VBState) : Z := from_option vs_StateSeqNum 0 ol.

(** The local config.json holds exactly [ol]; the backend's copy, possibly cut
    short by a failed upload, is not newer. *)
Record dur (w : World) (ol : option VBState) : Prop := {
  d_local : files w !! cfg = blob_of nh <$> ol;
  d_good : forall st, ol = Some st -> good st;
  d_remote : objects w !! key = None \/
    exists stl stb k, ol = Some stl /\ good stb /\ objects w !! key = Some (take k (blob_of nh stb)) /\
      (vs_StateSeqNum stb < vs_StateSeqNum stl \/ stb = stl)
}.

(** Every interval handed out ends at or below the high-water marks, in memory
    and on disk. *)
Record opened (v : VB) (ol : option VBState) (l : list (Z * Z)) : Prop := {
  o_id : ident v;
  o_hw : 0 <= seqNumHighWater v <= hw_of ol;
  o_ssn : 0 <= ssn_of ol <= nextStateSeqNum v;
  o_uuid : VolumeUUID v = zeros 4 -> seqNumHighWater v = 0;
  o_seq : 0 <= SeqNum v;
  o_issued : Forall (fun i => 0 <= i.1 < i.2 /\ i.2 <= SeqNum v /\ i.2 <= seqNumHighWater v) l
}.

Lemma ident_ext v v' :
  VolumeName v' = VolumeName v -> BaseDir v' = BaseDir v -> volumeNameHash v' = volumeNameHash v ->
  MasterKey v' = MasterKey v -> EncryptionEnabled v' = EncryptionEnabled v -> ident v -> ident v'.
Proof. intros ? ? ? ? ? []. constructor; congruence. Qed.

(** Persisting replaces the durable state or leaves it alone. *)
Lemma persist_dur hw s ol :
  dur (world s) ol -> ident (vb s) -> VolumeUUID (vb s) <> zeros 4 -> 0 <= hw ->
  0 <= ssn_of ol <= nextStateSeqNum (vb s) -> nextStateSeqNum (vb s) < 2 ^ 64 - 1 ->
  post (persistStateLocal hw) s (fun r s' => exists ol',
    dur (world s') ol' /\ vb s' = (vb s) <| nextStateSeqNum := nextStateSeqNum (vb s) + 1 |> /\
    0 <= ssn_of ol' <= nextStateSeqNum (vb s') /\
    (ol' = ol \/ exists st, ol' = Some st /\ vs_SeqNumHighWater st = hw /\ ssn_of ol < vs_StateSeqNum st) /\
    (forall p, r = Ok p -> exists st, ol' = Some st /\ p = blob_of nh st /\ vs_SeqNumHighWater st = hw)).
Proof.
  intros [Hl Hg Hr] Hi Hne Hge Hs Hn.
  eapply post_mono; [by apply persist_spec|]. cbn zeta. intros r s' (Hv & Ho & Hfile & Hok).
  rewrite u64_small in * by (unfold_widths; lia).
  set (v' := (vb s) <| nextStateSeqNum := nextStateSeqNum (vb s) + 1 |>) in *.
  assert (ident v') as Hi' by (by apply (ident_ext (vb s))).
  set (st := state_of v' hw (nextStateSeqNum v')) in *.
  assert (good st) as Hgst by (apply state_of_good; [done|done|lia|change (0 <= nextStateSeqNum (vb s) + 1); lia]).
  destruct (decide (files (world s') !! cfg = Some (blob_of nh st))) as [Hnew|Hold].
  - exists (Some st). split; [|split; [done|split; [|split]]].
    + constructor; [done|by intros ? [= <-]|]. rewrite Ho.
      destruct Hr as [Hr|(stl & stb & k & -> & Hb & Ht & Hc)]; [by left|].
      right. exists st, stb, k. split; [done|]. split; [done|]. split; [done|]. left.
      unfold ssn_of in Hs. cbn in Hs. change (vs_StateSeqNum st) with (nextStateSeqNum (vb s) + 1).
      destruct Hc as [Hc| ->]; lia.
    + rewrite Hv. change (0 <= nextStateSeqNum (vb s) + 1 <= nextStateSeqNum (vb s) + 1). lia.
    + right. exists st. do 2 (split; [done|]). change (ssn_of ol < nextStateSeqNum (vb s) + 1). lia.
    + intros p Hp. exists st. split; [done|]. split; [by apply Hok|done].
  - destruct Hfile as [Hfile|Hfile]; [|done]. exists ol. split; [|split; [done|split; [|split]]].
    + constructor; [by rewrite Hfile|done|by rewrite Ho].
    + rewrite Hv. change (0 <= ssn_of ol <= nextStateSeqNum (vb s) + 1). lia.
    + by left.
    + intros p Hp. by destruct (Hok p Hp).
Qed.

(** The durable state has moved on, or not moved. *)
Definition later (ol ol' : option VBState) : Prop := ol' = ol \/ exists st, ol' = Some st /\ ssn_of ol < vs_StateSeqNum st.

(** Persisting a high-water that covers everything issued. *)
Lemma persist_inv hw s ol l :
  dur (world s) ol -> opened (vb s) ol l -> VolumeUUID (vb s) <> zeros 4 ->
  seqNumHighWater (vb s) <= hw -> nextStateSeqNum (vb s) < 2 ^ 64 - 1 ->
  post (persistStateLocal hw) s (fun r s' => exists ol',
    dur (world s') ol' /\ opened (vb s') ol' l /\
    vb s' = (vb s) <| nextStateSeqNum := nextStateSeqNum (vb s) + 1 |> /\ later ol ol' /\
    (forall p, r = Ok p -> exists st, ol' = Some st /\ p = blob_of nh st /\ vs_SeqNumHighWater st = hw)).
Proof.
  intros Hd [Hi Hh Hs Hu Hq Hf] Hne Hge Hn.
  eapply post_mono; [apply (persist_dur hw s ol); try done; lia|].
  intros r s' (ol' & Hd' & Hv & Hs' & Hc & Hok). exists ol'. split; [done|].
  assert (later ol ol') as Hlat by (destruct Hc as [-> |(st & -> & _ & ?)]; [by left|right; by exists st]).
  split; [|done]. rewrite Hv in *. constructor; try done.
  - by apply (ident_ext (vb s)).
  - change (0 <= seqNumHighWater (vb s) <= hw_of ol').
    destruct Hc as [-> |(st & -> & <- & _)]; [done|]. unfold hw_of. cbn. lia.
Qed.

(** Pushing the durable state, or an older one. *)
Lemma push_dur st stl s :
  dur (world s) (Some stl) -> ident (vb s) -> good st -> vs_StateSeqNum st < vs_StateSeqNum stl \/ st = stl ->
  post (pushStateToBackend (blob_of nh st)) s (fun _ s' =>
    dur (world s') (Some stl) /\ vb s' = vb s).
Proof.
  intros [Hl Hg Hr] Hi Hgs Hold.
  unfold pushStateToBackend, backend_Write, backend_WriteTo. mgo.
  cbn zeta. rewrite (id_name _ Hi). fold key.
  assert (forall k w', files w' = files (world s) ->
    objects w' = <[key := take k (blob_of nh st)]> (objects (world s)) -> dur w' (Some stl)) as Hput.
  { intros k w' Hf' Ho'. constructor; [by rewrite Hf'|done|]. right. exists stl, st, k.
    split; [done|]. split; [done|]. split; [|done]. by rewrite Ho', lookup_insert_eq. }
  match goal with H : quiet _ _ |- _ => destruct H as (Hv1 & Hf1 & Ho1) end.
  assert (blob_of nh st = take (length (blob_of nh st)) (blob_of nh st)) as Hfull by (by rewrite firstn_all).
  match goal with |- post (match ?o with _ => _ end) _ _ => destruct o as [|e [|k]|k] end; mgo;
    (split; [|done]).
  - apply (Hput (length (blob_of nh st))); cbn [files objects world with_objects]; [done|].
    by rewrite <-Hfull, Ho1.
  - constructor; [by rewrite Hf1|done|by rewrite Ho1].
  - apply (Hput k); cbn [files objects world with_objects]; [done|]. by rewrite Ho1.
  - apply (Hput (length (blob_of nh st))); cbn [files objects world with_objects]; [done|].
    by rewrite <-Hfull, Ho1.
Qed.

Lemma push_inv p st s l :
  dur (world s) (Some st) -> opened (vb s) (Some st) l -> p = blob_of nh st ->
  post (pushStateToBackend p) s (fun _ s' =>
    dur (world s') (Some st) /\ vb s' = vb s).
Proof. intros Hd Ho ->. apply push_dur; [done|apply Ho|by apply (d_good _ _ Hd)|by right]. Qed.

(** ** The loop that advances the high-water mark *)

Lemma advance_loop_spec fuel hw target :
  0 <= hw -> target + seqNumReservation < 2 ^ 64 ->
  (target - hw) / seqNumReservation + 1 <= Z.of_nat fuel ->
  hw <= advance_loop fuel hw target /\ target <= advance_loop fuel hw target.
Proof.
  change seqNumReservation with 1048576. revert hw. induction fuel as [|fuel IH]; intros hw Hhw Ht Hf; cbn [advance_loop].
  - Z.div_mod_to_equations; lia.
  - change seqNumReservation with 1048576 in *. destruct (Z.ltb_spec hw target); [|lia].
    rewrite u64_small by (unfold_widths; lia).
    destruct (IH (hw + 1048576)) as [? ?]; [lia|done| |lia].
    Z.div_mod_to_equations; lia.
Qed.

(** The loop stops at a mark at or past its target. *)
Lemma advance_hw_spec hw target :
  0 <= hw -> target + seqNumReservation < 2 ^ 64 ->
  hw <= advance_hw hw target /\ target <= advance_hw hw target.
Proof. intros. unfold advance_hw. apply advance_loop_spec; [done|done|lia]. Qed.

(** ** The operations *)

Definition entropy_ok (w : World) : Prop :=
  Forall (fun b => take 4 (b ++ zeros 4) <> zeros 4) (entropy w).

Lemma post_rand s Q :
  entropy_ok (world s) ->
  (forall u s', quiet s s' -> u <> zeros 4 -> Q (Ok u) s') ->
  (forall e s', quiet s s' -> Q (Err e) s') -> post rand_Read4 s Q.
Proof.
  intros He Hok Herr. unfold post, rand_Read4.
  assert (exists o s1, next s = (Ok o, s1) /\ quiet s s1 /\ entropy (world s1) = entropy (world s)) as
    (o & s1 & En & Hq & Hent).
  { unfold next. destruct (plan (world s)) as [|o p]; eexists _, _; repeat split. }
  rewrite En. unfold entropy_ok in He. rewrite <-Hent in He.
  assert (forall e s2, quiet s s2 -> Q (Err e) s2) as Herr' by done.
  destruct o as [|e k|k]; [|by apply Herr|]; destruct (entropy (world s1)) as [|b rest];
    cbn [fst snd]; try (by apply Herr); apply Hok; try done; by apply Forall_cons in He as [He _].
Qed.

Lemma dur_quiet s s' ol : quiet s s' -> dur (world s) ol -> dur (world s') ol.
Proof.
  intros (_ & Hf & Ho) [Hl Hg Hr]. constructor; [by rewrite Hf|done|by rewrite Ho].
Qed.

Lemma mint_inv s ol l :
  dur (world s) ol -> opened (vb s) ol l -> entropy_ok (world s) ->
  post mintVolumeUUID s (fun r s' =>
    dur (world s') ol /\ opened (vb s') ol l /\
    SeqNum (vb s') = SeqNum (vb s) /\ seqNumHighWater (vb s') = seqNumHighWater (vb s) /\
    nextStateSeqNum (vb s') = nextStateSeqNum (vb s) /\
    (forall m, r = Ok m -> VolumeUUID (vb s') <> zeros 4 /\ (m = true -> seqNumHighWater (vb s) = 0))).
Proof.
  intros Hd Ho He. unfold mintVolumeUUID. mgo.
  destruct (bool_decide_reflect (VolumeUUID (vb s) = zeros 4)) as [Hz|Hz]; cbn [negb]; mgo.
  2: { do 5 (split; [done|]). by intros ? [= <-]. }
  apply post_rand; [done| |].
  - intros u s' Hq Hu. pose proof Hq as (Hv & _). mgo. cbn [vb world]. rewrite Hv.
    split; [by apply (dur_quiet s)|]. destruct Ho as [Hi Hh Hs Hu0 Hq0 Hf].
    split; [|do 3 (split; [done|]); intros ? [= <-]; split; [done|by auto]].
    constructor; try done. by apply (ident_ext (vb s)).
  - intros e s' Hq. pose proof Hq as (Hv & _). cbn beta iota. rewrite Hv.
    split; [by apply (dur_quiet s)|]. do 4 (split; [done|]). by intros ? [=].
Qed.

(** Publishing a mark that is already durable. *)
Lemma opened_publish v st l hw :
  opened v (Some st) l -> vs_SeqNumHighWater st = hw -> VolumeUUID v <> zeros 4 ->
  seqNumHighWater v <= hw -> opened (v <| seqNumHighWater := hw |>) (Some st) l.
Proof.
  intros [Hi Hh Hs Hu Hq Hf] <- Hz Hle. unfold hw_of in Hh. cbn in Hh. constructor; try done.
  - by apply (ident_ext v).
  - change (0 <= vs_SeqNumHighWater st <= vs_SeqNumHighWater st). lia.
  - eapply Forall_impl; [exact Hf|]. intros i (? & ? & ?). split; [done|]. split; [done|].
    change (i.2 <= vs_SeqNumHighWater st). lia.
Qed.

Lemma opened_seq v ol l n :
  opened v ol l -> SeqNum v <= n -> opened (v <| SeqNum := n |>) ol l.
Proof.
  intros [Hi Hh Hs Hu Hq Hf] Hle. constructor; try done.
  - by apply (ident_ext v).
  - change (0 <= n). lia.
  - eapply Forall_impl; [exact Hf|]. intros i (? & ? & ?). split; [done|]. split; [|done].
    change (i.2 <= n). lia.
Qed.

(** The mark covers a freshly issued interval. *)
Lemma opened_issue v ol l a b :
  opened v ol l -> 0 <= a < b -> b <= SeqNum v -> b <= seqNumHighWater v -> opened v ol ((a, b) :: l).
Proof. intros [] ? ? ?. constructor; try done. constructor; [cbn; lia|done]. Qed.

Lemma reserve_inv n s ol l :
  dur (world s) ol -> opened (vb s) ol l -> entropy_ok (world s) ->
  0 < n -> SeqNum (vb s) + n < 2 ^ 64 -> nextStateSeqNum (vb s) < 2 ^ 64 - 1 ->
  post (reserveSeqNum n) s (fun r s' => exists ol',
    dur (world s') ol' /\
    match r with
    | Ok start => start = SeqNum (vb s) /\ opened (vb s') ol' ((start, start + n) :: l)
    | Err _ => opened (vb s') ol' l
    end).
Proof.
  intros Hd Ho He Hn Hb Hssn. pose proof (o_seq _ _ _ Ho) as Hq0. apply post_reserve. unfold reserve_alone. mgo. cbn [vb].
  rewrite (u64_small (SeqNum (vb s) + n)) by (unfold_widths; lia).
  pose proof (opened_seq _ _ _ (SeqNum (vb s) + n) Ho ltac:(lia)) as Ho1.
  set (v1 := (vb s) <| SeqNum := SeqNum (vb s) + n |>) in *.
  change (SeqNum v1) with (SeqNum (vb s) + n). cbn zeta.
  replace (u64 (SeqNum (vb s) + n - n)) with (SeqNum (vb s)) by (rewrite u64_small; [lia|unfold_widths; lia]).
  rewrite (id_enc _ (o_id _ _ _ Ho1)). cbn [negb].
  destruct (Z.ltb_spec MaxSeqNum (SeqNum (vb s) + n)) as [_|Hmax]; [by mgo; eauto|].
  change MaxSeqNum with (2 ^ 56 - 1) in Hmax.
  destruct (Z.leb_spec (SeqNum (vb s) + n) (seqNumHighWater v1)) as [Hle|Hgt].
  { mgo. exists ol. split; [done|]. split; [done|]. by apply opened_issue; [done|lia|done..]. }
  assert (0 <= seqNumHighWater v1) as Hhw0 by apply (o_hw _ _ _ Ho1).
  destruct (advance_hw_spec (seqNumHighWater v1) (SeqNum (vb s) + n)) as [Ha1 Ha2];
    [done|change seqNumReservation with 1048576; lia|].
  set (hw := advance_hw (seqNumHighWater v1) (SeqNum (vb s) + n)) in *.
  mgo. eapply post_mono; [by apply (mint_inv _ ol l)|].
  intros r1 s1 (Hd1 & Ho2 & Hsq & Hh & Hss & Hm). cbn [vb] in Hsq, Hh, Hss, Hm.
  destruct r1 as [m|e]; cbn beta iota; [|by eauto]. destruct (Hm m eq_refl) as [Hz _].
  mgo. eapply post_mono; [apply (persist_inv hw s1 ol l); try done; [by rewrite Hh|by rewrite Hss]|].
  intros r2 s2 (ol' & Hd2 & Ho3 & Hv & _ & Hp). destruct r2 as [p|e]; cbn beta iota; [|by eauto].
  destruct (Hp p eq_refl) as (st & -> & Hps & Hhw). mgo.
  assert (SeqNum (vb s2) = SeqNum (vb s) + n) as Hs2 by (rewrite Hv; exact Hsq).
  assert (seqNumHighWater (vb s2) <= hw) as Hle2
    by (rewrite Hv; change (seqNumHighWater (vb s1) <= hw); by rewrite Hh).
  assert (VolumeUUID (vb s2) <> zeros 4) as Hz2 by (by rewrite Hv).
  pose proof (opened_publish _ _ _ hw Ho3 Hhw Hz2 Hle2) as Ho4.
  eapply post_mono; [by apply (push_inv p st _ l)|]. cbn [vb world]. intros r3 s3 [Hd3 Hv3]. mgo.
  exists (Some st). split; [done|]. split; [done|]. rewrite Hv3. apply opened_issue; [done|lia|..].
  - change (SeqNum (vb s) + n <= SeqNum (vb s2)). lia.
  - change (SeqNum (vb s) + n <= hw). done.
Qed.

(** Persist a mark, then push: what [SaveState] ends with. *)
Lemma save_hw_inv hw s ol l :
  dur (world s) ol -> opened (vb s) ol l -> VolumeUUID (vb s) <> zeros 4 ->
  seqNumHighWater (vb s) <= hw -> nextStateSeqNum (vb s) < 2 ^ 64 - 1 ->
  post (saveStateWithHighWater hw) s (fun _ s' => exists ol', dur (world s') ol' /\ opened (vb s') ol' l /\
    later ol ol' /\ SeqNum (vb s') = SeqNum (vb s) /\ seqNumHighWater (vb s') = seqNumHighWater (vb s)).
Proof.
  intros Hd Ho Hz Hle Hn. unfold saveStateWithHighWater. mgo.
  eapply post_mono; [by apply (persist_inv hw s ol l)|].
  intros r2 s2 (ol' & Hd2 & Ho2 & Hv & Hlat & Hp). destruct r2 as [p|e]; cbn beta iota.
  2: { exists ol'. split; [done|]. split; [done|]. split; [done|]. by rewrite Hv. }
  destruct (Hp p eq_refl) as (st & -> & Hps & _).
  eapply post_mono; [by apply (push_inv p st _ l)|]. intros r3 s3 [Hd3 Hv3]. exists (Some st).
  rewrite Hv3. split; [done|]. split; [done|]. split; [done|]. by rewrite Hv.
Qed.

(** Without minting, [SaveState] keeps the invariant whatever fails; minting
    publishes the first window before it is durable, so only a save that
    succeeds does. *)
Lemma save_inv s ol l :
  dur (world s) ol -> opened (vb s) ol l -> entropy_ok (world s) -> nextStateSeqNum (vb s) < 2 ^ 64 - 1 ->
  post SaveStateCtx s (fun r s' =>
    VolumeUUID (vb s) <> zeros 4 \/ r = Ok tt -> exists ol', dur (world s') ol' /\ opened (vb s') ol' l /\
      later ol ol' /\ SeqNum (vb s') = SeqNum (vb s) /\ seqNumHighWater (vb s) <= seqNumHighWater (vb s')).
Proof.
  intros Hd Ho He Hn. apply post_save. unfold save_alone, mintVolumeUUID. mgo. rewrite (id_enc _ (o_id _ _ _ Ho)). mgo.
  destruct (bool_decide_reflect (VolumeUUID (vb s) = zeros 4)) as [Hz|Hz]; cbn [negb]; mgo.
  2: { eapply post_mono; [by apply (save_hw_inv _ s ol l)|]. intros r s' (ol' & ? & ? & ? & ? & E) _. exists ol'. rewrite E. done. }
  apply post_rand; [done| |by intros e s' _ [?|[=]]].
  intros u s1 Hq Hu. pose proof Hq as (Hv & _). mgo. cbn [vb world]. rewrite Hv.
  destruct Ho as [Hi Hh Hs Hu0 Hq0 Hf]. specialize (Hu0 Hz).
  assert (l = []) as ->.
  { destruct Hf as [|i l' (? & ? & ?) _]; [done|]. lia. }
  unfold saveStateWithHighWater. mgo. cbn [vb].
  match goal with |- post (persistStateLocal ?hw) ?s2 _ =>
    eapply post_mono; [apply (persist_dur hw s2 ol)|] end; cbn [vb world].
  - by apply (dur_quiet s).
  - by apply (ident_ext (vb s)).
  - done.
  - done.
  - done.
  - done.
  - intros r2 s2 (ol' & Hd2 & Hv2 & Hs2 & Hc & Hp). destruct r2 as [p|e]; cbn beta iota; [|by intros [?|[=]]].
    destruct (Hp p eq_refl) as (st & -> & Hps & Hhw).
    assert (opened (vb s2) (Some st) []) as Ho2.
    { rewrite Hv2 in *. constructor; try done.
      - by apply (ident_ext (vb s)).
      - unfold hw_of. cbn [from_option]. rewrite Hhw. done. }
    eapply post_mono; [by apply (push_inv p st _ [])|]. intros r3 s3 [Hd3 Hv3] _. exists (Some st).
    rewrite Hv3, Hv2 in *. do 2 (split; [done|]). split; [|split; [done|]].
    + destruct Hc as [<- |(st' & [= <-] & _ & ?)]; [by left|right; by exists st].
    + rewrite Hu0. done.
Qed.

Lemma ensure_inv s ol l :
  dur (world s) ol -> opened (vb s) ol l -> entropy_ok (world s) -> nextStateSeqNum (vb s) < 2 ^ 64 - 1 ->
  SeqNum (vb s) + seqNumReservation < 2 ^ 64 ->
  post EnsureVolumeUUID s (fun _ s' => exists ol', dur (world s') ol' /\ opened (vb s') ol' l).
Proof.
  intros Hd Ho He Hn Hb. unfold EnsureVolumeUUID. mgo. rewrite (id_enc _ (o_id _ _ _ Ho)). cbn [negb].
  case_match; mgo; [by eauto|]. eapply post_mono; [by apply (mint_inv _ ol l)|].
  intros r1 s1 (Hd1 & Ho1 & Hsq & Hh & Hss & Hm). destruct r1 as [m|e]; cbn beta iota; [|by eauto].
  destruct (Hm m eq_refl) as [Hz Hm0]. destruct m; cbn [negb]; mgo; [|by eauto].
  pose proof (o_hw _ _ _ Ho1) as Hhw.
  destruct (advance_hw_spec (Z.max (seqNumHighWater (vb s1)) seqNumReservation) (SeqNum (vb s1))) as [Ha1 Ha2];
    [lia|lia|]. set (hw := advance_hw _ _) in *.
  eapply post_mono; [apply (persist_inv hw s1 ol l); try done; lia|].
  intros r2 s2 (ol' & Hd2 & Ho3 & Hv & _ & Hp). destruct r2 as [p|e]; cbn beta iota; [|by eauto].
  destruct (Hp p eq_refl) as (st & -> & Hps & Hhwst). mgo.
  assert (opened ((vb s2) <| seqNumHighWater := hw |>) (Some st) l) as Ho4.
  { apply opened_publish; [done|done|by rewrite Hv|]. rewrite Hv.
    change (seqNumHighWater (vb s1) <= hw). lia. }
  eapply post_mono; [by apply (push_inv p st _ l)|]. cbn [vb world]. intros r3 s3 [Hd3 Hv3].
  exists (Some st). by rewrite Hv3.
Qed.

(** ** Reopening after a crash *)

(** The next call works (a read may still find no file). *)
Definition next_works (w : World) : Prop :=
  match plan w with Fails _ _ :: _ => False | _ => True end.

Lemma local_request s f :
  next_works (world s) ->
  post (LoadStateRequestCtx (Some f)) s (fun r s' => quiet s s' /\
    r = match files (world s) !! f with
        | None => Err [ErrNotExist]
        | Some d => decode_state (vb s) d
        end).
Proof.
  intros Hw. unfold LoadStateRequestCtx, os_ReadFile, bind, post.
  assert (exists o s1, next s = (Ok o, s1) /\ quiet s s1 /\ match o with Fails _ _ => False | _ => True end)
    as (o & s1 & En & (Hv & Hf & Ho) & Hnf).
  { unfold next, next_works in *. destruct (plan (world s)) as [|o p]; eexists _, _; repeat split; done. }
  rewrite En. unfold get_file. rewrite Hf.
  destruct o; [|done|]; destruct (files (world s) !! f); cbn; rewrite ?Hv; done.
Qed.

(** The backend answers with an error or a prefix of the object. *)
Lemma backend_request s :
  post (LoadStateRequestCtx None) s (fun r s' => quiet s s' /\
    ((exists e, r = Err e) \/
     exists d k, objects (world s) !! GetFilePath FileTypeConfig 0 (VolumeName (vb s)) = Some d /\
       r = decode_state (vb s) (take k d))).
Proof.
  unfold LoadStateRequestCtx, backend_Read, backend_ReadFrom. mgo.
  match goal with H : quiet s ?s1 |- _ => pose proof H as (Hv & Hf & Ho); rename s1 into s1; rename H into Hq end.
  rewrite Ho. set (k := GetFilePath _ _ _).
  destruct (objects (world s) !! k) as [d|] eqn:Ed.
  - match goal with |- post (match ?o with _ => _ end) _ _ => destruct o as [|e n|n] end; cbn zeta; change (0 =? 0) with true; cbn iota;
      try (destruct (_ <? _)); mgo; cbn beta iota; rewrite ?Hv; (split; [done|]); eauto;
      right; eexists d, _; (split; [done|]); unfold slice; by rewrite drop_0, ?take_take.
  - match goal with |- post (match ?o with _ => _ end) _ _ => destruct o end; mgo; split; eauto.
Qed.

(** With the local copy readable, the state selected is the local one. *)
Lemma select_local v stl backend st :
  EncryptionEnabled v = true -> good stl ->
  (forall stb, backend = Ok stb -> vs_StateSeqNum stb <= vs_StateSeqNum stl) ->
  select_state v (Ok stl) backend = Ok st -> st = stl.
Proof.
  intros He Hg Hb. unfold select_state. cbn [state_or_zero].
  assert ((vs_StateSeqNum stl <? vs_StateSeqNum (state_or_zero backend)) = false) as ->.
  { apply Z.ltb_ge. destruct backend as [stb|e]; cbn; [by apply Hb|apply Hg]. }
  cbn [orb]. repeat case_match; try done; by intros [= <-].
Qed.

Context (OpenFromSnapshot : string -> M unit).

(** Opening the parent snapshot reads objects and sets the clone's base map;
    it touches neither the durable state nor the volume's identity. *)
Hypothesis snapshot_frame : forall id s, post (OpenFromSnapshot id) s (fun _ s' =>
  files (world s') = files (world s) /\ objects (world s') = objects (world s) /\
  VolumeName (vb s') = VolumeName (vb s) /\ BaseDir (vb s') = BaseDir (vb s) /\
  volumeNameHash (vb s') = volumeNameHash (vb s) /\ MasterKey (vb s') = MasterKey (vb s) /\
  EncryptionEnabled (vb s') = EncryptionEnabled (vb s) /\
  nextStateSeqNum (vb s') = nextStateSeqNum (vb s)).

(** The last part of [LoadState]: restart at the durable mark and reserve the
    next window. *)
Lemma bump_inv s stl l :
  dur (world s) (Some stl) -> ident (vb s) -> nextStateSeqNum (vb s) = vs_StateSeqNum stl ->
  vs_StateSeqNum stl < 2 ^ 64 - 1 -> vs_SeqNumHighWater stl + seqNumReservation < 2 ^ 64 ->
  Forall (fun i => 0 <= i.1 < i.2 /\ i.2 <= vs_SeqNumHighWater stl) l ->
  post (bind (modify (fun v => v <| VolumeUUID := vs_VolumeUUID stl |>
                                 <| SeqNum := vs_SeqNumHighWater stl |>
                                 <| seqNumHighWater := vs_SeqNumHighWater stl |>))
             (fun _ => bumpSeqNumHighWater)) s
    (fun r s' => exists ol', dur (world s') ol' /\ Forall (fun i => 0 <= i.1 < i.2 /\ i.2 <= hw_of ol') l /\
       (r = Ok tt -> opened (vb s') ol' l)).
Proof.
  intros Hd Hi Hn Hb1 Hb2 Hl. unfold bumpSeqNumHighWater. mgo. cbn [vb].
  pose proof (d_good _ _ Hd _ eq_refl) as Hg. change seqNumReservation with 1048576 in *.
  set (v1 := (vb s) <| VolumeUUID := vs_VolumeUUID stl |> <| SeqNum := vs_SeqNumHighWater stl |>
                    <| seqNumHighWater := vs_SeqNumHighWater stl |>).
  assert (opened v1 (Some stl) l) as Ho1.
  { constructor.
    - by apply (ident_ext (vb s)).
    - change (0 <= vs_SeqNumHighWater stl <= vs_SeqNumHighWater stl). split; [apply Hg|lia].
    - change (0 <= vs_StateSeqNum stl <= nextStateSeqNum (vb s)). rewrite Hn. split; [apply Hg|lia].
    - intros Hz. by destruct (g_uuid _ Hg).
    - apply Hg.
    - eapply Forall_impl; [exact Hl|]. intros i [? ?]. done. }
  change (seqNumHighWater v1) with (vs_SeqNumHighWater stl).
  rewrite u64_small by (pose proof (g_hw _ Hg); unfold_widths; lia).
  eapply post_mono; [apply (persist_inv _ (mkSt v1 (world s)) (Some stl) l); try done|].
  { apply Hg. }
  { change (vs_SeqNumHighWater stl <= vs_SeqNumHighWater stl + 1048576). lia. }
  { change (nextStateSeqNum (vb s) < 2 ^ 64 - 1). lia. }
  intros r2 s2 (ol' & Hd2 & Ho2 & Hv & Hlat & Hp).
  assert (forall ol2 v2, opened v2 ol2 l -> Forall (fun i => 0 <= i.1 < i.2 /\ i.2 <= hw_of ol2) l) as Hcov.
  { intros ol2 v2 [_ Hh _ _ _ Hf]. eapply Forall_impl; [exact Hf|]. intros i (? & _ & ?). split; [done|lia]. }
  destruct r2 as [p|e]; cbn beta iota.
  2: { exists ol'. split; [done|]. split; [by eapply Hcov|by intros [=]]. }
  destruct (Hp p eq_refl) as (st & -> & Hps & Hhw). mgo.
  assert (opened ((vb s2) <| seqNumHighWater := vs_SeqNumHighWater stl + 1048576 |>) (Some st) l) as Ho3.
  { apply opened_publish; [done|done|rewrite Hv; apply Hg|]. rewrite Hv.
    change (vs_SeqNumHighWater stl <= vs_SeqNumHighWater stl + 1048576). lia. }
  eapply post_mono; [by apply (push_inv p st _ l)|]. cbn [vb world]. intros r3 s3 [Hd3 Hv3]. mgo.
  exists (Some st). rewrite Hv3. split; [done|]. split; [by eapply Hcov|done].
Qed.

(** A whole [LoadState] on a fresh [VB] of the same volume. *)
Lemma load_inv s ol l :
  dur (world s) ol -> ident (vb s) -> next_works (world s) ->
  ssn_of ol < 2 ^ 64 - 1 -> hw_of ol + seqNumReservation < 2 ^ 64 ->
  Forall (fun i => 0 <= i.1 < i.2 /\ i.2 <= hw_of ol) l ->
  post (LoadStateCtx OpenFromSnapshot) s (fun r s' => exists ol', dur (world s') ol' /\
    Forall (fun i => 0 <= i.1 < i.2 /\ i.2 <= hw_of ol') l /\ (r = Ok tt -> opened (vb s') ol' l)).
Proof.
  intros Hd Hi Hw Hb1 Hb2 Hl. unfold LoadStateCtx. mgo. rewrite (config_path_ident _ Hi).
  assert (forall (e : error) s', quiet s s' -> exists ol', dur (world s') ol' /\
    Forall (fun i => 0 <= i.1 < i.2 /\ i.2 <= hw_of ol') l /\ (Err e = Ok tt -> opened (vb s') ol' l)) as Hfail.
  { intros e s' Hq. exists ol. split; [by apply (dur_quiet s)|]. split; [done|]. by intros [=]. }
  eapply post_mono; [by apply local_request|]. cbn beta iota. intros local s1 [Hq1 Hloc]. rewrite (d_local _ _ Hd) in Hloc.
  destruct (is_fatal_load local); mgo; [by apply Hfail|].
  eapply post_mono; [apply backend_request|]. cbn beta iota. intros backend s2 [Hq2 Hback].
  pose proof (quiet_trans _ _ _ Hq1 Hq2) as Hq. pose proof Hq1 as (Hv1 & _ & Ho1). rewrite Hv1, Ho1, (id_name _ Hi) in Hback.
  destruct (is_fatal_load backend) eqn:Efb; [mgo; by apply Hfail|]. apply post_bind, post_of_result.
  destruct (select_state (vb s) local backend) as [st|e] eqn:Es; cbn beta iota; [|by apply Hfail].
  destruct ol as [stl|].
  2: { (* no local state: the backend has none either *)
    exfalso. destruct Hback as [[e ->]|(d & k & Hk & _)].
    - unfold select_state in Es. assert (local = Err [ErrNotExist]) as Hl0 by exact Hloc. by rewrite Hl0 in Es.
    - destruct (d_remote _ _ Hd) as [Hn|(? & ? & ? & [=] & _)]. unfold key in Hn. congruence. }
  pose proof (d_good _ _ Hd _ eq_refl) as Hg.
  assert (local = Ok stl) as ->.
  { rewrite <-(decode_blob (vb s) stl fp) by (apply Hi || apply Hg). rewrite (id_hash _ Hi). exact Hloc. }
  assert (st = stl) as ->.
  { eapply (select_local _ stl backend); [apply Hi|done| |exact Es]. intros stb ->.
    destruct Hback as [[e [=]]|(d & k & Hk & Hdec)].
    destruct (d_remote _ _ Hd) as [Hn|(stl' & stb' & k' & [= <-] & Hgb & Hob & Hc)]; [unfold key in Hn; congruence|].
    unfold key in Hob. rewrite Hk in Hob. injection Hob as ->. rewrite take_take in Hdec.
    destruct (decide (Nat.min k k' < length (blob_of nh stb'))%nat) as [Hlt|Hge].
    - rewrite decode_truncated in Hdec by (apply Hi || done). done.
    - rewrite take_ge, <-(id_hash _ Hi), (decode_blob _ _ fp) in Hdec by (apply Hi || apply Hgb || lia).
      injection Hdec as ->. destruct Hc as [Hc| ->]; lia. }
  mgo. pose proof Hq as (Hv & Hf & Ho).
  assert (dur (world s2) (Some stl)) as Hd2 by (by apply (dur_quiet s)).
  assert (ident (install_state stl (vb s2))) as Hi2.
  { rewrite Hv. apply (ident_ext (vb s)); try done. cbn. rewrite (g_name _ Hg). by rewrite (id_name _ Hi). }
  rewrite (id_enc _ Hi).
  destruct (negb (bool_decide (vs_SnapshotID stl = EmptyString))); cbn beta iota.
  - mgo. eapply post_mono; [apply snapshot_frame|]. cbn [vb world].
    intros r3 s3 (Hf3 & Ho3 & H1 & H2 & H3 & H4 & H5 & H6).
    assert (dur (world s3) (Some stl)) as Hd3.
    { destruct Hd2 as [Hl2 Hg2 Hr2]. constructor; [by rewrite Hf3|done|by rewrite Ho3]. }
    destruct r3 as [[]|e]; cbn beta iota.
    + apply (bump_inv s3 stl l); [exact Hd3| |exact H6|exact Hb1|exact Hb2|exact Hl].
      exact (ident_ext _ _ H1 H2 H3 H4 H5 Hi2).
    + exists (Some stl). split; [done|]. split; [done|]. by intros [=].
  - mgo. apply (bump_inv _ stl l); [exact Hd2|exact Hi2|reflexivity|exact Hb1|exact Hb2|exact Hl].
Qed.

(** ** Histories *)

(** [hist ov w l]: the process holds [ov] ([None] after a crash or a failed
    open), the disk and backend are [w], and the intervals [l] (newest first)
    have been handed out, each pair [(a, b)] standing for SeqNums [a+1..b].
    Every call may fail anywhere, with two exceptions that Nonces.v shows to
    reissue SeqNums: the local read of a reopen works ([next_works]), and a save
    that mints the UUID succeeds. *)
Inductive hist : option VB -> World -> list (Z * Z) -> Prop :=
| h_new v w :
    files w !! cfg = None -> objects w !! key = None -> ident v ->
    SeqNum v = 0 -> seqNumHighWater v = 0 -> nextStateSeqNum v = 0 ->
    hist (Some v) w []
| h_env ov w l p e :
    hist ov w l -> hist ov (mkWorld (files w) (objects w) p e (now w)) l
| h_reserve v w l n r s' :
    hist (Some v) w l -> entropy_ok w ->
    0 < n -> SeqNum v + n < 2 ^ 64 -> nextStateSeqNum v < 2 ^ 64 - 1 ->
    reserveSeqNum n (mkSt v w) = (r, s') ->
    hist (Some (vb s')) (world s') (match r with Ok start => (start, start + n) :: l | Err _ => l end)
| h_save v w l r s' :
    hist (Some v) w l -> entropy_ok w -> nextStateSeqNum v < 2 ^ 64 - 1 ->
    SaveStateCtx (mkSt v w) = (r, s') -> VolumeUUID v <> zeros 4 \/ r = Ok tt ->
    hist (Some (vb s')) (world s') l
| h_ensure v w l r s' :
    hist (Some v) w l -> entropy_ok w -> nextStateSeqNum v < 2 ^ 64 - 1 ->
    SeqNum v + seqNumReservation < 2 ^ 64 ->
    EnsureVolumeUUID (mkSt v w) = (r, s') ->
    hist (Some (vb s')) (world s') l
| h_crash ov w l : hist ov w l -> hist None w l
| h_load v w l r s' :
    hist None w l -> ident v -> next_works w ->
    (forall raw st, files w !! cfg = Some raw -> decode_state v raw = Ok st ->
      vs_StateSeqNum st < 2 ^ 64 - 1 /\ vs_SeqNumHighWater st + seqNumReservation < 2 ^ 64) ->
    LoadStateCtx OpenFromSnapshot (mkSt v w) = (r, s') ->
    hist (match r with Ok _ => Some (vb s') | Err _ => None end) (world s') l.

(** Newest first: every interval starts at or after the end of all older ones. *)
Definition fresh_order (l : list (Z * Z)) : Prop :=
  List.ForallOrdPairs (fun new old : Z * Z => old.2 <= new.1) l.

Definition hist_ok (ov : option VB) (w : World) (l : list (Z * Z)) : Prop :=
  fresh_order l /\ exists ol, dur w ol /\
    Forall (fun i => 0 <= i.1 < i.2 /\ i.2 <= hw_of ol) l /\
    forall v, ov = Some v -> opened v ol l.

Lemma hist_ok_open v w ol l : fresh_order l -> dur w ol -> opened v ol l -> hist_ok (Some v) w l.
Proof.
  intros Hf Hd Ho. split; [done|]. exists ol. split; [done|]. split; [|by intros ? [= <-]].
  destruct Ho as [_ Hh _ _ _ Hi]. eapply Forall_impl; [exact Hi|]. intros i (? & _ & ?). split; [done|lia].
Qed.

Lemma hist_inv ov w l : hist ov w l -> hist_ok ov w l.
Proof.
  induction 1 as [v w Hf Hk Hi Hs Hh Hn|ov w l p e _ IH|v w l n r s' _ IH He Hn Hb Hss Hrun
    |v w l r s' _ IH He Hss Hrun Hc|v w l r s' _ IH He Hss Hb Hrun|ov w l _ IH|v w l r s' _ IH Hi Hw Hb Hrun].
  - apply (hist_ok_open _ _ None); [constructor|constructor; [done|done|by left]|].
    constructor; rewrite ?Hs, ?Hh, ?Hn; try done.
  - destruct IH as (Hf & ol & [] & Hl & Ho). split; [done|]. exists ol. by split; [constructor|].
  - destruct IH as (Hf & ol & Hd & Hl & Ho). specialize (Ho _ eq_refl).
    destruct (post_run _ _ _ (reserve_inv n (mkSt v w) ol l Hd Ho He Hn Hb Hss) _ _ Hrun) as (ol' & Hd' & Hr).
    destruct r as [start|e]; [|by apply (hist_ok_open _ _ ol')]. destruct Hr as [-> Ho'].
    apply (hist_ok_open _ _ ol'); [|done|done]. constructor; [|done].
    eapply Forall_impl; [apply (o_issued _ _ _ Ho)|]. intros i (_ & ? & _). done.
  - destruct IH as (Hf & ol & Hd & Hl & Ho). specialize (Ho _ eq_refl).
    destruct (post_run _ _ _ (save_inv (mkSt v w) ol l Hd Ho He Hss) _ _ Hrun Hc) as (ol' & Hd' & Ho' & _).
    by apply (hist_ok_open _ _ ol').
  - destruct IH as (Hf & ol & Hd & Hl & Ho). specialize (Ho _ eq_refl).
    destruct (post_run _ _ _ (ensure_inv (mkSt v w) ol l Hd Ho He Hss Hb) _ _ Hrun) as (ol' & Hd' & Ho').
    by apply (hist_ok_open _ _ ol').
  - destruct IH as (Hf & ol & Hd & Hl & _). split; [done|]. exists ol. by split.
  - destruct IH as (Hf & ol & Hd & Hl & _).
    assert (ssn_of ol < 2 ^ 64 - 1 /\ hw_of ol + seqNumReservation < 2 ^ 64) as [H1 H2].
    { destruct ol as [st|]; [|done]. apply (Hb (blob_of nh st)); [by rewrite (d_local _ _ Hd)|].
      pose proof (d_good _ _ Hd _ eq_refl) as Hg.
      rewrite <-(id_hash _ Hi), (decode_blob _ _ fp); [done|apply Hi..|apply Hg]. }
    destruct (post_run _ _ _ (load_inv (mkSt v w) ol l Hd Hi Hw H1 H2 Hl) _ _ Hrun) as (ol' & Hd' & Hl' & Ho').
    split; [done|]. exists ol'. split; [done|]. split; [done|].
    destruct r as [[]|e]; [|done]. intros ? [= <-]. auto.
Qed.
End facts.
