(* ===== verification/Writers.v ===== *)
(** * Concurrent reservations

    Any number of writers inside [reserveSeqNum] and savers inside
    [SaveState], interleaved between the atomic actions of the two calls, with
    crashes and reopens. The invariant says where every writer is in its call
    and which interval it owns. *)

From S2P Require Import Prelude Words Json Crypto Paths Volume SeqNum SeqNumFacts.

(** ** Intervals *)

Definition apart (p q : Z * Z) : Prop := p.2 <= q.1 \/ q.2 <= p.1.
Abbreviation pairwise_apart := (List.ForallOrdPairs apart).

Lemma apart_sym p q : apart p q -> apart q p.
Proof. unfold apart. tauto. Qed.

(** ** The system *)

Inductive task := Reserving (n : Z) (p : prog Z) | Saving (p : prog unit).

(** The next action of goroutine [i]; [mu] is the holder of the mutex. *)
Definition prog_step {T} (i : nat) (mu : option nat) (p : prog T) (s : St) : option (prog T * option nat * St) :=
  match p with
  | Done _ => None
  | Lock k => match mu with None => Some (k, Some i, s) | Some _ => None end
  | Unlock k => Some (k, None, s)
  | Act m k => let '(r, s') := m s in Some (k r, mu, s')
  end.

Record proc := mkProc { p_vb : VB; p_mu : option nat; p_tasks : gmap nat task }.

(** The process, if it is up; disk and backend; the intervals handed out,
    [(a, b)] standing for SeqNums [a+1..b]. *)
Record wsys := mkW { w_proc : option proc; w_world : World; w_issued : list (Z * Z) }.

(** The counters are far from the end of their range. *)
Definition fits (v : VB) : Prop := SeqNum v < 2 ^ 63 /\ nextStateSeqNum v < 2 ^ 63.

Section system.
Context {A : AEAD} {S : StateJSON} {AL : AEADLaws A} {SL : StateJSONLaws S}.
Context (nm base : string) (nh : bytes) (fp : string) (OpenFromSnapshot : string -> M unit).

Definition new_volume_sys (x : wsys) : Prop := exists v w,
  x = mkW (Some (mkProc v None ∅)) w [] /\ files w !! cfg nm base = None /\ objects w !! key nm = None /\
  ident nm base nh fp v /\ SeqNum v = 0 /\ seqNumHighWater v = 0 /\ nextStateSeqNum v = 0.

(** [saves]: whether [SaveState] may interleave with reservations. Without it, a
    save runs only at a moment when no reservation holds the mutex and nothing
    interleaves with it. *)
Inductive wstep (saves : bool) : wsys -> wsys -> Prop :=
| ws_env p w l pl e :
    wstep saves (mkW p w l) (mkW p (mkWorld (files w) (objects w) pl e (now w)) l)
| ws_reserve v mu ts w l i n :
    ts !! i = None -> 0 < n < 2 ^ 63 ->
    wstep saves (mkW (Some (mkProc v mu ts)) w l) (mkW (Some (mkProc v mu (<[i := Reserving n (reserve_prog n)]> ts))) w l)
| ws_save v mu ts w l i :
    saves = true -> ts !! i = None ->
    wstep saves (mkW (Some (mkProc v mu ts)) w l) (mkW (Some (mkProc v mu (<[i := Saving save_prog]> ts))) w l)
| ws_run v mu ts w l i n p p' mu' s' :
    ts !! i = Some (Reserving n p) -> fits v -> entropy_ok w ->
    prog_step i mu p (mkSt v w) = Some (p', mu', s') ->
    wstep saves (mkW (Some (mkProc v mu ts)) w l) (mkW (Some (mkProc (vb s') mu' (<[i := Reserving n p']> ts))) (world s') l)
| ws_run_save v mu ts w l i p p' mu' s' :
    ts !! i = Some (Saving p) -> fits v -> entropy_ok w ->
    prog_step i mu p (mkSt v w) = Some (p', mu', s') ->
    wstep saves (mkW (Some (mkProc v mu ts)) w l) (mkW (Some (mkProc (vb s') mu' (<[i := Saving p']> ts))) (world s') l)
| ws_return v mu ts w l i n r :
    ts !! i = Some (Reserving n (Done r)) ->
    wstep saves (mkW (Some (mkProc v mu ts)) w l)
      (mkW (Some (mkProc v mu (delete i ts))) w (match r with Ok start => (start, start + n) :: l | Err _ => l end))
| ws_save_return v mu ts w l i r :
    ts !! i = Some (Saving (Done r)) ->
    wstep saves (mkW (Some (mkProc v mu ts)) w l) (mkW (Some (mkProc v mu (delete i ts))) w l)
| ws_save_alone v ts w l r s' :
    fits v -> entropy_ok w -> SaveStateCtx (mkSt v w) = (r, s') -> VolumeUUID v <> zeros 4 \/ r = Ok tt ->
    wstep saves (mkW (Some (mkProc v None ts)) w l) (mkW (Some (mkProc (vb s') None ts)) (world s') l)
| ws_ensure v w l r s' :
    fits v -> entropy_ok w -> EnsureVolumeUUID (mkSt v w) = (r, s') ->
    wstep saves (mkW (Some (mkProc v None ∅)) w l) (mkW (Some (mkProc (vb s') None ∅)) (world s') l)
| ws_crash p w l : wstep saves (mkW p w l) (mkW None w l)
| ws_load v w l r s' :
    ident nm base nh fp v -> next_works w ->
    (forall raw st, files w !! cfg nm base = Some raw -> decode_state v raw = Ok st ->
      vs_StateSeqNum st < 2 ^ 63 /\ vs_SeqNumHighWater st < 2 ^ 63) ->
    LoadStateCtx OpenFromSnapshot (mkSt v w) = (r, s') ->
    wstep saves (mkW None w l)
      (mkW (match r with Ok _ => Some (mkProc (vb s') None ∅) | Err _ => None end) (world s') l).

(** ** Where a writer is *)

Definition older (st : VBState) (ol : option VBState) : Prop :=
  exists stl, ol = Some stl /\ good nm fp st /\ (vs_StateSeqNum st < vs_StateSeqNum stl \/ st = stl).

(** [point held v ol n g p]: a writer reserving [n] SeqNums, which holds the
    mutex or not and owns the interval [g], has [p] left to run. *)
Inductive point (held : bool) (v : VB) (ol : option VBState) (n : Z) : option (Z * Z) -> prog Z -> Prop :=
| pt_start : held = false -> point held v ol n None (reserve_prog n)
| pt_check a : held = false -> point held v ol n (Some (a, a + n)) (reserve_check a (a + n))
| pt_lock a : held = false -> a + n <= MaxSeqNum -> point held v ol n (Some (a, a + n)) (Lock (reserve_locked a (a + n)))
| pt_recheck a : held = true -> a + n <= MaxSeqNum -> point held v ol n (Some (a, a + n)) (reserve_locked a (a + n))
| pt_mint a : held = true -> a + n <= MaxSeqNum ->
    point held v ol n (Some (a, a + n)) (locked _ <- mintVolumeUUID; reserve_persist a (a + n) (seqNumHighWater v))
| pt_persist a : held = true -> a + n <= MaxSeqNum -> VolumeUUID v <> zeros 4 ->
    point held v ol n (Some (a, a + n)) (reserve_persist a (a + n) (seqNumHighWater v))
| pt_publish a st : held = true -> ol = Some st -> VolumeUUID v <> zeros 4 ->
    seqNumHighWater v <= vs_SeqNumHighWater st -> a + n <= vs_SeqNumHighWater st ->
    point held v ol n (Some (a, a + n)) (reserve_publish a (vs_SeqNumHighWater st) (blob_of nh st))
| pt_unlock a st : held = true -> a + n <= seqNumHighWater v -> older st ol ->
    point held v ol n (Some (a, a + n)) (Unlock (reserve_push a (blob_of nh st)))
| pt_push a st : held = false -> a + n <= seqNumHighWater v -> older st ol ->
    point held v ol n (Some (a, a + n)) (reserve_push a (blob_of nh st))
| pt_unlock_ok a : held = true -> a + n <= seqNumHighWater v -> point held v ol n (Some (a, a + n)) (Unlock (Done (Ok a)))
| pt_ok a : held = false -> a + n <= seqNumHighWater v -> point held v ol n (Some (a, a + n)) (Done (Ok a))
| pt_unlock_err g e : held = true -> point held v ol n g (Unlock (Done (Err e)))
| pt_err g e : held = false -> point held v ol n g (Done (Err e)).

Lemma older_later st ol ol' : older st ol -> later ol ol' -> older st ol'.
Proof.
  intros (stl & -> & Hg & Hc) [-> |(st' & -> & Hlt)]; [by exists stl|]. exists st'. do 2 (split; [done|]).
  unfold ssn_of in Hlt. cbn in Hlt. left. destruct Hc as [Hc| ->]; lia.
Qed.

(** Others may move the counter, and the mark unless this writer is to. *)
Lemma point_stable held v ol n g p v' ol' :
  point held v ol n g p -> seqNumHighWater v <= seqNumHighWater v' -> later ol ol' ->
  (held = true -> seqNumHighWater v' = seqNumHighWater v /\ VolumeUUID v' = VolumeUUID v /\ ol' = ol) ->
  point held v' ol' n g p.
Proof.
  intros Hp Hh Hl Hs. destruct Hp as [? |a ? |a ? ? |a Ht ? |a Ht ? |a Ht ? ? |a st Ht ? ? ? ? |a st Ht ? ? |a st ? ? ? |a Ht ? |a ? ? |g e Ht |g e ?];
    try (destruct (Hs Ht) as (E1 & E2 & ->)); try (by econstructor).
  - rewrite <-E1. by apply pt_mint.
  - rewrite <-E1. apply pt_persist; [done|done|congruence].
  - apply pt_publish; [done|done|congruence|lia|done].
  - apply pt_unlock; [done|lia|done].
  - apply pt_push; [done|lia|by eapply older_later].
  - apply pt_unlock_ok; [done|lia].
  - apply pt_ok; [done|lia].
Qed.

(** ** The invariant *)

Record winv (v : VB) (mu : option nat) (ts : gmap nat task) (w : World) (l : list (Z * Z))
    (ol : option VBState) (gs : gmap nat (Z * Z)) : Prop := {
  wi_dur : dur nm base nh fp w ol;
  wi_open : opened nm base nh fp v ol l;
  wi_pairs : pairwise_apart l;
  wi_own : forall i a, gs !! i = Some a -> 0 <= a.1 < a.2 /\ a.2 <= SeqNum v /\ Forall (apart a) l;
  wi_sep : forall i j a b, i <> j -> gs !! i = Some a -> gs !! j = Some b -> apart a b;
  wi_tasks : forall i t, ts !! i = Some t -> exists n p, t = Reserving n p /\ 0 < n < 2 ^ 63 /\
    point (bool_decide (mu = Some i)) v ol n (gs !! i) p;
  wi_idle : forall i, ts !! i = None -> gs !! i = None;
  wi_holder : forall i, mu = Some i -> is_Some (ts !! i)
}.

Definition sys_inv (x : wsys) : Prop :=
  match w_proc x with
  | Some (mkProc v mu ts) => exists ol gs, winv v mu ts (w_world x) (w_issued x) ol gs
  | None => pairwise_apart (w_issued x) /\ exists ol, dur nm base nh fp (w_world x) ol /\
      Forall (fun i => 0 <= i.1 < i.2 /\ i.2 <= hw_of ol) (w_issued x)
  end.

Section step.
Context (v : VB) (mu : option nat) (ts : gmap nat task) (w : World) (l : list (Z * Z)) (ol : option VBState) (gs : gmap nat (Z * Z)).
Context (H : winv v mu ts w l ol gs) (i : nat) (n : Z) (p : prog Z) (Hi : ts !! i = Some (Reserving n p)).

(** One writer moves: what it has to show for the invariant. *)
Lemma winv_update v' mu' w' ol' g' p' :
  dur nm base nh fp w' ol' -> opened nm base nh fp v' ol' l -> SeqNum v <= SeqNum v' ->
  seqNumHighWater v <= seqNumHighWater v' -> later ol ol' ->
  mu = Some i \/ (seqNumHighWater v' = seqNumHighWater v /\ VolumeUUID v' = VolumeUUID v /\ ol' = ol) ->
  mu' = mu \/ (mu = None /\ mu' = Some i) \/ (mu = Some i /\ mu' = None) ->
  g' = gs !! i \/ (0 <= SeqNum v /\ 0 < n /\ g' = Some (SeqNum v, SeqNum v + n) /\ SeqNum v' = SeqNum v + n) ->
  0 < n < 2 ^ 63 -> point (bool_decide (mu' = Some i)) v' ol' n g' p' ->
  winv v' mu' (<[i := Reserving n p']> ts) w' l ol' (partial_alter (fun _ => g') i gs).
Proof.
  intros Hd Ho Hs Hh Hl Hc Hm Hg Hn Hp. destruct H as [_ Ho0 Hpr Hown Hsep Hts Hidle Hhold].
  assert (forall j a, partial_alter (fun _ => g') i gs !! j = Some a ->
    gs !! j = Some a \/ (j = i /\ a = (SeqNum v, SeqNum v + n) /\ 0 <= SeqNum v /\ SeqNum v' = SeqNum v + n)) as Hcase.
  { intros j a. destruct (decide (i = j)) as [<-|Hne]; [rewrite lookup_partial_alter_eq|rewrite lookup_partial_alter_ne by done; by left].
    intros E. destruct Hg as [-> |(? & ? & -> & ?)]; [by left|right]. injection E as <-. done. }
  assert (forall b : Z * Z, b.2 <= SeqNum v -> apart (SeqNum v, SeqNum v + n) b) as Hnew by (intros b Hb; right; exact Hb).
  constructor; try done.
  - intros j a [E|(-> & -> & H0 & E)]%Hcase; [destruct (Hown j a E) as (? & ? & ?); split_and!; try done; lia|].
    cbn [fst snd]. split; [lia|]. split; [lia|]. eapply Forall_impl; [apply (o_issued _ _ _ _ _ _ _ Ho0)|]. intros b (_ & Hb & _). by apply Hnew.
  - intros j k a b Hjk [Ea|(-> & -> & _)]%Hcase [Eb|(-> & -> & _)]%Hcase; [by apply (Hsep j k)| | |done].
    + apply apart_sym, Hnew, (Hown j a Ea).
    + apply Hnew, (Hown k b Eb).
  - intros j t. destruct (decide (i = j)) as [<-|Hne].
    + rewrite lookup_insert_eq, lookup_partial_alter_eq. intros [= <-]. by exists n, p'.
    + rewrite lookup_insert_ne, lookup_partial_alter_ne by done. intros (m & q & -> & Hm0 & Hq)%Hts. exists m, q. do 2 (split; [done|]).
      assert (bool_decide (mu' = Some j) = bool_decide (mu = Some j)) as ->.
      { apply bool_decide_ext. destruct Hm as [-> |[[-> ->]|[-> ->]]]; naive_solver. }
      apply (point_stable _ v ol); [done..|]. intros E%bool_decide_eq_true. destruct Hc as [Hc|Hc]; [congruence|done].
  - intros j. destruct (decide (i = j)) as [<-|Hne]; [by rewrite lookup_insert_eq|].
    rewrite lookup_insert_ne, lookup_partial_alter_ne by done. apply Hidle.
  - intros j E. destruct (decide (i = j)) as [<-|Hne]; [rewrite lookup_insert_eq; by eexists|].
    rewrite lookup_insert_ne by done. apply Hhold. destruct Hm as [-> |[[-> ->]|[-> ->]]]; naive_solver.
Qed.

(** ... when neither the volume nor the disk changed. *)
Lemma winv_move mu' p' :
  mu' = mu \/ (mu = None /\ mu' = Some i) \/ (mu = Some i /\ mu' = None) ->
  0 < n < 2 ^ 63 -> point (bool_decide (mu' = Some i)) v ol n (gs !! i) p' ->
  exists ol' gs', winv v mu' (<[i := Reserving n p']> ts) w l ol' gs'.
Proof.
  intros Hm Hn Hp. exists ol, (partial_alter (fun _ => gs !! i) i gs).
  apply winv_update; try done; [apply H|apply H|by left|by right|by left].
Qed.

(** The holder of the mutex moves, keeping its interval. *)
Lemma winv_holder v' w' ol' p' :
  mu = Some i -> 0 < n < 2 ^ 63 -> dur nm base nh fp w' ol' -> opened nm base nh fp v' ol' l -> SeqNum v <= SeqNum v' ->
  seqNumHighWater v <= seqNumHighWater v' -> later ol ol' ->
  (forall held, held = true -> point held v' ol' n (gs !! i) p') ->
  exists ol' gs', winv v' mu (<[i := Reserving n p']> ts) w' l ol' gs'.
Proof.
  intros Hm Hn Hd Ho Hs Hh Hl Hp. exists ol', (partial_alter (fun _ => gs !! i) i gs).
  apply winv_update; try done; [by left|by left|by left|]. apply Hp. by apply bool_decide_eq_true.
Qed.

(** [Add]: the writer gets an interval of its own. *)
Lemma winv_add : fits v -> 0 < n < 2 ^ 63 -> bool_decide (mu = Some i) = false ->
  exists ol' gs', winv (v <| SeqNum := u64 (SeqNum v + n) |>) mu
    (<[i := Reserving n (reserve_check (u64 (u64 (SeqNum v + n) - n)) (u64 (SeqNum v + n)))]> ts) w l ol' gs'.
Proof.
  intros [Hf _] Hn Hm. pose proof (o_seq _ _ _ _ _ _ _ (wi_open _ _ _ _ _ _ _ H)) as H0.
  rewrite (u64_small (SeqNum v + n)) by (unfold_widths; lia).
  replace (SeqNum v + n - n) with (SeqNum v) by lia. rewrite (u64_small (SeqNum v)) by (unfold_widths; lia).
  exists ol, (partial_alter (fun _ => Some (SeqNum v, SeqNum v + n)) i gs).
  apply winv_update; try done; [apply H|apply opened_seq; [apply H|lia]|change (SeqNum v <= SeqNum v + n); lia|by left|by right|by left| |].
  - right. split; [done|]. split; [lia|done].
  - rewrite Hm. by apply pt_check.
Qed.

(** Persisting a mark past the interval. *)
Lemma winv_persist a r s' : fits v -> 0 < n < 2 ^ 63 -> mu = Some i -> gs !! i = Some (a, a + n) ->
  a + n <= MaxSeqNum -> VolumeUUID v <> zeros 4 ->
  persistStateLocal (advance_hw (seqNumHighWater v) (a + n)) (mkSt v w) = (r, s') ->
  exists ol' gs', winv (vb s') mu (<[i := Reserving n
    match r with Ok b => reserve_publish a (advance_hw (seqNumHighWater v) (a + n)) b | Err e => Unlock (Done (Err e)) end]> ts) (world s') l ol' gs'.
Proof.
  intros [_ Hf] Hn Hm Hg Hmax Hu Hrun. destruct H as [Hd Ho _ Hown _ _ _ _]. pose proof (o_hw _ _ _ _ _ _ _ Ho) as Hh.
  change MaxSeqNum with (2 ^ 56 - 1) in Hmax.
  destruct (advance_hw_spec (seqNumHighWater v) (a + n)) as [Ha1 Ha2]; [lia|change seqNumReservation with 1048576; lia|].
  set (hw := advance_hw _ _) in *.
  destruct (post_run _ _ _ (persist_inv nm base nh fp hw (mkSt v w) ol l Hd Ho Hu Ha1 ltac:(cbn; lia)) _ _ Hrun)
    as (ol' & Hd' & Ho' & Hv & Hlat & Hok). cbn [vb world] in *.
  apply (winv_holder (vb s') (world s') ol'); try done; rewrite ?Hv; [done|done|]. intros held Hh'. rewrite Hg.
  destruct r as [b|e]; [|by apply pt_unlock_err]. destruct (Hok b eq_refl) as (st & -> & -> & <-). by apply pt_publish.
Qed.

Lemma winv_publish a st : 0 < n < 2 ^ 63 -> mu = Some i -> gs !! i = Some (a, a + n) -> ol = Some st ->
  VolumeUUID v <> zeros 4 -> seqNumHighWater v <= vs_SeqNumHighWater st -> a + n <= vs_SeqNumHighWater st ->
  exists ol' gs', winv (v <| seqNumHighWater := vs_SeqNumHighWater st |>) mu
    (<[i := Reserving n (Unlock (reserve_push a (blob_of nh st)))]> ts) w l ol' gs'.
Proof.
  intros Hn Hm Hg Eo Hu Hle Ha. destruct H as [Hd Ho _ _ _ _ _ _]. rewrite Eo in Hd, Ho.
  apply (winv_holder (v <| seqNumHighWater := vs_SeqNumHighWater st |>) w ol (Unlock (reserve_push a (blob_of nh st)))); try done.
  - by rewrite Eo.
  - rewrite Eo. by apply opened_publish.
  - by left.
  - intros held Hh. rewrite Hg. apply pt_unlock; [done|exact Ha|]. exists st. split; [done|]. split; [by apply (d_good _ _ _ _ _ _ Hd)|by right].
Qed.

Lemma winv_push a st r s' : 0 < n < 2 ^ 63 -> bool_decide (mu = Some i) = false -> gs !! i = Some (a, a + n) ->
  a + n <= seqNumHighWater v -> older st ol -> pushStateToBackend (blob_of nh st) (mkSt v w) = (r, s') ->
  exists ol' gs', winv (vb s') mu (<[i := Reserving n (Done (Ok a))]> ts) (world s') l ol' gs'.
Proof.
  intros Hn Hm Hg Ha (stl & Eo & Hgs & Hc) Hrun. destruct H as [Hd Ho _ _ _ _ _ _]. rewrite Eo in Hd.
  destruct (post_run _ _ _ (push_dur nm base nh fp st stl (mkSt v w) Hd (o_id _ _ _ _ _ _ _ Ho) Hgs Hc) _ _ Hrun) as [Hd' Hv].
  cbn [vb] in Hv. rewrite Hv. exists ol, (partial_alter (fun _ => gs !! i) i gs).
  apply winv_update; try done; [by rewrite Eo|by left|by right|by left|by left|]. rewrite Hm, Hg. by apply pt_ok.
Qed.

Lemma winv_mint a r s' : entropy_ok w -> 0 < n < 2 ^ 63 -> mu = Some i -> gs !! i = Some (a, a + n) -> a + n <= MaxSeqNum ->
  mintVolumeUUID (mkSt v w) = (r, s') ->
  exists ol' gs', winv (vb s') mu (<[i := Reserving n
    match r with Ok _ => reserve_persist a (a + n) (seqNumHighWater v) | Err e => Unlock (Done (Err e)) end]> ts) (world s') l ol' gs'.
Proof.
  intros He Hn Hm Hg Hmax Hrun. destruct H as [Hd Ho _ _ _ _ _ _].
  destruct (post_run _ _ _ (mint_inv nm base nh fp (mkSt v w) ol l Hd Ho He) _ _ Hrun) as (Hd' & Ho' & Hs & Hh & _ & Hok).
  cbn [vb world] in *. apply (winv_holder (vb s') (world s') ol); try done; [lia|lia|by left|]. intros held Hh'. rewrite Hg.
  destruct r as [m|e]; [|by apply pt_unlock_err]. rewrite <-Hh. apply pt_persist; [done|done|by apply (Hok m)].
Qed.

(** Any action of a writer keeps the invariant. *)
Lemma winv_run p' mu' s' : fits v -> entropy_ok w -> prog_step i mu p (mkSt v w) = Some (p', mu', s') ->
  exists ol' gs', winv (vb s') mu' (<[i := Reserving n p']> ts) (world s') l ol' gs'.
Proof.
  intros Hf He Hrun. destruct (wi_tasks _ _ _ _ _ _ _ H i _ Hi) as (n' & q & [= <- <-] & Hn & Hp).
  remember (gs !! i) as g eqn:Eg. remember (bool_decide (mu = Some i)) as held eqn:Eh. symmetry in Eg, Eh.
  assert (held = true -> mu = Some i) as Hheld by (intros ->; by apply bool_decide_eq_true in Eh).
  pose proof (o_id _ _ _ _ _ _ _ (wi_open _ _ _ _ _ _ _ H)) as Hid.
  destruct Hp as [E |a E |a E Hmax |a E Hmax |a E Hmax |a E Hmax Hu |a st E Eo Hu Hle Ha |a st E Ha Hold |a st E Ha Hold |a E Ha |a E Ha |g e E |g e E]; rewrite E in Eh, Hheld.
  - injection Hrun as <- <- <-. by apply winv_add.
  - cbn [prog_step reserve_check get vb] in Hrun. rewrite (id_enc _ _ _ _ _ Hid) in Hrun. cbn [negb] in Hrun.
    destruct (Z.ltb_spec MaxSeqNum (a + n)) as [_|Hmax]; [|destruct (Z.leb_spec (a + n) (seqNumHighWater v)) as [Ha|_]];
      injection Hrun as <- <- <-; (apply winv_move; [by left|done|]); rewrite Eh, Eg; [by apply pt_err|by apply pt_ok|by apply pt_lock].
  - cbn [prog_step] in Hrun. assert (mu = None) as Em by (clear -Hrun; by destruct mu). rewrite Em in Hrun. injection Hrun as <- <- <-.
    apply winv_move; [by right; left|done|]. rewrite bool_decide_true, Eg by done. by apply pt_recheck.
  - cbn [prog_step reserve_locked get vb] in Hrun. cbn zeta in Hrun.
    destruct (Z.leb_spec (a + n) (seqNumHighWater v)) as [Ha|_]; injection Hrun as <- <- <-; (apply winv_move; [by left|done|]);
      rewrite Eh, Eg; [by apply pt_unlock_ok|by apply pt_mint].
  - cbn [prog_step] in Hrun. destruct (mintVolumeUUID (mkSt v w)) as [r s1] eqn:Er. injection Hrun as <- <- <-. by apply (winv_mint a r); auto.
  - cbn [prog_step reserve_persist] in Hrun. cbn zeta in Hrun. destruct (persistStateLocal _ (mkSt v w)) as [r s1] eqn:Er.
    injection Hrun as <- <- <-. apply (winv_persist a r); auto.
  - injection Hrun as <- <- <-. apply winv_publish; auto.
  - injection Hrun as <- <- <-. apply winv_move; [right; right; auto|done|]. rewrite bool_decide_false, Eg by done. by apply pt_push.
  - cbn [prog_step reserve_push] in Hrun. destruct (pushStateToBackend _ (mkSt v w)) as [r s1] eqn:Er. injection Hrun as <- <- <-.
    by apply (winv_push a st r).
  - injection Hrun as <- <- <-. apply winv_move; [right; right; auto|done|]. rewrite bool_decide_false, Eg by done. by apply pt_ok.
  - done.
  - injection Hrun as <- <- <-. apply winv_move; [right; right; auto|done|]. rewrite bool_decide_false by done. by apply pt_err.
  - done.
Qed.

(** A writer returns: its interval is handed out, or forgotten. *)
Lemma winv_return r : p = Done r ->
  winv v mu (delete i ts) w (match r with Ok start => (start, start + n) :: l | Err _ => l end) ol (delete i gs).
Proof.
  intros ->. destruct H as [Hd Ho Hpr Hown Hsep Hts Hidle Hhold].
  destruct (Hts i _ Hi) as (n' & q & [= <- <-] & Hn & Hp).
  assert (bool_decide (mu = Some i) = false /\ forall a, r = Ok a -> gs !! i = Some (a, a + n) /\ a + n <= seqNumHighWater v) as [Hh Hr].
  { inversion Hp; subst; (split; [done|]); intros ? [=]; subst; done. }
  assert (forall j a, delete i gs !! j = Some a -> j <> i /\ gs !! j = Some a) as Hcase.
  { intros j a [? ?]%lookup_delete_Some. done. }
  constructor; try done.
  - destruct r as [a|e]; [|done]. destruct (Hr a eq_refl) as [Eg Ha]. destruct (Hown i _ Eg) as (H1 & H2 & _). by apply opened_issue.
  - destruct r as [a|e]; [|done]. destruct (Hr a eq_refl) as [Eg _]. constructor; [|done]. apply (Hown i _ Eg).
  - intros j b [Hne E]%Hcase. destruct (Hown j b E) as (H1 & H2 & H3). do 2 (split; [done|]). destruct r as [a|e]; [|done].
    destruct (Hr a eq_refl) as [Eg _]. constructor; [|done]. by apply (Hsep j i).
  - intros j k a b Hjk [_ Ea]%Hcase [_ Eb]%Hcase. by apply (Hsep j k).
  - intros j t [Hne E]%lookup_delete_Some. rewrite lookup_delete_ne by done. by apply Hts.
  - intros j. destruct (decide (i = j)) as [<-|Hne]; [by rewrite !lookup_delete_eq|]. rewrite !lookup_delete_ne by done. apply Hidle.
  - intros j E. rewrite lookup_delete_ne; [by apply Hhold|]. intros ->. rewrite E in Hh. by rewrite bool_decide_true in Hh.
Qed.
End step.

(** A save that nothing interleaves with. *)
Lemma winv_save v ts w l ol gs r s' : winv v None ts w l ol gs -> fits v -> entropy_ok w ->
  SaveStateCtx (mkSt v w) = (r, s') -> VolumeUUID v <> zeros 4 \/ r = Ok tt ->
  exists ol', winv (vb s') None ts (world s') l ol' gs.
Proof.
  intros [Hd Ho Hpr Hown Hsep Hts Hidle Hhold] [_ Hf] He Hrun Hc.
  destruct (post_run _ _ _ (save_inv nm base nh fp (mkSt v w) ol l Hd Ho He ltac:(cbn; lia)) _ _ Hrun Hc) as (ol' & Hd' & Ho' & Hl & Hs & Hh).
  cbn [vb] in Hs, Hh. exists ol'. constructor; try done.
  - intros i a E. rewrite Hs. by apply (Hown i).
  - intros i t (n & p & -> & Hn & Hp)%Hts. exists n, p. do 2 (split; [done|]). apply (point_stable _ v ol); done.
Qed.

(** Nobody is running: the invariant is the sequential one. *)
Lemma winv_quiet v w l ol : dur nm base nh fp w ol -> opened nm base nh fp v ol l -> pairwise_apart l -> winv v None ∅ w l ol ∅.
Proof. intros Hd Ho Hl. constructor; done. Qed.

Hypothesis snapshot_frame : forall id s, post (OpenFromSnapshot id) s (fun _ s' =>
  files (world s') = files (world s) /\ objects (world s') = objects (world s) /\
  VolumeName (vb s') = VolumeName (vb s) /\ BaseDir (vb s') = BaseDir (vb s) /\
  volumeNameHash (vb s') = volumeNameHash (vb s) /\ MasterKey (vb s') = MasterKey (vb s) /\
  EncryptionEnabled (vb s') = EncryptionEnabled (vb s) /\
  nextStateSeqNum (vb s') = nextStateSeqNum (vb s)).

Lemma sys_step x y : wstep false x y -> sys_inv x -> sys_inv y.
Proof.
  destruct 1 as [p w l pl e|v mu ts w l i n Hi Hn|? ? ? ? ? ? [=]|v mu ts w l i n p p' mu' s' Hi Hf He Hrun|v mu ts w l i p p' mu' s' Hi Hf He Hrun
    |v mu ts w l i n r Hi|v mu ts w l i r Hi|v ts w l r s' Hf He Hrun Hc|v w l r s' Hf He Hrun|p w l|v w l r s' Hid Hw Hb Hrun];
    unfold sys_inv; cbn [w_proc w_world w_issued].
  - destruct p as [[v mu ts]|].
    + intros (ol & gs & [[] Ho Hpr Hown Hsep Hts Hidle Hhold]). exists ol, gs. by constructor; [constructor|..].
    + intros (Hp & ol & [] & Hl). split; [done|]. exists ol. by split; [constructor|].
  - intros (ol & gs & [Hd Ho Hpr Hown Hsep Hts Hidle Hhold]). exists ol, gs. constructor; try done.
    + intros j t. destruct (decide (i = j)) as [<-|Hne]; [|rewrite lookup_insert_ne by done; apply Hts].
      rewrite lookup_insert_eq. intros [= <-]. exists n, (reserve_prog n). do 2 (split; [done|]). rewrite (Hidle i Hi). apply pt_start.
      apply bool_decide_eq_false. intros E. destruct (Hhold i E) as [? ?]. congruence.
    + intros j. destruct (decide (i = j)) as [<-|Hne]; [by rewrite lookup_insert_eq|]. rewrite lookup_insert_ne by done. apply Hidle.
    + intros j E. destruct (decide (i = j)) as [<-|Hne]; [rewrite lookup_insert_eq; by eexists|]. rewrite lookup_insert_ne by done. by apply Hhold.
  - intros (ol & gs & Hinv). by apply (winv_run v mu ts w l ol gs Hinv i n p Hi).
  - intros (ol & gs & Hinv). by destruct (wi_tasks _ _ _ _ _ _ _ Hinv i _ Hi) as (? & ? & [=] & _).
  - intros (ol & gs & Hinv). exists ol, (delete i gs). by apply (winv_return v mu ts w l ol gs Hinv i n (Done r) Hi).
  - intros (ol & gs & Hinv). by destruct (wi_tasks _ _ _ _ _ _ _ Hinv i _ Hi) as (? & ? & [=] & _).
  - intros (ol & gs & Hinv). destruct (winv_save v ts w l ol gs r s' Hinv Hf He Hrun Hc) as (ol' & ?). by exists ol', gs.
  - intros (ol & gs & [Hd Ho Hpr _ _ _ _ _]).
    assert (nextStateSeqNum v < 2 ^ 64 - 1 /\ SeqNum v + seqNumReservation < 2 ^ 64) as [H1 H2]
      by (change seqNumReservation with 1048576; destruct Hf; lia).
    destruct (post_run _ _ _ (ensure_inv nm base nh fp (mkSt v w) ol l Hd Ho He H1 H2) _ _ Hrun) as (ol' & Hd' & Ho').
    exists ol', ∅. by apply winv_quiet.
  - destruct p as [[v mu ts]|]; [|done]. intros (ol & gs & [Hd Ho Hpr _ _ _ _ _]). split; [done|]. exists ol. split; [done|].
    destruct Ho as [_ Hh _ _ _ Hi]. eapply Forall_impl; [exact Hi|]. intros i (? & _ & ?). split; [done|lia].
  - intros (Hpr & ol & Hd & Hl).
    assert (ssn_of ol < 2 ^ 63 /\ hw_of ol < 2 ^ 63) as [H1 H2].
    { destruct ol as [st|]; [|done]. apply (Hb (blob_of nh st)); [by rewrite (d_local _ _ _ _ _ _ Hd)|].
      pose proof (d_good _ _ _ _ _ _ Hd _ eq_refl) as Hg.
      rewrite <-(id_hash _ _ _ _ _ Hid), (decode_blob _ _ fp); [done|apply Hid..|apply Hg]. }
    destruct (post_run _ _ _ (load_inv nm base nh fp OpenFromSnapshot snapshot_frame (mkSt v w) ol l Hd Hid Hw ltac:(lia)
      ltac:(change seqNumReservation with 1048576; lia) Hl) _ _ Hrun) as (ol' & Hd' & Hl' & Ho').
    destruct r as [[]|e]; [|split; [done|by exists ol']]. exists ol', ∅. apply winv_quiet; auto.
Qed.

Lemma sys_reachable x y : new_volume_sys x -> rtc (wstep false) x y -> sys_inv y.
Proof.
  intros (v & w & -> & Hf & Hk & Hi & Hs & Hh & Hn) Hrun.
  assert (sys_inv (mkW (Some (mkProc v None ∅)) w [])) as H0.
  { exists None, ∅. apply winv_quiet; [constructor; [done|done|by left]| |constructor].
    constructor; rewrite ?Hs, ?Hh, ?Hn; try done. }
  clear -Hrun H0 snapshot_frame AL SL. induction Hrun as [|x y z Hxy _ IH]; [done|]. apply IH. by eapply sys_step.
Qed.
End system.

(** ** Reopening *)

Section reopen.
Context {A : AEAD} {S : StateJSON} {AL : AEADLaws A} {SL : StateJSONLaws S}.
Context (nm base : string) (nh : bytes) (fp : string) (OpenFromSnapshot : string -> M unit).

Lemma persist_calm hw s : calm s -> post (persistStateLocal hw) s (fun r s' => calm s' /\
  vb s' = (vb s) <| nextStateSeqNum := u64 (nextStateSeqNum (vb s) + 1) |> /\ exists p, r = Ok p).
Proof.
  intros Hc. unfold persistStateLocal. mgo. eapply post_mono; [apply post_and; [by apply writeFileAtomic_calm|apply writeFileAtomic_spec]|].
  intros r s' [[-> Hc'] ((Ev & _) & _)]. mgo. cbn [vb] in Ev. eauto.
Qed.

Lemma push_calm p s : calm s -> post (pushStateToBackend p) s (fun r s' => calm s' /\ vb s' = vb s /\ files (world s') = files (world s) /\
  objects (world s') !! GetFilePath FileTypeConfig 0 (VolumeName (vb s)) = Some p).
Proof.
  intros Hc. unfold pushStateToBackend, backend_Write, backend_WriteTo. do 3 mstep. apply post_next_calm. intros o s' (Ev & Ef & Eo) Ho.
  destruct (Ho Hc) as [-> Hc']. mgo. cbn [vb world files objects with_objects]. rewrite lookup_insert_eq. done.
Qed.

Lemma local_calm s f d : calm s -> files (world s) !! f = Some d ->
  post (LoadStateRequestCtx (Some f)) s (fun r s' => r = decode_state (vb s) d /\ quiet s s' /\ calm s').
Proof.
  intros Hc Hf. unfold LoadStateRequestCtx, os_ReadFile. apply post_bind, post_bind, post_next_calm. intros o s' Hq Ho.
  destruct (Ho Hc) as [-> Hc']. pose proof Hq as (Ev & Ef & Eo). do 2 mstep. rewrite Ef, Hf. do 3 mstep. rewrite Ev.
  apply post_of_result. done.
Qed.

(** The local read fails once. *)
Lemma local_fails s f e k pl : plan (world s) = Fails e k :: pl ->
  post (LoadStateRequestCtx (Some f)) s (fun r s' => r = Err e /\ quiet s s' /\ plan (world s') = pl).
Proof. intros Hp. unfold post, LoadStateRequestCtx, os_ReadFile, bind, next. rewrite Hp. cbn. done. Qed.

Lemma backend_calm s d : calm s -> objects (world s) !! GetFilePath FileTypeConfig 0 (VolumeName (vb s)) = Some d -> blen d < 2 ^ 32 ->
  post (LoadStateRequestCtx None) s (fun r s' => r = decode_state (vb s) d /\ quiet s s' /\ calm s').
Proof.
  intros Hc Hf Hl. unfold LoadStateRequestCtx, backend_Read, backend_ReadFrom. do 4 mstep. apply post_next_calm. intros o s' Hq Ho.
  destruct (Ho Hc) as [-> Hc']. pose proof Hq as (Ev & Ef & Eo). cbv beta iota. do 2 mstep. rewrite Eo, Hf. cbn zeta. change (0 =? 0) with true. cbv iota.
  assert (SafeInt64ToUint32 (blen d) = blen d) as -> by (unfold SafeInt64ToUint32, blen in *; unfold_widths; zcrush).
  destruct (Z.ltb_spec (blen d) (0 + blen d)); [lia|]. unfold slice, blen. rewrite drop_0, take_ge by lia.
  mgo. rewrite Ev. done.
Qed.

(** The end of [LoadState]: the counter restarts at the mark of the state
    chosen, and the next window is reserved. *)
Lemma bump_calm s st : calm s -> 0 <= vs_SeqNumHighWater st -> vs_SeqNumHighWater st + seqNumReservation < 2 ^ 64 ->
  post (bind (modify (fun v => v <| VolumeUUID := vs_VolumeUUID st |>
                                 <| SeqNum := vs_SeqNumHighWater st |>
                                 <| seqNumHighWater := vs_SeqNumHighWater st |>))
             (fun _ => bumpSeqNumHighWater)) s (fun r s' =>
    r = Ok tt /\ calm s' /\ EncryptionEnabled (vb s') = EncryptionEnabled (vb s) /\ SeqNum (vb s') = vs_SeqNumHighWater st /\
    seqNumHighWater (vb s') = vs_SeqNumHighWater st + seqNumReservation /\ VolumeUUID (vb s') = vs_VolumeUUID st /\
    nextStateSeqNum (vb s') = u64 (nextStateSeqNum (vb s) + 1)).
Proof.
  intros Hc H0 H1. unfold bumpSeqNumHighWater. do 4 mstep. cbn [vb].
  change (seqNumHighWater (_ <| seqNumHighWater := ?x |>)) with x.
  rewrite u64_small by (change seqNumReservation with 1048576 in *; unfold_widths; lia). cbn zeta.
  apply post_bind. eapply post_mono; [apply persist_calm; exact Hc|]. intros r s1 (Hc1 & Ev & p & ->). cbn beta iota. mgo.
  eapply post_mono; [apply push_calm; exact Hc1|]. intros r s2 (Hc2 & Ev2 & _). mgo. rewrite Ev2. cbn [vb]. rewrite Ev. done.
Qed.

(** Which state [LoadState] picks decides where the counter restarts. *)
Lemma load_calm s local backend st :
  ident nm base nh fp (vb s) -> good nm fp st -> vs_SnapshotID st = EmptyString -> vs_SeqNumHighWater st + seqNumReservation < 2 ^ 64 ->
  post (LoadStateRequestCtx (Some (config_path (vb s)))) s (fun r s' => r = local /\ quiet s s' /\ calm s') ->
  (forall s1, quiet s s1 -> calm s1 -> post (LoadStateRequestCtx None) s1 (fun r s' => r = backend /\ quiet s1 s' /\ calm s')) ->
  is_fatal_load local = false -> is_fatal_load backend = false -> select_state (vb s) local backend = Ok st ->
  post (LoadStateCtx OpenFromSnapshot) s (fun r s' =>
    r = Ok tt /\ EncryptionEnabled (vb s') = true /\ SeqNum (vb s') = vs_SeqNumHighWater st /\
    seqNumHighWater (vb s') = vs_SeqNumHighWater st + seqNumReservation /\ VolumeUUID (vb s') = vs_VolumeUUID st /\
    nextStateSeqNum (vb s') = u64 (vs_StateSeqNum st + 1)).
Proof.
  intros Hi Hg Hsn Hb Hl Hr Hfl Hfb Hsel. unfold LoadStateCtx. do 3 mstep. apply post_try.
  eapply post_mono; [exact Hl|]. cbn beta iota. intros ? s1 (-> & Hq1 & Hc1). rewrite Hfl. do 1 mstep. apply post_try.
  eapply post_mono; [by apply Hr|]. cbn beta iota. intros ? s2 (-> & Hq2 & Hc2). rewrite Hfb. apply post_bind, post_of_result. rewrite Hsel.
  cbn beta iota. do 2 mstep. rewrite bool_decide_true by done. cbn [negb]. do 2 mstep. rewrite (id_enc _ _ _ _ _ Hi).
  eapply post_mono; [apply bump_calm; [exact Hc2|apply Hg|done]|]. intros r s3 (-> & _ & Ee & H1). rewrite Ee. cbn [vb].
  split; [done|]. split; [|done]. destruct (quiet_trans _ _ _ Hq1 Hq2) as (Ev & _). rewrite Ev. apply Hi.
Qed.

(** A reservation below the mark. *)
Lemma reserve_fast n s : EncryptionEnabled (vb s) = true -> 0 < n -> 0 <= SeqNum (vb s) -> SeqNum (vb s) + n <= seqNumHighWater (vb s) ->
  SeqNum (vb s) + n <= MaxSeqNum -> (reserveSeqNum n s).1 = Ok (SeqNum (vb s)).
Proof.
  intros He Hn H0 Hh Hm. rewrite reserveSeqNum_alone. unfold reserve_alone, bind, modify, get. cbn [vb world].
  change MaxSeqNum with (2 ^ 56 - 1) in Hm. rewrite (u64_small (SeqNum (vb s) + n)) by (unfold_widths; lia).
  change (SeqNum (_ <| SeqNum := ?x |>)) with x. change (EncryptionEnabled ((vb s) <| SeqNum := _ |>)) with (EncryptionEnabled (vb s)).
  change (seqNumHighWater ((vb s) <| SeqNum := _ |>)) with (seqNumHighWater (vb s)). rewrite He. cbn [negb]. change MaxSeqNum with (2 ^ 56 - 1).
  destruct (Z.ltb_spec (2 ^ 56 - 1) (SeqNum (vb s) + n)); [lia|]. destruct (Z.leb_spec (SeqNum (vb s) + n) (seqNumHighWater (vb s))); [|lia].
  cbn [fst ret]. f_equal. rewrite u64_small by (unfold_widths; lia). lia.
Qed.
End reopen.

(** ** A save beside a reservation *)

Section race.
Context {A : AEAD} {S : StateJSON} {AL : AEADLaws A} {SL : StateJSONLaws S}.
Context (nm base : string) (nh : bytes) (fp : string) (OpenFromSnapshot : string -> M unit).
#[local] Abbreviation step := (wstep nm base nh fp OpenFromSnapshot true).
#[local] Abbreviation W v mu ts w l := (mkW (Some (mkProc v mu ts)) w l).

(** The environment behaves from now on. *)
Definition tidy (w : World) : World := mkWorld (files w) (objects w) [] [] (now w).

Lemma tidy_step p w l : step (mkW p w l) (mkW p (tidy w) l).
Proof. apply ws_env. Qed.

Lemma act_reserve v mu ts w l i n p p' mu' s' : fits v -> prog_step i mu p (mkSt v (tidy w)) = Some (p', mu', s') ->
  rtc step (W v mu (<[i := Reserving n p]> ts) w l) (W (vb s') mu' (<[i := Reserving n p']> ts) (world s') l).
Proof.
  intros Hf Hr. eapply rtc_l; [apply tidy_step|]. apply rtc_once. rewrite <-(insert_insert_eq ts i (Reserving n p') (Reserving n p)).
  eapply ws_run; [apply lookup_insert_eq|done|constructor|exact Hr].
Qed.

Lemma act_save v mu ts w l i p p' mu' s' : fits v -> prog_step i mu p (mkSt v (tidy w)) = Some (p', mu', s') ->
  rtc step (W v mu (<[i := Saving p]> ts) w l) (W (vb s') mu' (<[i := Saving p']> ts) (world s') l).
Proof.
  intros Hf Hr. eapply rtc_l; [apply tidy_step|]. apply rtc_once. rewrite <-(insert_insert_eq ts i (Saving p') (Saving p)).
  eapply ws_run_save; [apply lookup_insert_eq|done|constructor|exact Hr].
Qed.

(** What a save that has read the mark [hw] still does. *)
Definition save_of (hw : Z) : prog unit :=
  atomic persisted <- persistStateLocal hw;
  Act (pushStateToBackend persisted) Done.

Lemma minted_calm s : VolumeUUID (vb s) <> zeros 4 -> mintVolumeUUID s = (Ok false, s).
Proof. intros Hu. unfold mintVolumeUUID, bind, get. by rewrite bool_decide_false. Qed.

Lemma save_reads v ts w l i : ts !! i = None -> fits v -> EncryptionEnabled v = true -> VolumeUUID v <> zeros 4 ->
  rtc step (W v None ts w l) (W v None (<[i := Saving (save_of (seqNumHighWater v))]> ts) (tidy w) l).
Proof.
  intros Hi Hf He Hu. eapply rtc_l; [by apply (ws_save _ _ _ _ _ _ _ _ _ _ _ i)|].
  etrans; [eapply act_save; [done|cbn [prog_step save_prog get vb]; rewrite He; reflexivity]|].
  etrans; [eapply act_save; [done|cbn [prog_step negb]; rewrite minted_calm by done; reflexivity]|].
  etrans; [eapply act_save; [done|reflexivity]|]. apply rtc_refl.
Qed.

(** A reservation past the mark, from its call to its return. *)
Lemma reserve_whole v ts w l i n s2 s3 p r : ts !! i = None -> 0 < n -> 0 <= SeqNum v -> nextStateSeqNum v < 2 ^ 62 -> EncryptionEnabled v = true ->
  VolumeUUID v <> zeros 4 -> seqNumHighWater v < SeqNum v + n -> SeqNum v + n <= MaxSeqNum ->
  let v1 := v <| SeqNum := SeqNum v + n |> in
  let hw := advance_hw (seqNumHighWater v) (SeqNum v + n) in
  persistStateLocal hw (mkSt v1 (tidy w)) = (Ok p, s2) ->
  vb s2 = v1 <| nextStateSeqNum := nextStateSeqNum v + 1 |> ->
  let v2 := (vb s2) <| seqNumHighWater := hw |> in
  pushStateToBackend p (mkSt v2 (tidy (world s2))) = (r, s3) -> vb s3 = v2 ->
  rtc step (W v None ts w l) (W v2 None ts (world s3) ((SeqNum v, SeqNum v + n) :: l)).
Proof.
  intros Hi Hn H0 Hx He Hu Hlt Hmax v1 hw Hp Ev2 v2 Hpush Ev3. change MaxSeqNum with (2 ^ 56 - 1) in Hmax.
  assert (fits v) as Hf by (split; lia). assert (fits v1) as Hf1 by (split; [change (SeqNum v + n < 2 ^ 63)|change (nextStateSeqNum v < 2 ^ 63)]; lia).
  assert (fits (vb s2)) as Hf2 by (rewrite Ev2; split; [change (SeqNum v + n < 2 ^ 63)|change (nextStateSeqNum v + 1 < 2 ^ 63)]; lia).
  assert (fits v2) as Hf3 by exact Hf2.
  assert (u64 (SeqNum v + n) = SeqNum v + n) as E1 by (apply u64_small; unfold_widths; lia).
  assert (u64 (SeqNum v + n - n) = SeqNum v) as E2 by (rewrite u64_small; [lia|unfold_widths; lia]).
  eapply rtc_l; [apply (ws_reserve _ _ _ _ _ _ _ _ _ _ _ i n); [done|lia]|].
  etrans; [eapply act_reserve; [done|cbn [prog_step reserve_prog add_seq]; unfold bind, modify, get, ret; cbn [vb world]; reflexivity]|].
  cbn [vb world]. change (SeqNum (v <| SeqNum := u64 (SeqNum v + n) |>)) with (u64 (SeqNum v + n)). rewrite E1, E2. fold v1.
  etrans; [eapply act_reserve; [done|cbn [prog_step reserve_check get vb]; change (EncryptionEnabled v1) with (EncryptionEnabled v);
    change (seqNumHighWater v1) with (seqNumHighWater v); rewrite He; cbn [negb]; change MaxSeqNum with (2 ^ 56 - 1);
    rewrite (proj2 (Z.ltb_ge _ _)) by lia; rewrite (proj2 (Z.leb_gt _ _)) by lia; reflexivity]|]. cbn [vb world].
  etrans; [eapply act_reserve; [done|reflexivity]|]. cbn [vb world].
  etrans; [eapply act_reserve; [done|cbn [prog_step reserve_locked get vb]; change (seqNumHighWater v1) with (seqNumHighWater v); cbn zeta;
    rewrite (proj2 (Z.leb_gt _ _)) by lia; reflexivity]|]. cbn [vb world].
  etrans; [eapply act_reserve; [done|cbn [prog_step]; rewrite minted_calm by done; reflexivity]|]. cbn [vb world].
  etrans; [eapply act_reserve; [done|cbn [prog_step reserve_persist]; cbn zeta; fold hw;
    match goal with |- context [persistStateLocal hw ?s] => change s with (mkSt v1 (tidy w)) end; rewrite Hp; reflexivity]|].
  etrans; [eapply act_reserve; [done|cbn [prog_step reserve_publish publish_hw]; unfold modify; cbn [vb world]; fold v2; reflexivity]|]. cbn [vb world].
  etrans; [eapply act_reserve; [done|reflexivity]|]. cbn [vb world].
  etrans; [eapply act_reserve; [done|cbn [prog_step reserve_push];
    match goal with |- context [pushStateToBackend p ?s] => change s with (mkSt v2 (tidy (world s2))) end; rewrite Hpush; reflexivity]|].
  rewrite Ev3. apply rtc_once. rewrite <-(delete_insert_id ts i (Reserving n (Done (Ok (SeqNum v)))) Hi) at 2.
  apply (ws_return _ _ _ _ _ _ _ _ _ _ _ i n (Ok (SeqNum v))), lookup_insert_eq.
Qed.

(** A reservation below the mark, from its call to its return. *)
Lemma reserve_below v ts w l i n : ts !! i = None -> 0 < n -> 0 <= SeqNum v -> nextStateSeqNum v < 2 ^ 62 -> EncryptionEnabled v = true ->
  SeqNum v + n <= seqNumHighWater v -> SeqNum v + n <= MaxSeqNum ->
  rtc step (W v None ts w l) (W (v <| SeqNum := SeqNum v + n |>) None ts (tidy w) ((SeqNum v, SeqNum v + n) :: l)).
Proof.
  intros Hi Hn H0 Hx He Hle Hmax. change MaxSeqNum with (2 ^ 56 - 1) in Hmax. set (v1 := v <| SeqNum := SeqNum v + n |>).
  assert (fits v) as Hf by (split; lia). assert (fits v1) as Hf1 by (split; [change (SeqNum v + n < 2 ^ 63)|change (nextStateSeqNum v < 2 ^ 63)]; lia).
  assert (u64 (SeqNum v + n) = SeqNum v + n) as E1 by (apply u64_small; unfold_widths; lia).
  assert (u64 (SeqNum v + n - n) = SeqNum v) as E2 by (rewrite u64_small; [lia|unfold_widths; lia]).
  eapply rtc_l; [apply (ws_reserve _ _ _ _ _ _ _ _ _ _ _ i n); [done|lia]|].
  etrans; [eapply act_reserve; [done|cbn [prog_step reserve_prog add_seq]; unfold bind, modify, get, ret; cbn [vb world]; reflexivity]|].
  cbn [vb world]. change (SeqNum (v <| SeqNum := u64 (SeqNum v + n) |>)) with (u64 (SeqNum v + n)). rewrite E1, E2. fold v1.
  etrans; [eapply act_reserve; [done|cbn [prog_step reserve_check get vb]; change (EncryptionEnabled v1) with (EncryptionEnabled v);
    change (seqNumHighWater v1) with (seqNumHighWater v); rewrite He; cbn [negb]; change MaxSeqNum with (2 ^ 56 - 1);
    rewrite (proj2 (Z.ltb_ge _ _)) by lia; rewrite (proj2 (Z.leb_le _ _)) by lia; reflexivity]|]. cbn [vb world].
  apply rtc_once. rewrite <-(delete_insert_id ts i (Reserving n (Done (Ok (SeqNum v)))) Hi) at 2.
  apply (ws_return _ _ _ _ _ _ _ _ _ _ _ i n (Ok (SeqNum v))), lookup_insert_eq.
Qed.

(** *** The race *)

Context (v : VB) (w : World) (l : list (Z * Z)) (n : Z).
Context (Hid : ident nm base nh fp v) (Hu : VolumeUUID v <> zeros 4) (Hn : 0 < n) (Hs : 0 <= SeqNum v <= seqNumHighWater v)
  (Hlt : seqNumHighWater v < SeqNum v + n) (Hmax : SeqNum v + n <= MaxSeqNum) (Hx : 0 <= nextStateSeqNum v < 2 ^ 62 - 2).

(** The volume when the reservation persists, and the state it persists. *)
Definition race_vb : VB := v <| SeqNum := SeqNum v + n |> <| nextStateSeqNum := nextStateSeqNum v + 1 |>.
Definition race_state : VBState := state_of race_vb (advance_hw (seqNumHighWater v) (SeqNum v + n)) (nextStateSeqNum v + 1).
(** What the save that read the old mark persists afterwards. *)
Definition stale_vb : VB := race_vb <| seqNumHighWater := advance_hw (seqNumHighWater v) (SeqNum v + n) |> <| nextStateSeqNum := nextStateSeqNum v + 2 |>.
Definition stale_state : VBState := state_of stale_vb (seqNumHighWater v) (nextStateSeqNum v + 2).

(** The save has read the mark, the reservation runs, the save persists, the
    process dies. *)
Lemma race_run : exists w', 
  rtc step (W v None ∅ w l) (mkW None w' ((SeqNum v, SeqNum v + n) :: l)) /\
  files w' !! cfg nm base = Some (blob_of nh stale_state) /\ objects w' !! key nm = Some (blob_of nh race_state).
Proof.
  pose proof (id_enc _ _ _ _ _ Hid) as He. assert (fits v) as Hf by (change MaxSeqNum with (2 ^ 56 - 1) in Hmax; split; lia).
  set (v1 := v <| SeqNum := SeqNum v + n |>). set (hw := advance_hw (seqNumHighWater v) (SeqNum v + n)).
  assert (ident nm base nh fp v1) as Hid1 by (by apply (ident_ext _ _ _ _ v)).
  (* the reservation's persist *)
  destruct (persistStateLocal hw (mkSt v1 (tidy (tidy w)))) as [r1 s2] eqn:Ep.
  destruct (post_run _ _ _ (persist_calm hw (mkSt v1 (tidy (tidy w))) ltac:(constructor)) _ _ Ep) as (Hc2 & Ev2 & p & ->).
  destruct (post_run _ _ _ (persist_spec nm base nh fp hw (mkSt v1 (tidy (tidy w))) Hid1) _ _ Ep) as (_ & _ & _ & Hok).
  destruct (Hok p eq_refl) as [Hp _]. clear Hok. cbn [vb] in Ev2, Hp. change (nextStateSeqNum v1) with (nextStateSeqNum v) in Ev2, Hp.
  rewrite u64_small in Ev2, Hp by (unfold_widths; lia). assert (p = blob_of nh race_state) as -> by exact Hp. clear Hp.
  (* its push *)
  set (v2 := (vb s2) <| seqNumHighWater := hw |>).
  destruct (pushStateToBackend (blob_of nh race_state) (mkSt v2 (tidy (world s2)))) as [r3 s3] eqn:Epush.
  destruct (post_run _ _ _ (push_calm _ (mkSt v2 (tidy (world s2))) ltac:(constructor)) _ _ Epush) as (_ & Ev3 & _ & Eo3). cbn [vb] in Ev3, Eo3.
  assert (VolumeName v2 = nm) as Enm by (unfold v2; rewrite Ev2; apply Hid). rewrite Enm in Eo3.
  (* the save's persist *)
  assert (ident nm base nh fp v2) as Hid2 by (unfold v2; rewrite Ev2; by apply (ident_ext _ _ _ _ v)).
  destruct (persistStateLocal (seqNumHighWater v) (mkSt v2 (tidy (world s3)))) as [r4 s4] eqn:Ep4.
  destruct (post_run _ _ _ (persist_calm _ (mkSt v2 (tidy (world s3))) ltac:(constructor)) _ _ Ep4) as (_ & _ & p4 & ->).
  destruct (post_run _ _ _ (persist_spec nm base nh fp _ (mkSt v2 (tidy (world s3))) Hid2) _ _ Ep4) as (_ & Eo4 & _ & Hok).
  destruct (Hok p4 eq_refl) as [_ Hfile]. clear Hok. cbn [vb world] in Eo4, Hfile.
  assert (nextStateSeqNum v2 = nextStateSeqNum v + 1) as En2 by (unfold v2; rewrite Ev2; done). rewrite En2 in Hfile.
  rewrite u64_small in Hfile by (unfold_widths; lia).
  exists (world s4). split; [|split].
  - etrans; [by apply (save_reads v ∅ w l 0)|].
    etrans; [eapply (reserve_whole v _ (tidy w) l 1 n s2 s3 _ r3); try done; lia|].
    etrans; [eapply (act_save v2 None ∅ (world s3) _ 0 (save_of (seqNumHighWater v))); [|cbn [prog_step save_of]; rewrite Ep4; reflexivity]|].
    + unfold v2. rewrite Ev2. change MaxSeqNum with (2 ^ 56 - 1) in Hmax. split; [change (SeqNum v + n < 2 ^ 63)|change (nextStateSeqNum v + 1 < 2 ^ 63)]; lia.
    + apply rtc_once, ws_crash.
  - rewrite Hfile. unfold stale_state, stale_vb, race_vb. unfold v2. rewrite Ev2. replace (nextStateSeqNum v + 1 + 1) with (nextStateSeqNum v + 2) by lia. reflexivity.
  - rewrite Eo4. exact Eo3.
Qed.
End race.
