(* ===== verification/Instances.v ===== *)
(** * A concrete environment

    Instances of the interfaces of [Crypto] and [SeqNum] that satisfy their
    laws, so that the theorems proved against the interfaces apply to
    something: VBState is printed as a JSON string of binary digits. *)

From S2P Require Import Prelude Words BlockMap Json Crypto Paths Volume SeqNum GC Snapshot SeqNumFacts.
From stdpp Require Import countable.

#[global] Instance VolumeConfig_eq_dec : EqDecision VolumeConfig.
Proof. solve_decision. Defined.
#[global] Instance VBState_eq_dec : EqDecision VBState.
Proof. solve_decision. Defined.

#[global] Instance byte_countable : Countable Byte.byte.
Proof. exact (inj_countable Byte.to_N Byte.of_N Byte.of_to_N). Defined.

#[global] Instance VolumeConfig_countable : Countable VolumeConfig.
Proof.
  refine (inj_countable' (fun c => (SizeGiB c, other_config c)) (fun p => mkVolumeConfig p.1 p.2) _).
  by intros [].
Defined.

Definition state_tuple (s : VBState) :=
  (vs_VolumeName s, vs_VolumeSize s, vs_BlockSize s, vs_ObjBlockSize s, vs_SeqNum s, vs_ObjectNum s,
   (vs_WALNum s, vs_BlockToObjectWALNum s, vs_Version s, vs_VolumeConfig s, vs_ShardedWAL s, vs_SnapshotID s),
   (vs_SourceVolumeName s, vs_EncryptionEnabled s, vs_VolumeUUID s, vs_SeqNumHighWater s, vs_StateSeqNum s,
    vs_KeyFingerprint s)).

#[global] Instance VBState_countable : Countable VBState.
Proof.
  refine (inj_countable' state_tuple
    (fun '(a, b, c, d, e, f, (g, h, i, j, k, l), (m, n, o, p, q, r)) =>
       mkVBState a b c d e f g h i j k l m n o p q r) _).
  by intros [].
Defined.

Fixpoint bits_of (p : positive) : bytes :=
  match p with
  | xH => [Byte.x31]
  | xO p => Byte.x30 :: bits_of p
  | xI p => Byte.x31 :: bits_of p
  end.
Fixpoint of_bits (l : bytes) : option positive :=
  match l with
  | [] => None
  | [c] => if decide (c = Byte.x31) then Some xH else None
  | c :: l' => match of_bits l' with
               | Some p => Some (if decide (c = Byte.x31) then xI p else xO p)
               | None => None
               end
  end.

Definition toy_marshal (st : VBState) : bytes := (QUOTE :: bits_of (encode st)) ++ [QUOTE].
Definition toy_unmarshal (raw : bytes) : option VBState :=
  match of_bits (drop 1 (take (length raw - 1) raw)) with
  | Some p => decode p
  | None => None
  end.
Definition toy_state_json : StateJSON := {|
  marshal_state := toy_marshal;
  unmarshal_state := toy_unmarshal;
  peek_state raw := match toy_unmarshal raw with
                    | Some st => Some (vs_VolumeUUID st, vs_StateSeqNum st, vs_KeyFingerprint st)
                    | None => None
                    end
|}.

Lemma of_bits_of p : of_bits (bits_of p) = Some p.
Proof.
  induction p as [p IH|p IH|]; [| |done]; cbn; destruct (bits_of p) eqn:E; try (by destruct p);
    by rewrite IH.
Qed.

Lemma bits_plain p : forallb plain_char (bits_of p) = true.
Proof. by induction p. Qed.

(** A string of binary digits is a JSON text, and not an envelope. *)
Lemma bits_valid p : json_valid ((QUOTE :: bits_of p) ++ [QUOTE]) = true.
Proof.
  unfold json_valid. cbn [app]. unfold enough. rewrite Nat.add_comm. cbn [Nat.add scan_value].
  change (Byte.eqb QUOTE LBRACE) with false. change (Byte.eqb QUOTE LBRACKET) with false. change (Byte.eqb QUOTE QUOTE) with true.
  cbv iota. by rewrite scan_string_plain by apply bits_plain.
Qed.

Lemma bits_body p : StateBody ((QUOTE :: bits_of p) ++ [QUOTE]) = (QUOTE :: bits_of p) ++ [QUOTE].
Proof.
  unfold StateBody, unmarshal_probe, unmarshal_struct, json_text.
  set (raw := (QUOTE :: bits_of p) ++ [QUOTE]). change (skip_space raw) with raw. cbv zeta.
  assert (scan_value (enough raw) 0 raw = Some []) as ->.
  { unfold raw, enough. rewrite Nat.add_comm. cbn [Nat.add scan_value app].
    change (Byte.eqb QUOTE LBRACE) with false. change (Byte.eqb QUOTE LBRACKET) with false. change (Byte.eqb QUOTE QUOTE) with true.
    cbv iota. by rewrite scan_string_plain by apply bits_plain. }
  change (skip_space []) with (@nil byte). cbv iota.
  assert (text raw [] = raw) as -> by (unfold text; rewrite Nat.sub_0_r; by apply take_ge). reflexivity.
Qed.

Lemma toy_unmarshal_marshal st : toy_unmarshal (toy_marshal st) = Some st.
Proof.
  unfold toy_unmarshal, toy_marshal.
  rewrite take_app_length' by (rewrite length_app; cbn; lia).
  change (drop 1 (QUOTE :: bits_of (encode st))) with (bits_of (encode st)).
  by rewrite of_bits_of, decode_encode.
Qed.

Lemma toy_state_json_laws : StateJSONLaws toy_state_json.
Proof.
  constructor; intros st.
  - apply bits_valid.
  - apply toy_unmarshal_marshal.
  - cbn [peek_state toy_state_json marshal_state]. by rewrite toy_unmarshal_marshal.
  - apply bits_body.
Qed.

(** SnapshotState, printed the same way. *)
#[global] Instance SnapshotState_eq_dec : EqDecision SnapshotState.
Proof. solve_decision. Defined.

Definition snap_tuple (s : SnapshotState) :=
  (ss_SnapshotID s, ss_SourceVolumeName s, ss_SeqNum s, ss_ObjectNum s, ss_BlockSize s, ss_ObjBlockSize s,
   (ss_BlockCount s, ss_CreatedAt s, ss_SourceVolumeUUID s, ss_SourceVolumeNameHash s, ss_StateSeqNum s, ss_HasFlatSection s)).

#[global] Instance SnapshotState_countable : Countable SnapshotState.
Proof.
  refine (inj_countable' snap_tuple
    (fun '(a, b, c, d, e, f, (g, h, i, j, k, l)) => mkSnapshotState a b c d e f g h i j k l) _).
  by intros [].
Defined.

Definition toy_snap_unmarshal (raw : bytes) : option SnapshotState :=
  match of_bits (drop 1 (take (length raw - 1) raw)) with
  | Some p => decode p
  | None => None
  end.
Definition toy_snap_json : SnapJSON := {|
  marshal_snap st := (QUOTE :: bits_of (encode st)) ++ [QUOTE];
  unmarshal_snap := toy_snap_unmarshal;
  peek_snap raw := match toy_snap_unmarshal raw with
                   | Some st => Some (ss_SourceVolumeUUID st, ss_SourceVolumeNameHash st, ss_StateSeqNum st)
                   | None => None
                   end
|}.

Lemma toy_snap_unmarshal_marshal st : toy_snap_unmarshal (@marshal_snap toy_snap_json st) = Some st.
Proof.
  unfold toy_snap_unmarshal. cbn [marshal_snap toy_snap_json].
  rewrite take_app_length' by (rewrite length_app; cbn; lia).
  change (drop 1 (QUOTE :: bits_of (encode st))) with (bits_of (encode st)).
  by rewrite of_bits_of, decode_encode.
Qed.

(** A snapshot's config is the name of its source; a marker is the snapshot's name. *)
Definition toy_probe_json : ProbeJSON := {|
  probe_source raw := Some (String.string_of_list_byte raw);
  marshal_marker snapshotID _ := String.list_byte_of_string snapshotID
|}.

(** A fresh encrypted volume named "v" with 4-byte blocks, on an empty disk. *)
Definition toy_vb : VB := {|
  VolumeName := "v"; VolumeSize := 64; BlockSize := 4; ObjBlockSize := 8; FlushSize := 1024;
  MaxPendingBytes := 4096; SeqNum := 0; ObjectNum := 0; BlocksToObject := ∅; bto_dirty := false;
  Writes := []; PendingBackendWrites := []; pendingBytes := 0; backendFull := false;
  uploadTriggered := false; vb_WAL := mkWAL [] 0 "" (lit "VBWE") false false; ShardWAL := repeat None 16; ShardWallNum := 0;
  UseShardedWAL := false; BlockToObjectWAL := mkWAL [] 0 "" (lit "VBWB") false false;
  BStore := BlockStore.NewUnifiedBlockStore 4; UseBlockStore := true; Version := 1;
  ChunkMagic := lit "VBCE"; BaseDir := ""; vb_Config := mkVolumeConfig 0 ""; BaseBlockMap := None;
  SourceVolumeName := ""; SnapshotID := ""; ancestors := []; MasterKey := Some "k"%string;
  EncryptionEnabled := true; volumeNameHash := []; VolumeUUID := zeros 4; SourceVolumeUUID := zeros 4;
  sourceVolumeNameHash := []; chunkMagicChecked := ∅; seqNumHighWater := 0; nextStateSeqNum := 0;
  GCEnabled := false; gcRefcount := ∅; gcReconciled := false; gcFloor := 0; gcFloorReady := false;
  gcSnapshotSafe := false; gcSnapshotChecked := false; gcMarkerBaseline := None; gcLatchedOff := false; shard_dirty := repeat false 16 |}.

Definition toy_world : World := mkWorld ∅ ∅ [] [[Byte.x01; Byte.x02; Byte.x03; Byte.x04]] 0.
Definition toy_st : St := mkSt toy_vb toy_world.
Definition toy_open : string -> M unit := fun _ => ret tt.
