(* ===== verification/FlatFacts.v ===== *)
(** * What a snapshot's bytes decode to

    The hex fields of a snapshot's config, the own-blocks section and the flat
    section of its checkpoint: each decodes to what was encoded, and the layers
    that come back resolve every block as the source volume did. *)

From S2P Require Import Prelude Words BlockMap Extents BlockStore Crypto Paths Volume WAL Chunk ChunkFacts Read Inherit Checkpoint CheckpointFacts SeqNum Engine GC Snapshot.
From Stdlib Require Import Strings.Byte.
From Stdlib Require Strings.String.

(** ** encoding/hex *)

Lemma hex_decode_encode b : hex_decode (hex_encode b) = Some b.
Proof.
  induction b as [|x b IH]; [done|]. cbn [hex_encode hex_decode]. rewrite IH.
  by destruct x.
Qed.

Lemma hex_field_encode n b : blen b = n -> hex_field n (hex_encode b) = Some b.
Proof. intros Hb. unfold hex_field. rewrite hex_decode_encode. rewrite Hb, Z.eqb_refl. done. Qed.

Lemma hex_encode_nil b : hex_encode b = EmptyString -> b = [].
Proof. by destruct b. Qed.

Lemma optional_hex_encode n b : blen b = n -> 0 < n -> optional_hex n (hex_encode b) = Ok b.
Proof.
  intros Hb Hn. unfold optional_hex. rewrite bool_decide_false, hex_field_encode; [done|done|].
  intros E%hex_encode_nil. subst b. unfold blen in Hb. cbn in Hb. lia.
Qed.

Lemma str_bytes_str s : bytes_str (str_bytes s) = s.
Proof. apply String.string_of_list_byte_of_string. Qed.

Lemma Ok_inj {E X} (x y : X) : @Ok E X x = Ok y -> x = y.
Proof. congruence. Qed.

(** ** A stream of records *)

Lemma parse_entries_stream short recs rest :
  Forall rec_fits recs ->
  parse_entries short (length recs) (List.concat (writeBlockWalChunk <$> recs) ++ rest) = Ok (recs, rest).
Proof.
  induction 1 as [|r recs Hr _ IH]; [done|].
  cbn [length parse_entries fmap list_fmap List.concat]. rewrite <-app_assoc.
  destruct (Z.ltb_spec (blen (writeBlockWalChunk r ++ List.concat (writeBlockWalChunk <$> recs) ++ rest)) blockWalChunkSize) as [H|_].
  { unfold blen, blockWalChunkSize in H. rewrite length_app, length_writeBlockWalChunk in H. lia. }
  rewrite slice_app_l by (rewrite length_writeBlockWalChunk; done).
  unfold readBlockWalChunk. rewrite decode_write by done. cbn [rbind].
  rewrite drop_app_length' by (rewrite length_writeBlockWalChunk; done).
  by rewrite IH.
Qed.

(** ** The flat section *)

(** A source whose fields have their widths. *)
Record source_fits (src : sourceGroup) : Prop := {
  so_uuid : blen (sg_uuid src) = 4;
  so_hash : blen (sg_nameHash src) = 32;
  so_recs : Forall rec_fits (sg_blocks src)
}.

Definition layer_of (src : sourceGroup) : InheritedLayer :=
  mkLayer (flat_of (sg_blocks src)) (sg_name src) (sg_uuid src) (sg_nameHash src).

Lemma parse_source_encode src b rest :
  source_fits src -> encode_source src = Ok b -> parse_source (b ++ rest) = Ok (layer_of src, rest).
Proof.
  intros [Hu Hh Hr]. unfold encode_source. set (nm := str_bytes (sg_name src)).
  destruct (Z.ltb_spec MaxUint16 (blen nm)) as [|Hn]; [done|].
  destruct (Z.ltb_spec MaxUint32 (Z.of_nat (length (sg_blocks src)))) as [|Hk]; [done|]. intros E. rewrite <-(Ok_inj _ _ E). clear b E.
  set (n := Z.of_nat (length (sg_blocks src))) in *. set (recs := List.concat _).
  unfold blen in *. rewrite <-!app_assoc. unfold parse_source.
  assert (forall z x, (blen (PutUint16 z ++ x) <? 2) = false) as ->.
  { intros z x. apply Z.ltb_ge. unfold blen. rewrite length_app, Nat2Z.inj_add, len2. lia. }
  rewrite slice_app_l by apply len2. rewrite be_get_put2 by (unfold_widths; unfold in_u; lia).
  assert (forall z x, drop 2 (PutUint16 z ++ x) = x) as Hd2 by (intros; apply drop_app_length'; pose proof (len2 z); lia).
  rewrite !Hd2. unfold blen. rewrite (length_app nm). rewrite (proj2 (Z.ltb_ge _ _)) by lia.
  rewrite slice_app_l by done. rewrite Nat2Z.id, !drop_app_length.
  set (tail := sg_uuid src ++ _).
  assert (40 <= Z.of_nat (length tail)) as Ht.
  { unfold tail. rewrite !length_app, !Nat2Z.inj_add, len4, Hu, Hh. lia. }
  destruct (Z.ltb_spec (Z.of_nat (length tail)) (4 + 32 + 4)); [lia|].
  assert (slice tail 0 4 = sg_uuid src) as -> by (unfold tail; by rewrite slice_app_l).
  assert (slice tail 4 36 = sg_nameHash src) as ->.
  { unfold tail. rewrite (slice_app_skip (sg_uuid src) _ 4) by lia. by rewrite slice_app_l. }
  assert (slice tail 36 40 = PutUint32 n) as ->.
  { unfold tail. rewrite (slice_app_skip (sg_uuid src) _ 4) by lia. rewrite (slice_app_skip (sg_nameHash src) _ 32) by lia.
    rewrite slice_app_l by apply len4. done. }
  rewrite be_get_put4 by (unfold_widths; unfold in_u; lia).
  assert (drop 40 tail = recs ++ rest) as ->.
  { unfold tail. rewrite (app_assoc (sg_uuid src)), (app_assoc (sg_uuid src ++ _)).
    apply drop_app_length'. rewrite !length_app. pose proof (len4 n). lia. }
  unfold n. rewrite Nat2Z.id. unfold recs. rewrite parse_entries_stream by done. cbn [rbind fst snd]. unfold nm. by rewrite str_bytes_str.
Qed.

Lemma parse_sources_encode srcs : forall b,
  Forall source_fits srcs -> encode_sources srcs = Ok b -> parse_sources (length srcs) b = Ok (layer_of <$> srcs).
Proof.
  induction srcs as [|src srcs IH]; intros b Hf; [done|]. apply Forall_cons in Hf as [H1 Hf].
  cbn [encode_sources length parse_sources].
  destruct (encode_source src) as [b1|] eqn:E1; [|done]. cbn [rbind].
  destruct (encode_sources srcs) as [b2|] eqn:E2; [|done]. cbn [rbind]. intros [= <-].
  rewrite (parse_source_encode src b1 b2 H1 E1). cbn [rbind fst snd]. by rewrite (IH b2 Hf eq_refl).
Qed.

Lemma parse_flat_build v base b :
  Forall source_fits (flat_sources v base) -> buildFlatSection v base = Ok b ->
  parseFlatSection b = Ok (layer_of <$> flat_sources v base).
Proof.
  intros Hf. unfold buildFlatSection. set (srcs := flat_sources v base) in *.
  destruct (Z.ltb_spec 255 (Z.of_nat (length srcs))) as [|Hn]; [done|].
  destruct (encode_sources srcs) as [body|] eqn:E; [|done]. cbn [rbind]. intros Eb. rewrite <-(Ok_inj _ _ Eb). clear b Eb.
  unfold parseFlatSection. change (flatSectionMagic ++ [x01] ++ [byte_of_Z (Z.of_nat (length srcs))] ++ body)
    with ((lit "FLAT" ++ [x01; byte_of_Z (Z.of_nat (length srcs))]) ++ body).
  set (hd := lit "FLAT" ++ _). assert (length hd = 6%nat) as Hl by done.
  destruct (Z.ltb_spec (blen (hd ++ body)) 6) as [H|_]; [unfold blen in H; rewrite length_app in H; lia|].
  assert (slice (hd ++ body) 0 4 = flatSectionMagic) as -> by done.
  rewrite bool_decide_true by done. cbn [negb].
  assert (slice (hd ++ body) 5 6 = [byte_of_Z (Z.of_nat (length srcs))]) as -> by done.
  assert (be_get [byte_of_Z (Z.of_nat (length srcs))] = Z.of_nat (length srcs)) as ->.
  { apply (be_get_put 1). lia. }
  rewrite Nat2Z.id, drop_app_length' by done. by apply parse_sources_encode.
Qed.

(** ** Which block a layer of the flat section has *)

(** The entries of a layer's map are records of their own block. *)
Definition recs_map (m : gmap Z BlockLookup) : Prop :=
  forall b l, m !! b = Some l -> bl_StartBlock l = b /\ rec_fits l.

Lemma take_layer_spec m seen :
  let '(bls, seen') := take_layer seen m in
  (forall b, b ∈ seen' <-> b ∈ seen \/ is_Some (m !! b)) /\
  (recs_map m -> Forall rec_fits bls /\ forall b, flat_of bls !! b = if decide (b ∈ seen) then None else m !! b).
Proof.
  unfold take_layer.
  assert (forall l (bls : list BlockLookup) (sn : gset Z), (forall b x, (b, x) ∈ l -> m !! b = Some x) -> NoDup l.*1 ->
    let '(bls', sn') := fold_left (fun (acc : list BlockLookup * gset Z) (p : Z * BlockLookup) =>
      if decide (p.1 ∈ acc.2) then acc else (acc.1 ++ [p.2], {[ p.1 ]} ∪ acc.2)) l (bls, sn) in
    (forall b : Z, b ∈ sn' <-> b ∈ sn \/ b ∈ l.*1) /\
    (recs_map m -> forall b, flat_of bls' !! b =
       if decide (b ∈ sn) then flat_of bls !! b else if decide (b ∈ l.*1) then m !! b else flat_of bls !! b) /\
    (recs_map m -> Forall rec_fits bls -> Forall rec_fits bls')) as H.
  { induction l as [|[k x] l IH]; intros bls sn Hl Hnd; cbn [fold_left].
    { split; [set_solver|]. split; [|done]. intros _ b. destruct (decide _); [done|]. by rewrite decide_False by set_solver. }
    cbn [fmap list_fmap fst snd] in *. apply NoDup_cons in Hnd as [Hk Hnd].
    assert (m !! k = Some x) as Hm by (apply Hl; by left).
    destruct (decide (k ∈ sn)) as [Hin|Hin].
    - specialize (IH bls sn ltac:(intros; apply Hl; by right) Hnd).
      destruct (fold_left _ l _) as [bls' sn']. destruct IH as (H1 & H2 & H3). split; [intros b; rewrite H1; set_solver|].
      split; [|done]. intros Hr b. rewrite H2 by done. destruct (decide (b ∈ sn)); [done|].
      assert (b <> k) by congruence. destruct (decide (b ∈ l.*1)) as [Hb|Hb].
      + by rewrite decide_True by (by right).
      + by rewrite decide_False by set_solver.
    - specialize (IH (bls ++ [x]) ({[k]} ∪ sn) ltac:(intros; apply Hl; by right) Hnd).
      destruct (fold_left _ l _) as [bls' sn']. destruct IH as (H1 & H2 & H3). split; [intros b; rewrite H1; set_solver|].
      split.
      + intros Hr b. rewrite H2 by done. destruct (Hr k x Hm) as [Hkx _]. rewrite flat_of_snoc, Hkx.
        destruct (decide (b = k)) as [->|Hne].
        * rewrite decide_True by set_solver. rewrite (decide_False (P := k ∈ sn)) by done.
          rewrite decide_True by (by left). by rewrite lookup_insert_eq.
        * rewrite lookup_insert_ne by done. destruct (decide (b ∈ sn)).
          -- by rewrite decide_True by set_solver.
          -- rewrite decide_False by set_solver. destruct (decide (b ∈ l.*1)).
             ++ by rewrite decide_True by (by right).
             ++ by rewrite decide_False by set_solver.
      + intros Hr Hf. apply H3; [done|]. apply Forall_app. split; [done|]. constructor; [|done]. by apply (Hr k x). }
  specialize (H (map_to_list m) [] seen). destruct (fold_left _ _ _) as [bls seen'].
  destruct H as (H1 & H2 & H3); [intros b x; by rewrite elem_of_map_to_list|apply NoDup_fst_map_to_list|].
  assert (forall b, b ∈ (map_to_list m).*1 <-> is_Some (m !! b)) as Hd.
  { intros b. rewrite list_elem_of_fmap. split.
    - intros ([k x] & -> & Hkx%elem_of_map_to_list). by exists x.
    - intros [x Hx]. exists (b, x). by rewrite elem_of_map_to_list. }
  split; [intros b; by rewrite H1, Hd|]. intros Hr. split; [by apply H3|]. intros b. rewrite H2 by done.
  destruct (decide (b ∈ seen)); [done|]. destruct (decide (b ∈ (map_to_list m).*1)) as [|Hn]; [done|].
  destruct (m !! b) eqn:E; [|done]. destruct Hn. apply Hd. eauto.
Qed.

(** The ancestors that come back, below the blocks already seen. *)
Lemma take_ancestors_find ancs : forall seen b,
  Forall (fun a => recs_map (anc_blocks a)) ancs ->
  find_ancestor (ancestor_of ∘ layer_of <$> take_ancestors seen ancs) b
  = if decide (b ∈ seen) then None else find_ancestor ancs b.
Proof.
  induction ancs as [|a ancs IH]; intros seen b Hf; [cbn; by destruct (decide _)|].
  apply Forall_cons in Hf as [Ha Hf]. cbn [take_ancestors].
  pose proof (take_layer_spec (anc_blocks a) seen) as Ht. destruct (take_layer seen (anc_blocks a)) as [bls seen'].
  destruct Ht as (Hs & Hb). destruct (Hb Ha) as [_ Hl]. cbn [fmap list_fmap find_ancestor compose ancestor_of layer_of anc_blocks il_Blocks sg_blocks].
  rewrite Hl. destruct (decide (b ∈ seen)) as [Hin|Hin].
  - rewrite IH by done. by rewrite decide_True by (apply Hs; by left).
  - destruct (anc_blocks a !! b) as [l|] eqn:E; [done|]. rewrite IH by done.
    by rewrite decide_False by (rewrite Hs, E; intros [?|[? ?]]; done).
Qed.

Lemma take_ancestors_layers ancs : forall seen,
  anc_layer <$> (ancestor_of ∘ layer_of <$> take_ancestors seen ancs) = anc_layer <$> ancs.
Proof.
  induction ancs as [|a ancs IH]; intros seen; [done|]. cbn [take_ancestors]. destruct (take_layer seen (anc_blocks a)) as [bls seen'].
  cbn [fmap list_fmap]. by rewrite IH.
Qed.

(** ** The own-blocks section *)

Lemma size_flat_of recs : NoDup (bl_StartBlock <$> recs) -> size (flat_of recs) = length recs.
Proof.
  induction recs as [|r recs IH] using rev_ind; [done|]. rewrite fmap_app, NoDup_app. cbn [fmap list_fmap].
  intros (Hnd & Hx & _). rewrite flat_of_snoc, map_size_insert_None; [rewrite IH, length_app by done; cbn; lia|].
  destruct (flat_of recs !! bl_StartBlock r) as [e|] eqn:E; [|done]. exfalso.
  apply (Hx (bl_StartBlock r)); [|by left].
  clear -E. induction recs as [|x recs IH] using rev_ind; [done|]. rewrite flat_of_snoc, lookup_insert_Some in E.
  rewrite fmap_app, elem_of_app. destruct E as [[<- _]|[_ E]]; [right; by left|left; by apply IH].
Qed.

Section own_blocks.
Context (v : VB) (Hv : map_saveable v).

Abbreviation recs := (expand_all (map_to_list (BlocksToObject v)).*2 (blockStride v)).

(** The base map of a clone of [v]. *)
Definition base_of : gmap Z BlockLookup := flat_of recs.

Lemma base_of_lookup b :
  (fun l => (bl_ObjectID l, bl_ObjectOffset l, bl_SeqNum l)) <$> base_of !! b
  = LookupBlockToObject (blockStride v) (BlocksToObject v) b.
Proof.
  destruct Hv as [Hs _ Hm _ _ _]. unfold base_of.
  destruct (flat_of recs !! b) as [e|] eqn:E.
  - apply (flat_of_expand _ Hs _ _ _ _ Hm (order_elem v)) in E as (k & bl & Hk & Hc & ->). symmetry.
    apply lookup_locates; [done..|]. exists k, bl. split; [done|]. split; [done|].
    apply (rec_of_loc (blockStride v) Hs); [by eapply mw_wf|done].
  - destruct (LookupBlockToObject _ _ b) as [l|] eqn:El; [|done]. exfalso.
    apply lookup_locates in El as (k & bl & Hk & Hc & ->); [|done..].
    assert (flat_of recs !! b = Some (rec_of (blockStride v) bl b)) as Hb; [|by rewrite Hb in E].
    apply (flat_of_expand _ Hs _ _ _ _ Hm (order_elem v)). eauto.
Qed.

Lemma base_of_recs : recs_map base_of.
Proof.
  intros b l Hb. pose proof (recs_fit v Hv) as Hf. destruct Hv as [Hs _ Hm _ _ _].
  apply (flat_of_expand _ Hs _ _ _ _ Hm (order_elem v)) in Hb as (k & bl & Hk & Hc & ->). split; [done|].
  rewrite Forall_forall in Hf. apply Hf. apply (expand_all_elem _ Hs _ _ _ Hm (order_elem v)). cbn. eauto.
Qed.

Lemma own_seen_iff b : b ∈ own_seen (BlocksToObject v) <-> is_Some (base_of !! b).
Proof.
  destruct Hv as [Hs _ Hm _ _ _]. unfold own_seen. rewrite elem_of_list_to_set, list_elem_of_In, in_concat.
  assert (forall bl i, (exists k, BlocksToObject v !! k = Some bl) -> 0 <= i < bl_NumBlocks bl ->
    u64 (bl_StartBlock bl + i) = bl_StartBlock bl + i) as Hu.
  { intros bl i [k Hk] Hi. destruct (mw_wf _ _ Hm _ _ Hk). apply u64_small. unfold_widths. wsolve. }
  split.
  - intros (l & Hl & Hb). apply list_elem_of_In in Hl, Hb. apply list_elem_of_fmap in Hl as (bl & -> & Hbl).
    apply (order_elem v) in Hbl. apply list_elem_of_fmap in Hb as (i & -> & Hi%elem_of_seqZ). rewrite Hu by (try done; lia).
    destruct Hbl as [k Hk]. exists (rec_of (blockStride v) bl (bl_StartBlock bl + i)).
    apply (flat_of_expand _ Hs _ _ _ _ Hm (order_elem v)). exists k, bl. split; [done|]. split; [unfold covers; lia|done].
  - intros [e He]. apply (flat_of_expand _ Hs _ _ _ _ Hm (order_elem v)) in He as (k & bl & Hk & Hc & _).
    exists ((fun i => u64 (bl_StartBlock bl + i)) <$> seqZ 0 (bl_NumBlocks bl)). unfold covers in Hc. split; apply list_elem_of_In.
    + apply list_elem_of_fmap. exists bl. split; [done|]. apply (order_elem v). eauto.
    + apply list_elem_of_fmap. exists (b - bl_StartBlock bl). rewrite Hu by (eauto; lia). split; [lia|]. apply elem_of_seqZ. lia.
Qed.

Lemma recs_nodup : NoDup (bl_StartBlock <$> recs).
Proof.
  destruct Hv as [Hs _ Hm _ _ _].
  assert (bl_StartBlock <$> recs = (map_to_list (BlocksToObject v)).*2 ≫= fun bl => bl_StartBlock <$> expandBlockLookup bl (blockStride v)) as ->.
  { unfold expand_all. induction (map_to_list (BlocksToObject v)).*2 as [|bl l IH]; [done|].
    cbn [fmap list_fmap List.concat mbind list_bind]. rewrite fmap_app. by rewrite IH. }
  assert (forall bl b, bl ∈ (map_to_list (BlocksToObject v)).*2 -> b ∈ bl_StartBlock <$> expandBlockLookup bl (blockStride v) -> covers bl b) as Hc.
  { intros bl b Hbl Hb. apply (order_elem v) in Hbl as [k Hk]. apply list_elem_of_fmap in Hb as (e & -> & He).
    apply expand_elem in He as (b & Hb & ->); [done|done|by eapply mw_wf]. }
  apply NoDup_bind.
  - intros x1 x2 y H1 H2 Hy1%Hc Hy2%Hc; [|done..]. apply (order_elem v) in H1 as [k1 H1], H2 as [k2 H2].
    by apply (covers_inj (blockStride v) (BlocksToObject v) k1 k2 x1 x2 y).
  - intros bl Hbl. apply (order_elem v) in Hbl as [k Hk]. destruct (mw_wf _ _ Hm _ _ Hk).
    unfold expandBlockLookup. rewrite <-list_fmap_compose. apply NoDup_fmap_2_strong; [|apply NoDup_seqZ].
    intros i j Hi%elem_of_seqZ Hj%elem_of_seqZ. cbn. unfold_widths. rewrite !u64_small by wsolve. lia.
  - apply NoDup_fmap_2_strong; [|apply NoDup_map_to_list].
    intros [k1 b1] [k2 b2] H1%elem_of_map_to_list H2%elem_of_map_to_list. cbn. intros ->.
    by rewrite <-(mw_key _ _ Hm _ _ H1), <-(mw_key _ _ Hm _ _ H2).
Qed.

Lemma size_base_of : Z.of_nat (size base_of) = Z.of_nat (length recs).
Proof. unfold base_of. by rewrite size_flat_of by apply recs_nodup. Qed.

(** The counter of the snapshot's state does not wrap. *)
Lemma block_count_recs : block_count (BlocksToObject v) = Z.of_nat (length recs).
Proof.
  unfold block_count, expand_all. pose proof (ms_bytes _ Hv) as Hb. unfold expand_all in Hb.
  assert (forall bl, bl ∈ (map_to_list (BlocksToObject v)).*2 -> 0 <= bl_NumBlocks bl /\
    Z.of_nat (length (expandBlockLookup bl (blockStride v))) = bl_NumBlocks bl) as Hlen.
  { intros bl Hbl. apply (order_elem v) in Hbl as [k Hk]. destruct (mw_wf _ _ (ms_wf _ Hv) _ _ Hk).
    split; [lia|]. unfold expandBlockLookup. rewrite length_fmap, length_seqZ. lia. }
  revert Hlen Hb. generalize (map_to_list (BlocksToObject v)).*2. intros l Hlen Hb.
  assert (forall n, 0 <= n -> n + Z.of_nat (length (List.concat ((fun bl => expandBlockLookup bl (blockStride v)) <$> l))) < 2 ^ 32 ->
    fold_left (fun n bl => u64 (n + bl_NumBlocks bl)) l n
    = n + Z.of_nat (length (List.concat ((fun bl => expandBlockLookup bl (blockStride v)) <$> l)))) as H.
  { clear Hb. induction l as [|bl l IH]; intros n Hn Hb; cbn [fold_left fmap list_fmap List.concat] in *; [cbn; lia|].
    destruct (Hlen bl ltac:(by left)) as [H0 H1]. rewrite length_app, Nat2Z.inj_add, H1 in *.
    rewrite u64_small by wsolve. rewrite IH; [lia|intros; apply Hlen; by right|lia..]. }
  rewrite H; lia.
Qed.
End own_blocks.

(** ** A whole snapshot checkpoint *)

(** The inherited layers of a volume, as a flat section can hold them. *)
Record flattenable (v : VB) : Prop := {
  fn_base : forall m, BaseBlockMap v = Some m ->
    recs_map m /\ blen (SourceVolumeUUID v) = 4 /\ blen (sourceVolumeNameHash v) = 32;
  fn_ancs : Forall (fun a => recs_map (anc_blocks a) /\ blen (anc_sourceVolumeUUID a) = 4 /\
                             blen (anc_sourceVolumeNameHash a) = 32) (ancestors v);
  (* ancestors come with a base map *)
  fn_none : BaseBlockMap v = None -> ancestors v = []
}.

Lemma not_clone_flattenable v : BaseBlockMap v = None -> ancestors v = [] -> flattenable v.
Proof. intros E1 E2. constructor; [by rewrite E1|by rewrite E2|done]. Qed.

Lemma ancestors_fit ancs : forall seen,
  Forall (fun a => recs_map (anc_blocks a) /\ blen (anc_sourceVolumeUUID a) = 4 /\ blen (anc_sourceVolumeNameHash a) = 32) ancs ->
  Forall source_fits (take_ancestors seen ancs).
Proof.
  induction ancs as [|a ancs IH]; intros seen Hf; [constructor|]. apply Forall_cons in Hf as [(Hr & Hu & Hh) Hf].
  cbn [take_ancestors]. pose proof (take_layer_spec (anc_blocks a) seen) as Ht. destruct (take_layer seen (anc_blocks a)) as [bls seen'].
  destruct Ht as (_ & Hb). constructor; [|by apply IH]. constructor; [done|done|]. by apply Hb.
Qed.

Lemma sources_fit v base : flattenable v -> BaseBlockMap v = Some base -> Forall source_fits (flat_sources v base).
Proof.
  intros [Hb Ha _] E. destruct (Hb base E) as (Hr & Hu & Hh). unfold flat_sources.
  pose proof (take_layer_spec base (own_seen (BlocksToObject v))) as Ht. destruct (take_layer _ base) as [bls seen'].
  destruct Ht as (_ & Ht). constructor; [|by apply ancestors_fit]. constructor; [done|done|]. by apply Ht.
Qed.

Definition clone_layers (v : VB) : list InheritedLayer :=
  match BaseBlockMap v with
  | None => []
  | Some base => layer_of <$> flat_sources v base
  end.

(** Parsing gives back the volume's own map and the layers below it. *)
Lemma parse_snapshot v v2 snap t ck :
  map_saveable v -> flattenable v -> snapshot_checkpoint v t = Ok ck ->
  Version v2 = Version v -> WALMagic (BlockToObjectWAL v2) = WALMagic (BlockToObjectWAL v) ->
  ss_HasFlatSection snap = bool_decide (BaseBlockMap v <> None) -> ss_BlockCount snap = block_count (BlocksToObject v) ->
  parse_snapshot_checkpoint v2 snap ck = Ok (base_of v, clone_layers v).
Proof.
  intros Hv Hf Hck Hver Hmag Hflat Hcnt. rewrite block_count_recs in Hcnt by done.
  pose proof (recs_fit v Hv) as Hrf. pose proof (ms_magic _ Hv) as [Hm4 Hv16]. pose proof (ms_bytes _ Hv) as Hbytes.
  set (recs := expand_all (map_to_list (BlocksToObject v)).*2 (blockStride v)) in *.
  assert (exists flat, ck = BlockToObjectWALHeader v t ++ List.concat (writeBlockWalChunk <$> recs) ++ flat /\
    (ss_HasFlatSection snap = false -> flat = []) /\
    (if ss_HasFlatSection snap then parseFlatSection flat else Ok []) = Ok (clone_layers v)) as (flat & -> & Hnil & Hpf).
  { unfold snapshot_checkpoint in Hck. unfold clone_layers. destruct (BaseBlockMap v) as [base|] eqn:Eb.
    - rewrite bool_decide_true in Hflat by done. destruct (buildFlatSection v base) as [flat|] eqn:Ef; [|done].
      cbn [rbind] in Hck. exists flat. rewrite <-(Ok_inj _ _ Hck), Hflat. unfold serialize_map. rewrite <-app_assoc.
      split; [done|]. split; [done|]. apply parse_flat_build; [by apply sources_fit|done].
    - rewrite bool_decide_false in Hflat by (intros H; by apply H). exists []. rewrite <-(Ok_inj _ _ Hck), Hflat, app_nil_r. done. }
  clear Hck. set (hd := BlockToObjectWALHeader v t).
  assert (length hd = 14%nat) as Hh.
  { unfold hd, BlockToObjectWALHeader, PutUint64, PutUint16. rewrite !length_app, !length_be_put, Hm4. done. }
  assert (length (List.concat (writeBlockWalChunk <$> recs)) = 34 * length recs)%nat as Hlr by apply length_records.
  set (body := List.concat (writeBlockWalChunk <$> recs)) in *.
  unfold parse_snapshot_checkpoint, blockCheckpointHeaderSize, blockWalChunkSize.
  rewrite (proj2 (Z.ltb_ge _ _)) by (unfold blen; rewrite length_app, Hh; lia).
  assert (slice (hd ++ body ++ flat) 0 4 = WALMagic (BlockToObjectWAL v2)) as ->.
  { unfold hd, BlockToObjectWALHeader. rewrite <-!app_assoc. rewrite slice_app_l by lia. done. }
  assert (be_get (slice (hd ++ body ++ flat) 4 6) = Version v2) as ->.
  { unfold hd, BlockToObjectWALHeader. rewrite <-!app_assoc. rewrite (slice_app_skip (WALMagic _) _ 4) by lia.
    change (4 - 4) with 0. change (6 - 4) with 2. rewrite slice_app_l by apply len2. rewrite Hver. by apply be_get_put2. }
  rewrite bool_decide_true by done. rewrite Z.eqb_refl. cbn [negb]. cbv zeta.
  assert ((MaxInt / 34 <? ss_BlockCount snap) = false) as ->.
  { apply Z.ltb_ge. rewrite Hcnt. assert (2 ^ 32 <= MaxInt / 34) by done. lia. }
  rewrite andb_false_r.
  assert ((if ss_HasFlatSection snap then ss_BlockCount snap * 34 else blen (hd ++ body ++ flat) - 14)
    = Z.of_nat (length recs) * 34) as ->.
  { destruct (ss_HasFlatSection snap); [by rewrite Hcnt|]. rewrite Hnil by done. unfold blen. rewrite !length_app, Hh, Hlr. cbn [length]. lia. }
  rewrite Z.mod_mul, Z.div_mul, Nat2Z.id by lia. cbn [negb Z.eqb].
  rewrite drop_app_length' by (by rewrite Hh). unfold body. rewrite parse_entries_stream by done. cbn [rbind fst snd].
  change (flat_of recs) with (base_of v). rewrite size_base_of by done. fold recs. rewrite Hcnt, Z.eqb_refl. cbn [negb].
  rewrite andb_false_r. by rewrite Hpf.
Qed.

(** ** What a clone inherits *)

(** The fields [OpenFromSnapshot] sets. *)
Definition on_snapshot (v : VB) (id : string) (uuid hash : bytes) (v2 : VB) : VB :=
  v2 <| BaseBlockMap := Some (base_of v) |> <| SourceVolumeName := VolumeName v |> <| SnapshotID := id |>
     <| SourceVolumeUUID := uuid |> <| sourceVolumeNameHash := hash |> <| ancestors := ancestor_of <$> clone_layers v |>.

(** A clone finds a block in the source's own map, or where the source
    inherited it from. *)
Lemma clone_inherited v id uuid hash v2 b :
  map_saveable v -> flattenable v ->
  inherited (on_snapshot v id uuid hash v2) b =
  match LookupBlockToObject (blockStride v) (BlocksToObject v) b with
  | Some l => Some (0%nat, l)
  | None => (fun p => (S p.1, p.2)) <$> inherited v b
  end.
Proof.
  intros Hv [Hb Ha Hn]. unfold inherited at 1, LookupBaseBlockToObject.
  change (BaseBlockMap (on_snapshot v id uuid hash v2)) with (Some (base_of v)).
  change (ancestors (on_snapshot v id uuid hash v2)) with (ancestor_of <$> clone_layers v).
  rewrite <-base_of_lookup by done. destruct (base_of v !! b) as [l|] eqn:E; [done|]. cbn [fmap option_fmap option_map].
  unfold clone_layers, inherited, LookupBaseBlockToObject. destruct (BaseBlockMap v) as [base|].
  - destruct (Hb base eq_refl) as (Hr & _). rewrite <-list_fmap_compose. unfold flat_sources.
    pose proof (take_layer_spec base (own_seen (BlocksToObject v))) as Ht. destruct (take_layer _ base) as [bls seen'].
    destruct Ht as (Hs & Ht). destruct (Ht Hr) as [_ Hl].
    cbn [fmap list_fmap find_ancestor compose ancestor_of layer_of anc_blocks il_Blocks sg_blocks]. rewrite Hl.
    assert (b ∉ own_seen (BlocksToObject v)) as Hno by (rewrite own_seen_iff by done; rewrite E; by intros [? ?]).
    rewrite decide_False by done. destruct (base !! b) as [l|] eqn:Eb; [done|].
    rewrite take_ancestors_find by (eapply Forall_impl; [exact Ha|]; by intros a (? & _)).
    rewrite decide_False by (rewrite Hs, Eb; intros [?|[? ?]]; done).
    by destruct (find_ancestor (ancestors v) b) as [[i l]|].
  - by rewrite Hn.
Qed.

Lemma clone_inh_layers v id uuid hash v2 :
  inh_layers (on_snapshot v id uuid hash v2)
  = mkLy (VolumeName v) uuid hash :: match BaseBlockMap v with None => [] | Some _ => inh_layers v end.
Proof.
  unfold inh_layers at 1. change (ancestors (on_snapshot v id uuid hash v2)) with (ancestor_of <$> clone_layers v).
  f_equal. unfold clone_layers. destruct (BaseBlockMap v) as [base|]; [|done]. unfold flat_sources, inh_layers.
  destruct (take_layer _ base) as [bls seen']. cbn [fmap list_fmap]. f_equal.
  rewrite <-(take_ancestors_layers (ancestors v) seen'). by rewrite <-!list_fmap_compose.
Qed.
