(* ===== verification/Backends.v ===== *)
(** * The backends against the engine's object store

    The claims on the file and S3 backends: both implement the interface the
    engine is verified against. *)

From S2P Require Import Prelude Words BlockMap BlockStore Crypto Paths Volume ObjectStore.
From Stdlib Require Import Strings.Byte.
From S2P Require Import FileBackend FileBackendFacts S3Backend S3BackendFacts Instances.

(** ** Properties *)

(** C11. The file backend refines the object store the engine is verified
    against: whatever the file system does (any system call may fail, writes
    may be partial), any sequence of valid calls answers as that store under
    some plan of outcomes, and the files below the base directory are its
    objects. *)
Theorem file_backend_refines c v ops fs objs rs fs' :
  VolumeName v = fc_VolumeName c -> bk_repr (BackendImpl := file_backend c) fs objs ->
  runs_valid (H := file_backend c) ops fs -> bk_runs (H := file_backend c) ops fs = (rs, fs') ->
  exists p objs', length p = length ops /\ spec_runs v ops p objs = (rs, objs')
    /\ bk_repr (BackendImpl := file_backend c) fs' objs'.
Proof. intros Hv. by apply (backend_runs_refine (H := file_backend c)). Qed.

Definition sample_config : FileConfig := mkFileConfig "v" 0 "/data".
Definition sample_fs : fsys :=
  mkFsys ∅ {["/data"; "/data/v"; "/data/v/chunks"]} 0
    [None; None; None; None; None; None; None; None; Some (ENOSPC, 1%nat)].
Definition sample_calls : list bk_op :=
  [BkWrite FileTypeChunk 7 [x01] [x02; x03]; BkRead FileTypeChunk 7 1 2;
   BkWriteTo "v" FileTypeChunk 8 [] [x04; x05; x06]].
Abbreviation sample_run := (bk_runs (H := file_backend sample_config) sample_calls sample_fs).

Lemma file_backend_refines_witness :
  sample_run.1 = [Ok []; Ok [x02; x03]; Err [ErrNoSpace]]
  /\ exists p objs', length p = length sample_calls
    /\ spec_runs toy_vb sample_calls p ∅ = (sample_run.1, objs')
    /\ bk_repr (BackendImpl := file_backend sample_config) sample_run.2 objs'.
Proof.
  split; [vm_compute; reflexivity|].
  apply (file_backend_refines sample_config toy_vb sample_calls sample_fs ∅); [done| | |apply surjective_pairing].
  - intros k. by rewrite !lookup_empty.
  - unfold sample_calls. cbn -[file_run file_fit file_repr op_valid].
    unfold file_fit. split; [apply (bool_decide_unpack _); vm_compute; exact I|].
    split; [exact (fun _ _ => I)|]. split; [apply (bool_decide_unpack _); vm_compute; exact I|].
    split; [|split; [apply (bool_decide_unpack _); vm_compute; exact I|exact (conj (fun _ _ => I) I)]].
    intros objs Hr. unfold op_valid. split; [by vm_compute|]. split; [by vm_compute|].
    split; [by vm_compute|]. split; [discriminate|]. intros d Hd.
    rewrite (Hr _) in Hd. vm_compute in Hd. injection Hd as <-. by vm_compute.
Defined.

(** [Init] on a healthy file system makes every directory the volume
    needs: every object can then be written, and a read of the whole object
    returns exactly the headers and data that were written. *)
Theorem Init_Write_Read c fs t id h d :
  healthy c fs -> fc_BaseDir c <> EmptyString -> 0 <= id -> blen (h ++ d) <= MaxUint32 ->
  exists fs1 fs2 fs3, file_Init c fs = (Ok tt, fs1)
    /\ file_Write_object c t id h d fs1 = (Ok tt, fs2)
    /\ file_Read c t id 0 0 fs2 = (Ok (h ++ d), fs3)
    /\ fs_open fs3 = fs_open fs.
Proof.
  intros [Hp Hb Hc Ho] Hne Hid Hlen. eexists _, _, _. split_and!.
  - unfold file_Init, os_Stat, syscall. rewrite Hp, bool_decide_true by done.
    rewrite <-(make_dirs_calm fs (init_paths c)) by auto.
    destruct (fs_files fs !! fc_BaseDir c); reflexivity.
  - set (p := object_path c (fc_VolumeName c) t id).
    unfold file_Write_object, os_Create, syscall. cbn [with_dirs fs_plan fs_files fs_dirs]. fold p.
    rewrite Hp. rewrite bool_decide_false; [rewrite bool_decide_true|].
    + rewrite !Write_calm, Close_calm by done. cbn. rewrite lookup_insert_eq. cbn.
      rewrite !insert_insert_eq, lookup_insert_eq. reflexivity.
    + unfold p. rewrite object_parent by done. apply elem_of_union_r, elem_of_list_to_set.
      apply list_elem_of_join. exists (path_ancestors (root_dir c +:+ object_dir t)). split; [apply path_self|].
      apply list_elem_of_fmap. eexists. split; [done|]. apply object_dir_made.
    + intros [Hd|Hd]%elem_of_union; [by apply (Ho t id)|]. apply elem_of_list_to_set in Hd.
      revert Hd. intros (l & Hin & (q & -> & Hq)%list_elem_of_fmap)%list_elem_of_join.
      by apply (object_not_dir c q t id Hq).
  - apply whole_read; [done| |exact Hlen]. cbn. apply lookup_insert_eq.
  - cbn. lia.
Qed.

Lemma Init_Write_Read_witness :
  exists fs1 fs2 fs3, file_Init sample_config (mkFsys ∅ {["/data"]} 0 []) = (Ok tt, fs1)
    /\ file_Write_object sample_config FileTypeChunk 7 [x01] [x02] fs1 = (Ok tt, fs2)
    /\ file_Read sample_config FileTypeChunk 7 0 0 fs2 = (Ok ([x01] ++ [x02]), fs3)
    /\ fs_open fs3 = 0.
Proof.
  apply (Init_Write_Read sample_config (mkFsys ∅ {["/data"]} 0 []) FileTypeChunk 7 [x01] [x02]);
    [|done|done|done].
  split; cbn; [done|set_solver|by intros; rewrite lookup_empty|].
  intros t id [=]%elem_of_singleton.
Defined.

(** Descriptors: every call of the file backend closes what it opens,
    whatever fails, except [Write], which returns with its descriptor still
    open when writing the headers or the data fails; a full disk does that. *)
Theorem descriptors_released :
  (forall c op fs,
     fs_open (file_run c op fs).2 = fs_open fs \/
     exists t id h d e, op = BkWrite t id h d /\ (file_run c op fs).1 = Err e
       /\ fs_open (file_run c op fs).2 = fs_open fs + 1)
  /\ exists t id h d fs,
       (file_run sample_config (BkWrite t id h d) fs).1 = Err [ErrNoSpace]
       /\ fs_open (file_run sample_config (BkWrite t id h d) fs).2 = fs_open fs + 1.
Proof.
  split.
  - intros c op fs. destruct op as [t id off len|vol t id off len|t id h d|vol t id h d|t id];
      cbn [file_run].
    + left. apply ReadFrom_open.
    + left. apply ReadFrom_open.
    + pose proof (Write_object_open c t id h d fs) as H.
      destruct (file_Write_object c t id h d fs) as [[[]|e] fs']; cbn in *; [by left|].
      destruct H as [H|H]; [by left|]. right. by eexists _, _, _, _, _.
    + left. pose proof (WriteTo_open c vol t id h d fs) as H.
      by destruct (file_WriteTo _ _ _ _ _ _ _) as [[[]|e] fs'].
    + left. pose proof (Delete_open c t id fs) as H.
      by destruct (file_Delete _ _ _ _) as [[[]|e] fs'].
  - exists FileTypeChunk, 7, [x01], [x02; x03],
      (mkFsys ∅ {["/data/v/chunks"]} 0 [None; None; Some (ENOSPC, 1%nat)]).
    split; vm_compute; reflexivity.
Qed.

(** ** The S3 backend *)

(** C12. The S3 backend refines the engine's object store over any client that
    keeps the documented laws of S3: any sequence of valid calls answers as
    that store under some plan of outcomes, errors and ambiguous writes
    included. *)
Theorem s3_backend_refines {S} (sdk : s3_client S) stored (L : S3Laws sdk stored) c v ops s objs rs s' :
  VolumeName v = s3_VolumeName c ->
  bk_repr (BackendImpl := s3_backend sdk stored c) s objs ->
  runs_valid (H := s3_backend sdk stored c) ops s ->
  bk_runs (H := s3_backend sdk stored c) ops s = (rs, s') ->
  exists p objs', length p = length ops /\ spec_runs v ops p objs = (rs, objs')
    /\ bk_repr (BackendImpl := s3_backend sdk stored c) s' objs'.
Proof. intros Hv. by apply (backend_runs_refine (H := s3_backend sdk stored c)). Qed.

Definition sample_s3 : S3Config := mkS3Config "v" "r" "b" "h" true.
Definition sample_bucket : s3_state (gmap string bytes) := mkS3State ∅ false.
Definition s3_calls : list bk_op :=
  [BkWrite FileTypeChunk 7 [x01] [x02; x03]; BkRead FileTypeChunk 7 1 2; BkRead FileTypeChunk 7 1 3;
   BkReadFrom "v" FileTypeChunk 7 1 3; BkDelete FileTypeChunk 8].
Abbreviation s3_sample_run :=
  (bk_runs (H := s3_backend mem_s3 (fun _ m => m) sample_s3) s3_calls sample_bucket).

Lemma s3_backend_refines_witness :
  s3_sample_run.1 = [Ok []; Ok [x02; x03]; Err [ErrShortRead]; Ok [x02; x03]; Err [ErrNotExist]]
  /\ exists p objs', length p = length s3_calls
    /\ spec_runs toy_vb s3_calls p ∅ = (s3_sample_run.1, objs')
    /\ bk_repr (BackendImpl := s3_backend mem_s3 (fun _ m => m) sample_s3) s3_sample_run.2 objs'.
Proof.
  split; [vm_compute; reflexivity|].
  apply (s3_backend_refines mem_s3 (fun _ m => m) mem_s3_laws sample_s3 toy_vb s3_calls sample_bucket ∅);
    [done|done| |apply surjective_pairing].
  unfold s3_calls. cbn -[s3_run op_valid].
  split; [exact I|]. split; [exact (fun _ _ => I)|].
  do 3 (split; [exact I|]; split;
        [ intros objs <-; unfold op_valid; split; [by vm_compute|]; split; [by vm_compute|];
          split; [by vm_compute|]; split; [discriminate|]; intros d Hd; vm_compute in Hd;
          injection Hd as <-; by vm_compute | ]).
  split; [exact I|]. exact (conj (fun _ _ => I) I).
Defined.

(** C34. A listing collects every page: when the server answers a listing with
    a chain of pages, [ListObjects] terminates within as many rounds as there
    are pages and returns the keys of all of them, in order. *)
Theorem s3_listing_complete {S} (sdk : s3_client S) c prefix s pgs s' fuel :
  s3_initialized c = true ->
  answers sdk (s3_Bucket c) prefix None None (server s) pgs s' -> (length pgs <= fuel)%nat ->
  s3_ListObjects sdk fuel c prefix s
  = Some (Ok (mjoin (page_keys <$> pgs)), mkS3State s' (backendNearFull s)).
Proof.
  intros Hi H Hf. unfold s3_ListObjects, s3_list. rewrite Hi. cbn [negb].
  by rewrite (list_pages_all _ _ _ _ page_keys _ _ _ _ [] fuel H Hf).
Qed.

(** A server that answers a listing in two pages. *)
Definition first_page : list_page := mkPage [Some "v/a"; None; Some "v/b"] [] (Some true) (Some "t").
Definition second_page : list_page := mkPage [Some "v/c"] [] (Some false) None.
Definition paged_s3 : s3_client unit := mkClient
  (fun _ _ _ s => (Err no_such_key, s)) (fun _ _ _ s => (Err no_such_key, [], s))
  (fun _ _ s => (Err no_such_key, s))
  (fun _ _ _ token s => (Ok (match token with None => first_page | Some _ => second_page end), s)).

Lemma s3_listing_complete_witness :
  s3_ListObjects paged_s3 2 sample_s3 "v/" (mkS3State tt true)
  = Some (Ok ["v/a"; "v/b"; "v/c"], mkS3State tt true).
Proof.
  apply (s3_listing_complete paged_s3 sample_s3 "v/" (mkS3State tt true) [first_page; second_page] tt 2);
    [done| |cbn; lia].
  eapply answer_more; [done|done|]. by apply answer_last.
Defined.

(** The two reads disagree at the end of an object: for a range that runs
    past it, the server's clamped answer is refused by [Read] but handed to
    the caller by [ReadFrom] as a short success. *)
Theorem s3_ReadFrom_accepts_short : exists s d,
  (s3_Read mem_s3 sample_s3 FileTypeChunk 7 1 3 s).1 = Err [ErrShortRead]
  /\ (s3_ReadFrom mem_s3 sample_s3 "v" FileTypeChunk 7 1 3 s).1 = Ok d /\ blen d = 2.
Proof.
  exists (mkS3State {["v/chunks/chunk.00000007.bin" := [x01; x02; x03]]} false), [x02; x03].
  vm_compute. done.
Qed.
