(* ===== verification/WALFacts.v ===== *)
(** * The write-ahead log: records, recovery, torn writes *)

From S2P Require Import Prelude Words BlockStore Crypto Paths Volume WAL SeqNum SeqNumFacts Instances.

(** ** Records *)

(** A block as the engine writes it: one block of data, widths respected. The
    [Offset] field is not stored. *)
Record wal_block (bs : Z) (b : Block) : Prop := {
  wb_seq : in_u64 (b_SeqNum b);
  wb_block : in_u64 (b_Block b);
  wb_len : in_u64 (b_Len b);
  wb_off : b_Offset b = 0;
  wb_data : blen (b_Data b) = bs
}.

Lemma length_record_header b : Z.of_nat (length (record_header b)) = 24.
Proof. unfold record_header. rewrite !length_app, !Nat2Z.inj_add, !len8. done. Qed.

Lemma decode_header_app b rest :
  in_u64 (b_SeqNum b) -> in_u64 (b_Block b) -> in_u64 (b_Len b) ->
  decode_header (record_header b ++ rest) = (b_SeqNum b, b_Block b, b_Len b).
Proof.
  intros. unfold decode_header, record_header. rewrite <-!app_assoc. field_slice.
  by rewrite !be_get_put8.
Qed.

Lemma block_eta b bs : wal_block bs b -> mkBlock (b_Data b) (b_SeqNum b) (b_Block b) 0 (b_Len b) = b.
Proof. intros []. destruct b; cbn in *; by subst. Qed.

Lemma decode_plain_record bs b : wal_block bs b -> decode_plain (plain_record b) = Some b.
Proof.
  intros Hb. pose proof Hb as [? ? ? ? ?]. unfold decode_plain, plain_record.
  set (crc := crc32_update _ (b_Data b)).
  assert (in_u32 crc) as Hc by (apply crc32_update_range, ChecksumIEEE_range).
  pose proof (length_record_header b) as Hh.
  rewrite (slice_app_skip (record_header b) _ 24 24 28) by lia. change (24 - 24) with 0. change (28 - 24) with 4.
  rewrite (slice_app_l (PutUint32 crc)) by apply len4. rewrite be_get_put4 by done.
  rewrite (slice_app_l (record_header b)) by done.
  replace (drop 28 (record_header b ++ PutUint32 crc ++ b_Data b)) with (b_Data b).
  2:{ rewrite app_assoc, drop_app_length'; [done|]. rewrite length_app. pose proof (len4 crc). lia. }
  fold crc. rewrite decode_header_app by done. rewrite Z.eqb_refl. by rewrite (block_eta b bs).
Qed.

Lemma length_plain_record bs b : wal_block bs b -> Z.of_nat (length (plain_record b)) = 28 + bs.
Proof.
  intros []. unfold plain_record. rewrite !length_app, !Nat2Z.inj_add, length_record_header, len4.
  unfold blen in *. lia.
Qed.

Section sealed.
Context {A : AEAD} (HA : AEADLaws A) (v : VB).

Lemma decode_sealed_record bs b : wal_block bs b -> decode_sealed v (sealed_record v b) = Some b.
Proof.
  intros Hb. pose proof Hb as [? ? ? ? ?]. unfold decode_sealed, sealed_record.
  rewrite decode_header_app by done.
  rewrite drop_app_length' by (pose proof (length_record_header b); lia).
  rewrite open_seal. by rewrite (block_eta b bs).
Qed.

Lemma length_sealed_record bs b : wal_block bs b -> Z.of_nat (length (sealed_record v b)) = 40 + bs.
Proof.
  intros []. unfold sealed_record. rewrite length_app, Nat2Z.inj_add, length_record_header.
  match goal with |- context [Seal ?n ?p ?a] => pose proof (seal_length n p a) as Hl end.
  unfold blen in *. rewrite overhead_gcm in Hl. lia.
Qed.

(** Both layouts. *)
Lemma length_wal_record b : wal_block (BlockSize v) b -> Z.of_nat (length (wal_record v b)) = record_size v.
Proof.
  intros. unfold wal_record, record_size. destruct (EncryptionEnabled v).
  - by apply length_sealed_record.
  - by apply length_plain_record.
Qed.

(** ** Recovery *)

Definition records (bs : list Block) : bytes := List.concat (wal_record v <$> bs).

Lemma records_cons b bs : records (b :: bs) = wal_record v b ++ records bs.
Proof. done. Qed.

Section recover.
Context (Hv : 0 < BlockSize v).

Lemma record_size_pos : 28 <= record_size v.
Proof. unfold record_size. destruct (EncryptionEnabled v); lia. Qed.

(** The first record of a log starts with a whole record. *)
Lemma take_record b rest :
  wal_block (BlockSize v) b ->
  take (Z.to_nat (record_size v)) (wal_record v b ++ rest) = wal_record v b /\
  drop (Z.to_nat (record_size v)) (wal_record v b ++ rest) = rest.
Proof.
  intros Hb. pose proof (length_wal_record b Hb).
  rewrite take_app_length', drop_app_length' by lia. done.
Qed.

Lemma length_records_wal bs :
  Forall (wal_block (BlockSize v)) bs -> Z.of_nat (length (records bs)) = Z.of_nat (length bs) * record_size v.
Proof.
  induction 1 as [|b bs Hb _ IH]; [done|].
  rewrite records_cons, length_app, Nat2Z.inj_add, IH, length_wal_record by done. cbn [length]. lia.
Qed.

Lemma fuel_enough (bs : list Block) rest :
  Forall (wal_block (BlockSize v)) bs -> (length bs <= length (records bs ++ rest))%nat.
Proof.
  intros Hf. pose proof (length_records_wal bs Hf). pose proof record_size_pos.
  rewrite length_app. nia.
Qed.

Lemma recover_plain_app bs torn fuel :
  EncryptionEnabled v = false -> Forall (wal_block (BlockSize v)) bs ->
  (length bs < fuel)%nat -> blen torn < record_size v ->
  recover_plain fuel (record_size v) (records bs ++ torn) = bs.
Proof.
  intros He Hf. revert fuel. induction Hf as [|b bs Hb Hf IH]; intros [|fuel] Hfu Ht; cbn [length] in *; try lia.
  - cbn [recover_plain records fmap list_fmap List.concat app].
    destruct (Z.ltb_spec (blen (take (Z.to_nat (record_size v)) torn)) (record_size v)) as [|Hge]; [done|].
    unfold blen in *. rewrite length_take in Hge. lia.
  - rewrite records_cons, <-app_assoc. cbn [recover_plain].
    destruct (take_record b (records bs ++ torn) Hb) as [-> ->].
    unfold blen at 1. rewrite length_wal_record by done.
    destruct (Z.ltb_spec (record_size v) (record_size v)); [lia|].
    unfold wal_record at 1. rewrite He, (decode_plain_record (BlockSize v)) by done. f_equal. apply IH; [lia|done].
Qed.

Lemma recover_sealed_app bs torn fuel :
  EncryptionEnabled v = true -> Forall (wal_block (BlockSize v)) bs ->
  (length bs < fuel)%nat -> blen torn < record_size v ->
  recover_sealed fuel v (record_size v) (records bs ++ torn) = Ok bs.
Proof.
  intros He Hf. revert fuel. induction Hf as [|b bs Hb Hf IH]; intros [|fuel] Hfu Ht; cbn [length] in *; try lia.
  - cbn [recover_sealed records fmap list_fmap List.concat app].
    destruct (Z.ltb_spec (blen (take (Z.to_nat (record_size v)) torn)) (record_size v)) as [|Hge]; [done|].
    unfold blen in *. rewrite length_take in Hge. lia.
  - rewrite records_cons, <-app_assoc. cbn [recover_sealed].
    destruct (take_record b (records bs ++ torn) Hb) as [-> ->].
    unfold blen at 1. rewrite length_wal_record by done.
    destruct (Z.ltb_spec (record_size v) (record_size v)); [lia|].
    unfold wal_record at 1. rewrite He, (decode_sealed_record (BlockSize v)) by done.
    by rewrite (IH fuel) by (try lia; done).
Qed.

(** ** A whole segment *)

Definition header_ok : Prop :=
  length (WALMagic (vb_WAL v)) = 4%nat /\ in_u16 (Version v) /\ in_u32 (BlockSize v).

Lemma length_WALHeader t : header_ok -> Z.of_nat (length (WALHeader v t)) = WALHeaderSize.
Proof.
  intros (Hm & _). unfold WALHeader. rewrite !length_app, !Nat2Z.inj_add, len2, len4, len8, Hm. done.
Qed.

Lemma check_header t : header_ok ->
  check_magic v (WALHeader v t) = Ok tt /\ be_get (slice (WALHeader v t) 6 10) = BlockSize v.
Proof.
  intros (Hm & Hver & Hbs). unfold check_magic, WALHeader.
  rewrite slice_app_l by lia. rewrite bool_decide_eq_true_2 by done. cbn [negb].
  rewrite !(slice_app_skip (WALMagic _) _ 4) by lia.
  change (4 - 4) with 0. change (6 - 4) with 2. change (10 - 4) with 6.
  rewrite slice_app_l by apply len2. rewrite be_get_put2, Z.eqb_refl by done. cbn [negb].
  rewrite (slice_app_skip (PutUint16 _) _ 2) by (rewrite ?len2; lia).
  change (2 - 2) with 0. change (6 - 2) with 4.
  rewrite slice_app_l by apply len4. by rewrite be_get_put4.
Qed.

(** Recovery of a segment with a torn tail returns the blocks before it. *)
Lemma recovered_segment t bs torn :
  header_ok -> Forall (wal_block (BlockSize v)) bs -> blen torn < record_size v ->
  recovered_blocks v (WALHeader v t ++ records bs ++ torn) = Ok bs.
Proof.
  intros Hh Hf Ht. pose proof (length_WALHeader t Hh) as Hl. destruct (check_header t Hh) as [Hc Hb].
  unfold recovered_blocks, blen at 1. rewrite length_app.
  destruct (Z.ltb_spec (Z.of_nat (length (WALHeader v t) + length (records bs ++ torn))) WALHeaderSize); [lia|].
  rewrite slice_app_l by done. rewrite Hc. cbn [rbind]. rewrite Hb, Z.eqb_refl. cbn [negb].
  rewrite drop_app_length' by lia.
  pose proof (fuel_enough bs torn Hf) as Hfuel.
  destruct (EncryptionEnabled v) eqn:He.
  - apply recover_sealed_app; [done|done| |done]. lia.
  - f_equal. apply recover_plain_app; [done|done| |done]. lia.
Qed.

(** Consolidation of an undamaged segment returns all of its blocks. *)
Lemma chunk_read_plain_records bs fuel :
  EncryptionEnabled v = false -> Forall (wal_block (BlockSize v)) bs -> (length bs <= fuel)%nat ->
  chunk_read_plain fuel (record_size v) (records bs) = Ok bs.
Proof.
  intros He Hf. revert fuel. induction Hf as [|b bs Hb Hf IH]; intros [|fuel] Hfu; cbn [length] in *; try lia; try done.
  rewrite records_cons. cbn [chunk_read_plain]. pose proof (length_wal_record b Hb) as Hl.
  destruct (wal_record v b ++ records bs) as [|x l] eqn:E.
  { apply (f_equal length) in E. rewrite length_app in E. cbn [length] in E. pose proof record_size_pos. lia. }
  rewrite <-E. destruct (take_record b (records bs) Hb) as [-> ->].
  unfold blen. rewrite Hl, Z.sub_diag. unfold zeros. cbn [Z.to_nat replicate]. rewrite app_nil_r.
  unfold wal_record at 1. rewrite He, (decode_plain_record (BlockSize v)) by done.
  by rewrite (IH fuel) by lia.
Qed.

Lemma chunk_read_sealed_records bs fuel :
  EncryptionEnabled v = true -> Forall (wal_block (BlockSize v)) bs -> (length bs <= fuel)%nat ->
  chunk_read_sealed fuel v (record_size v) (records bs) = Ok bs.
Proof.
  intros He Hf. revert fuel. induction Hf as [|b bs Hb Hf IH]; intros [|fuel] Hfu; cbn [length] in *; try lia; try done.
  rewrite records_cons. cbn [chunk_read_sealed]. pose proof (length_wal_record b Hb) as Hl.
  destruct (wal_record v b ++ records bs) as [|x l] eqn:E.
  { apply (f_equal length) in E. rewrite length_app in E. cbn [length] in E. pose proof record_size_pos. lia. }
  rewrite <-E. destruct (take_record b (records bs) Hb) as [-> ->].
  unfold blen. rewrite Hl. destruct (Z.ltb_spec (record_size v) (record_size v)); [lia|].
  unfold wal_record at 1. rewrite He, (decode_sealed_record (BlockSize v)) by done.
  by rewrite (IH fuel) by lia.
Qed.

Lemma consolidated_segment t bs :
  header_ok -> Forall (wal_block (BlockSize v)) bs ->
  consolidated_blocks v (WALHeader v t ++ records bs) = Ok bs.
Proof.
  intros Hh Hf. pose proof (length_WALHeader t Hh) as Hl. destruct (check_header t Hh) as [Hc Hb].
  unfold consolidated_blocks.
  destruct (WALHeader v t ++ records bs) as [|x l] eqn:E.
  { apply (f_equal length) in E. rewrite length_app in E. cbn [length] in E. unfold WALHeaderSize in Hl. lia. }
  rewrite <-E. rewrite slice_app_l by done. unfold blen. rewrite Hl, Z.sub_diag.
  unfold zeros. cbn [Z.to_nat replicate]. rewrite app_nil_r, Hc. cbn [rbind].
  rewrite drop_app_length' by lia.
  pose proof (fuel_enough bs [] Hf) as Hfuel. rewrite app_nil_r in Hfuel.
  destruct (EncryptionEnabled v) eqn:He.
  - by apply chunk_read_sealed_records.
  - by apply chunk_read_plain_records.
Qed.
End recover.
End sealed.

(** ** Appending *)

Section append.
Context {A : AEAD}.

Lemma post_file_size n s Q :
  (forall r s', quiet s s' -> (forall z, r = Ok z -> z = blen (default [] (files (world s) !! n))) -> Q r s') ->
  post (file_size n) s Q.
Proof.
  intros H. unfold file_size. apply post_bind, post_next. intros o s' Hq. cbn beta iota.
  apply post_bind, post_get_file. cbn beta iota. pose proof Hq as (_ & Ef & _).
  destruct o; mgo; apply H; try done; intros ? [= <-]; by rewrite Ef.
Qed.

Lemma post_file_truncate n k s Q :
  (forall err s', quiet s s' -> is_Some err -> Q (Ok err) s') ->
  (forall s', quiet s s' ->
    Q (Ok None) (mkSt (vb s') (with_files <[n := take (Z.to_nat k) (default [] (files (world s) !! n))]> (world s')))) ->
  post (file_truncate n k) s Q.
Proof.
  intros H1 H2. unfold file_truncate. apply post_bind, post_next. intros o s' Hq. cbn beta iota.
  apply post_bind, post_get_file. cbn beta iota. pose proof Hq as (_ & Ef & _). rewrite Ef.
  destruct o; mgo; [by apply H2|apply H1; eauto|by apply H2].
Qed.

(** The bytes of the segment and everything else after one append. *)
Record append_result (name : string) (rec : bytes) (s : St) (r : result error unit) (s' : St) : Prop := {
  ar_vb : vb s' = vb s \/ vb s' = set_wal_dirty true (vb s);
  ar_objects : objects (world s') = objects (world s);
  ar_others : forall f, f <> name -> files (world s') !! f = files (world s) !! f;
  ar_ok : r = Ok tt -> files (world s') !! name = Some (default [] (files (world s) !! name) ++ rec);
  ar_err : forall e, r = Err e -> exists k,
    default [] (files (world s') !! name) = default [] (files (world s) !! name) ++ take k rec
}.

Lemma WriteWAL_append b name s :
  last (DB (vb_WAL (vb s))) = Some name ->
  post (WriteWAL b) s (append_result name (wal_record (vb s) b) s).
Proof.
  intros Hl. unfold WriteWAL. mgo. cbn zeta. rewrite Hl. destruct (wal_closed (vb_WAL (vb s))).
  { mgo. constructor; auto; [done|]. intros e _. exists 0%nat. by rewrite app_nil_r. }
  mgo. apply post_file_size. intros r s1 Hq1 Hsz. destruct r as [z|e]; cbn beta iota.
  2:{ destruct Hq1 as (Ev & Ef & Eo). constructor; rewrite ?Ev, ?Ef, ?Eo; auto; [done|].
      intros e' _. exists 0%nat. by rewrite app_nil_r. }
  specialize (Hsz z eq_refl). mgo. destruct Hq1 as (Ev1 & Ef1 & Eo1).
  match goal with Hq : quiet s1 ?s2 |- _ => destruct Hq as (Ev2 & Ef2 & Eo2) end.
  rewrite Ev2, Ev1 in *. rewrite Ef2, Ef1 in *.
  set (old := default [] (files (world s) !! name)) in *.
  destruct (bool_decide (err = None) && (blen (take k (wal_record (vb s) b)) =? blen (wal_record (vb s) b))) eqn:Eok.
  - apply andb_true_iff in Eok as [En _]. apply bool_decide_eq_true in En as ->. mgo.
    constructor; cbn; rewrite ?Ef2, ?Ef1, ?Eo2, ?Eo1; auto.
    + intros f Hf. by rewrite lookup_insert_ne by done.
    + intros _. rewrite lookup_insert_eq. by rewrite H0.
    + done.
  - mgo. apply post_file_truncate.
    + intros terr s3 (Ev3 & Ef3 & Eo3) [e ->]. mgo. cbn in *.
      constructor; rewrite ?Ev3, ?Ef3, ?Eo3; cbn; rewrite ?Ef2, ?Ef1, ?Eo2, ?Eo1; auto.
      * intros f Hf. by rewrite lookup_insert_ne by done.
      * done.
      * intros e' _. exists k. by rewrite lookup_insert_eq.
    + intros s3 (Ev3 & Ef3 & Eo3). mgo. cbn in *. rewrite ?Ef2, lookup_insert_eq. cbn [default from_option].
      constructor; cbn; rewrite ?Ev3, ?Ef3, ?Eo3; cbn; rewrite ?Ef2, ?Ef1, ?Eo2, ?Eo1; auto.
      * intros f Hf. by rewrite !lookup_insert_ne by done.
      * done.
      * intros e' _. exists 0%nat. rewrite lookup_insert_eq. cbn.
        rewrite app_nil_r, Hsz. unfold id, blen. rewrite Nat2Z.id. by rewrite take_app_length.
Qed.
End append.

(** ** Scanning *)

Lemma scan_step fuel bs b rest : 0 < bs <= max_alloc -> wal_block bs b -> b_Len b = bs ->
  scan_wal (S fuel) (plain_record b ++ rest) = scan_wal fuel rest.
Proof.
  intros Hbs Hb Hlen. pose proof Hb as [? ? ? ? Hd]. unfold plain_record. set (crc := crc32_update _ (b_Data b)).
  assert (in_u32 crc) as Hc by (apply crc32_update_range, ChecksumIEEE_range).
  pose proof (length_record_header b) as Hh. pose proof (len4 crc) as H4.
  set (hd := record_header b ++ PutUint32 crc).
  assert (length hd = 28%nat) as H28 by (unfold hd; rewrite length_app; lia).
  rewrite app_assoc. fold hd. rewrite <-app_assoc.
  cbn [scan_wal]. destruct (hd ++ b_Data b ++ rest) as [|x l] eqn:E.
  { apply (f_equal length) in E. rewrite length_app, H28 in E. done. }
  rewrite <-E, take_app_length', drop_app_length' by done. clear E x l.
  assert (zeros (28 - blen hd) = []) as -> by (unfold blen; by rewrite H28). rewrite app_nil_r. cbn zeta.
  assert (be_get (slice hd 16 24) = bs) as Hl.
  { unfold hd. rewrite <-Hlen. pose proof (decode_header_app b (PutUint32 crc)) as Hx. unfold decode_header in Hx. by injection (Hx ltac:(done) ltac:(done) ltac:(done)). }
  rewrite Hl. destruct (Z.ltb_spec max_alloc bs); [lia|].
  assert (bs < MaxInt) by (unfold max_alloc in *; unfold_widths; lia).
  assert (Z.min bs (blen (b_Data b ++ rest)) = bs) as -> by (unfold blen in *; rewrite length_app; lia).
  rewrite slice_app_l by (unfold blen in Hd; lia).
  rewrite Hd, SafeUint64ToInt_small by lia. rewrite Z.eqb_refl. cbn [negb].
  unfold hd. rewrite (slice_app_l (record_header b)) by done.
  rewrite (slice_app_skip (record_header b) _ 24 24 28) by lia.
  rewrite (slice_all (PutUint32 crc)) by lia. rewrite be_get_put4 by done. fold crc. rewrite Z.eqb_refl.
  by rewrite drop_app_length.
Qed.

(** [ReadWAL] accepts every run of whole unencrypted records. *)
Lemma scan_records bs l : forall fuel, 0 < bs <= max_alloc ->
  Forall (fun b => wal_block bs b /\ b_Len b = bs) l -> (length l <= fuel)%nat ->
  scan_wal fuel (List.concat (plain_record <$> l)) = Ok tt.
Proof.
  induction l as [|b l IH]; intros fuel Hbs Hf Hl; [by destruct fuel|].
  destruct fuel as [|fuel]; cbn [length] in Hl; [lia|]. apply Forall_cons in Hf as [[Hb Hlen] Hf].
  cbn [fmap list_fmap List.concat]. rewrite (scan_step fuel bs) by done. apply IH; [done|done|lia].
Qed.
