(* ===== verification/VolInv.v ===== *)
(** * The invariant of an open volume

    How the parts of a volume fit together between operations: the block
    store, the write buffer, the active log segment, the block map and the
    chunk objects all describe one array of blocks. *)

From S2P Require Import Prelude Words BlockMap Extents BlockStore BlockStoreFacts BlockStoreRace Crypto Paths Volume WAL Chunk ChunkFacts CommitFacts Read Blocks Inherit Content Requests ReadFacts Checkpoint CheckpointFacts SeqNum Frames Engine WALFacts.

Section inv.
Context {A : AEAD} {S : StateJSON}.

(** The sizes and names of a volume: set when it is opened. *)
Record geometry_ok (v : VB) : Prop := {
  go_size : VolumeSize v + BlockSize v < 2 ^ 64;
  go_header : header_ok v;
  go_magic : length (ChunkMagic v) = 4%nat;
  go_vbce : EncryptionEnabled v = true -> ChunkMagic v = lit "VBCE";
  go_obj : 0 < ObjBlockSize v;
  go_blocks : ObjBlockSize v / BlockSize v + 1 <= MaxUint16;
  go_bytes : ChunkHeaderSize + (ObjBlockSize v / BlockSize v + 1) * blockStride v < 2 ^ 32;
  go_shards : UseShardedWAL v = false;
  go_dir : wal_BaseDir (vb_WAL v) = BaseDir v;
  go_uuid : EncryptionEnabled v = true -> VolumeUUID v <> zeros 4
}.

(** A block of the write buffer or the log, as the block store knows it. *)
Record buffered (v : VB) (blk : Block) : Prop := {
  bu_wal : wal_block (BlockSize v) blk;
  bu_range : b_Block blk < 2 ^ 64 - 1;
  bu_seq : b_SeqNum blk <= SeqNum v;
  bu_entry : exists e, get_entry (BStore v) (b_Block blk) = Some e /\ b_SeqNum blk <= be_SeqNum e /\
    (be_SeqNum e = b_SeqNum blk -> be_Data e = b_Data blk)
}.

Definition holds (l : list Block) (b : Z) (e : BlockEntry) : Prop :=
  exists blk, blk ∈ l /\ b_Block blk = b /\ b_SeqNum blk = be_SeqNum e.

(** [seg] are the blocks of the active log segment. *)
Record vol_inv (s : St) (seg : list Block) : Prop := {
  vi_store : store_inv s;
  vi_geo : geometry_ok (vb s);
  vi_seqpos : 0 <= SeqNum (vb s);
  vi_objpos : 0 <= ObjectNum (vb s);
  vi_walpos : 0 <= WallNum (vb_WAL (vb s));
  vi_active : last (DB (vb_WAL (vb s))) = Some (wal_path (vb s) (WallNum (vb_WAL (vb s))));
  vi_open : wal_closed (vb_WAL (vb s)) = false;
  vi_seg : exists t, files (world s) !! wal_path (vb s) (WallNum (vb_WAL (vb s)))
             = Some (WALHeader (vb s) t ++ records (vb s) seg);
  vi_next : forall n, WallNum (vb_WAL (vb s)) < n -> files (world s) !! wal_path (vb s) n = None;
  vi_bufs : Forall (buffered (vb s)) (Writes (vb s) ++ seg);
  vi_mem : forall b e, get_entry (BStore (vb s)) b = Some e ->
    be_SeqNum e <= SeqNum (vb s) /\ (holds (Writes (vb s)) b e \/ be_State e = BlockStatePending);
  (* the newest write of a buffered block is buffered too *)
  vi_newest : forall blk e, blk ∈ Writes (vb s) ++ seg -> get_entry (BStore (vb s)) (b_Block blk) = Some e ->
    holds (Writes (vb s) ++ seg) (b_Block blk) e;
  vi_map : map_wf (blockStride (vb s)) (BlocksToObject (vb s));
  vi_agree : forall b, readPersisted (persistedExtents (BStore (vb s))) b
             = entry_of <$> LookupBlockToObject (blockStride (vb s)) (BlocksToObject (vb s)) b;
  vi_obj : forall b l, LookupBlockToObject (blockStride (vb s)) (BlocksToObject (vb s)) b = Some l ->
    0 <= l.1.1 < ObjectNum (vb s);
  (* everything in the map is older than everything in the buffers *)
  vi_floor : exists f, f <= SeqNum (vb s) /\
    (forall b l, LookupBlockToObject (blockStride (vb s)) (BlocksToObject (vb s)) b = Some l -> l.2 <= f) /\
    Forall (fun blk => f < b_SeqNum blk) (Writes (vb s) ++ seg);
  (* the reference counts of a volume with GC are those of the map *)
  vi_refs : refs_ok (vb s) /\ 0 <= gcFloor (vb s)
}.

Lemma entry_seq s seg b e :
  vol_inv s seg -> get_entry (BStore (vb s)) b = Some e -> be_SeqNum e <= SeqNum (vb s).
Proof. intros Hi He. by apply (vi_mem _ _ Hi b e). Qed.

Lemma holds_app l1 l2 b e : holds (l1 ++ l2) b e <-> holds l1 b e \/ holds l2 b e.
Proof. unfold holds. setoid_rewrite elem_of_app. naive_solver. Qed.

(** ** Reading *)

Lemma reads_inv s s' seg : reads_same s s' -> vol_inv s seg -> vol_inv s' seg.
Proof.
  intros Hr Hi. pose proof (reads_same_inv s s' Hr (vi_store _ _ Hi)) as Hst.
  destruct Hr as [(u & c & E & Hs) [F O]]. pose proof Hs as [_ X].
  assert (forall b, get_entry u b = get_entry (BStore (vb s)) b) as Hg by (intros; by apply same_store_entry).
  destruct Hi as [? G ? ? ? ? ? ? ? Hb Hm Hnw ? Ha ? ? ?].
  constructor; rewrite ?E, ?F; try done.
  - destruct G. by constructor.
  - eapply Forall_impl; [exact Hb|]. intros blk [? ? ? He]. constructor; try done.
    change (BStore (touch u c (vb s))) with u. by rewrite Hg.
  - intros b e. change (BStore (touch u c (vb s))) with u. rewrite Hg. apply Hm.
  - intros b e. change (BStore (touch u c (vb s))) with u. rewrite Hg. apply Hnw.
  - intros b. change (BStore (touch u c (vb s))) with u. rewrite X. apply Ha.
Qed.

(** ** Reserving SeqNums *)

Lemma frame_path s s' n : state_frame s s' ->
  wal_BaseDir (vb_WAL (vb s)) = BaseDir (vb s) ->
  files (world s') !! wal_path (vb s) n = files (world s) !! wal_path (vb s) n.
Proof.
  intros Hf Hd. destruct (wal_not_config (BaseDir (vb s)) n (VolumeName (vb s))) as [H1 H2].
  apply (sf_files _ _ Hf); unfold wal_path, config_path; by rewrite Hd.
Qed.

Lemma frame_chunk s s' id : state_frame s s' ->
  objects (world s') !! chunk_key (vb s) id = objects (world s) !! chunk_key (vb s) id.
Proof. intros Hf. apply (sf_objects _ _ Hf). apply chunk_not_config. Qed.

Lemma frame_others s s' : state_frame s s' -> others_same (VolumeName (vb s)) (objects (world s)) (objects (world s')).
Proof.
  intros Hf i vol _ _. apply (sf_objects _ _ Hf). intros E. symmetry in E. by apply config_not_chunk in E.
Qed.

Lemma frame_loc_ok s s' b pe : state_frame s s' -> loc_ok s b pe -> loc_ok s' b pe.
Proof.
  intros Hf (Ho & obj & d & H). split; [done|]. exists obj, d. pose proof (frame_chunk s s' (be_ObjectID pe) Hf) as Hk.
  destruct (sf_vb _ _ Hf) as (a & b' & c & ->).
  change (chunk_key (counters a b' c (vb s)) (be_ObjectID pe)) with (chunk_key (vb s) (be_ObjectID pe)).
  rewrite Hk. exact H.
Qed.

Lemma frame_store s s' : state_frame s s' -> store_inv s -> store_inv s'.
Proof.
  intros Hf [H1 H2 H3 H4 H5 H6 H7 H8 H9 H10]. destruct (sf_vb _ _ Hf) as (a & b' & c & E).
  constructor; rewrite ?E; try assumption.
  - apply (others_wf (vb s) (objects (world s))); [by apply frame_others|done].
  - intros b pe Hp. eapply frame_loc_ok; [done|]. apply H9, Hp.
Qed.

Lemma frame_block s s' b : store_inv s -> state_frame s s' -> vol_block s' b = vol_block s b.
Proof.
  intros Hi Hf. pose proof (fun id => frame_chunk s s' id Hf) as Hk. pose proof (frame_others s s' Hf) as Ho. destruct (sf_vb _ _ Hf) as (a & b' & c & E).
  unfold vol_block, loc_data. rewrite E.
  change (BStore (counters a b' c (vb s))) with (BStore (vb s)).
  change (BlockSize (counters a b' c (vb s))) with (BlockSize (vb s)).
  destruct (get_entry _ b); [done|]. destruct (readPersisted _ b) as [pe|]; [|by apply (others_data (vb s)); [|apply Hi]].
  change (chunk_key (counters a b' c (vb s)) (be_ObjectID pe)) with (chunk_key (vb s) (be_ObjectID pe)).
  by rewrite Hk.
Qed.

Lemma frame_inv s s' seg :
  state_frame s s' -> SeqNum (vb s) <= SeqNum (vb s') -> vol_inv s seg -> vol_inv s' seg.
Proof.
  intros Hf Hle Hi. pose proof (fun n => frame_path s s' n Hf (go_dir _ (vi_geo _ _ Hi))) as Hp.
  pose proof (frame_store s s' Hf (vi_store _ _ Hi)) as Hst.
  destruct (sf_vb _ _ Hf) as (a & b' & c & E). rewrite E in Hle. change (SeqNum (vb s) <= a) in Hle.
  destruct Hi as [? Hg ? ? ? ? ? [t Ht] Hn Hb Hm ? ? ? ? (f & Hfl & Hfm & Hfb) ?].
  constructor; rewrite ?E; try done.
  - destruct Hg. constructor; done.
  - change (0 <= a). lia.
  - exists t. change (files (world s') !! wal_path (vb s) (WallNum (vb_WAL (vb s))) = Some (WALHeader (vb s) t ++ records (vb s) seg)).
    by rewrite Hp.
  - intros n Hlt. etrans; [apply Hp|]. by apply Hn.
  - eapply Forall_impl; [exact Hb|]. intros blk [? ? ? ?]. constructor; try done. change (b_SeqNum blk <= a). lia.
  - intros b e He. destruct (Hm b e He) as [Hle' ?]. split; [change (be_SeqNum e <= a); lia|done].
  - exists f. split; [change (f <= a); lia|]. done.
Qed.
End inv.
