(* ===== verification/WriteFacts.v ===== *)
(** * Writes update exactly the bytes they cover

    [WriteAt] over the abstract contents of [Content]: whatever calls fail, a
    write that returns has replaced the bytes of its range and nothing else; a
    write that fails has replaced those of a prefix of its blocks. *)

From S2P Require Import Prelude Words BlockMap Extents BlockStore BlockStoreFacts BlockStoreRace Crypto Paths Volume WAL Chunk ChunkFacts Read Blocks Inherit Content Requests ReadFacts Checkpoint CheckpointFacts SeqNum Frames Footprint Engine WALFacts VolInv.

Section write.
Context {A : AEAD} {S : StateJSON}.

(** ** Appending one block *)

Lemma write_fresh u b d n :
  be_SeqNum (default BE0 (get_entry u b)) < n -> WriteWithSeqNum b d n u = put_block b (mkBE d n 0 0 BlockStateHot) u.
Proof. intros H. unfold WriteWithSeqNum. by rewrite (proj2 (Z.ltb_lt _ _) H). Qed.

Section append.
Context (s : St) (seg : list Block) (Hi : vol_inv s seg) (blk : Block)
  (Hseq : forall b e, get_entry (BStore (vb s)) b = Some e -> be_SeqNum e < b_SeqNum blk)
  (Hall : Forall (fun x => b_SeqNum x < b_SeqNum blk) (Writes (vb s) ++ seg))
  (Hnow : b_SeqNum blk = SeqNum (vb s)) (Hpos : 0 < SeqNum (vb s))
  (Hfloor : exists f, f < SeqNum (vb s) /\
    (forall b l, LookupBlockToObject (blockStride (vb s)) (BlocksToObject (vb s)) b = Some l -> l.2 <= f) /\
    Forall (fun x => f < b_SeqNum x) (Writes (vb s) ++ seg))
  (Hwal : wal_block (BlockSize (vb s)) blk) (Hrange : b_Block blk < 2 ^ 64 - 1).

Abbreviation v := (vb s).
Definition new_entry : BlockEntry := mkBE (b_Data blk) (b_SeqNum blk) 0 0 BlockStateHot.
Definition written : VB := v <| Writes := Writes v ++ [blk] |> <| BStore := put_block (b_Block blk) new_entry (BStore v) |>.

Lemma append_write_eq : append_write blk v = written.
Proof.
  unfold append_write. rewrite (si_use _ (vi_store _ _ Hi)). unfold written. rewrite write_fresh; [done|].
  destruct (get_entry (BStore v) (b_Block blk)) as [e|] eqn:E; cbn; [by eapply Hseq|lia].
Qed.

Lemma written_entry b :
  get_entry (BStore written) b = if decide (b_Block blk = b) then Some new_entry else get_entry (BStore v) b.
Proof. apply get_put, Hi. Qed.

Abbreviation s' := (mkSt written (world s)).

Lemma written_store : store_inv s'.
Proof.
  destruct (vi_store _ _ Hi) as [H1 H2 H3 H4 H5 H6 H7 H8 H9 H10].
  constructor; cbn [vb world]; try assumption.
  - by apply put_wf.
  - intros b e. rewrite written_entry. destruct (decide _); [|apply H8]. intros [= <-]. split; [by left|]. apply Hwal.
Qed.

Lemma written_block b : vol_block s' b = if decide (b_Block blk = b) then b_Data blk else vol_block s b.
Proof. unfold vol_block at 1. cbn [vb]. rewrite written_entry. by destruct (decide (b_Block blk = b)). Qed.

Lemma written_buffered x : buffered v x -> buffered written x.
Proof.
  intros [? ? ? (e & He & Hle & Hd)]. constructor; try done. rewrite written_entry.
  destruct (decide _) as [Heq|].
  - exists new_entry. split; [done|]. pose proof (Hseq _ _ He). cbn. split; [lia|]. intros Hx. lia.
  - by exists e.
Qed.

Lemma written_inv : vol_inv s' seg.
Proof.
  pose proof written_store as Hst. destruct Hi as [? Hg ? ? ? ? ? Hseg Hn Hb Hm Hnw ? ? ? _ ?].
  destruct Hfloor as (f & Hf & Hfm & Hfb).
  constructor; try done.
  - destruct Hg. by constructor.
  - change (Forall (buffered written) ((Writes v ++ [blk]) ++ seg)).
    apply Forall_app in Hb as [Hb1 Hb2]. rewrite !Forall_app. split; [split|].
    + eapply Forall_impl; [exact Hb1|]. apply written_buffered.
    + constructor; [|done]. constructor; try done.
      * change (b_SeqNum blk <= SeqNum v). lia.
      * exists new_entry. rewrite written_entry, decide_True by done. split; [done|]. split; [cbn; lia|done].
    + eapply Forall_impl; [exact Hb2|]. apply written_buffered.
  - intros b e. cbn [vb]. rewrite written_entry.
    change (Writes written) with (Writes v ++ [blk]). destruct (decide _) as [Heq|].
    + intros [= <-]. split; [cbn; change (b_SeqNum blk <= SeqNum v); lia|]. left. apply holds_app. right.
      exists blk. by rewrite list_elem_of_singleton.
    + intros He. destruct (Hm b e He) as [Hle Hor]. split; [done|]. rewrite holds_app. tauto.
  - intros x e. cbn [vb]. rewrite written_entry.
    change (Writes written) with (Writes v ++ [blk]). destruct (decide _) as [Heq|Hne].
    + intros _ [= <-]. apply holds_app. left. apply holds_app. right. exists blk. by rewrite list_elem_of_singleton.
    + intros Hx He. assert (x ∈ Writes v ++ seg) as Hx'.
      { rewrite !elem_of_app, list_elem_of_singleton in Hx. rewrite elem_of_app. destruct Hx as [[? | ->]|?]; auto; done. }
      specialize (Hnw x e Hx' He). rewrite !holds_app in *. tauto.
  - exists f. split; [change (f <= SeqNum v); lia|]. split; [done|].
    change (Writes (vb s')) with (Writes v ++ [blk]). apply Forall_app in Hfb as [Hfb1 Hfb2]. rewrite !Forall_app.
    split; [split; [done|]|done]. constructor; [lia|done].
Qed.
End append.

(** A reservation followed by the append. *)
Lemma reserve_append s s1 seg blk :
  vol_inv s seg -> state_frame s s1 -> SeqNum (vb s1) = SeqNum (vb s) + 1 ->
  b_SeqNum blk = SeqNum (vb s) + 1 -> wal_block (BlockSize (vb s)) blk -> b_Block blk < 2 ^ 64 - 1 ->
  let s2 := mkSt (append_write blk (vb s1)) (world s1) in
  vol_inv s2 seg /\ SeqNum (vb s2) = SeqNum (vb s) + 1 /\ BlockSize (vb s2) = BlockSize (vb s) /\
  VolumeSize (vb s2) = VolumeSize (vb s) /\
  forall b, vol_block s2 b = if decide (b_Block blk = b) then b_Data blk else vol_block s b.
Proof.
  intros Hi Hf Hs1 Hbs Hw Hr. pose proof (frame_inv s s1 seg Hf ltac:(lia) Hi) as Hi1.
  pose proof (vi_seqpos _ _ Hi). pose proof (sf_vb _ _ Hf) as (a & b' & c & E).
  assert (BlockSize (vb s1) = BlockSize (vb s) /\ VolumeSize (vb s1) = VolumeSize (vb s) /\
          Writes (vb s1) = Writes (vb s) /\ BStore (vb s1) = BStore (vb s) /\
          BlocksToObject (vb s1) = BlocksToObject (vb s) /\ blockStride (vb s1) = blockStride (vb s))
    as (Eb & Ev & Ew & Es & Em & Et) by (by rewrite E).
  assert (forall b e, get_entry (BStore (vb s1)) b = Some e -> be_SeqNum e < b_SeqNum blk) as Hseq.
  { intros b e He. rewrite Es in He. pose proof (entry_seq s seg b e Hi He). lia. }
  assert (exists f, f < SeqNum (vb s1) /\ (forall b l, LookupBlockToObject (blockStride (vb s1)) (BlocksToObject (vb s1)) b = Some l -> l.2 <= f) /\
    Forall (fun x => f < b_SeqNum x) (Writes (vb s1) ++ seg)) as Hfl.
  { destruct (vi_floor _ _ Hi) as (f & ? & ? & ?). exists f. rewrite Em, Ew, Et. split; [lia|done]. }
  cbv zeta. rewrite (append_write_eq s1 seg Hi1 blk Hseq) by lia.
  split; [apply (written_inv s1 seg Hi1 blk Hseq); try done; try lia; by rewrite Eb|].
  split; [done|]. split; [done|]. split; [done|]. intros b.
  rewrite (written_block s1 seg Hi1). destruct (decide _); [done|]. apply frame_block; [apply Hi|done].
Qed.

(** ** One block of a request *)

(** Byte [k] of the data of a request. *)
Definition data_at (data : bytes) (k : Z) : byte := default Byte.x00 (data !! Z.to_nat k).

(** The bytes in [lo, hi) come from the request, the others are as before. *)
Definition bytes_set (s s' : St) (offset : Z) (data : bytes) (lo hi : Z) : Prop :=
  forall o, 0 <= o -> byte_at s' o = if decide (lo <= o < hi) then data_at data (o - offset) else byte_at s o.

(** What a write never touches. *)
Definition shape (v : VB) : Z * Z * (Z * Z) :=
  (BlockSize v, VolumeSize v, (pendingBytes v, MaxPendingBytes v)).
Definition same_shape (s s' : St) : Prop := shape (vb s') = shape (vb s) /\ trail s s'.

Lemma shape_sizes s s' :
  same_shape s s' -> BlockSize (vb s') = BlockSize (vb s) /\ VolumeSize (vb s') = VolumeSize (vb s).
Proof. unfold same_shape, shape. intros [[=] _]. auto. Qed.

Lemma same_shape_trans s1 s2 s3 : same_shape s1 s2 -> same_shape s2 s3 -> same_shape s1 s3.
Proof. intros [E1 F1] [E2 F2]. split; [congruence|by eapply trail_trans]. Qed.

Lemma append_write_shape blk v : shape (append_write blk v) = shape v.
Proof. reflexivity. Qed.

Lemma append_write_trail blk s : shards_wf (BStore (vb s)) -> trail s (mkSt (append_write blk (vb s)) (world s)).
Proof.
  intros Hs. split; [by apply footprint_vb|]. constructor; cbn [vb world]; try done.
  - change (Writes (append_write blk (vb s))) with (Writes (vb s) ++ [blk]).
    change (BStore (append_write blk (vb s))) with
      (if UseBlockStore (vb s) then WriteWithSeqNum (b_Block blk) (b_Data blk) (b_SeqNum blk) (BStore (vb s)) else BStore (vb s)).
    intros b Hb. destruct (decide (b_Block blk = b)) as [<-|Hne].
    + right. rewrite fmap_app. apply elem_of_app. right. by left.
    + left. destruct (UseBlockStore (vb s)); [|done]. unfold WriteWithSeqNum in Hb.
      by rewrite get_put, decide_False in Hb.
  - intros x Hx. apply elem_of_app. by left.
Qed.

Section block.
Context (s : St) (seg : list Block) (Hi : vol_inv s seg) (offset : Z) (data : bytes) (b : Z)
  (Ho : 0 <= offset) (Hd : 0 < blen data) (Hend : offset + blen data <= VolumeSize (vb s))
  (Hb : offset / BlockSize (vb s) <= b <= (offset + blen data - 1) / BlockSize (vb s))
  (Hseq : SeqNum (vb s) + 1 < 2 ^ 64).
Abbreviation bs := (BlockSize (vb s)).
Abbreviation ws := (Z.max 0 (offset - b * bs)).
Abbreviation we := (Z.min bs (offset + blen data - b * bs)).

Lemma block_bounds : 0 < bs /\ 0 <= b /\ 0 <= b * bs < VolumeSize (vb s) /\ 0 <= ws < we /\ we <= bs.
Proof.
  pose proof (bs_pos s (vi_store _ _ Hi)) as Hbs.
  pose proof (Z.div_mod offset bs ltac:(lia)). pose proof (Z.mod_pos_bound offset bs Hbs).
  pose proof (Z.div_mod (offset + blen data - 1) bs ltac:(lia)). pose proof (Z.mod_pos_bound (offset + blen data - 1) bs Hbs).
  assert (0 <= offset / bs) by (apply Z.div_pos; lia).
  assert ((offset / bs) * bs <= b * bs) by (apply Z.mul_le_mono_nonneg_r; lia).
  assert (b * bs <= (offset + blen data - 1) / bs * bs) by (apply Z.mul_le_mono_nonneg_r; lia).
  assert (offset - b * bs < bs).
  { assert (offset < (offset / bs + 1) * bs) by lia.
    assert ((offset / bs + 1) * bs <= (b + 1) * bs) by (apply Z.mul_le_mono_nonneg_r; lia). lia. }
  lia.
Qed.

Lemma write_range_eq : write_range offset (offset + blen data) bs b = (ws, we).
Proof.
  pose proof block_bounds as (Hbs & Hb0 & Hbb & Hws & Hwe). pose proof (go_size _ (vi_geo _ _ Hi)).
  unfold write_range. rewrite (u64_small (b * bs)) by (unfold_widths; lia).
  rewrite (u64_small (b * bs + bs)) by (unfold_widths; lia). f_equal.
  - destruct (Z.ltb_spec (b * bs) offset); [|lia]. rewrite u64_small by (unfold_widths; lia). lia.
  - destruct (Z.ltb_spec (offset + blen data) (b * bs + bs)); [|lia]. rewrite u64_small by (unfold_widths; lia). lia.
Qed.

Definition patch : bytes := slice data (b * bs + ws - offset) (b * bs + we - offset).

Lemma patch_length : blen patch = we - ws.
Proof.
  pose proof block_bounds. unfold patch, slice, blen in *. rewrite length_take, length_drop. lia.
Qed.

Lemma patch_lookup i : 0 <= i < we - ws -> patch !! Z.to_nat i = data !! Z.to_nat (b * bs + ws - offset + i).
Proof.
  intros H. pose proof block_bounds. unfold patch, slice. rewrite lookup_take_lt by lia. rewrite lookup_drop. f_equal. lia.
Qed.

(** The new contents of the block. *)
Definition patched (base d : bytes) : Prop :=
  blen d = bs /\ forall i, 0 <= i < bs ->
    d !! Z.to_nat i = if decide (ws <= i < we) then Some (data_at data (b * bs + i - offset)) else base !! Z.to_nat i.

Lemma patched_copy base :
  blen base = bs -> patched base (copy_slice base ws we patch).
Proof.
  intros Hbase. pose proof block_bounds as (? & ? & ? & ? & ?). pose proof patch_length.
  split; [rewrite copy_slice_length; lia|]. intros i Hi0. rewrite copy_slice_lookup by lia.
  destruct (decide _); [|done]. rewrite patch_lookup by lia. unfold data_at.
  replace (b * bs + ws - offset + (i - ws)) with (b * bs + i - offset) by lia.
  destruct (data !! _) eqn:E; [done|]. apply lookup_ge_None in E. unfold blen in *. lia.
Qed.

(** The block replaced: only the covered bytes change. *)
Lemma replaced_bytes s' d :
  same_shape s s' -> patched (vol_block s b) d ->
  (forall x, vol_block s' x = if decide (b = x) then d else vol_block s x) ->
  bytes_set s s' offset data (Z.max offset (b * bs)) (Z.min (offset + blen data) ((b + 1) * bs)).
Proof.
  intros [Eb _]%shape_sizes [Hdl Hdd] Hv o Ho0. pose proof block_bounds as (Hbs & ? & ? & ? & ?). unfold byte_at. rewrite Eb, Hv.
  pose proof (Z.div_mod o bs ltac:(lia)) as Hdm. pose proof (Z.mod_pos_bound o bs Hbs) as Hm.
  destruct (decide (b = o / bs)) as [Heq|Hne].
  - rewrite Hdd by lia. rewrite <-Heq in Hdm. destruct (decide (ws <= o mod bs < we)).
    + rewrite decide_True by lia. cbn. f_equal. lia.
    + rewrite decide_False by lia. by rewrite Heq.
  - rewrite decide_False; [done|]. intros Hcon. apply Hne.
    apply Z.div_unique with (r := o - b * bs); lia.
Qed.

Lemma block_bytes : byte_at s <$> seqZ (b * bs) bs = vol_block s b.
Proof.
  pose proof block_bounds as (Hbs & Hb0 & _). pose proof (vol_block_length s (vi_store _ _ Hi) b) as Hl. unfold blen in Hl.
  apply list_eq. intros k. rewrite list_lookup_fmap. destruct (decide (Z.of_nat k < bs)).
  - rewrite lookup_seqZ_lt by lia. cbn. unfold byte_at. rewrite Z.add_comm, Z.div_add, Z.mod_add by lia.
    rewrite Z.div_small, Z.mod_small by lia. rewrite Z.add_0_l, Nat2Z.id.
    destruct (vol_block s b !! k) eqn:E; [done|]. apply lookup_ge_None in E. lia.
  - rewrite lookup_seqZ_ge by lia. cbn. symmetry. apply lookup_ge_None. lia.
Qed.

(** The read of a read-modify-write. *)
Lemma rmw_read :
  post (ReadAtCtx (u64 (b * bs)) bs) s (fun r s1 => reads_same s s1 /\ forall d, r = Ok d -> d.1 = vol_block s b).
Proof.
  pose proof block_bounds as (Hbs & Hb0 & Hbb & _). pose proof (go_size _ (vi_geo _ _ Hi)).
  rewrite u64_small by (unfold_widths; lia).
  destruct (decide (b * bs + bs <= VolumeSize (vb s))).
  - eapply post_mono; [apply (ReadAt_spec s (vi_store _ _ Hi)); try lia|].
    + replace (b * bs + bs - 1) with (bs - 1 + b * bs) by lia. rewrite Z.div_add, Z.div_small, Z.div_mul by lia.
      unfold_widths. lia.
    + intros r s1 (Hr & _ & Hok). split; [done|]. intros d Hdd. rewrite (Hok d Hdd). apply block_bytes.
  - unfold ReadAtCtx. mgo. unfold GetVolumeSize. destruct (Z.ltb_spec (VolumeSize (vb s)) (b * bs)); [lia|].
    rewrite u64_small by (unfold_widths; lia).
    destruct (Z.ltb_spec (VolumeSize (vb s)) (b * bs + bs)); [|lia]. mgo. split; [apply reads_same_refl|done].
Qed.

Lemma zeros_blen : blen (zeros bs) = bs.
Proof. pose proof block_bounds. unfold blen. rewrite length_zeros. lia. Qed.

Lemma write_block_spec :
  post (write_block offset (offset + blen data) bs data b) s (fun r s' =>
    vol_inv s' seg /\ same_shape s s' /\ SeqNum (vb s') <= SeqNum (vb s) + 1 /\
    match r with
    | Ok _ => bytes_set s s' offset data (Z.max offset (b * bs)) (Z.min (offset + blen data) ((b + 1) * bs))
    | Err _ => forall o, byte_at s' o = byte_at s o
    end).
Proof.
  pose proof block_bounds as (Hbs & Hb0 & Hbb & Hws & Hwe). pose proof (go_size _ (vi_geo _ _ Hi)) as Hsz.
  pose proof (vi_seqpos _ _ Hi) as Hs0. pose proof zeros_blen as Hzl.
  assert (forall s', reads_same s s' -> vol_inv s' seg /\ same_shape s s' /\ SeqNum (vb s') = SeqNum (vb s) /\
    forall x, vol_block s' x = vol_block s x) as Hreads.
  { intros s' Hr. split; [by eapply reads_inv|]. pose proof (fun x => reads_same_block s s' x Hr).
    pose proof (reads_trail s s' Hr). destruct Hr as [(u & c & E & _) _]. unfold same_shape. by rewrite E. }
  unfold write_block. rewrite write_range_eq. cbv zeta.
  rewrite (u64_small (b * bs)) by (unfold_widths; lia).
  rewrite !u64_small by (unfold_widths; lia). fold patch.
  unfold writeOneBlockLocked. mgo.
  apply (post_mono _ _ (fun r s1 => reads_same s s1 /\ forall ex, r = Ok ex ->
    patched (vol_block s b) (copy_slice (copy_slice (zeros bs) 0 bs ex) ws we patch))).
  { destruct ((0 <? ws) || (we <? bs)) eqn:Ep.
    - mgo. eapply post_mono; [apply rmw_read|]. intros r s1 [Hr Hok].
      destruct r as [d|e]; cbn beta iota; [mgo|]; (split; [done|]); [|done]. intros ex [= <-]. rewrite (Hok d eq_refl).
      pose proof (vol_block_length s (vi_store _ _ Hi) b) as Hvl.
      rewrite (copy_slice_eq (zeros bs)) by lia. unfold blen in Hzl. rewrite (drop_ge (zeros bs)) by lia.
      rewrite app_nil_r. cbn [Z.to_nat take app]. by apply patched_copy.
    - apply orb_false_iff in Ep as [E1%Z.ltb_ge E2%Z.ltb_ge]. mgo. split; [apply reads_same_refl|]. intros ex [= <-].
      assert (copy_slice (zeros bs) 0 bs [] = zeros bs) as -> by (unfold copy_slice; rewrite take_nil; done).
      destruct (patched_copy (zeros bs) Hzl) as [Hl Hlk]. split; [done|]. intros i Hi0. rewrite Hlk by done.
      rewrite !decide_True by lia. done. }
  intros r s1 [Hr Hok]. destruct (Hreads s1 Hr) as (Hi1 & Hsh1 & Hsq1 & Hvb1).
  assert (forall o, byte_at s1 o = byte_at s o) as Hby1.
  { intros o. apply shape_sizes in Hsh1 as [E _]. unfold byte_at. by rewrite E, Hvb1. }
  destruct r as [ex|e]; cbn beta iota; [|split; [done|]; split; [done|]; split; [lia|]; done].
  destruct (Hok ex eq_refl) as [Hpl Hpk]. mgo.
  set (blockData := copy_slice (copy_slice (zeros bs) 0 bs ex) ws we patch) in *.
  eapply post_mono; [apply reserve_frame|].
  { apply (go_uuid _ (vi_geo _ _ Hi1)). }
  { lia. } { lia. } { lia. }
  intros r s2 (Hf2 & Hsq2 & Hx). rewrite Hsq1 in Hsq2. destruct r as [x|e]; cbn beta iota.
  2: { split; [eapply frame_inv; [done|lia|done]|]. pose proof (fun x => frame_block s1 s2 x (vi_store _ _ Hi1) Hf2) as Hvb2.
       destruct (sf_vb _ _ Hf2) as (a & b' & c & E2).
       assert (same_shape s1 s2) as Hsh2 by (split; [by rewrite E2|by apply frame_trail]).
       pose proof (shape_sizes _ _ Hsh2) as [Eb _]. split; [by eapply same_shape_trans|]. split; [lia|]. intros o. unfold byte_at. rewrite Eb, Hvb2. apply Hby1. }
  rewrite (Hx x eq_refl), Hsq1. rewrite (u64_small (SeqNum (vb s) + 1)) by (unfold_widths; lia). mgo.
  set (blk := mkBlock blockData (SeqNum (vb s) + 1) b 0 bs).
  assert (BlockSize (vb s1) = bs) as Eb1 by (by apply shape_sizes in Hsh1 as [? _]).
  destruct (reserve_append s1 s2 seg blk Hi1 Hf2) as (Hi3 & Hsq3 & Eb3 & Ev3 & Hvb3); try (cbn; lia).
  { rewrite Eb1. destruct (go_header _ (vi_geo _ _ Hi)) as (_ & _ & Hbs32). unfold_widths. constructor; cbn; unfold_widths; try lia. }
  split; [exact Hi3|].
  assert (same_shape s (mkSt (append_write blk (vb s2)) (world s2))) as Hsh.
  { apply (same_shape_trans s s1); [done|]. apply (same_shape_trans s1 s2).
    - split; [destruct (sf_vb _ _ Hf2) as (a & b' & c & ->); done|by apply frame_trail].
    - split; [apply append_write_shape|apply append_write_trail; destruct (sf_vb _ _ Hf2) as (a & b' & c & ->); apply Hi1]. }
  split; [exact Hsh|]. split; [lia|]. eapply replaced_bytes; [exact Hsh|split; [exact Hpl|exact Hpk]|].
  intros y. rewrite Hvb3. cbn. destruct (decide (b = y)); [done|]. apply Hvb1.
Qed.
End block.

(** ** The whole request *)

Lemma bytes_set_trans s1 s2 s3 offset data lo mid hi :
  lo <= mid <= hi -> bytes_set s1 s2 offset data lo mid -> bytes_set s2 s3 offset data mid hi ->
  bytes_set s1 s3 offset data lo hi.
Proof.
  intros Hm H1 H2 o Ho. rewrite (H2 o Ho). destruct (decide (mid <= o < hi)).
  - by rewrite decide_True by lia.
  - rewrite (H1 o Ho). destruct (decide (lo <= o < mid)); [rewrite decide_True by lia|rewrite decide_False by lia]; done.
Qed.

(** The first byte after the part of the request in blocks below [b]. *)
Definition upto (bs offset endO b : Z) : Z := Z.max offset (Z.min endO (b * bs)).

Lemma write_blocks_spec offset data : forall n b s seg,
  vol_inv s seg -> 0 <= offset -> 0 < blen data -> offset + blen data <= VolumeSize (vb s) ->
  offset / BlockSize (vb s) <= b -> b + Z.of_nat n = (offset + blen data - 1) / BlockSize (vb s) + 1 ->
  SeqNum (vb s) + Z.of_nat n < 2 ^ 64 ->
  post (mfor (seqZ b (Z.of_nat n)) (write_block offset (offset + blen data) (BlockSize (vb s)) data)) s (fun r s' =>
    vol_inv s' seg /\ same_shape s s' /\ exists k, match r with Ok _ => k = n | Err _ => (k < n)%nat end /\
      bytes_set s s' offset data (upto (BlockSize (vb s)) offset (offset + blen data) b)
        (upto (BlockSize (vb s)) offset (offset + blen data) (b + Z.of_nat k))).
Proof.
  induction n as [|n IH]; intros b s seg Hi Ho Hd Hend Hb Hlast Hseq.
  { cbn [Z.of_nat]. rewrite seqZ_nil by lia. cbn [mfor]. mgo. split; [done|]. split; [split; [done|apply trail_refl]|]. exists 0%nat. split; [done|].
    replace (b + Z.of_nat 0) with b by lia. intros o _. by rewrite decide_False by lia. }
  rewrite seqZ_cons by lia. cbn [mfor]. apply post_bind.
  assert (b <= (offset + blen data - 1) / BlockSize (vb s)) as Hb2 by lia.
  pose proof (block_bounds s seg Hi offset data b Ho Hd Hend (conj Hb Hb2)) as (Hbs & Hb0 & Hbb & Hws & Hwe).
  eapply post_mono; [apply (write_block_spec s seg Hi offset data b); try done; lia|].
  intros r s1 (Hi1 & Hsh1 & Hsq1 & Hr). pose proof (shape_sizes _ _ Hsh1) as [Eb Ev]. destruct r as [[]|e]; cbn beta iota.
  2: { split; [done|]. split; [done|]. exists 0%nat. split; [lia|]. replace (b + Z.of_nat 0) with b by lia.
       intros o _. rewrite decide_False by lia. apply Hr. }
  rewrite <-Eb. replace (Z.pred (Z.of_nat (Datatypes.S n))) with (Z.of_nat n) by lia.
  eapply post_mono; [apply (IH (Z.succ b) s1 seg); rewrite ?Eb, ?Ev; try done; lia|].
  intros r s2 (Hi2 & Hsh2 & k & Hk & Hset). split; [done|]. split; [by eapply same_shape_trans|].
  exists (Datatypes.S k). split; [destruct r; lia|].
  rewrite Eb in Hset |- *. replace (b + Z.of_nat (Datatypes.S k)) with (Z.succ b + Z.of_nat k) by lia.
  set (bs := BlockSize (vb s)) in *. set (endO := offset + blen data) in *.
  assert (Z.succ b * bs = b * bs + bs) as Hsb by ring.
  replace (Z.max offset (b * bs)) with (upto bs offset endO b) in Hr by (unfold upto; lia).
  replace (Z.min endO ((b + 1) * bs)) with (upto bs offset endO (Z.succ b)) in Hr by (unfold upto; lia).
  eapply bytes_set_trans; [|exact Hr|exact Hset]. unfold upto.
  assert (Z.succ b * bs <= (Z.succ b + Z.of_nat k) * bs) by (apply Z.mul_le_mono_nonneg_r; lia). lia.
Qed.

(** The backpressure counter and the upload trigger are not contents. *)
Definition set_pending (p : Z) (tr : bool) (v : VB) : VB := v <| pendingBytes := p |> <| uploadTriggered := tr |>.

Lemma set_pending_inv s seg p tr :
  vol_inv s seg -> vol_inv (mkSt (set_pending p tr (vb s)) (world s)) seg.
Proof.
  intros [[? ? ? ? ? ? ? ? ? ?] [? ? ? ? ? ? ? ? ? ?] ? ? ? ? ? ? ? Hb ? ? ? ? ? ? ?]. constructor; try done.
  eapply Forall_impl; [exact Hb|]. intros x [? ? ? ?]. by constructor.
Qed.

Lemma set_pending_byte s p tr o : byte_at (mkSt (set_pending p tr (vb s)) (world s)) o = byte_at s o.
Proof. reflexivity. Qed.

Lemma trigger_eq v p : exists tr, signalSizeTrigger (v <| pendingBytes := p |>) = set_pending p tr v.
Proof.
  unfold signalSizeTrigger. destruct (_ <? _).
  - exists (uploadTriggered v). by destruct v.
  - by exists true.
Qed.

Lemma set_pending_trail s p tr : trail s (mkSt (set_pending p tr (vb s)) (world s)).
Proof. split; [by apply footprint_vb|]. constructor; try done. by left. Qed.

(** The number of blocks a request touches. *)
Definition blocks_touched (v : VB) (offset : Z) (data : bytes) : Z :=
  (offset + blen data - 1) / BlockSize v - offset / BlockSize v + 1.

Lemma WriteAt_spec sc fuel offset data s seg :
  vol_inv s seg -> backendFull (vb s) = false -> 0 <= offset -> 0 < blen data ->
  offset + blen data <= VolumeSize (vb s) ->
  SeqNum (vb s) + blocks_touched (vb s) offset data < 2 ^ 64 -> 0 <= pendingBytes (vb s) ->
  pendingBytes (vb s) + blocks_touched (vb s) offset data * BlockSize (vb s) <= maxPendingBytes (vb s) < 2 ^ 64 ->
  post (WriteAtCtx sc fuel false offset data) s (fun r s' =>
    vol_inv s' seg /\ (BlockSize (vb s') = BlockSize (vb s) /\ trail s s') /\ exists hi, offset <= hi <= offset + blen data /\ bytes_set s s' offset data offset hi /\
      match r with
      | Ok done => done = true /\ hi = offset + blen data
      | Err _ => hi = offset \/ hi mod BlockSize (vb s) = 0
      end).
Proof.
  intros Hi Hnf Ho Hd Hend Hseq Hp0 Hp. pose proof (bs_pos s (vi_store _ _ Hi)) as Hbs.
  pose proof (go_size _ (vi_geo _ _ Hi)) as Hsz. unfold WriteAtCtx. mgo. rewrite Hnf. cbn [orb].
  unfold GetVolumeSize. destruct (Z.ltb_spec (VolumeSize (vb s)) offset); [lia|].
  rewrite (u64_small (offset + blen data)) by (unfold_widths; lia).
  destruct (Z.ltb_spec (VolumeSize (vb s)) (offset + blen data)); [lia|].
  destruct (Z.eqb_spec (blen data) 0); [lia|].
  rewrite (u64_small (offset + blen data - 1)) by (unfold_widths; lia).
  unfold blocks_touched in *.
  set (fb := offset / BlockSize (vb s)) in *. set (lb := (offset + blen data - 1) / BlockSize (vb s)) in *.
  assert (fb <= lb) as Hord by (apply Z.div_le_mono; lia).
  assert (fb * BlockSize (vb s) <= offset) as Hfb by (unfold fb; pose proof (Z.mul_div_le offset (BlockSize (vb s)) Hbs); lia).
  assert (offset + blen data <= (lb + 1) * BlockSize (vb s)) as Hlb.
  { unfold lb. pose proof (Z.div_mod (offset + blen data - 1) (BlockSize (vb s)) ltac:(lia)).
    pose proof (Z.mod_pos_bound (offset + blen data - 1) (BlockSize (vb s)) Hbs). lia. }
  assert (lb - fb + 1 = Z.of_nat (Z.to_nat (lb - fb + 1))) as Hn by lia. rewrite Hn.
  apply post_bind. eapply post_mono; [apply (write_blocks_spec offset data (Z.to_nat (lb - fb + 1)) fb s seg); try done; fold fb lb; lia|].
  intros r s1 (Hi1 & Hsh & k & Hk & Hset).
  assert (upto (BlockSize (vb s)) offset (offset + blen data) fb = offset) as E0 by (unfold upto; lia).
  rewrite E0 in Hset. destruct r as [[]|e]; cbn beta iota.
  2: { split; [done|]. split; [destruct Hsh as [Hsh ?]; by injection Hsh|]. eexists. split; [|split; [exact Hset|]]; unfold upto; [lia|].
       assert ((fb + Z.of_nat k) * BlockSize (vb s) <= lb * BlockSize (vb s)) by (apply Z.mul_le_mono_nonneg_r; lia).
       pose proof (Z.mul_div_le (offset + blen data - 1) (BlockSize (vb s)) Hbs).
       destruct (decide (offset <= (fb + Z.of_nat k) * BlockSize (vb s))); [right|left; lia].
       replace (Z.max _ _) with ((fb + Z.of_nat k) * BlockSize (vb s)) by (unfold lb in *; lia). apply Z.mod_mul. lia. }
  subst k. mgo. destruct (trigger_eq (vb s1) (pendingBytes (vb s1) + Z.of_nat (length (seqZ fb (Z.of_nat (Z.to_nat (lb - fb + 1))))) * BlockSize (vb s))) as [tr ->].
  rewrite length_seqZ, Nat2Z.id. unfold awaitBackpressure. mgo. cbn [vb].
  destruct Hsh as [Hsh Hfp]. unfold shape in Hsh. injection Hsh as Eb Ev Epb Emx.
  set (p := pendingBytes (vb s1) + _).
  assert (PendingBytes (set_pending p tr (vb s1)) = p) as ->.
  { change (u64 p = p). apply u64_small. unfold_widths. unfold p. rewrite Epb. nia. }
  assert (maxPendingBytes (set_pending p tr (vb s1)) = maxPendingBytes (vb s)) as ->.
  { unfold maxPendingBytes. change (MaxPendingBytes (set_pending p tr (vb s1))) with (MaxPendingBytes (vb s1)). by rewrite Emx. }
  destruct (Z.leb_spec p (maxPendingBytes (vb s))); [|unfold p in *; rewrite Epb in *; lia].
  mgo. split; [by apply set_pending_inv|]. split; [split; [done|]; eapply trail_trans; [exact Hfp|apply set_pending_trail]|]. exists (offset + blen data). split; [lia|]. split; [|done].
  intros o Ho0. rewrite set_pending_byte. rewrite (Hset o Ho0). unfold upto.
  replace (fb + Z.of_nat (Z.to_nat (lb - fb + 1))) with (lb + 1) by lia.
  destruct (decide (offset <= o < offset + blen data)); [rewrite decide_True by lia|rewrite decide_False by lia]; done.
Qed.
End write.
