(* ===== verification/FlushFacts.v ===== *)
(** * Flushing the write buffer

    [Flush] with a working local disk: the buffer moves to the active log
    segment, record by record, and every block in memory is sealed; the
    contents of the volume do not change. *)

From S2P Require Import Prelude Words BlockMap Extents BlockStore BlockStoreFacts BlockStoreRace Crypto Paths Volume WAL Chunk ChunkFacts Read Blocks Inherit Content Requests ReadFacts Checkpoint CheckpointFacts SeqNum Frames Footprint Engine WALFacts VolInv.

(** ** Calls that work *)

(** The next [k] calls work; [p] are the outcomes of the calls after them. *)
Definition works (k : nat) (p : list outcome) (s : St) : Prop :=
  plan (world s) = replicate k Works ++ p \/ (calm s /\ p = []).

Lemma works_calm k s : calm s -> works k [] s.
Proof. by right. Qed.

Lemma works_calm_iff k p s : works k p s -> calm s <-> Forall (fun o => o = Works) p.
Proof.
  intros [E|[Hc ->]]; [|by split]. unfold calm. rewrite E, Forall_app. split; [by intros [_ ?]|]. intros Hp. split; [|done].
  by apply Forall_replicate.
Qed.

Section calls.
Context (k : nat) (p : list outcome) (s : St).

Lemma post_next_works Q :
  works (S k) p s -> (forall s', quiet s s' -> works k p s' -> Q (Ok Works) s') -> post next s Q.
Proof.
  intros Hw H. destruct Hw as [E|[Hc ->]].
  - unfold post, next. rewrite E. cbn. apply H; [done|]. by left.
  - apply post_next_calm. intros o s' Hq Hcs. destruct (Hcs Hc) as [-> ?]. apply H; [done|]. by right.
Qed.

Lemma post_os_call_works Q :
  works (S k) p s -> (forall s', quiet s s' -> works k p s' -> Q (Ok tt) s') -> post os_call s Q.
Proof. intros Hw H. unfold os_call. apply post_bind, post_next_works; [done|]. intros s' Hq Hw'. by apply H. Qed.

Lemma post_file_size_works n Q :
  works (S k) p s ->
  (forall s', quiet s s' -> works k p s' -> Q (Ok (blen (default [] (files (world s) !! n)))) s') ->
  post (file_size n) s Q.
Proof.
  intros Hw H. unfold file_size. apply post_bind, post_next_works; [done|]. intros s' Hq Hw'. mgo.
  destruct Hq as (Ev & Ef & Eo). rewrite Ef. by apply H.
Qed.

Lemma post_file_append_works n d Q :
  works (S k) p s ->
  (forall s', vb s' = vb s -> objects (world s') = objects (world s) ->
    files (world s') = <[n := default [] (files (world s) !! n) ++ d]> (files (world s)) ->
    works k p s' -> Q (Ok (blen d, None)) s') ->
  post (file_append n d) s Q.
Proof.
  intros Hw H. unfold file_append. apply post_bind, post_next_works; [done|]. intros s' Hq Hw'. mgo.
  destruct Hq as (Ev & Ef & Eo). apply H; cbn; by rewrite ?Ev, ?Ef, ?Eo.
Qed.

Lemma post_ReadFile_works n d Q :
  works (S k) p s -> files (world s) !! n = Some d ->
  (forall s', quiet s s' -> works k p s' -> Q (Ok d) s') -> post (os_ReadFile n) s Q.
Proof.
  intros Hw Hd H. unfold os_ReadFile. apply post_bind, post_next_works; [done|]. intros s' Hq Hw'. mgo.
  destruct Hq as (Ev & Ef & Eo). rewrite Ef, Hd. by apply H.
Qed.
End calls.

(** ** What is not contents *)

(** The fields the contents of a volume do not depend on. *)
Definition aux (pbw : list Block) (pb : Z) (full tr d : bool) (g : gmap Z Z) (wd : bool) (v : VB) : VB :=
  v <| PendingBackendWrites := pbw |> <| pendingBytes := pb |> <| backendFull := full |>
    <| uploadTriggered := tr |> <| bto_dirty := d |> <| gcRefcount := g |>
    <| vb_WAL := (vb_WAL v) <| wal_dirty := wd |> |>.

Section flush.
Context {A : AEAD}.

Lemma aux_inv s seg a b c d e f g :
  vol_inv s seg -> f = gcRefcount (vb s) -> vol_inv (mkSt (aux a b c d e f g (vb s)) (world s)) seg.
Proof.
  intros [[? ? ? ? ? ? ? ? ? ?] [? ? ? ? ? ? ? ? ? ?] ? ? ? ? ? ? ? Hb ? ? ? ? ? ? Hrc] ->. constructor; try done.
  eapply Forall_impl; [exact Hb|]. intros x [? ? ? ?]. by constructor.
Qed.

Lemma aux_block s a b c d e f g n : vol_block (mkSt (aux a b c d e f g (vb s)) (world s)) n = vol_block s n.
Proof. reflexivity. Qed.

Lemma wal_path_inj v i j : wal_path v i = wal_path v j -> 0 <= i -> 0 <= j -> i = j.
Proof.
  intros Heq Hi Hj. apply append_inj_l in Heq. apply (append_inj_l "/") in Heq. by eapply wal_name_inj.
Qed.

(** ** One record *)

Lemma WriteWAL_works k p s name b :
  works (S (S k)) p s -> last (DB (vb_WAL (vb s))) = Some name -> wal_closed (vb_WAL (vb s)) = false ->
  post (WriteWAL b) s (fun r s' => r = Ok tt /\ vb s' = set_wal_dirty true (vb s) /\
    objects (world s') = objects (world s) /\ works k p s' /\
    files (world s') = <[name := default [] (files (world s) !! name) ++ wal_record (vb s) b]> (files (world s))).
Proof.
  intros Hw Hl Hc. unfold WriteWAL. mgo. cbn zeta. rewrite Hl, Hc. mgo.
  eapply post_file_size_works; [exact Hw|]. intros s1 (Ev & Ef & Eo) Hw1. cbn beta iota. mstep.
  eapply post_file_append_works; [exact Hw1|]. intros s2 Ev2 Eo2 Ef2 Hw2. mgo.
  rewrite bool_decide_eq_true_2, Z.eqb_refl by done. cbn [andb]. mgo. cbn [vb world].
  rewrite Ev2, Ev, Eo2, Eo, Ef2, Ef. done.
Qed.

(** The index after a block was sealed. *)
Definition sealed_index (b : Z) (u : UnifiedBlockStore) : UnifiedBlockStore := (MarkPending b u).2.

Lemma sealed_entry b u b' : shards_wf u ->
  get_entry (sealed_index b u) b' =
  match get_entry u b' with
  | Some e => Some (if decide (b = b' /\ be_State e = BlockStateHot)
                    then mkBE (be_Data e) (be_SeqNum e) (be_ObjectID e) (be_ObjectOffset e) BlockStatePending else e)
  | None => None
  end.
Proof.
  intros Hu. unfold sealed_index, MarkPending. destruct (get_entry u b) as [e|] eqn:E.
  - destruct (decide (be_State e = BlockStateHot)) as [Hh|Hh]; cbn [snd].
    + rewrite get_put by done. destruct (decide (b = b')) as [<-|].
      * rewrite E. by rewrite decide_True.
      * destruct (get_entry u b'); [|done]. by rewrite decide_False by tauto.
    + destruct (get_entry u b') eqn:E'; [|done]. rewrite decide_False; [done|]. intros [<- ?]. congruence.
  - cbn. destruct (get_entry u b') eqn:E'; [|done]. rewrite decide_False; [done|]. intros [<- ?]. congruence.
Qed.

Lemma sealed_wf b u : shards_wf u -> shards_wf (sealed_index b u).
Proof.
  intros Hu. unfold sealed_index, MarkPending. destruct (get_entry u b); [|done].
  destruct (decide _); [|done]. by apply put_wf.
Qed.

Lemma sealed_exts b u : persistedExtents (sealed_index b u) = persistedExtents u.
Proof. unfold sealed_index, MarkPending. destruct (get_entry u b); [|done]. by destruct (decide _). Qed.

(** What sealing keeps of an entry. *)
Lemma sealed_kept b u b' e : shards_wf u -> get_entry (sealed_index b u) b' = Some e ->
  exists e0, get_entry u b' = Some e0 /\ be_Data e = be_Data e0 /\ be_SeqNum e = be_SeqNum e0 /\
    (be_State e = be_State e0 \/ be_State e = BlockStatePending).
Proof.
  intros Hu. rewrite sealed_entry by done. destruct (get_entry u b') as [e0|]; [|done].
  intros [= <-]. exists e0. destruct (decide _); cbn; auto.
Qed.

(** ** Sealing blocks *)

Definition seal_vb (b : Z) (v : VB) : VB := v <| BStore := sealed_index b (BStore v) |>.

Lemma seal_block_same s b n : shards_wf (BStore (vb s)) ->
  vol_block (mkSt (seal_vb b (vb s)) (world s)) n = vol_block s n.
Proof.
  intros Hu. unfold vol_block, loc_data. change (BStore (vb (mkSt (seal_vb b (vb s)) (world s)))) with (sealed_index b (BStore (vb s))).
  rewrite sealed_entry, sealed_exts by done. destruct (get_entry _ n) as [e|]; [|done]. by destruct (decide _).
Qed.

Lemma seal_inv s seg b : vol_inv s seg -> vol_inv (mkSt (seal_vb b (vb s)) (world s)) seg.
Proof.
  intros [[? ? ? ? ? Hu ? Hsm ? ?] [? ? ? ? ? ? ? ? ? ?] ? ? ? ? ? ? ? Hb Hm Hnw ? ? ? ? ?].
  assert (BStore (seal_vb b (vb s)) = sealed_index b (BStore (vb s))) as E by done.
  constructor; try done.
  - constructor; cbn [vb]; rewrite ?E, ?sealed_exts; try done; [by apply sealed_wf|].
    intros b' e (e0 & He0 & -> & Hs & Hst)%sealed_kept; [|done]. destruct (Hsm b' e0 He0) as [Hor ?].
      split; [|done]. destruct Hst as [->|]; auto.
  - eapply Forall_impl; [exact Hb|]. intros x [? ? ? (e & He & Hle & Hd)]. constructor; try done.
    cbn [vb]; rewrite E, sealed_entry, He by done. eexists. split; [done|]. destruct (decide _); done.
  - intros b' e. cbn [vb]. rewrite E. intros (e0 & He0 & Hd & Hs & Hst)%sealed_kept; [|done].
    destruct (Hm b' e0 He0) as [Hle Hor]. rewrite Hs. split; [done|]. destruct Hst as [Hst|Hst]; [|by right].
    rewrite Hst. destruct Hor as [(y & Hy)|]; [left|by right]. exists y. by rewrite Hs.
  - intros x e Hx. cbn [vb]. rewrite E. intros (e0 & He0 & Hd & Hs & Hst)%sealed_kept; [|done].
    destruct (Hnw x e0 Hx He0) as (y & Hy). exists y. by rewrite Hs.
  - intros b'. cbn [vb]. rewrite E, sealed_exts. auto.
Qed.

(** ** One iteration *)

(** A record of a buffered block at the end of the segment. *)
Lemma log_inv s seg w blk :
  vol_inv s seg -> blk ∈ Writes (vb s) -> objects w = objects (world s) ->
  files w = <[wal_path (vb s) (WallNum (vb_WAL (vb s))) :=
    default [] (files (world s) !! wal_path (vb s) (WallNum (vb_WAL (vb s)))) ++ wal_record (vb s) blk]> (files (world s)) ->
  vol_inv (mkSt (set_wal_dirty true (vb s)) w) (seg ++ [blk]).
Proof.
  intros Hi Hw Eo Ef.
  destruct Hi as [[? ? ? ? ? ? ? ? Hloc ?] [? ? ? ? ? ? ? ? Hdir ?] ? ? Hwp ? ? (t & Ht) Hnext Hb Hm Hnw ? ? ? (f & Hf1 & Hf2 & Hf3) ?].
  assert (forall l : list Block, (forall x, x ∈ l -> x ∈ Writes (vb s) ++ seg) ->
    forall x, x ∈ l ++ [blk] -> x ∈ Writes (vb s) ++ seg) as Hsub.
  { intros l Hl x. rewrite elem_of_app, list_elem_of_singleton. intros [? | ->]; [auto|]. apply elem_of_app. by left. }
  assert (forall x, x ∈ Writes (vb s) ++ seg ++ [blk] -> x ∈ Writes (vb s) ++ seg) as Hsub'.
  { rewrite app_assoc. by apply Hsub. }
  constructor; cbn [vb world]; try done.
  - constructor; cbn [vb world]; rewrite ?Eo; try done. intros b pe Hp. destruct (Hloc b pe Hp) as (Ho & obj & d & Hd). split; [done|].
    exists obj, d. cbn [world]. rewrite Eo. exact Hd.
  - exists t. rewrite Ef. etrans; [apply lookup_insert_eq|]. rewrite Ht. cbn [default from_option]. f_equal.
    unfold id. rewrite <-app_assoc. change (WALHeader (set_wal_dirty true (vb s)) t) with (WALHeader (vb s) t). f_equal.
    change (records (set_wal_dirty true (vb s)) (seg ++ [blk])) with (records (vb s) (seg ++ [blk])).
    unfold records. rewrite fmap_app, concat_app. cbn. by rewrite app_nil_r.
  - intros n Hn. rewrite Ef, lookup_insert_ne; [by apply Hnext|]. change (WallNum (vb_WAL (vb s)) < n) in Hn.
    change (wal_path (set_wal_dirty true (vb s)) n) with (wal_path (vb s) n). intros Heq%wal_path_inj; lia.
  - apply Forall_forall. intros x Hx%Hsub'. rewrite Forall_forall in Hb. destruct (Hb x Hx). by constructor.
  - intros x e Hx%Hsub' He. specialize (Hnw x e Hx He). cbn [vb]. apply holds_app in Hnw. rewrite app_assoc.
    apply holds_app. left. by apply holds_app.
  - exists f. split; [done|]. split; [done|]. apply Forall_forall. intros x Hx%Hsub'. rewrite Forall_forall in Hf3. auto.
Qed.

Lemma flush_eta v : v <| BStore := BStore v |> <| vb_WAL := (vb_WAL v) <| wal_dirty := wal_dirty (vb_WAL v) |> |> = v.
Proof. destruct v as [? ? ? ? ? ? ? ? ? ? ? ? ? ? ? w]. by destruct w. Qed.

(** The state between two iterations of the flush. *)
Record flushing (s0 s : St) (seg dn : list Block) : Prop := {
  fl_inv : vol_inv s (seg ++ dn);
  fl_sealed : forall x e, x ∈ dn -> get_entry (BStore (vb s)) (b_Block x) = Some e -> be_State e = BlockStatePending;
  fl_same : forall b, vol_block s b = vol_block s0 b;
  fl_mono : forall b, get_entry (BStore (vb s0)) b = None -> get_entry (BStore (vb s)) b = None;
  fl_vb : exists u wd, vb s = (vb s0) <| BStore := u |> <| vb_WAL := (vb_WAL (vb s0)) <| wal_dirty := wd |> |>
}.

Lemma flush_iteration k p s0 s seg dn blk :
  flushing s0 s seg dn -> blk ∈ Writes (vb s0) -> works (S (S k)) p s ->
  post (do r <- try (WriteWAL blk); match r with
        | Err e => ret (Some e)
        | Ok _ => run modify (fun v => if UseBlockStore v then v <| BStore := (MarkPending (b_Block blk) (BStore v)).2 |> else v); ret None
        end) s (fun r s' => r = Ok None /\ flushing s0 s' seg (dn ++ [blk]) /\ works k p s').
Proof.
  intros [Hi Hsl Hsame Hmono (u & wd & Ev)] Hw Hwk. mgo.
  eapply post_mono; [apply (WriteWAL_works k p); [done|apply Hi|apply Hi]|].
  intros r s1 (-> & Ev1 & Eo1 & Hw1 & Ef1). mgo. cbn [vb world].
  assert (Writes (vb s) = Writes (vb s0)) as EW by (by rewrite Ev).
  assert (s1 = mkSt (set_wal_dirty true (vb s)) (world s1)) as Es1 by (rewrite <-Ev1; by destruct s1).
  pose proof (log_inv s (seg ++ dn) (world s1) blk Hi ltac:(by rewrite EW) Eo1 Ef1) as Hi1. rewrite <-Es1 in Hi1.
  rewrite (si_use _ (vi_store _ _ Hi1)).
  pose proof (si_shards _ (vi_store _ _ Hi1)) as Hu1. pose proof (vi_store _ _ (seal_inv s1 _ (b_Block blk) Hi1)) as Hst.
  split; [done|]. split; [|done].
  change ((vb s1) <| BStore := (MarkPending (b_Block blk) (BStore (vb s1))).2 |>) with (seal_vb (b_Block blk) (vb s1)).
  constructor.
  - rewrite app_assoc. by apply seal_inv.
  - intros x e Hx. cbn [vb]. change (BStore (seal_vb (b_Block blk) (vb s1))) with (sealed_index (b_Block blk) (BStore (vb s1))).
    intros He. pose proof (si_mem _ Hst _ _ He) as [[Hh|] _]; [exfalso|done].
    rewrite sealed_entry in He by done. destruct (get_entry (BStore (vb s1)) (b_Block x)) as [e0|] eqn:E0; [|done].
    injection He as <-. destruct (decide _) as [|Hnd]; [done|].
    apply elem_of_app in Hx as [Hx|Hx%list_elem_of_singleton].
    + rewrite Es1 in E0. rewrite (Hsl x e0 Hx E0) in Hh. done.
    + subst x. by apply Hnd.
  - intros b. rewrite seal_block_same by done. rewrite <-Hsame, Es1. unfold vol_block, loc_data. cbn [vb world]. by rewrite Eo1.
  - intros b Hb%Hmono. cbn [vb]. change (BStore (seal_vb (b_Block blk) (vb s1))) with (sealed_index (b_Block blk) (BStore (vb s1))).
    rewrite sealed_entry by done. rewrite Es1. cbn [vb]. change (BStore (set_wal_dirty true (vb s))) with (BStore (vb s)). by rewrite Hb.
  - exists (sealed_index (b_Block blk) (BStore (vb s1))), true. cbn [vb]. rewrite Ev1, Ev. by destruct (vb s0).
Qed.

Lemma flush_loop_works p s0 seg todo : forall dn k s fl n,
  flushing s0 s seg dn -> (forall x, x ∈ todo -> x ∈ Writes (vb s0)) -> works (2 * length todo + k) p s ->
  post (flush_loop WriteWAL todo fl n) s (fun r s' => flushing s0 s' seg (dn ++ todo) /\ works k p s' /\
    r = Ok (list_to_set (b_Block <$> todo) ∪ fl, (length todo + n)%nat, None)).
Proof.
  induction todo as [|blk todo IH]; intros dn k s fl n Hf Hin Hw; cbn [flush_loop].
  { mgo. rewrite app_nil_r. split; [done|]. split; [done|]. do 3 f_equal. set_solver. }
  assert (works (S (S (2 * length todo + k))) p s) as Hw' by (cbn [length] in Hw; by replace (S (S (2 * length todo + k))) with (2 * S (length todo) + k)%nat by lia).
  pose proof (flush_iteration _ p s0 s seg dn blk Hf ltac:(apply Hin; by left) Hw') as Hit.
  mgo. unfold post, bind, try in Hit |- *. destruct (WriteWAL blk s) as [[[]|e] s1]; cbn in Hit |- *; [|by destruct Hit].
  destruct Hit as (_ & Hf1 & Hw1).
  pose proof (IH (dn ++ [blk]) k _ ({[b_Block blk]} ∪ fl) (S n) Hf1 ltac:(intros; apply Hin; by right) Hw1) as H.
  unfold post in H. destruct H as (H1 & H2 & H3). rewrite <-app_assoc in H1. split; [exact H1|]. split; [exact H2|].
  etrans; [exact H3|]. do 3 f_equal; [set_solver|lia].
Qed.

(** ** The whole flush *)

Lemma filter_all {X} (f : X -> bool) l : (forall x, x ∈ l -> f x = true) -> List.filter f l = l.
Proof.
  induction l as [|x l IH]; intros H; [done|]. cbn. rewrite H by (by left). f_equal. apply IH. intros. apply H. by right.
Qed.

Lemma filter_none {X} (f : X -> bool) l : (forall x, x ∈ l -> f x = false) -> List.filter f l = [].
Proof.
  induction l as [|x l IH]; intros H; [done|]. cbn. rewrite H by (by left). apply IH. intros. apply H. by right.
Qed.

(** Blocks whose number was flushed left the buffer: all of them. *)
Lemma settle_all v : Writes (settle_flush (Writes v) (list_to_set (b_Block <$> Writes v) ∪ ∅) v) = [] /\
  PendingBackendWrites (settle_flush (Writes v) (list_to_set (b_Block <$> Writes v) ∪ ∅) v) = PendingBackendWrites v ++ Writes v.
Proof.
  assert (forall x, x ∈ Writes v -> bool_decide (b_Block x ∈ (list_to_set (b_Block <$> Writes v) ∪ ∅ : gset Z)) = true) as H.
  { intros x Hx. apply bool_decide_eq_true. rewrite union_empty_r_L, elem_of_list_to_set. apply list_elem_of_fmap. eauto. }
  unfold settle_flush. cbn [Writes PendingBackendWrites]. split.
  - cbn. destruct (decide _) as [He|Hne].
    + destruct (Writes v) as [|b l]; [done|]. exfalso. cbn in He. set_solver.
    + apply filter_none. intros x Hx. by rewrite H.
  - change (PendingBackendWrites v ++ List.filter (fun b => bool_decide (b_Block b ∈ (list_to_set (b_Block <$> Writes v) ∪ ∅ : gset Z))) (Writes v) = PendingBackendWrites v ++ Writes v).
    f_equal. by apply filter_all.
Qed.

(** Everything of the volume a flush may change. *)
Definition flushed_vb (v : VB) (u : UnifiedBlockStore) (wd : bool) : VB :=
  v <| Writes := [] |> <| PendingBackendWrites := PendingBackendWrites v ++ Writes v |>
    <| BStore := u |> <| vb_WAL := (vb_WAL v) <| wal_dirty := wd |> |>.

Lemma Flush_works k p s seg :
  vol_inv s seg -> works (2 * length (Writes (vb s)) + k) p s ->
  post Flush s (fun r s' => r = Ok tt /\ works k p s' /\ vol_inv s' (seg ++ Writes (vb s)) /\
    (exists u wd, vb s' = flushed_vb (vb s) u wd) /\
    (forall b e, get_entry (BStore (vb s')) b = Some e -> be_State e = BlockStatePending) /\
    (forall b, get_entry (BStore (vb s)) b = None -> get_entry (BStore (vb s')) b = None) /\
    forall b, vol_block s' b = vol_block s b).
Proof.
  intros Hi Hw. unfold Flush. mgo. rewrite (go_shards _ (vi_geo _ _ Hi)). unfold flushLocked. mgo.
  assert (flushing s s seg []) as H0.
  { constructor; [by rewrite app_nil_r|intros x e Hx; by inversion Hx|done|done|]. exists (BStore (vb s)), (wal_dirty (vb_WAL (vb s))). by rewrite flush_eta. }
  eapply post_mono; [apply (flush_loop_works p s seg (Writes (vb s)) [] k s ∅ 0); [done|done|done]|].
  intros r s1 ([Hi1 Hsl Hsame Hmono (u & wd & Ev)] & Hw1 & ->). cbn beta iota. mgo. rewrite app_nil_l in *.
  rewrite Nat.add_0_r, Nat.ltb_irrefl. mgo. cbn [vb world].
  destruct (settle_all (vb s)) as [EW EP].
  assert (settle_flush (Writes (vb s)) (list_to_set (b_Block <$> Writes (vb s)) ∪ ∅) (vb s1) = flushed_vb (vb s) u wd) as Ef.
  { rewrite Ev. unfold flushed_vb. rewrite <-EP. rewrite <-EW at 1. by destruct (vb s). }
  rewrite Ef. split; [done|]. split; [done|].
  assert (forall b e, get_entry u b = Some e -> be_State e = BlockStatePending) as Hpend.
  { intros b e He. assert (get_entry (BStore (vb s1)) b = Some e) as He1 by (by rewrite Ev).
    destruct (vi_mem _ _ Hi1 b e He1) as [_ [(x & Hx & Hb & _)|]]; [|done].
    subst b. apply (Hsl x e); [|done]. by rewrite Ev in Hx. }
  split; [|split; [by eauto|split; [done|split; [intros b Hb%Hmono; by rewrite Ev in Hb|]]]].
  - destruct s1 as [v1 w1]. cbn [vb world] in *. subst v1.
    destruct Hi1 as [[? ? ? ? ? Hu ? Hsm ? ?] [? ? ? ? ? ? ? ? ? ?] ? ? ? ? ? ? ? Hb Hm Hnw ? ? ? Hfl ?].
    assert (forall x, x ∈ seg ++ Writes (vb s) -> x ∈ Writes (vb s) ++ seg ++ Writes (vb s)) as Hsub
      by (intros x ?; apply elem_of_app; by right).
    constructor; try done.
    + apply Forall_forall. intros x Hx%Hsub. rewrite Forall_forall in Hb. destruct (Hb x Hx). by constructor.
    + intros b e He. destruct (Hm b e He) as [Hle _]. split; [done|]. right. by eapply Hpend.
    + intros x e Hx He. specialize (Hnw x e (Hsub x Hx) He). change (holds (seg ++ Writes (vb s)) (b_Block x) e).
      apply holds_app in Hnw as [Hnw|Hnw]; [|done]. apply holds_app. by right.
    + destruct Hfl as (f & H1 & H2 & H3). exists f. split; [done|]. split; [done|].
      apply Forall_forall. intros x Hx%Hsub. rewrite Forall_forall in H3. auto.
  - intros b. rewrite <-Hsame. unfold vol_block, loc_data. cbn [vb world]. rewrite Ev. reflexivity.
Qed.
End flush.
