(* ===== verification/UploadFacts.v ===== *)
(** * Uploading chunks

    One chunk of a drain, whatever the backend does: the object goes under a
    fresh key, the commit moves its blocks from memory to the chunk, and the
    contents of the volume do not change. *)

From S2P Require Import Prelude Words BlockMap Extents BlockStore BlockStoreFacts BlockStoreRace Crypto Paths Volume WAL Chunk ChunkFacts CommitFacts Read Blocks Inherit Content Requests ReadFacts Checkpoint CheckpointFacts SeqNum Frames Footprint Engine WALFacts VolInv FlushFacts.

Lemma sorted_lookup (l : list Z) : StronglySorted Z.lt l ->
  forall i j a c, l !! i = Some a -> l !! j = Some c -> (i < j)%nat -> a < c.
Proof.
  induction 1 as [|x l Hl IH Hall]; intros i j a c Hi Hj Hlt; [done|].
  destruct j as [|j]; [lia|]. cbn in Hj. destruct i as [|i]; cbn in Hi.
  - injection Hi as <-. rewrite Forall_forall in Hall. apply Hall. by eapply list_elem_of_lookup_2.
  - eapply IH; [done..|lia].
Qed.

(** In a sorted list without gaps in between, successors are neighbours. *)
Lemma sorted_adjacent (l : list Z) i j a :
  StronglySorted Z.lt l -> l !! i = Some a -> l !! j = Some (a + 1) -> j = S i.
Proof.
  intros Hs Hi Hj. assert (i < j)%nat as Hlt.
  { destruct (Nat.lt_trichotomy i j) as [|[<-|Hji]]; [done|rewrite Hi in Hj; injection Hj as Hj; lia|].
    pose proof (sorted_lookup l Hs j i _ _ Hj Hi Hji). lia. }
  destruct (decide (j = S i)) as [|Hne]; [done|]. exfalso.
  destruct (lookup_lt_is_Some_2 l (S i)) as [z Hz]; [apply lookup_lt_Some in Hj; lia|].
  pose proof (sorted_lookup l Hs i (S i) _ _ Hi Hz ltac:(lia)).
  pose proof (sorted_lookup l Hs (S i) j _ _ Hz Hj ltac:(lia)). lia.
Qed.

Lemma chunk_loc_mb stride idx l : forall i b, chunk_loc stride idx i (mb_of <$> l) b = chunk_loc stride idx i l b.
Proof. induction l as [|x l IH]; intros i b; [done|]. cbn. by rewrite IH. Qed.

Section upload.
Context {A : AEAD} (HA : AEADLaws A).

(** A logged block whose newest write is sealed in memory. *)
Record ready (s : St) (f : Z) (x : Block) : Prop := {
  rd_wal : wal_block (BlockSize (vb s)) x;
  rd_range : b_Block x < 2 ^ 64 - 1;
  rd_seq : f < b_SeqNum x <= SeqNum (vb s);
  rd_entry : exists e, get_entry (BStore (vb s)) (b_Block x) = Some e /\ be_State e = BlockStatePending /\
    be_SeqNum e = b_SeqNum x /\ be_Data e = b_Data x
}.

(** What the uploads of a drain may change in the volume. *)
Definition drained_vb (m : gmap Z BlockLookup) (g : gmap Z Z) (u : UnifiedBlockStore) (pbw : list Block)
    (pb : Z) (d : bool) (n : Z) (v : VB) : VB :=
  v <| BlocksToObject := m |> <| gcRefcount := g |> <| BStore := u |> <| PendingBackendWrites := pbw |>
    <| pendingBytes := pb |> <| bto_dirty := d |> <| ObjectNum := n |>.

(** ** The commit *)

Section commit.
Context (s : St) (idx f : Z) (l : list Block) (Hi : vol_inv s []) (HW : Writes (vb s) = [])
  (Hready : forall x, x ∈ l -> ready s f x) (Hsorted : StronglySorted Z.lt (b_Block <$> l))
  (Hobj : objects (world s) !! chunk_key (vb s) idx = Some (ChunkHeader (vb s) ++ List.concat (slot (vb s) <$> l)))
  (Hfresh : forall b x, LookupBlockToObject (blockStride (vb s)) (BlocksToObject (vb s)) b = Some x -> x.1.1 < idx)
  (Hidx : 0 <= idx < ObjectNum (vb s))
  (m : gmap Z BlockLookup) (u : UnifiedBlockStore)
  (Hp : published (blockStride (vb s)) (BlocksToObject (vb s)) m (BStore (vb s)) u (chunk_loc (blockStride (vb s)) idx 0 l))
  (g : gmap Z Z) (Hg : GCEnabled (vb s) = true -> rc_exact g m) (pbw : list Block) (pb : Z) (d : bool).

Abbreviation s' := (mkSt (drained_vb m g u pbw pb d (ObjectNum (vb s)) (vb s)) (world s)).
Abbreviation L := (chunk_loc (blockStride (vb s)) idx 0 l).

(** The bytes behind a location of the new chunk. *)
Lemma new_stored b x : L b = Some x ->
  exists y, y ∈ l /\ b_Block y = b /\ x.2 = b_SeqNum y /\ x.1.1 = idx /\ 0 <= x.1.2 /\
    stored_block (vb s) (ChunkHeader (vb s) ++ List.concat (slot (vb s) <$> l)) x.1.2 x.2 b = Some (b_Data y).
Proof.
  intros (j & y & Hj & <- & ->)%chunk_loc_Some. exists y. pose proof (list_elem_of_lookup_2 _ _ _ Hj) as Hy.
  pose proof (si_pos _ (vi_store _ _ Hi)). split; [done|]. split; [done|]. split; [done|]. split; [done|]. cbn.
  split; [unfold ChunkHeaderSize; nia|]. apply stored_slot; [done|apply Hi|apply Hi| |done].
  apply Forall_forall. intros z Hz. apply (rd_wal _ _ _ (Hready z Hz)).
Qed.

Lemma commit_loc_ok b pe : readPersisted (persistedExtents u) b = Some pe -> loc_ok s' b pe.
Proof.
  rewrite (pu_read _ _ _ _ _ _ Hp). destruct (L b) as [x|] eqn:E.
  - intros [= <-]. destruct (new_stored b x E) as (y & Hy & Hb & Hx & Hid & Ho & Hs). split; [exact Ho|].
    exists (ChunkHeader (vb s) ++ List.concat (slot (vb s) <$> l)), (b_Data y).
    split; [cbn [entry_of be_ObjectID]; rewrite Hid; exact Hobj|]. split; [exact Hs|].
    split; [apply (rd_wal _ _ _ (Hready y Hy))|]. intros He.
    pose proof (go_vbce _ (vi_geo _ _ Hi) He) as Hm. unfold ChunkHeader. rewrite <-app_assoc, Hm.
    by rewrite slice_app_l.
  - intros Hr. apply (si_loc _ (vi_store _ _ Hi) b pe Hr).
Qed.

Lemma commit_layout b p q :
  readPersisted (persistedExtents u) b = Some p -> readPersisted (persistedExtents u) (b + 1) = Some q ->
  be_ObjectID q = be_ObjectID p -> be_ObjectOffset q = be_ObjectOffset p + blockStride (vb s).
Proof.
  assert (forall b r, readPersisted (persistedExtents (BStore (vb s))) b = Some r -> be_ObjectID r < idx) as Hlow.
  { intros c r. rewrite (vi_agree _ _ Hi). destruct (LookupBlockToObject _ _ c) as [x|] eqn:E; [|done].
    intros [= <-]. by eapply Hfresh. }
  rewrite !(pu_read _ _ _ _ _ _ Hp). destruct (L b) as [x|] eqn:Ex, (L (b + 1)) as [y|] eqn:Ey.
  - intros [= <-] [= <-] _. apply chunk_loc_Some in Ex as (i & bi & Hi' & Hb & ->), Ey as (j & bj & Hj & Hb' & ->).
    assert (j = S i) as ->; [|cbn; lia]. apply (sorted_adjacent (b_Block <$> l) i j b); [done|..];
      rewrite list_lookup_fmap, ?Hi', ?Hj; cbn; by f_equal.
  - intros [= <-] Hq%Hlow Hid. apply chunk_loc_Some in Ex as (i & bi & _ & _ & ->). cbn in Hid. lia.
  - intros Hq%Hlow [= <-] Hid. apply chunk_loc_Some in Ey as (i & bi & _ & _ & ->). cbn in Hid. lia.
  - apply (si_layout _ (vi_store _ _ Hi)).
Qed.

Lemma commit_inv : vol_inv s' [].
Proof.
  pose proof commit_loc_ok as Hloc. pose proof commit_layout as Hlay. pose proof new_stored as Hnew.
  destruct Hp as [Pm Ps Pe Pl Pr Pg].
  destruct Hi as [[? ? ? ? ? Hu ? Hsm ? ?] [? ? ? ? ? ? ? ? ? ?] ? ? ? ? ? ? ? Hb Hm Hnw ? Hag Ho (fl & Hf1 & Hf2 & _) [_ Hgf]].
  constructor; cbn [vb world]; try done.
  - constructor; try done. intros b e. change (BStore (vb s')) with u. rewrite Pg. destruct (L b); [done|]. apply Hsm.
  - change (Forall (buffered (vb s')) (Writes (vb s) ++ [])). by rewrite HW.
  - intros b e. change (BStore _) with u. rewrite Pg. destruct (L b); [done|]. apply Hm.
  - intros x e Hx. change (x ∈ Writes (vb s) ++ []) in Hx. rewrite HW in Hx. inversion Hx.
  - intros b. change (readPersisted (persistedExtents u) b = entry_of <$> LookupBlockToObject (blockStride (vb s)) m b).
    rewrite Pr, Pl. destruct (L b); [done|]. apply Hag.
  - intros b x. change (LookupBlockToObject (blockStride (vb s)) m b = Some x -> 0 <= x.1.1 < ObjectNum (vb s)).
    rewrite Pl. destruct (L b) as [y|] eqn:E; [|apply Ho]. intros [= <-]. destruct (Hnew b y E) as (_ & _ & _ & _ & -> & _). lia.
  - exists (SeqNum (vb s)). split; [change (SeqNum (vb s) <= SeqNum (vb s)); lia|].
    split; [|change (Forall (fun blk => SeqNum (vb s) < b_SeqNum blk) (Writes (vb s) ++ [])); by rewrite HW].
    intros b x. change (LookupBlockToObject (blockStride (vb s)) m b = Some x -> x.2 <= SeqNum (vb s)).
    rewrite Pl. destruct (L b) as [y|] eqn:E; [|intros Hx; specialize (Hf2 b x Hx); lia].
    intros [= <-]. destruct (Hnew b y E) as (z & Hz & _ & -> & _). apply (rd_seq _ _ _ (Hready z Hz)).
Qed.

Lemma commit_block b : vol_block s' b = vol_block s b.
Proof.
  unfold vol_block, loc_data. cbn [vb world]. change (BStore (drained_vb _ _ _ _ _ _ _ _)) with u.
  rewrite (pu_entry _ _ _ _ _ _ Hp), (pu_read _ _ _ _ _ _ Hp). destruct (L b) as [x|] eqn:E.
  - destruct (new_stored b x E) as (y & Hy & <- & Hx & Hid & _ & Hs). cbn [entry_of be_ObjectID be_ObjectOffset be_SeqNum].
    destruct (rd_entry _ _ _ (Hready y Hy)) as (e & He & _ & _ & Hd). rewrite Hid, He, Hd.
    change (chunk_key (drained_vb _ _ _ _ _ _ _ (vb s)) idx) with (chunk_key (vb s) idx). rewrite Hobj.
    change (stored_block (drained_vb _ _ _ _ _ _ _ (vb s))) with (stored_block (vb s)). by rewrite Hs.
  - reflexivity.
Qed.

Lemma commit_ready x : ready s f x -> b_Block x ∉ (b_Block <$> l) -> ready s' f x.
Proof.
  intros [? ? ? (e & He & ?)] Hx. constructor; try done. exists e. split; [|done].
  change (get_entry u (b_Block x) = Some e). rewrite (pu_entry _ _ _ _ _ _ Hp).
  by rewrite (proj2 (chunk_loc_None _ _ _ _ _) Hx).
Qed.
End commit.

(** ** The upload *)

(** A write under the key of an object nothing points to. *)
Lemma put_frame s seg w n :
  vol_inv s seg -> ObjectNum (vb s) <= n -> files w = files (world s) ->
  (forall k, k <> chunk_key (vb s) (ObjectNum (vb s)) -> objects w !! k = objects (world s) !! k) ->
  let s' := mkSt ((vb s) <| ObjectNum := n |>) w in
  vol_inv s' seg /\ (forall b, vol_block s' b = vol_block s b) /\ forall f x, ready s f x -> ready s' f x.
Proof.
  intros Hi Hn Hf Ho. cbv zeta.
  assert (forall b pe, readPersisted (persistedExtents (BStore (vb s))) b = Some pe ->
    objects w !! chunk_key (vb s) (be_ObjectID pe) = objects (world s) !! chunk_key (vb s) (be_ObjectID pe)) as Hk.
  { intros b pe Hr. apply Ho. rewrite (vi_agree _ _ Hi) in Hr.
    destruct (LookupBlockToObject _ _ b) as [x|] eqn:E; [|done]. injection Hr as <-.
    pose proof (vi_obj _ _ Hi b x E). intros Heq%chunk_key_inj; cbn in *; [lia..|apply Hi]. }
  assert (others_same (VolumeName (vb s)) (objects (world s)) (objects w)) as Hoth by (apply (others_key _ _ _ (chunk_key (vb s) (ObjectNum (vb s)))); [apply own_chunk_key|done]).
  split; [|split; [|intros f x [? ? ? ?]; by constructor]].
  - destruct Hi as [[? ? ? ? ? ? ? ? Hl ?] [? ? ? ? ? ? ? ? ? ?] ? ? ? ? ? ? Hnx Hb ? ? ? ? Hob ? ?].
    constructor; cbn [vb world]; rewrite ?Hf; try done.
    + constructor; try done; [by apply (others_wf (vb s) (objects (world s)))|]. intros b pe Hr. destruct (Hl b pe Hr) as (? & obj & dd & Hd). split; [done|].
      exists obj, dd. cbn [world vb]. change (chunk_key _ (be_ObjectID pe)) with (chunk_key (vb s) (be_ObjectID pe)). by rewrite (Hk b).
    + change (0 <= n). lia.
    + eapply Forall_impl; [exact Hb|]. intros x [? ? ? ?]. by constructor.
    + intros b x Hx. specialize (Hob b x Hx). change (0 <= x.1.1 < n). lia.
  - intros b. unfold vol_block, loc_data. cbn [vb world]. change (BStore _) with (BStore (vb s)).
    destruct (get_entry _ b); [done|]. destruct (readPersisted _ b) as [pe|] eqn:E; [|by apply (others_data (vb s)); [|apply Hi]].
    change (chunk_key ((vb s) <| ObjectNum := n |>) (be_ObjectID pe)) with (chunk_key (vb s) (be_ObjectID pe)).
    by rewrite (Hk b).
Qed.
End upload.
