(* ===== verification/DrainFacts.v ===== *)
(** * Draining preserves the contents

    The uploads of a drain in any order, with any of them failing; the rotation
    of the log before them and the live checkpoint after them. A reader of the
    volume cannot tell whether a drain ran. *)

From S2P Require Import Prelude Words BlockMap Extents BlockStore BlockStoreFacts BlockStoreRace Crypto Paths Volume WAL Chunk ChunkFacts CommitFacts Read Blocks Inherit Content Requests ReadFacts Checkpoint CheckpointFacts SeqNum Frames Footprint Engine WALFacts VolInv FlushFacts UploadFacts.

Section drain.
Context {A : AEAD} (HA : AEADLaws A) {S : StateJSON}.

(** A backend write touches one key; when it returns nil, the object is there. *)
Lemma post_backend_Write t id h d s Q :
  (forall r s', vb s' = vb s -> files (world s') = files (world s) -> (calm s -> calm s' /\ r = Ok tt) ->
    (forall k, k <> GetFilePath t id (VolumeName (vb s)) -> objects (world s') !! k = objects (world s) !! k) ->
    (r = Ok tt -> objects (world s') !! GetFilePath t id (VolumeName (vb s)) = Some (h ++ d)) -> Q r s') ->
  post (backend_Write t id h d) s Q.
Proof.
  intros H. unfold backend_Write, backend_WriteTo. do 3 mstep. apply post_next_calm. intros o s' (Ev & Ef & Eo) Hc. cbn zeta.
  destruct o as [|e [|k]|k]; mgo; apply H; cbn [vb world files objects with_objects]; rewrite ?Ef, ?Eo; try done;
    try (intros x Hx; by rewrite lookup_insert_ne by done); try (intros; by rewrite lookup_insert_eq);
    intros Hcalm; destruct (Hc Hcalm); done.
Qed.

(** ** What a drain keeps *)

(** Buffered bytes not accounted for. *)
Definition acct (v : VB) : Z :=
  pendingBytes v - sumZ ((fun b => blen (b_Data b)) <$> Writes v) - sumZ ((fun b => blen (b_Data b)) <$> PendingBackendWrites v).

Record progress (s s' : St) : Prop := {
  pr_block : forall b, vol_block s' b = vol_block s b;
  pr_vb : exists m g u pbw pb d n, vb s' = drained_vb m g u pbw pb d n (vb s);
  pr_files : files (world s') = files (world s);
  pr_mono : forall b, get_entry (BStore (vb s)) b = None -> get_entry (BStore (vb s')) b = None;
  pr_acct : acct (vb s') = acct (vb s);
  pr_pend : forall x, x ∈ PendingBackendWrites (vb s') -> x ∈ PendingBackendWrites (vb s);
  pr_dirty : bto_dirty (vb s) = true -> bto_dirty (vb s') = true;
  pr_other : forall k, (forall i, k <> chunk_key (vb s) i) -> objects (world s') !! k = objects (world s) !! k;
  pr_num : ObjectNum (vb s) <= ObjectNum (vb s');
  pr_low : forall i, 0 <= i < ObjectNum (vb s) ->
    objects (world s') !! chunk_key (vb s) i = objects (world s) !! chunk_key (vb s) i
}.

Lemma progress_refl s : progress s s.
Proof.
  constructor; try done.
  exists (BlocksToObject (vb s)), (gcRefcount (vb s)), (BStore (vb s)), (PendingBackendWrites (vb s)),
    (pendingBytes (vb s)), (bto_dirty (vb s)), (ObjectNum (vb s)). by destruct (vb s).
Qed.

Lemma progress_trans s1 s2 s3 : progress s1 s2 -> progress s2 s3 -> progress s1 s3.
Proof.
  intros [B1 (m & g & u & pbw & pb & d & n & V1) F1 M1 A1 P1 D1 O1 N1 L1] [B2 (m' & g' & u' & pbw' & pb' & d' & n' & V2) F2 M2 A2 P2 D2 O2 N2 L2].
  assert (forall i, chunk_key (vb s2) i = chunk_key (vb s1) i) as K by (intros; by rewrite V1).
  constructor; [intros; by rewrite B2, B1| |congruence|auto|congruence|auto|auto| |lia|].
  - exists m', g', u', pbw', pb', d', n'. by rewrite V2, V1.
  - intros k Hk. rewrite O2, O1; [done|done|]. intros i. rewrite K. apply Hk.
  - intros i Hi. rewrite <-K, L2 by lia. rewrite K. by apply L1.
Qed.

Lemma sum_split {X} (h : X -> bool) (w : X -> Z) l :
  sumZ (w <$> List.filter h l) + sumZ (w <$> List.filter (fun x => negb (h x)) l) = sumZ (w <$> l).
Proof. induction l as [|x l IH]; [done|]. cbn. unfold sumZ in *. destruct (h x); cbn; lia. Qed.

Lemma sum_app {X} (w : X -> Z) l1 l2 : sumZ (w <$> l1 ++ l2) = sumZ (w <$> l1) + sumZ (w <$> l2).
Proof. induction l1 as [|x l IH]; [done|]. cbn. unfold sumZ in *. cbn. lia. Qed.

Lemma release_acct mb v : acct (release_pending mb v) = acct v.
Proof.
  unfold acct, release_pending. cbn -[sumZ].
  set (hit := fun b => bool_decide (b_Block b ∈ b_Block <$> mb)).
  pose proof (sum_split hit (fun b => blen (b_Data b)) (PendingBackendWrites v)) as H.
  change (pendingBytes v - sumZ ((fun b => blen (b_Data b)) <$> List.filter hit (PendingBackendWrites v))
    - sumZ ((fun b => blen (b_Data b)) <$> Writes v)
    - sumZ ((fun b => blen (b_Data b)) <$> List.filter (fun b => negb (hit b)) (PendingBackendWrites v)) =
    pendingBytes v - sumZ ((fun b => blen (b_Data b)) <$> Writes v) - sumZ ((fun b => blen (b_Data b)) <$> PendingBackendWrites v)).
  lia.
Qed.

(** ** Jobs *)

Abbreviation job := (bytes * list Block)%type.
Definition job_blocks (jobs : list job) : list Z := List.concat ((fun j : job => b_Block <$> j.2) <$> jobs).

Record job_ok (s : St) (f : Z) (j : job) (l : list Block) : Prop := {
  jo_job : job_of j l;
  jo_sorted : StronglySorted Z.lt (b_Block <$> l);
  jo_len : Z.of_nat (length l) <= ObjBlockSize (vb s) / BlockSize (vb s) + 1;
  jo_ready : forall x, x ∈ l -> ready s f x
}.

(** The jobs still queued, over a volume whose older objects are below [n0]. *)
Record uploading (s : St) (n0 f : Z) (jobs : list job) : Prop := {
  ul_inv : vol_inv s [];
  ul_W : Writes (vb s) = [];
  ul_old : older (blockStride (vb s)) n0 f (job_blocks jobs) (BlocksToObject (vb s));
  ul_n0 : n0 <= ObjectNum (vb s);
  ul_jobs : forall j, j ∈ jobs -> exists l, job_ok s f j l;
  ul_nodup : NoDup (job_blocks jobs)
}.

Lemma job_blocks_cons j jobs : job_blocks (j :: jobs) = (b_Block <$> j.2) ++ job_blocks jobs.
Proof. done. Qed.

Lemma job_blocks_in j jobs b : j ∈ jobs -> b ∈ b_Block <$> j.2 -> b ∈ job_blocks jobs.
Proof.
  intros Hj Hb. unfold job_blocks. rewrite list_elem_of_In, in_concat. exists (b_Block <$> j.2).
  rewrite <-!list_elem_of_In. split; [|done]. apply list_elem_of_fmap. eauto.
Qed.

(** A job may be dropped from the queue at any time. *)
Lemma uploading_skip s n0 f j jobs : uploading s n0 f (j :: jobs) -> uploading s n0 f jobs.
Proof.
  intros [? ? Ho ? Hj Hn]. rewrite job_blocks_cons in Ho, Hn. constructor; try done.
  - intros b x Hx. destruct (Ho b x Hx) as [?|[? Hni]]; [by left|right]. split; [done|]. set_solver.
  - intros j' Hj'. apply Hj. by right.
  - by apply NoDup_app in Hn as (_ & _ & ?).
Qed.

(** A new object, not yet committed. *)
Lemma put_uploading s s1 n0 f jobs :
  uploading s n0 f jobs -> vb s1 = (vb s) <| ObjectNum := ObjectNum (vb s) + 1 |> ->
  files (world s1) = files (world s) ->
  (forall k, k <> chunk_key (vb s) (ObjectNum (vb s)) -> objects (world s1) !! k = objects (world s) !! k) ->
  uploading s1 n0 f jobs /\ progress s s1.
Proof.
  intros [Hi HW Ho Hn Hj Hnd] Ev Ef Eo. destruct s1 as [v1 w1]. cbn [vb world] in *. subst v1.
  destruct (put_frame s [] w1 (ObjectNum (vb s) + 1) Hi ltac:(lia) Ef Eo) as (Hi1 & Hb & Hr). split.
  - constructor; try done.
    + change (n0 <= ObjectNum (vb s) + 1). lia.
    + intros j Hjj. destruct (Hj j Hjj) as [l [? ? ? Hl]]. exists l. constructor; try done. intros x Hx. by apply Hr, Hl.
  - constructor; try done.
    + exists (BlocksToObject (vb s)), (gcRefcount (vb s)), (BStore (vb s)), (PendingBackendWrites (vb s)),
        (pendingBytes (vb s)), (bto_dirty (vb s)), (ObjectNum (vb s) + 1). cbn [vb]. by destruct (vb s).
    + intros k Hk. apply Eo. apply Hk.
    + change (ObjectNum (vb s) <= ObjectNum (vb s) + 1). lia.
    + intros i Hi0. apply Eo. intros E%chunk_key_inj; lia.
Qed.

(** Committing the next job publishes its blocks, whether or not the object is
    still there. *)
Lemma commit_job_publishes s n0 f j jobs l idx :
  uploading s n0 f (j :: jobs) -> job_ok s f j l -> n0 <= idx ->
  exists m g u, commit_chunk idx j.2 (vb s) = (upd_map m g u (release_pending j.2 (vb s))) <| bto_dirty := true |> /\
    published (blockStride (vb s)) (BlocksToObject (vb s)) m (BStore (vb s)) u (chunk_loc (blockStride (vb s)) idx 0 l) /\
    (refs_ok (vb s) -> GCEnabled (vb s) = true -> rc_exact g m).
Proof.
  intros [Hi HW Ho Hn Hj Hnd] [(_ & Ej & _) Hsrt Hlen Hrd] Hn0. rewrite job_blocks_cons in Ho, Hnd.
  destruct (vi_store _ _ Hi) as [? Hpos ? ? ? Hu He _ _ _]. rewrite Ej, mb_blocks in *.
  pose proof (go_blocks _ (vi_geo _ _ Hi)) as Hgb. pose proof (go_bytes _ (vi_geo _ _ Hi)) as Hgy.
  destruct (commit_publishes (vb s) idx n0 f (mb_of <$> l) ((b_Block <$> l) ++ job_blocks jobs)) as (m & g & u & Ec & Hp & Hrf); try done.
  - by apply Hi.
  - apply (mb_forall (fun b _ => 0 <= b < 2 ^ 64 - 1)). intros x Hx. destruct (Hrd x Hx) as [Hw ? _ _]. destruct Hw. wsolve.
  - rewrite mb_blocks. by apply NoDup_app in Hnd as (? & _ & _).
  - apply (mb_forall (fun b _ => b ∈ (b_Block <$> l) ++ job_blocks jobs)). intros x Hx. apply elem_of_app. left. apply list_elem_of_fmap. eauto.
  - apply (mb_forall (fun _ q => f < q)). intros x Hx. apply (rd_seq _ _ _ (Hrd x Hx)).
  - rewrite length_fmap. lia.
  - rewrite length_fmap. nia.
  - apply (mb_forall (fun b q => is_sealed (BStore (vb s)) b q = true)). intros x Hx.
    destruct (rd_entry _ _ _ (Hrd x Hx)) as (e & He' & Hst & Hq & _). unfold is_sealed.
    by rewrite He', Hq, Z.eqb_refl, bool_decide_eq_true_2.
  - exists m, g, u. split; [done|]. split; [|done].
    destruct Hp as [? ? ? P1 P2 P3]. constructor; try done; intros b; rewrite <-(chunk_loc_mb _ _ l); auto.
Qed.

(** The commit of an uploaded chunk. *)
Lemma commit_uploading s n0 f j jobs l idx :
  uploading s n0 f (j :: jobs) -> job_ok s f j l -> n0 <= idx -> 0 <= idx < ObjectNum (vb s) ->
  (forall b x, LookupBlockToObject (blockStride (vb s)) (BlocksToObject (vb s)) b = Some x -> x.1.1 < idx) ->
  objects (world s) !! chunk_key (vb s) idx = Some (ChunkHeader (vb s) ++ List.concat (slot (vb s) <$> l)) ->
  let s' := mkSt (commit_chunk idx j.2 (vb s)) (world s) in
  uploading s' n0 f jobs /\ progress s s' /\ ObjectNum (vb s') = ObjectNum (vb s) /\ bto_dirty (vb s') = true /\
  (forall b, b ∈ b_Block <$> j.2 -> get_entry (BStore (vb s')) b = None) /\
  (forall x, x ∈ PendingBackendWrites (vb s') -> b_Block x ∉ (b_Block <$> j.2)).
Proof.
  intros Hul Hjo Hn0 Hidx Hfr Hobj. destruct (commit_job_publishes s n0 f j jobs l idx Hul Hjo Hn0) as (m & g & u & Ec & Hp' & Hrf).
  destruct Hjo as [(_ & Ej & _) Hsrt Hlen Hrd]. destruct Hul as [Hi HW Ho Hn Hj Hnd].
  rewrite job_blocks_cons in Ho, Hnd. destruct (vi_store _ _ Hi) as [? Hpos ? ? ? Hu He _ _ _].
  rewrite Ej, mb_blocks in *.
  set (pbw := PendingBackendWrites (release_pending (mb_of <$> l) (vb s))).
  set (pb := pendingBytes (release_pending (mb_of <$> l) (vb s))).
  assert (commit_chunk idx (mb_of <$> l) (vb s) = drained_vb m g u pbw pb true (ObjectNum (vb s)) (vb s)) as Ec'.
  { rewrite Ec. unfold upd_map, drained_vb, release_pending. by destruct (vb s). }
  cbv zeta. rewrite Ec'.
  pose proof (commit_inv HA s idx f l Hi HW Hrd Hsrt Hobj Hfr Hidx m u Hp' g (Hrf (proj1 (vi_refs _ _ Hi))) pbw pb true) as Hi'.
  assert (forall b, b ∈ b_Block <$> l -> get_entry u b = None) as Hgone.
  { intros b Hb. rewrite (pu_entry _ _ _ _ _ _ Hp'). destruct (chunk_loc _ _ _ l b) eqn:E; [done|].
    exfalso. by apply chunk_loc_None in E. }
  split; [|split; [|split; [done|split; [done|split; [done|]]]]].
  + constructor; try done.
    * intros b x. change (LookupBlockToObject (blockStride (vb s)) m b = Some x -> (x.1.1 < n0 /\ x.2 <= f) \/ (n0 <= x.1.1 /\ b ∉ job_blocks jobs)).
      rewrite (pu_lookup _ _ _ _ _ _ Hp'). destruct (chunk_loc _ _ _ l b) as [y|] eqn:E.
      -- intros [= <-]. right. apply chunk_loc_Some in E as (i & z & Hz & <- & ->). split; [done|].
         apply NoDup_app in Hnd as (_ & Hd & _). apply Hd. apply list_elem_of_fmap. exists z. split; [done|]. by eapply list_elem_of_lookup_2.
      -- intros Hx. destruct (Ho b x Hx) as [?|[? Hni]]; [by left|right]. split; [done|]. set_solver.
    * intros j' Hj'. destruct (Hj j') as [l' [Hjb Hs' Hl' Hr']]; [by right|]. exists l'. constructor; try done.
      intros x Hx. apply (commit_ready s idx f l m u Hp'); [by apply Hr'|]. intros Hin.
      apply NoDup_app in Hnd as (_ & Hd & _). apply (Hd _ Hin). eapply job_blocks_in; [done|].
      destruct Hjb as (_ & -> & _). rewrite <-list_fmap_compose. apply list_elem_of_fmap. eauto.
    * by apply NoDup_app in Hnd as (_ & _ & ?).
  + constructor; try done.
    * intros b. by apply (commit_block HA s idx f l Hi Hrd Hobj m u Hp').
    * eexists _, _, _, _, _, _, _. reflexivity.
    * intros b Hb. change (get_entry u b = None). rewrite (pu_entry _ _ _ _ _ _ Hp'), Hb. by destruct (chunk_loc _ _ _ l b).
    * rewrite <-(release_acct (mb_of <$> l) (vb s)). reflexivity.
    * intros x Hx. change (x ∈ List.filter (fun b => negb (bool_decide (b_Block b ∈ b_Block <$> (mb_of <$> l)))) (PendingBackendWrites (vb s))) in Hx.
      apply list_elem_of_In, filter_In in Hx as [Hx _]. by apply list_elem_of_In.
  + intros x Hx. change (x ∈ List.filter (fun b => negb (bool_decide (b_Block b ∈ b_Block <$> (mb_of <$> l)))) (PendingBackendWrites (vb s))) in Hx.
    apply list_elem_of_In, filter_In in Hx as [_ Hx]. rewrite mb_blocks in Hx. by destruct (bool_decide_reflect (b_Block x ∈ b_Block <$> l)).
Qed.

(** ** One job, then all of them *)

(** What is known after some jobs of a drain ran. *)
Record ran (s s' : St) (n0 f : Z) (jobs rest : list job) (ok : Prop) : Prop := {
  rn_ul : uploading s' n0 f rest;
  rn_pr : progress s s';
  rn_num : ObjectNum (vb s) <= ObjectNum (vb s') <= ObjectNum (vb s) + Z.of_nat (length jobs);
  rn_calm : calm s -> calm s' /\ ok;
  rn_dirty : ok -> jobs <> [] -> bto_dirty (vb s') = true;
  rn_gone : ok -> forall b, b ∈ job_blocks jobs -> get_entry (BStore (vb s')) b = None;
  rn_free : ok -> forall x, x ∈ PendingBackendWrites (vb s') -> b_Block x ∉ job_blocks jobs
}.

Lemma createChunkFile_step s n0 f j jobs :
  uploading s n0 f (j :: jobs) -> ObjectNum (vb s) + 1 < 2 ^ 64 ->
  post (createChunkFile j.1 j.2) s (fun r s' => ran s s' n0 f [j] jobs (r = Ok tt)).
Proof.
  intros Hul Hnum. pose proof (ul_inv _ _ _ _ Hul) as Hi. pose proof (vi_objpos _ _ Hi) as Hpos.
  destruct (ul_jobs _ _ _ _ Hul j ltac:(by left)) as [l Hl].
  assert (Forall (fun b => blen (b_Data b) = BlockSize (vb s)) l) as Hlen.
  { apply Forall_forall. intros x Hx. apply (rd_wal _ _ _ (jo_ready _ _ _ _ Hl x Hx)). }
  unfold createChunkFile, put_chunk. mgo. cbn zeta. rewrite (u64_small (ObjectNum (vb s) + 1)) by wsolve.
  rewrite (chunk_body_slots (vb s) j l) by (try done; apply Hl). mgo.
  apply post_backend_Write. cbn [vb world]. intros r s1 Ev Ef Hc Ho Hok.
  destruct (put_uploading s s1 n0 f (j :: jobs) Hul Ev Ef Ho) as [Hul1 Hpr1].
  assert (ObjectNum (vb s1) = ObjectNum (vb s) + 1) as En by (by rewrite Ev).
  destruct r as [[]|e]; mgo.
  2:{ constructor; try done; [by eapply uploading_skip|cbn; lia]. }
  destruct (commit_uploading s1 n0 f j jobs l (ObjectNum (vb s))) as (Hul2 & Hpr2 & En2 & Hd & Hg & Hfr).
  - done.
  - destruct Hl as [? ? Hl' Hr]. constructor; try done; [by rewrite Ev|]. intros x Hx. destruct (Hr x Hx) as [? ? ? ?].
    constructor; by rewrite ?Ev.
  - apply Hul.
  - lia.
  - intros b x. rewrite Ev. apply (vi_obj _ _ Hi).
  - rewrite Ev. by apply Hok.
  - constructor; cbn [vb world].
    + done.
    + by eapply progress_trans.
    + change (ObjectNum (vb s) <= ObjectNum (commit_chunk (ObjectNum (vb s)) j.2 (vb s1)) <= ObjectNum (vb s) + 1).
      cbn [vb] in En2. lia.
    + intros Hcs. by destruct (Hc Hcs).
    + intros _ _. exact Hd.
    + intros _ b. rewrite job_blocks_cons, app_nil_r. apply Hg.
    + intros _ x. rewrite job_blocks_cons, app_nil_r. apply Hfr.
Qed.

Lemma ran_refl s n0 f jobs (ok : Prop) : uploading s n0 f jobs -> ok -> ran s s n0 f [] jobs ok.
Proof.
  intros. constructor; try done; [apply progress_refl|cbn; lia|intros _ b Hb; inversion Hb|]. intros _ x _ Hb. inversion Hb.
Qed.

Lemma ran_trans s1 s2 s3 n0 f j jobs rest1 rest2 (ok1 ok2 ok : Prop) :
  ran s1 s2 n0 f [j] rest1 ok1 -> ran s2 s3 n0 f jobs rest2 ok2 -> (ok -> ok1 /\ ok2) -> (ok1 -> ok2 -> ok) ->
  ran s1 s3 n0 f (j :: jobs) rest2 ok.
Proof.
  intros [U1 P1 N1 C1 D1 G1 F1] [U2 P2 N2 C2 D2 G2 F2] Hok Hok'. constructor; try done.
  - by eapply progress_trans.
  - cbn [length] in *. lia.
  - intros Hc. destruct (C1 Hc) as [Hc2 ?]. destruct (C2 Hc2). auto.
  - intros [H1 H2]%Hok _. destruct jobs; [|by apply D2]. apply (pr_dirty _ _ P2). by apply D1.
  - intros [H1 H2]%Hok b. rewrite job_blocks_cons. intros [Hb|Hb]%elem_of_app; [|by apply G2].
    apply (pr_mono _ _ P2), G1; [done|]. by rewrite job_blocks_cons, app_nil_r.
  - intros [H1 H2]%Hok x Hx. rewrite job_blocks_cons, elem_of_app. intros [Hb|Hb]; [|by eapply F2].
    eapply F1; [done|by apply (pr_pend _ _ P2)|]. by rewrite job_blocks_cons, app_nil_r.
Qed.

Lemma uploading_nil s n0 f jobs : uploading s n0 f jobs -> uploading s n0 f [].
Proof. induction jobs as [|j jobs IH]; [done|]. intros H. by eapply IH, uploading_skip. Qed.

(** The queue once a job failed: whatever runs, nothing is lost. *)
Lemma late_jobs_ran n0 f jobs : forall late s,
  uploading s n0 f jobs -> ObjectNum (vb s) + Z.of_nat (length jobs) < 2 ^ 64 ->
  post (late_jobs late jobs) s (fun r s' => uploading s' n0 f [] /\ progress s s' /\
    ObjectNum (vb s) <= ObjectNum (vb s') <= ObjectNum (vb s) + Z.of_nat (length jobs)).
Proof.
  assert (forall jobs s, uploading s n0 f jobs -> post (ret tt) s (fun (r : result error unit) s' => uploading s' n0 f [] /\ progress s s' /\
    ObjectNum (vb s) <= ObjectNum (vb s') <= ObjectNum (vb s) + Z.of_nat (length jobs))) as Hstop.
  { intros jobs' s Hul. mgo. split; [by eapply uploading_nil|]. split; [apply progress_refl|lia]. }
  induction jobs as [|[buf mb] jobs IH]; intros late s Hul Hn.
  { destruct late; by apply (Hstop []). }
  destruct late as [|runs late]; cbn [late_jobs]; [by apply Hstop|]. cbn [length] in *. mstep.
  destruct runs; mgo.
  - eapply post_mono; [apply (createChunkFile_step s n0 f (buf, mb) jobs Hul); lia|].
    intros r s1 [Hul1 Hpr1 Hn1 _ _ _ _]. cbn [length] in Hn1. mgo.
    eapply post_mono; [apply (IH late s1 Hul1); lia|]. intros r' s2 (Hul2 & Hpr2 & Hn2).
    split; [done|]. split; [by eapply progress_trans|lia].
  - eapply post_mono; [apply (IH late s); [by eapply uploading_skip|lia]|]. intros r' s2 (Hul2 & Hpr2 & Hn2).
    split; [done|]. split; [done|lia].
Qed.

Lemma upload_jobs_ran late n0 f jobs : forall s,
  uploading s n0 f jobs -> ObjectNum (vb s) + Z.of_nat (length jobs) < 2 ^ 64 ->
  post (upload_jobs late jobs) s (fun r s' => ran s s' n0 f jobs [] (r = Ok tt)).
Proof.
  induction jobs as [|[buf mb] jobs IH]; intros s Hul Hn; cbn [upload_jobs].
  { mgo. by apply ran_refl. }
  cbn [length] in *. mgo. eapply post_mono; [apply (createChunkFile_step s n0 f (buf, mb) jobs Hul); lia|].
  intros r s1 Hran. pose proof Hran as [Hul1 Hpr1 Hn1 Hc1 _ _ _]. cbn [length] in Hn1. destruct r as [[]|e]; mgo.
  - eapply post_mono; [apply (IH s1 Hul1); lia|]. intros r' s2 Hran2. by eapply ran_trans; [exact Hran|exact Hran2|..].
  - eapply post_mono; [apply (late_jobs_ran n0 f jobs late s1 Hul1); lia|]. intros r' s2 (Hul2 & Hpr2 & Hn2).
    destruct r' as [[]|e']; mgo; (constructor; try done; [by eapply progress_trans|cbn [length]; lia|]);
      intros Hc; by destruct (Hc1 Hc).
Qed.

(** ** The jobs of a segment *)

(** No job holds more than one block past a full chunk. *)
Lemma cut_chunks_upper objSize bs l : forall buf mb,
  0 <= bs -> blen buf < objSize -> Forall (fun b => blen (b_Data b) = bs) l ->
  forall j, j ∈ cut_chunks objSize buf mb l -> blen j.1 < objSize + bs.
Proof.
  induction l as [|b l IH]; intros buf mb Hbs Hlt Hf j; cbn [cut_chunks].
  { destruct (0 <? blen buf) eqn:E; [|intros Hj; inversion Hj]. intros ->%list_elem_of_singleton. cbn. lia. }
  apply Forall_cons in Hf as [Hb Hf].
  assert (blen (buf ++ b_Data b) = blen buf + bs) as Hl by (unfold blen in *; rewrite length_app; lia).
  destruct (Z.leb_spec objSize (blen (buf ++ b_Data b))).
  - intros [-> |Hj]%elem_of_cons; [cbn; lia|]. eapply (IH [] []); try done. unfold blen in *. cbn in *. lia.
  - apply (IH (buf ++ b_Data b)); [done..|lia|done].
Qed.

(** The jobs of a list of records: each a sorted piece, together all of them. *)
Lemma splits_jobs jobs l : splits jobs l ->
  job_blocks jobs = b_Block <$> l /\
  forall j, j ∈ jobs -> exists p, job_of j p /\ (forall x, x ∈ p -> x ∈ l) /\
    (StronglySorted Z.lt (b_Block <$> l) -> StronglySorted Z.lt (b_Block <$> p)).
Proof.
  induction 1 as [|j jobs l ls Hj Hs [IHb IHj]]; [split; [done|intros j Hj; inversion Hj]|]. split.
  - rewrite job_blocks_cons, IHb, fmap_app. destruct Hj as (_ & -> & _). by rewrite <-list_fmap_compose.
  - intros j' [->|Hj']%elem_of_cons.
    + exists l. split; [done|]. split; [intros x Hx; apply elem_of_app; by left|].
      rewrite fmap_app. intros Hss. by apply StronglySorted_app in Hss as (_ & ? & _).
    + destruct (IHj j' Hj') as (p & Hp & Hin & Hso). exists p. split; [done|].
      split; [intros x Hx; apply elem_of_app; right; auto|].
      rewrite fmap_app. intros Hss. apply Hso. by apply StronglySorted_app in Hss as (_ & _ & ?).
Qed.

Lemma NoDup_sorted (l : list Z) : StronglySorted Z.lt l -> NoDup l.
Proof.
  induction 1 as [|x l Hl IH Hall]; constructor; [|done]. intros Hx. rewrite Forall_forall in Hall. specialize (Hall x Hx). lia.
Qed.

Lemma sortedBlocks_in seg x : x ∈ sortedBlocks seg -> newest_in seg x.
Proof. intros Hx%sortedBlocks_elem. pose proof (dedup_spec seg (b_Block x)) as H. rewrite Hx in H. apply H. Qed.

(** A piece of the sorted records that makes one job. *)
Record piece (v : VB) (seg : list Block) (j : job) (p : list Block) : Prop := {
  pc_job : job_of j p;
  pc_in : forall x, x ∈ p -> x ∈ sortedBlocks seg;
  pc_sorted : StronglySorted Z.lt (b_Block <$> p);
  pc_len : Z.of_nat (length p) <= ObjBlockSize v / BlockSize v + 1
}.

Lemma chunk_jobs_pieces v seg :
  0 < BlockSize v -> 0 < ObjBlockSize v -> Forall (fun b => blen (b_Data b) = BlockSize v) seg ->
  (forall j, j ∈ chunk_jobs v seg -> exists p, piece v seg j p) /\
  NoDup (job_blocks (chunk_jobs v seg)) /\ job_blocks (chunk_jobs v seg) = b_Block <$> sortedBlocks seg.
Proof.
  intros Hbs Hos Hf. pose proof (chunk_jobs_splits v seg Hbs Hf) as Hsp.
  destruct (splits_jobs _ _ Hsp) as [Eb Hj]. pose proof (sortedBlocks_sorted seg) as Hso.
  split; [|split; [rewrite Eb; by apply NoDup_sorted|done]].
  intros j Hjj. destruct (Hj j Hjj) as (p & Hp & Hin & Hs). exists p. constructor; auto.
  assert (Forall (fun b => blen (b_Data b) = BlockSize v) (sortedBlocks seg)) as Hf'.
  { apply Forall_forall. intros x [Hx _]%sortedBlocks_in. rewrite Forall_forall in Hf. by apply Hf. }
  pose proof (cut_chunks_upper (ObjBlockSize v) (BlockSize v) (sortedBlocks seg) [] [] ltac:(lia) ltac:(done) Hf' j Hjj) as Hup.
  destruct Hp as (Ej & _ & _). rewrite Ej in Hup.
  assert (blocks_of (BlockSize v) (b_Data <$> p)) as Hbo.
  { apply Forall_fmap, Forall_forall. intros x Hx. rewrite Forall_forall in Hf'. apply Hf', Hin, Hx. }
  rewrite (length_concat_blocks (BlockSize v)), length_fmap in Hup by done.
  assert (Z.of_nat (length p) - 1 <= ObjBlockSize v / BlockSize v); [|lia].
  apply Z.div_le_lower_bound; lia.
Qed.

Lemma chunk_jobs_ok s f seg :
  0 < BlockSize (vb s) -> 0 < ObjBlockSize (vb s) -> (forall x, x ∈ sortedBlocks seg -> ready s f x) ->
  Forall (fun b => blen (b_Data b) = BlockSize (vb s)) seg ->
  (forall j, j ∈ chunk_jobs (vb s) seg -> exists l, job_ok s f j l) /\
  NoDup (job_blocks (chunk_jobs (vb s) seg)) /\ job_blocks (chunk_jobs (vb s) seg) = b_Block <$> sortedBlocks seg.
Proof.
  intros Hbs Hos Hr Hf. destruct (chunk_jobs_pieces (vb s) seg Hbs Hos Hf) as (Hj & Hrest). split; [|done].
  intros j Hjj. destruct (Hj j Hjj) as (p & [H1 H2 H3 H4]). exists p. constructor; auto.
Qed.

(** Every block of the segment is in some job. *)
Lemma sortedBlocks_covers seg x : x ∈ seg -> b_Block x ∈ b_Block <$> sortedBlocks seg.
Proof.
  intros Hx. pose proof (dedup_spec seg (b_Block x)) as H. destruct (dedup seg !! b_Block x) as [y|] eqn:E.
  - destruct H as [Hy _]. apply list_elem_of_fmap. exists y. split; [done|]. apply sortedBlocks_elem. by rewrite Hy.
  - by destruct (H x Hx).
Qed.

Lemma chunk_jobs_count v seg :
  0 < BlockSize v -> Forall (fun b => blen (b_Data b) = BlockSize v) seg -> (length (chunk_jobs v seg) <= length seg)%nat.
Proof.
  intros Hbs Hf. assert (forall jobs l, splits jobs l -> (length jobs <= length l)%nat) as Hsp.
  { induction 1 as [|j jobs l ls (_ & _ & Hne) _ IH]; [done|]. rewrite length_app. destruct l; [done|]. cbn. lia. }
  specialize (Hsp _ _ (chunk_jobs_splits v seg Hbs Hf)). etrans; [exact Hsp|].
  rewrite <-(length_fmap b_Block (sortedBlocks seg)), <-(length_fmap b_Block seg).
  apply NoDup_incl_length; [apply NoDup_ListNoDup, NoDup_sorted, sortedBlocks_sorted|].
  intros b Hb. apply list_elem_of_In in Hb. apply list_elem_of_In. apply list_elem_of_fmap in Hb as (x & -> & Hx%sortedBlocks_in).
  apply list_elem_of_fmap. exists x. split; [done|]. apply Hx.
Qed.

(** ** Rotating the log *)

Definition next_wal (v : VB) : string := wal_path v (WallNum (vb_WAL v) + 1).
Definition rotated (v : VB) : VB :=
  v <| vb_WAL := (vb_WAL v) <| DB := DB (vb_WAL v) ++ [next_wal v] |> <| WallNum := WallNum (vb_WAL v) + 1 |>
                            <| wal_closed := false |> |>.

(** Every entry in memory is sealed: nothing is only in the buffer. *)
Definition all_sealed (v : VB) : Prop :=
  Writes v = [] /\ forall b e, get_entry (BStore v) b = Some e -> be_State e = BlockStatePending.

Lemma segment_ready s seg : vol_inv s seg -> all_sealed (vb s) ->
  exists f, older (blockStride (vb s)) (ObjectNum (vb s)) f (b_Block <$> sortedBlocks seg) (BlocksToObject (vb s)) /\
    forall x, x ∈ sortedBlocks seg -> ready s f x.
Proof.
  intros Hi [HW Hp]. destruct (vi_floor _ _ Hi) as (f & Hf & Hfm & Hfb). exists f. split.
  { intros b l Hl. left. split; [by apply (vi_obj _ _ Hi b l)|by eapply Hfm]. }
  intros x (Hx & Hmax)%sortedBlocks_in. rewrite HW, app_nil_l, Forall_forall in Hfb.
  pose proof (vi_bufs _ _ Hi) as Hb. rewrite HW, app_nil_l, Forall_forall in Hb.
  destruct (Hb x Hx) as [Hw Hr Hq (e & He & Hle & Hd)].
  destruct (vi_newest _ _ Hi x e ltac:(by rewrite HW) He) as (y & Hy & Hby & Hqy). rewrite HW, app_nil_l in Hy.
  pose proof (Hmax y Hy Hby). assert (be_SeqNum e = b_SeqNum x) as Heq by lia.
  constructor; try done; [split; [by apply Hfb|done]|]. exists e. split; [done|]. split; [by eapply Hp|]. auto.
Qed.

Lemma rotate_inv s seg w t :
  vol_inv s seg -> all_sealed (vb s) -> WallNum (vb_WAL (vb s)) + 1 < 2 ^ 64 -> objects w = objects (world s) ->
  files w = <[next_wal (vb s) := WALHeader (vb s) t]> (files (world s)) ->
  vol_inv (mkSt (rotated (vb s)) w) [] /\ (forall b, vol_block (mkSt (rotated (vb s)) w) b = vol_block s b) /\
  forall f x, ready s f x -> ready (mkSt (rotated (vb s)) w) f x.
Proof.
  intros Hi [HW Hp] Hn Ho Hf.
  split; [|split; [intros b; unfold vol_block, loc_data; cbn [vb world]; by rewrite Ho|intros f x [? ? ? ?]; by constructor]].
  destruct Hi as [[? ? ? ? ? Hu ? Hsm Hl ?] [? ? ? ? ? ? ? ? ? ?] ? ? Hwp ? ? ? Hnx Hb Hm Hnw ? Hag Hob (f & Hf1 & Hf2 & _) ?].
  constructor; cbn [vb world]; try done.
  - constructor; cbn [vb world]; rewrite ?Ho; try done. intros b pe Hr. destruct (Hl b pe Hr) as (? & obj & dd & Hd). split; [done|].
    exists obj, dd. cbn [world]. by rewrite Ho.
  - change (0 <= WallNum (vb_WAL (vb s)) + 1). lia.
  - change (last (DB (vb_WAL (vb s)) ++ [next_wal (vb s)]) = Some (next_wal (vb s))). apply last_snoc.
  - exists t. change (files w !! next_wal (vb s) = Some (WALHeader (vb s) t ++ [])). rewrite Hf, app_nil_r. apply lookup_insert_eq.
  - intros n Hn'. change (WallNum (vb_WAL (vb s)) + 1 < n) in Hn'. change (files w !! wal_path (vb s) n = None).
    rewrite Hf, lookup_insert_ne; [apply Hnx; lia|]. intros Heq%wal_path_inj; lia.
  - change (Forall (buffered (rotated (vb s))) (Writes (vb s) ++ [])). by rewrite HW.
  - intros x e Hx. change (x ∈ Writes (vb s) ++ []) in Hx. rewrite HW in Hx. inversion Hx.
  - exists f. split; [done|]. split; [done|]. change (Forall (fun blk => f < b_SeqNum blk) (Writes (vb s) ++ [])). by rewrite HW.
Qed.

(** The volume after rotation, before the first upload. *)
Record rotation (p : list outcome) (s s1 : St) : Prop := {
  ro_vb : vb s1 = rotated (vb s);
  ro_plan : works 0 p s1;
  ro_inv : vol_inv s1 [];
  ro_block : forall b, vol_block s1 b = vol_block s b;
  ro_ready : forall f x, ready s f x -> ready s1 f x;
  ro_objects : objects (world s1) = objects (world s)
}.

(** Opening a new segment on a working disk. *)
Lemma openWAL_works k p s name :
  works (3 + k) p s -> files (world s) !! name = None ->
  post (openWALLocked TheWAL name) s (fun r s' => r = Ok tt /\ works k p s' /\
    vb s' = (vb s) <| vb_WAL := (vb_WAL (vb s)) <| DB := DB (vb_WAL (vb s)) ++ [name] |> <| wal_closed := false |> |> /\
    objects (world s') = objects (world s) /\
    exists t, files (world s') = <[name := WALHeader (vb s) t]> (files (world s))).
Proof.
  intros Hw Hnone. unfold openWALLocked. mstep. eapply post_os_call_works; [exact Hw|].
  intros s1 (Ev1 & Ef1 & Eo1) Hw1. cbn beta iota. mstep. unfold os_OpenAppend. mstep.
  eapply post_os_call_works; [exact Hw1|]. intros s2 (Ev2 & Ef2 & Eo2) Hw2. cbn beta iota.
  do 2 mstep. rewrite Ef2, Ef1, Hnone. do 3 mstep. unfold get_now. mstep. unfold post at 1. cbn [fst snd vb world now with_files].
  mstep. rewrite bool_decide_eq_true_2 by done. do 2 mstep.
  eapply (post_file_append_works k p); [exact Hw2|]. intros s3 Ev3 Eo3 Ef3 Hw3. cbn beta iota.
  cbn [vb world files objects with_files snd] in *. mgo. cbn [vb world].
  rewrite lookup_insert_eq in Ef3. cbn [default from_option] in Ef3. rewrite insert_insert_eq in Ef3.
  rewrite Ev3, Ev2, Ev1, Eo3, Eo2, Eo1. split; [done|]. split; [exact Hw3|]. split; [done|]. split; [done|].
  exists (now (world s2)). rewrite Ef3, Ev2, Ev1, Ef2, Ef1. done.
Qed.

(** Rotation with a working disk hands the segment's records to the uploader. *)
Lemma rotate_works p s seg sc Q :
  vol_inv s seg -> all_sealed (vb s) -> WallNum (vb_WAL (vb s)) + 1 < 2 ^ 64 -> works 6 p s ->
  (forall s1, rotation p s s1 -> post (parallelUploader sc (chunk_jobs (vb s) seg)) s1 Q) ->
  post (WriteWALToChunkCtx sc true) s Q.
Proof.
  intros Hi Hsl Hn Hw HQ. pose proof (vi_walpos _ _ Hi) as Hwp. pose proof Hsl as [HW _].
  assert (Forall (wal_block (BlockSize (vb s))) seg) as Hwb.
  { pose proof (vi_bufs _ _ Hi) as Hb. rewrite HW, app_nil_l in Hb. eapply Forall_impl; [exact Hb|]. by intros x []. }
  destruct (vi_seg _ _ Hi) as [t Ht].
  assert (files (world s) !! next_wal (vb s) = None) as Hnone by (apply (vi_next _ _ Hi); lia).
  unfold WriteWALToChunkCtx. mgo. rewrite (go_shards _ (vi_geo _ _ Hi)), (vi_active _ _ Hi). cbn zeta. mgo.
  rewrite Z.ltb_irrefl, (vi_open _ _ Hi). mstep.
  eapply post_os_call_works; [exact Hw|]. intros s1 (Ev1 & Ef1 & Eo1) Hw1. cbn beta iota. mstep. mstep.
  eapply post_os_call_works; [exact Hw1|]. intros s2 (Ev2 & Ef2 & Eo2) Hw2. cbn beta iota. mstep. mstep. cbn beta iota.
  rewrite (u64_small (WallNum (vb_WAL (vb s)) + 1)) by wsolve. mstep.
  eapply post_mono; [apply (openWAL_works 1 p); [exact Hw2|cbn [world]; by rewrite Ef2, Ef1]|].
  cbn [vb world]. rewrite Ev2, Ev1, Ef2, Ef1, Eo2, Eo1. rewrite (u64_small (WallNum (vb_WAL (vb s)) + 1)) by wsolve.
  intros r s3 (-> & Hw3 & Ev3 & Eo3 & t' & Ef3). cbn beta iota. mstep.
  eapply post_ReadFile_works; [exact Hw3| |].
  { rewrite Ef3, lookup_insert_ne; [exact Ht|]. intros Heq%wal_path_inj; lia. }
  intros s4 (Ev4 & Ef4 & Eo4) Hw4. cbn beta iota. do 2 mstep.
  rewrite consolidated_segment by (try done; apply Hi). cbn beta iota. apply HQ.
  destruct (rotate_inv s seg (world s4) t' Hi Hsl Hn) as (Hi4 & Hb4 & Hr4); [congruence|by rewrite Ef4, Ef3|].
  assert (vb s4 = rotated (vb s)) as Ev by (by rewrite Ev4, Ev3).
  assert (s4 = mkSt (rotated (vb s)) (world s4)) as -> by (rewrite <-Ev; by destruct s4).
  constructor; try done. cbn [world]. congruence.
Qed.

(** ** Consolidating a segment *)

Lemma job_blocks_perm jobs jobs' : jobs ≡ₚ jobs' -> job_blocks jobs ≡ₚ job_blocks jobs'.
Proof.
  induction 1 as [| |x y l|]; [done| | |by etrans].
  - rewrite !job_blocks_cons. by apply Permutation_app_head.
  - rewrite !job_blocks_cons, !app_assoc. apply Permutation_app_tail, Permutation_app_comm.
Qed.

(** What a consolidation of [seg] leaves behind. *)
Record consolidated (p : list outcome) (s s' : St) (seg : list Block) (ok : Prop) : Prop := {
  co_rot : exists s1, rotation p s s1 /\ progress s1 s';
  co_inv : vol_inv s' [];
  co_W : Writes (vb s') = [];
  co_num : ObjectNum (vb s') <= ObjectNum (vb s) + Z.of_nat (length seg);
  co_calm : calm s -> calm s' /\ ok;
  co_dirty : ok -> seg <> [] -> bto_dirty (vb s') = true;
  co_gone : ok -> forall x, x ∈ seg -> get_entry (BStore (vb s')) (b_Block x) = None;
  co_free : ok -> forall x y, x ∈ PendingBackendWrites (vb s') -> y ∈ seg -> b_Block x <> b_Block y
}.

(** The queue of a drain after the rotation. *)
Lemma rotation_uploading p s s1 seg jobs :
  vol_inv s seg -> all_sealed (vb s) -> rotation p s s1 -> jobs ≡ₚ chunk_jobs (vb s) seg ->
  (length jobs <= length seg)%nat /\ (forall x, x ∈ seg -> b_Block x ∈ job_blocks jobs) /\
  exists f, uploading s1 (ObjectNum (vb s)) f jobs.
Proof.
  intros Hi Hsl [Ev Hw1 Hi1 Hb1 Hr1 Ho1] Hperm. destruct (segment_ready s seg Hi Hsl) as (f & Hold & Hrd).
  assert (Forall (fun b => blen (b_Data b) = BlockSize (vb s)) seg) as Hlen.
  { pose proof (vi_bufs _ _ Hi) as Hb. rewrite (proj1 Hsl), app_nil_l in Hb. eapply Forall_impl; [exact Hb|]. intros x [[] _ _ _]. done. }
  pose proof (bs_pos s (vi_store _ _ Hi)) as Hbs.
  assert (chunk_jobs (vb s) seg = chunk_jobs (vb s1) seg) as Ejobs by (by rewrite Ev).
  destruct (chunk_jobs_ok s1 f seg) as (Hjobs & Hnd & Eb); [by rewrite Ev|rewrite Ev; apply Hi|auto|by rewrite Ev|].
  rewrite Ejobs in Hperm. split; [rewrite Hperm; apply chunk_jobs_count; by rewrite Ev|]. split.
  { intros x Hx. rewrite (job_blocks_perm _ _ Hperm), Eb. by apply sortedBlocks_covers. }
  exists f. constructor; [done|rewrite Ev; apply Hsl| |rewrite Ev; done| |].
  - intros b x Hx. rewrite Ev in Hx. destruct (Hold b x Hx) as [?|[? Hni]]; [by left|right].
    split; [done|]. by rewrite (job_blocks_perm _ _ Hperm), Eb.
  - intros j. rewrite Hperm. apply Hjobs.
  - by rewrite (job_blocks_perm _ _ Hperm).
Qed.

Lemma WriteWALToChunk_works p s seg sc :
  vol_inv s seg -> all_sealed (vb s) -> WallNum (vb_WAL (vb s)) + 1 < 2 ^ 64 ->
  ObjectNum (vb s) + Z.of_nat (length seg) < 2 ^ 64 -> works 6 p s -> sched_ok sc ->
  post (WriteWALToChunkCtx sc true) s (fun r s' => consolidated p s s' seg (r = Ok tt)).
Proof.
  intros Hi Hsl Hn Hob Hw Hsc. eapply rotate_works; [done..|]. intros s1 Hro.
  set (jobs := chunk_jobs (vb s) seg). unfold parallelUploader. pose proof (Hsc jobs) as Hperm.
  destruct (rotation_uploading p s s1 seg (reorder sc jobs) Hi Hsl Hro Hperm) as (Hcnt & Hin & f & Hul).
  pose proof Hro as [Ev Hw1 Hi1 Hb1 Hr1 Ho1].
  assert (ObjectNum (vb s1) = ObjectNum (vb s)) as En by (by rewrite Ev).
  eapply post_mono; [apply (upload_jobs_ran (late sc) (ObjectNum (vb s)) f (reorder sc jobs) s1 Hul); rewrite En; lia|].
  intros r s' [Hul' Hpr Hnum Hcalm Hdirty Hgone Hfree]. rewrite En in Hnum.
  constructor.
  - by exists s1.
  - apply Hul'.
  - apply Hul'.
  - lia.
  - intros Hc. apply Hcalm. by rewrite (works_calm_iff _ _ _ Hw1), <-(works_calm_iff _ _ _ Hw).
  - intros Hok Hne. apply Hdirty; [done|]. intros E. destruct seg as [|x seg']; [done|].
    specialize (Hin x ltac:(by left)). rewrite E in Hin. inversion Hin.
  - intros Hok x Hx. apply Hgone; auto.
  - intros Hok x y Hx Hy Heq. eapply Hfree; [done|exact Hx|]. rewrite Heq. auto.
Qed.

(** ** The live checkpoint *)

Lemma live_attempts_spec n c : forall e s,
  post (live_attempts n c e) s (fun r s' =>
    (exists d, vb s' = (vb s) <| bto_dirty := d |>) /\ files (world s') = files (world s) /\
    (forall k, k <> live_key (vb s) -> objects (world s') !! k = objects (world s) !! k) /\
    (calm s -> calm s' /\ (n <> 0%nat -> r = Ok tt)) /\
    (r = Ok tt -> objects (world s') !! live_key (vb s) = Some c)).
Proof.
  induction n as [|n IH]; intros e s; cbn [live_attempts]; mgo.
  { split; [exists (bto_dirty (vb s)); by destruct (vb s)|]. done. }
  apply post_backend_Write. intros r s1 Ev Ef Hc Ho Hok. destruct r as [[]|e']; mgo; cbn [vb world].
  - split; [exists false; by rewrite Ev|]. split; [done|]. split; [done|]. split; [|by intros _; apply Hok].
    intros Hcs. by destruct (Hc Hcs).
  - eapply post_mono; [apply IH|]. intros r s2 ([d E2] & Ef2 & Ho2 & _ & Hok2). rewrite Ev in *.
    split; [by exists d|]. split; [congruence|]. split; [intros k Hk; rewrite Ho2, Ho by done; done|].
    split; [|done]. intros Hcs. by destruct (Hc Hcs).
Qed.

Lemma SaveLive_spec s :
  post SaveLiveCheckpointCtx s (fun r s' =>
    (exists d, vb s' = (vb s) <| bto_dirty := d |>) /\ files (world s') = files (world s) /\
    (forall k, k <> live_key (vb s) -> objects (world s') !! k = objects (world s) !! k) /\
    (calm s -> calm s' /\ r = Ok tt) /\
    (r = Ok tt -> bto_dirty (vb s) = true -> exists t, objects (world s') !! live_key (vb s) = Some (serialize_map (vb s) t))).
Proof.
  unfold SaveLiveCheckpointCtx. mgo. destruct (bto_dirty (vb s)) eqn:E; cbn [negb].
  - mstep. unfold get_now, post at 1. cbn [fst snd]. eapply post_mono; [apply live_attempts_spec|].
    intros r s' (H1 & H2 & H3 & H4 & H5). split; [done|]. split; [done|]. split; [done|].
    split; [|intros Hok _; eauto]. intros Hc. destruct (H4 Hc) as [? Hr]. split; [done|]. by apply Hr.
  - mgo. split; [exists (bto_dirty (vb s)); by destruct (vb s)|]. done.
Qed.

(** The contents live in the chunks, whatever else the backend holds. *)
Lemma objects_frame s seg w :
  vol_inv s seg -> files w = files (world s) ->
  (forall i, 0 <= i -> objects w !! chunk_key (vb s) i = objects (world s) !! chunk_key (vb s) i) ->
  (forall b j l ly, inherited (vb s) b = Some (j, l) -> inh_layers (vb s) !! j = Some ly ->
    objects w !! GetFilePath FileTypeChunk l.1.1 (ly_name ly) = objects (world s) !! GetFilePath FileTypeChunk l.1.1 (ly_name ly)) ->
  vol_inv (mkSt (vb s) w) seg /\ forall b, vol_block (mkSt (vb s) w) b = vol_block s b.
Proof.
  intros Hi Hf Ho Hn.
  assert (forall b pe, readPersisted (persistedExtents (BStore (vb s))) b = Some pe ->
    objects w !! chunk_key (vb s) (be_ObjectID pe) = objects (world s) !! chunk_key (vb s) (be_ObjectID pe)) as Hown.
  { intros b pe Hr. apply Ho. rewrite (vi_agree _ _ Hi) in Hr. destruct (LookupBlockToObject _ _ b) as [l|] eqn:E; [|done].
    injection Hr as <-. apply (vi_obj _ _ Hi) in E. apply E. }
  split.
  - destruct Hi as [[? ? ? Hin ? ? ? ? Hl ?] ? ? ? ? ? ? ? ? ? ? ? ? ? ? ? ?]. constructor; cbn [vb world]; rewrite ?Hf; try done.
    constructor; try done.
    + intros b j l ly Hb Hly. destruct (Hin b j l ly Hb Hly) as (? & ? & ? & ? & ? & obj & d & Hobj & Hd).
      do 5 (split; [done|]). exists obj, d. cbn [world]. by rewrite (Hn b j l ly).
    + intros b pe Hr. destruct (Hl b pe Hr) as (? & obj & dd & Hd). split; [done|].
      exists obj, dd. cbn [world vb]. by rewrite (Hown b pe Hr).
  - intros b. unfold vol_block, loc_data. cbn [vb world]. destruct (get_entry _ b); [done|].
    destruct (readPersisted _ b) as [pe|] eqn:E; [by rewrite (Hown b pe E)|]. unfold inh_data.
    destruct (inherited (vb s) b) as [[j l]|] eqn:Eb; [|done]. destruct (inh_layers (vb s) !! j) as [ly|] eqn:El; [|done].
    unfold layer_data. by rewrite (Hn b j l ly).
Qed.

Lemma chunks_frame s seg w :
  vol_inv s seg -> files w = files (world s) ->
  (forall id vol, objects w !! GetFilePath FileTypeChunk id vol = objects (world s) !! GetFilePath FileTypeChunk id vol) ->
  vol_inv (mkSt (vb s) w) seg /\ forall b, vol_block (mkSt (vb s) w) b = vol_block s b.
Proof. intros Hi Hf Ho. apply objects_frame; try done; intros; apply Ho. Qed.

(** ** The drain *)

(** The parts of a volume a drain leaves alone. *)
Definition fixed_part (v : VB) : (Z * Z * Z * Z) * (bool * bytes) :=
  ((BlockSize v, VolumeSize v, SeqNum v, MaxPendingBytes v), (EncryptionEnabled v, VolumeUUID v)).

(** The identity of a volume and of the snapshot below it, and the format of
    its checkpoints. *)
Definition identity (v : VB) := (own_layer v, inh_view v, (Version v, WALMagic (BlockToObjectWAL v), UseShardedWAL v)).

Record drained (s s' : St) (seg : list Block) (ok : Prop) : Prop := {
  dr_inv : vol_inv s' [];
  dr_W : Writes (vb s') = [];
  dr_block : forall b, vol_block s' b = vol_block s b;
  dr_fixed : fixed_part (vb s') = fixed_part (vb s);
  dr_wal : WallNum (vb_WAL (vb s')) = WallNum (vb_WAL (vb s)) + 1;
  dr_num : ObjectNum (vb s') <= ObjectNum (vb s) + Z.of_nat (length (seg ++ Writes (vb s)));
  dr_acct : acct (vb s') = acct (vb s);
  dr_pend : forall x, x ∈ PendingBackendWrites (vb s') -> x ∈ PendingBackendWrites (vb s) ++ Writes (vb s);
  dr_mono : forall b, get_entry (BStore (vb s)) b = None -> get_entry (BStore (vb s')) b = None;
  dr_calm : calm s -> calm s' /\ ok;
  dr_gone : ok -> forall x, x ∈ seg ++ Writes (vb s) -> get_entry (BStore (vb s')) (b_Block x) = None;
  dr_free : ok -> forall x y, x ∈ PendingBackendWrites (vb s') -> y ∈ seg ++ Writes (vb s) -> b_Block x <> b_Block y;
  dr_ident : identity (vb s') = identity (vb s);
  dr_gc : GCEnabled (vb s') = GCEnabled (vb s) /\ gcLatchedOff (vb s') = gcLatchedOff (vb s)
}.

(** Flags, and objects that are not chunks, may change after the uploads. *)
Lemma drained_flags s s' seg (ok ok' : Prop) d full w :
  drained s s' seg ok -> files w = files (world s') ->
  (forall id vol, objects w !! GetFilePath FileTypeChunk id vol = objects (world s') !! GetFilePath FileTypeChunk id vol) ->
  (ok' -> ok) -> (calm s' -> ok -> Forall (fun o => o = Works) (plan w) /\ ok') ->
  drained s (mkSt ((vb s') <| bto_dirty := d |> <| backendFull := full |>) w) seg ok'.
Proof.
  intros [Hi ? Hb ? ? ? ? ? ? Hc ? ? ? ?] Hf Ho H1 H2. destruct (chunks_frame s' [] w Hi Hf Ho) as [Hi1 Hb1].
  pose proof (aux_inv (mkSt (vb s') w) [] (PendingBackendWrites (vb s')) (pendingBytes (vb s')) full (uploadTriggered (vb s')) d
    (gcRefcount (vb s')) (wal_dirty (vb_WAL (vb s'))) Hi1 eq_refl) as Hi'. cbn [vb world] in Hi'.
  assert (aux (PendingBackendWrites (vb s')) (pendingBytes (vb s')) full (uploadTriggered (vb s')) d (gcRefcount (vb s'))
    (wal_dirty (vb_WAL (vb s'))) (vb s') = (vb s') <| bto_dirty := d |> <| backendFull := full |>) as E.
  { unfold aux. destruct (vb s') as [? ? ? ? ? ? ? ? ? ? ? ? ? ? ? x]. by destruct x. }
  rewrite E in Hi'. constructor; auto; try done.
  - intros b. rewrite <-Hb, <-Hb1. done.
  - intros Hcs. destruct (Hc Hcs). by apply H2.
Qed.

(** Flushing, then consolidating the segment. *)
Lemma flush_consolidate s s1 s2 p seg u wd (ok : Prop) :
  vb s1 = flushed_vb (vb s) u wd -> (calm s -> calm s1) -> (forall b, vol_block s1 b = vol_block s b) ->
  (forall b, get_entry (BStore (vb s)) b = None -> get_entry (BStore (vb s1)) b = None) ->
  consolidated p s1 s2 (seg ++ Writes (vb s)) ok -> drained s s2 seg ok.
Proof.
  intros Ev1 Hc1 Hb1 Hm1 [(sr & [Evr _ _ Hbr _ _] & [Hb (m & g & u' & pbw & pb & d & n & Ev2) _ Hm Ha Hp Hd _]) Hi HW Hn Hc _ Hg Hf].
  rewrite Evr, Ev1 in Ev2. rewrite Evr in Hm, Ha, Hp. rewrite Ev1 in Ha, Hp, Hn.
  constructor; try done.
  - intros b. by rewrite Hb, Hbr, Hb1.
  - by rewrite Ev2.
  - by rewrite Ev2.
  - rewrite Ha. change (pendingBytes (vb s) - 0 - sumZ ((fun b => blen (b_Data b)) <$> PendingBackendWrites (vb s) ++ Writes (vb s)) = acct (vb s)).
    rewrite sum_app. unfold acct. lia.
  - intros b H0. by apply Hm, Hm1.
  - intros Hcs. by apply Hc, Hc1.
  - by rewrite Ev2.
  - by rewrite Ev2.
Qed.

Lemma post_latch r s (Q : result error unit -> St -> Prop) :
  (forall full, (r = Ok tt -> full = false) -> Q r (mkSt ((vb s) <| backendFull := full |>) (world s))) ->
  post (latch r) s Q.
Proof.
  intros H. unfold latch. destruct r as [[]|e]; mgo; [by apply H|]. destruct (errors_Is e ErrNoSpace); mgo.
  - by apply H.
  - assert (s = mkSt ((vb s) <| backendFull := backendFull (vb s) |>) (world s)) as -> by (by destruct s as [[]]). by apply H.
Qed.

Lemma Drain_works p s seg sc :
  vol_inv s seg -> works (2 * length (Writes (vb s)) + 6) p s -> sched_ok sc ->
  WallNum (vb_WAL (vb s)) + 1 < 2 ^ 64 -> ObjectNum (vb s) + Z.of_nat (length (seg ++ Writes (vb s))) < 2 ^ 64 ->
  post (DrainToBackendCtx sc) s (fun r s' => drained s s' seg (r = Ok tt) /\
    (r = Ok tt -> backendFull (vb s') = false /\
      (seg ++ Writes (vb s) <> [] ->
       exists t, objects (world s') !! live_key (vb s') = Some (serialize_map (vb s') t)))).
Proof.
  intros Hi Hw Hsc Hwn Hon. unfold DrainToBackendCtx. do 3 mstep.
  eapply post_mono; [apply (Flush_works 6 p s seg Hi Hw)|].
  intros r s1 (-> & Hw1 & Hi1 & (u & wd & Ev1) & Hp1 & Hm1 & Hb1). cbn beta iota. do 2 mstep.
  rewrite (go_shards _ (vi_geo _ _ Hi1)). mstep.
  assert (calm s -> calm s1) as Hc1 by (by rewrite (works_calm_iff _ _ _ Hw1), <-(works_calm_iff _ _ _ Hw)).
  eapply post_mono; [apply (WriteWALToChunk_works p s1 (seg ++ Writes (vb s)) sc Hi1); try done; [split; [by rewrite Ev1|done]|by rewrite Ev1..]|].
  intros r s2 Hco. pose proof (flush_consolidate s s1 s2 p seg u wd _ Ev1 Hc1 Hb1 Hm1 Hco) as Hdr.
  destruct r as [[]|e]; cbn beta iota.
  - eapply post_mono; [apply SaveLive_spec|]. intros r s3 ([d Ev3] & Ef3 & Eo3 & Hc3 & Hsv). destruct s3 as [v3 w3].
    cbn [vb world] in *. subst v3.
    apply post_latch. cbn [vb world]. intros full Hfull. split.
    + eapply drained_flags; [exact Hdr|done|intros id vol; apply Eo3; intros E; symmetry in E; by apply live_not_chunk in E|done|]. intros Hcs _. by apply Hc3.
    + intros Hr. split; [by apply Hfull|]. intros Hne. destruct (Hsv Hr) as [t Ht]; [by apply (co_dirty _ _ _ _ _ Hco)|].
      exists t. exact Ht.
  - apply post_latch. intros full Hfull. split; [|done].
    assert (vb s2 = (vb s2) <| bto_dirty := bto_dirty (vb s2) |>) as E by (by destruct (vb s2)). rewrite E.
    by eapply drained_flags.
Qed.
End drain.
