(* ===== verification/GCFacts.v ===== *)
(** * What a sweep deletes

    A chunk sweep removes only objects that no extent of the block map lives
    in: the volume's invariant holds after it and every block reads as before,
    whatever the backend answers. *)

From S2P Require Import Prelude Words BlockMap Extents BlockStore BlockStoreFacts BlockStoreRace Crypto Paths Volume WAL Chunk ChunkFacts CommitFacts Read Blocks Inherit Content Requests ReadFacts Checkpoint CheckpointFacts SeqNum Frames Footprint Engine GC WALFacts VolInv FlushFacts UploadFacts DrainFacts.

(** ** Calls that change nothing *)

(** Only outcomes were consumed, from the front of the plan. *)
Definition consumed (s s' : St) : Prop := quiet s s' /\ exists pre, plan (world s) = pre ++ plan (world s').

Lemma consumed_refl s : consumed s s.
Proof. split; [apply quiet_refl|]. by exists []. Qed.

Lemma consumed_trans s1 s2 s3 : consumed s1 s2 -> consumed s2 s3 -> consumed s1 s3.
Proof.
  intros [Q1 [p1 E1]] [Q2 [p2 E2]]. split; [by eapply quiet_trans|]. exists (p1 ++ p2). by rewrite E1, E2, app_assoc.
Qed.

(** Whatever the outcomes. *)
Definition silent {X} (m : M X) : Prop := forall s, post m s (fun _ s' => consumed s s').

Create HintDb silent.

Section silent.
Context {X Y : Type}.

Lemma silent_ret (x : X) : silent (ret x).
Proof. intros s. apply consumed_refl. Qed.

Lemma silent_throw e : silent (throw (A := X) e).
Proof. intros s. apply consumed_refl. Qed.

Lemma silent_of_result (r : result error X) : silent (of_result r).
Proof. intros s. apply consumed_refl. Qed.

Lemma silent_try (m : M X) : silent m -> silent (try m).
Proof. intros H s. apply post_try, (post_mono _ _ _ _ (H s)). done. Qed.

Lemma silent_bind (m : M X) (k : X -> M Y) : silent m -> (forall x, silent (k x)) -> silent (bind m k).
Proof.
  intros Hm Hk s. apply post_bind. eapply post_mono; [apply Hm|]. intros [x|e] s1 Hq; [|done].
  eapply post_mono; [apply Hk|]. intros r s2 Hq2. by eapply consumed_trans.
Qed.
End silent.

Lemma silent_get : silent get.
Proof. intros s. apply consumed_refl. Qed.

Lemma silent_now : silent get_now.
Proof. intros s. apply consumed_refl. Qed.

Lemma next_consumed s o s' : next s = (Ok o, s') -> consumed s s'.
Proof.
  intros H. pose proof (next_quiet _ _ _ H) as [Hq _]. split; [done|]. unfold next in H.
  destruct (plan (world s)) as [|x p] eqn:E; injection H as <- <-; [by exists []; rewrite E|by exists [x]].
Qed.

Lemma silent_next : silent next.
Proof.
  intros s. unfold post. destruct (next s) as [r s'] eqn:E. pose proof (next_quiet _ _ _ E) as [_ [o ->]].
  by eapply next_consumed.
Qed.

Lemma silent_get_object k : silent (get_object k).
Proof. intros s. apply consumed_refl. Qed.

#[export] Hint Resolve silent_ret silent_throw silent_of_result silent_try silent_get silent_now silent_next silent_get_object : silent.

(** Splits on the scrutinee of a continuation. *)
Ltac silence :=
  repeat first
    [ solve [eauto with silent]
    | apply silent_bind; [|intros ?]
    | apply silent_try
    | match goal with |- silent (match ?x with _ => _ end) => destruct x end
    | progress cbn zeta ].

Lemma silent_ReadFrom vol t id o n : silent (backend_ReadFrom vol t id o n).
Proof. unfold backend_ReadFrom. silence. Qed.

Lemma silent_Read t id o n : silent (backend_Read t id o n).
Proof. unfold backend_Read. apply silent_bind; [apply silent_get|]. intros v. apply silent_ReadFrom. Qed.

Lemma silent_list {X} (f : St -> X) : silent (fun s => match next s with (Ok (Fails e _), s') => (Err e, s') | (_, s') => (Ok (f s'), s') end).
Proof.
  intros s. unfold post. destruct (next s) as [r s'] eqn:E. pose proof (next_quiet _ _ _ E) as [_ [o ->]].
  apply next_consumed in E. by destruct o.
Qed.

Lemma silent_ListPrefixes p : silent (backend_ListPrefixes p).
Proof. apply silent_list. Qed.

Lemma silent_ListObjects p : silent (backend_ListObjects p).
Proof. apply silent_list. Qed.

#[export] Hint Resolve silent_ReadFrom silent_Read silent_ListPrefixes silent_ListObjects : silent.

Section gc.
Context {A : AEAD} {S : StateJSON} {P : ProbeJSON}.

Lemma silent_marker : silent readSnapshotMarker.
Proof. unfold readSnapshotMarker. silence. Qed.

Lemma silent_scan volume names : silent (scan_names volume names).
Proof. induction names as [|name names IH]; cbn [scan_names]; silence. Qed.

Lemma silent_own : silent scanForOwnSnapshots.
Proof. unfold scanForOwnSnapshots. silence. apply silent_scan. Qed.

Lemma silent_high : silent numberedCheckpointHighWater.
Proof. unfold numberedCheckpointHighWater. silence. Qed.

(** ** What a sweep may change *)

(** The collector's own fields. *)
Definition gc_vb (g : gmap Z Z) (rec : bool) (fl : Z) (flr safe chk : bool) (base : option bytes) (lat : bool) (v : VB) : VB :=
  v <| gcRefcount := g |> <| gcReconciled := rec |> <| gcFloor := fl |> <| gcFloorReady := flr |>
    <| gcSnapshotSafe := safe |> <| gcSnapshotChecked := chk |> <| gcMarkerBaseline := base |> <| gcLatchedOff := lat |>.

Lemma gc_vb_id v : gc_vb (gcRefcount v) (gcReconciled v) (gcFloor v) (gcFloorReady v) (gcSnapshotSafe v)
  (gcSnapshotChecked v) (gcMarkerBaseline v) (gcLatchedOff v) v = v.
Proof. by destruct v. Qed.

Record swept (s s' : St) : Prop := {
  sw_vb : exists g rec fl flr safe chk base lat, vb s' = gc_vb g rec fl flr safe chk base lat (vb s);
  sw_files : files (world s') = files (world s);
  sw_other : forall k, (forall i, k <> chunk_key (vb s) i) -> objects (world s') !! k = objects (world s) !! k;
  (* the objects an extent lives in are untouched *)
  sw_used : forall i, 0 <= i -> chunk_refs (BlocksToObject (vb s)) i <> 0 ->
    objects (world s') !! chunk_key (vb s) i = objects (world s) !! chunk_key (vb s) i;
  sw_refs : refs_ok (vb s) -> refs_ok (vb s');
  sw_floor : 0 <= gcFloor (vb s) -> 0 <= gcFloor (vb s')
}.

Lemma swept_refl s : swept s s.
Proof. constructor; try done. eexists _, _, _, _, _, _, _, _. symmetry. apply gc_vb_id. Qed.

Lemma swept_trans s1 s2 s3 : swept s1 s2 -> swept s2 s3 -> swept s1 s3.
Proof.
  intros [(g & a & b & c & d & e & f & h & V1) F1 O1 U1 R1 L1] [(g' & a' & b' & c' & d' & e' & f' & h' & V2) F2 O2 U2 R2 L2].
  constructor; [|congruence| | |auto|auto].
  - rewrite V1 in V2. eexists _, _, _, _, _, _, _, _. exact V2.
  - intros k Hk. rewrite O2, O1; [done|done|]. rewrite V1. apply Hk.
  - intros i Hi Hr. rewrite V1 in U2. rewrite <-(U1 i Hi Hr). by apply (U2 i).
Qed.

Lemma quiet_swept s s' : quiet s s' -> swept s s'.
Proof.
  intros (E & F & O). constructor; try (intros; by rewrite O); rewrite ?E; try done.
  eexists _, _, _, _, _, _, _, _. symmetry. apply gc_vb_id.
Qed.

(** A step in the collector's fields alone. *)
Lemma flags_swept s g rec fl flr safe chk base lat :
  (refs_ok (vb s) -> GCEnabled (vb s) = true -> rc_exact g (BlocksToObject (vb s))) -> (0 <= gcFloor (vb s) -> 0 <= fl) ->
  swept s (mkSt (gc_vb g rec fl flr safe chk base lat (vb s)) (world s)).
Proof. intros Hg Hf. constructor; try done. by eexists _, _, _, _, _, _, _, _. Qed.

(** The extents of the block map keep their objects, so a sweep is invisible. *)
Lemma swept_inv s s' seg : vol_inv s seg -> swept s s' ->
  vol_inv s' seg /\ BlockSize (vb s') = BlockSize (vb s) /\ forall b, vol_block s' b = vol_block s b.
Proof.
  intros Hi [(g & rec & fl & flr & safe & chk & base & lat & Ev) Ef Hot Hu Hr Hl].
  assert (others_same (VolumeName (vb s)) (objects (world s)) (objects (world s'))) as Hoth.
  { intros i vol' Hi0 Hv. apply Hot. intros j E. symmetry in E. by apply own_chunk_key in E. }
  assert (forall b pe, readPersisted (persistedExtents (BStore (vb s))) b = Some pe ->
    objects (world s') !! chunk_key (vb s) (be_ObjectID pe) = objects (world s) !! chunk_key (vb s) (be_ObjectID pe)) as Hk.
  { intros b pe Hp. rewrite (vi_agree _ _ Hi) in Hp. destruct (LookupBlockToObject _ _ b) as [l|] eqn:E; [|done].
    injection Hp as <-. apply Hu; [apply (vi_obj _ _ Hi b l E)|].
    apply lookup_locates in E as (k & bl & Hk & _ & ->); [|apply Hi..]. pose proof (chunk_refs_pos _ _ _ Hk). cbn. lia. }
  specialize (Hr (proj1 (vi_refs _ _ Hi))). specialize (Hl (proj2 (vi_refs _ _ Hi))).
  destruct s' as [v' w']. cbn [vb world] in *. subst v'. split; [|split; [done|]].
  - destruct Hi as [[? ? ? ? ? ? ? ? Hloc ?] [? ? ? ? ? ? ? ? ? ?] ? ? ? ? ? ? ? Hb ? ? ? ? ? ? _].
    constructor; cbn [vb world]; rewrite ?Ef; try done.
    + constructor; try done; [by apply (others_wf (vb s) (objects (world s)))|]. intros b pe Hp. destruct (Hloc b pe Hp) as (? & obj & d & Hd). split; [done|].
      exists obj, d. cbn [world vb]. change (chunk_key _ (be_ObjectID pe)) with (chunk_key (vb s) (be_ObjectID pe)). by rewrite (Hk b).
    + eapply Forall_impl; [exact Hb|]. intros x [? ? ? ?]. by constructor.
  - intros b. unfold vol_block, loc_data. cbn [vb world]. change (BStore _) with (BStore (vb s)).
    destruct (get_entry _ b); [done|]. destruct (readPersisted _ b) as [pe|] eqn:E; [|by apply (others_data (vb s)); [|apply Hi]].
    change (chunk_key _ (be_ObjectID pe)) with (chunk_key (vb s) (be_ObjectID pe)). by rewrite (Hk b).
Qed.

(** ** The steps of a sweep *)

Lemma track_exact keys m : forall g, rc_exact g m -> rc_exact (track_chunks keys g) m.
Proof.
  unfold track_chunks. induction keys as [|key keys IH]; intros g Hg; [done|]. cbn [fold_left]. apply IH.
  destruct (parseChunkObjectID key) as [i|]; [|done]. destruct (g !! i) eqn:E; [done|]. intros j.
  rewrite lookup_insert. destruct (decide (i = j)) as [<-|]; [|apply Hg]. rewrite <-Hg, E. done.
Qed.

Lemma delete_exact g m i : rc_exact g m -> chunk_refs m i = 0 -> rc_exact (delete i g) m.
Proof. intros Hg H0 j. rewrite lookup_delete. destruct (decide (i = j)) as [<-|]; [by rewrite H0|apply Hg]. Qed.

Lemma post_swept {X} (m : M X) s (Q : result error X -> St -> Prop) : silent m ->
  (forall r s', swept s s' -> vb s' = vb s -> objects (world s') = objects (world s) -> Q r s') -> post m s Q.
Proof.
  intros Hm HQ. eapply post_mono; [apply Hm|]. intros r s' [Hq _]. apply HQ; [by apply quiet_swept|apply Hq..].
Qed.

Lemma safe_swept s : post ensureGCSnapshotSafe s (fun r s' => swept s s' /\
  gcRefcount (vb s') = gcRefcount (vb s) /\ objects (world s') = objects (world s) /\ exists b, r = Ok b).
Proof.
  unfold ensureGCSnapshotSafe. do 2 mstep.
  destruct (gcLatchedOff (vb s)); [mgo; split; [apply swept_refl|eauto]|].
  destruct (gcSnapshotChecked (vb s)); [mgo; split; [apply swept_refl|eauto]|]. do 2 mstep.
  apply post_swept; [apply silent_marker|]. intros r s1 H1 E1 O1. cbn beta iota.
  destruct r as [base|e]; [|mgo; rewrite E1, O1; eauto]. do 2 mstep.
  apply post_swept; [apply silent_own|]. intros r s2 H2 E2 O2. cbn beta iota.
  destruct r as [ok|e]; mgo; cbn [vb world].
  - split; [|rewrite E2, E1, O2, O1; eauto]. eapply swept_trans; [exact H1|]. eapply swept_trans; [exact H2|].
    pose proof (flags_swept s2 (gcRefcount (vb s2)) (gcReconciled (vb s2)) (gcFloor (vb s2)) (gcFloorReady (vb s2)) ok true base
      (gcLatchedOff (vb s2)) ltac:(auto) ltac:(done)) as H3.
    unfold gc_vb in H3. destruct s2 as [[] w2]. exact H3.
  - split; [by eapply swept_trans|]. rewrite E2, E1, O2, O1. eauto.
Qed.

(** A volume is its fields: one update of the collector's fields is a [gc_vb]. *)
Ltac gc_step := match goal with |- swept ?s (mkSt ?v (world ?s)) =>
  let H := fresh in
  assert (v = gc_vb (gcRefcount v) (gcReconciled v) (gcFloor v) (gcFloorReady v) (gcSnapshotSafe v)
    (gcSnapshotChecked v) (gcMarkerBaseline v) (gcLatchedOff v) (vb s)) as H by (by destruct (vb s));
  rewrite H; apply flags_swept end.

Lemma reconcile_swept s : post reconcileChunksOnce s (fun r s' => swept s s' /\
  objects (world s') = objects (world s) /\ r = Ok tt).
Proof.
  unfold reconcileChunksOnce. do 2 mstep. destruct (gcReconciled (vb s)); [mgo; by split; [apply swept_refl|]|]. do 2 mstep.
  apply post_swept; [apply silent_ListObjects|]. intros r s1 H1 E1 O1. cbn beta iota.
  destruct r as [keys|e]; mgo; cbn [world]; split; try done. eapply swept_trans; [exact H1|].
  gc_step; [|done]. intros Hr Hgc. by apply track_exact, Hr.
Qed.

(** The floor is a 64-bit value; a failed read floors everything. *)
Lemma floor_swept s : post ensureGCFloor s (fun r s' => swept s s' /\ objects (world s') = objects (world s) /\
  exists f, r = Ok f /\ (0 <= gcFloor (vb s) -> 0 <= f)).
Proof.
  unfold ensureGCFloor. do 2 mstep. destruct (gcFloorReady (vb s)); [mgo; split; [apply swept_refl|]; eauto|]. do 2 mstep.
  apply post_swept; [apply silent_high|]. intros r s1 H1 E1 O1. cbn beta iota.
  assert (0 <= MaxUint64) as Hmax by (unfold MaxUint64; lia).
  destruct r as [high|e]; [|mgo; split; [done|]; eauto]. cbn zeta. do 2 mstep. mstep. cbn [world].
  set (f := match high with Some h => u64 (h + 1) | None => 0 end).
  assert (0 <= f) as Hf by (unfold f; destruct high as [h|]; [unfold u64; apply Z.mod_pos_bound; lia|done]).
  split; [|split; [done|]; eauto]. eapply swept_trans; [exact H1|]. gc_step; [|done].
  intros Hr Hgc. by apply Hr.
Qed.

Lemma moved_swept s : post gcSnapshotMarkerMoved s (fun r s' => swept s s' /\
  objects (world s') = objects (world s) /\ gcRefcount (vb s') = gcRefcount (vb s) /\ exists b, r = Ok b).
Proof.
  unfold gcSnapshotMarkerMoved. do 2 mstep. apply post_swept; [apply silent_marker|]. intros r s1 H1 E1 O1. cbn beta iota.
  destruct r as [current|e]; [|mgo; rewrite E1; eauto]. mgo. cbn [vb world].
  split; [|rewrite <-E1; eauto]. eapply swept_trans; [exact H1|]. gc_step; [|done]. intros Hr Hgc. by apply Hr.
Qed.

Lemma post_backend_Delete t i s (Q : result error unit -> St -> Prop) :
  (forall r s', vb s' = vb s -> files (world s') = files (world s) ->
    (forall k, k <> GetFilePath t i (VolumeName (vb s)) -> objects (world s') !! k = objects (world s) !! k) -> Q r s') ->
  post (backend_Delete t i) s Q.
Proof.
  intros H. unfold backend_Delete. do 3 mstep. apply post_next. intros o s1 (Ev & Ef & Eo). cbn beta iota zeta. mgo.
  destruct (objects (world s1) !! GetFilePath t i (VolumeName (vb s))), o as [|e [|k]|k]; mgo; apply H; cbn [vb world files objects with_objects]; rewrite ?Ef, ?Eo; try done;
    intros x Hx; by rewrite lookup_delete_ne by done.
Qed.

Lemma delete_swept ids : forall s, (forall i, i ∈ ids -> 0 <= i /\ (GCEnabled (vb s) = true -> chunk_refs (BlocksToObject (vb s)) i = 0)) ->
  GCEnabled (vb s) = true -> post (deleteChunkObjects ids) s (fun r s' => swept s s' /\
    (forall k, (forall i, i ∈ ids -> k <> chunk_key (vb s) i) -> objects (world s') !! k = objects (world s) !! k) /\ exists n, r = Ok n).
Proof.
  induction ids as [|i ids IH]; intros s Hids Hgc; cbn [deleteChunkObjects].
  { mgo. split; [apply swept_refl|]. eauto. }
  destruct (Hids i ltac:(by left)) as [Hi0 Hi1]. specialize (Hi1 Hgc). do 2 mstep.
  apply post_backend_Delete. intros r s1 Ev Ef Ho. cbn beta iota zeta. do 2 mstep.
  set (gone := match r with Ok _ => true | Err e => errors_Is e ErrNotExist end).
  set (s2 := mkSt (if gone then (vb s1) <| gcRefcount := delete i (gcRefcount (vb s1)) |> else vb s1) (world s1)).
  assert (swept s s2) as H2.
  { constructor; cbn [vb world s2].
    - rewrite Ev. destruct gone; [|eexists _, _, _, _, _, _, _, _; symmetry; apply gc_vb_id].
      exists (delete i (gcRefcount (vb s))), (gcReconciled (vb s)), (gcFloor (vb s)), (gcFloorReady (vb s)), (gcSnapshotSafe (vb s)),
        (gcSnapshotChecked (vb s)), (gcMarkerBaseline (vb s)), (gcLatchedOff (vb s)). by destruct (vb s).
    - done.
    - intros k Hk. apply Ho. apply Hk.
    - intros j Hj Hr. apply Ho. intros Heq%chunk_key_inj; [|done..]. by subst.
    - rewrite Ev. destruct gone; [|done]. intros Hr _. apply delete_exact; [by apply Hr|done].
    - rewrite Ev. by destruct gone. }
  assert (VolumeName (vb s2) = VolumeName (vb s) /\ GCEnabled (vb s2) = GCEnabled (vb s) /\ BlocksToObject (vb s2) = BlocksToObject (vb s))
    as (En & Eg & Em) by (unfold s2; cbn [vb]; rewrite Ev; by destruct gone).
  mstep. eapply post_mono; [apply IH|].
  { intros j Hj. rewrite Eg, Em. apply Hids. by right. } { by rewrite Eg. }
  intros r2 s3 (H3 & Ho3 & n & ->). mgo. split; [by eapply swept_trans|]. split; [|eauto].
  intros k Hk. rewrite Ho3; [apply Ho, Hk; by left|]. intros j Hj. unfold chunk_key. rewrite En. apply Hk. by right.
Qed.

Lemma candidate_iff v floor w i : i ∈ gc_candidates v floor w <-> gcRefcount v !! i = Some 0 /\ floor <= i < w.
Proof.
  unfold gc_candidates. rewrite list_elem_of_fmap. split.
  - intros ([j n] & -> & ((Hn & Hf & Hw) & Hin)%list_elem_of_filter). cbn in *. subst n. rewrite elem_of_map_to_list in Hin. done.
  - intros (Hg & Hf & Hw). exists (i, 0). split; [done|]. apply list_elem_of_filter. rewrite elem_of_map_to_list. done.
Qed.

(** A sweep deletes objects below the watermark that no extent lives in; every
    other object, file and field outside the collector is as before. *)
Lemma sweepChunks_swept s : refs_ok (vb s) -> 0 <= gcFloor (vb s) ->
  post sweepChunks s (fun r s' => swept s s' /\ r = Ok tt).
Proof.
  intros Hr Hf. unfold sweepChunks. do 2 mstep. destruct (GCEnabled (vb s)) eqn:Hgc; cbn [negb]; [|mgo; by split; [apply swept_refl|]].
  mstep. eapply post_mono; [apply safe_swept|]. intros r1 s1 (H1 & _ & _ & safe & ->). cbn beta iota.
  destruct safe; cbn [negb]; [|mgo; by split]. mstep.
  eapply post_mono; [apply reconcile_swept|]. intros r2 s2 (H2 & _ & ->). cbn beta iota. mstep.
  assert (swept s s2) as H02 by (by eapply swept_trans).
  eapply post_mono; [apply floor_swept|]. intros r3 s3 (H3 & _ & floor & -> & Hfl). cbn beta iota. do 3 mstep.
  assert (swept s s3) as H03 by (by eapply swept_trans).
  eapply post_mono; [apply moved_swept|]. intros r4 s4 (H4 & _ & _ & moved & ->). cbn beta iota.
  assert (swept s s4) as H04 by (by eapply swept_trans).
  destruct moved; [mgo; by split|]. mstep.
  assert (GCEnabled (vb s3) = true /\ GCEnabled (vb s4) = true /\ BlocksToObject (vb s4) = BlocksToObject (vb s3)) as (Hg3 & Hg4 & Em).
  { destruct (sw_vb _ _ H03) as (? & ? & ? & ? & ? & ? & ? & ? & ->), (sw_vb _ _ H04) as (? & ? & ? & ? & ? & ? & ? & ? & ->). done. }
  eapply post_mono; [apply delete_swept; [|done]|].
  - intros i (Hi & Hlo & _)%candidate_iff. split; [specialize (Hfl (sw_floor _ _ H02 Hf)); lia|]. intros _. rewrite Em.
    pose proof (sw_refs _ _ H03 Hr Hg3 i) as Hx. rewrite Hi in Hx. done.
  - intros r5 s5 (H5 & _ & n & ->). mgo. split; [by eapply swept_trans|done].
Qed.

Context (HA : AEADLaws A).

(** A drain, and a sweep when it succeeded. *)
Lemma runGCSweep_works p s seg sc :
  vol_inv s seg -> works (2 * length (Writes (vb s)) + 6) p s -> sched_ok sc ->
  WallNum (vb_WAL (vb s)) + 1 < 2 ^ 64 -> ObjectNum (vb s) + Z.of_nat (length (seg ++ Writes (vb s))) < 2 ^ 64 ->
  post (runGCSweep sc) s (fun r s' => r = Ok tt /\ vol_inv s' [] /\ BlockSize (vb s') = BlockSize (vb s) /\
    forall b, vol_block s' b = vol_block s b).
Proof.
  intros Hi Hw Hsc Hwn Hon. unfold runGCSweep. do 2 mstep.
  eapply post_mono; [apply (Drain_works HA p s seg sc Hi Hw Hsc Hwn Hon)|]. intros r s1 [Hdr _]. cbn beta iota.
  assert (BlockSize (vb s1) = BlockSize (vb s)) as Hbs by (pose proof (dr_fixed _ _ _ _ Hdr) as E; by injection E).
  destruct r as [[]|e]; [|mgo; split; [done|]; split; [apply Hdr|]; split; [done|apply Hdr]].
  destruct (vi_refs _ _ (dr_inv _ _ _ _ Hdr)) as [Hr Hf].
  eapply post_mono; [apply (sweepChunks_swept s1 Hr Hf)|]. intros r s2 [Hs ->].
  destruct (swept_inv s1 s2 [] (dr_inv _ _ _ _ Hdr) Hs) as (Hi2 & Hb2 & Hv2).
  split; [done|]. split; [done|]. split; [congruence|]. intros b. rewrite Hv2. apply Hdr.
Qed.
End gc.
