(* ===== verification/Refinement.v ===== *)
(** * A volume is a block device

    The abstract specification: a device is an array of bytes; reads return
    it, writes replace a range, flushing, draining and sweeping change nothing. Every run
    of the engine (write buffer, log, chunks, block map, block store) is a run
    of the device, whatever the backend does. *)

From S2P Require Import Prelude Words BlockMap Extents BlockStore BlockStoreFacts BlockStoreRace Crypto Paths Volume WAL Chunk ChunkFacts Read Blocks Inherit Content Requests ReadFacts Checkpoint CheckpointFacts SeqNum Frames Footprint Engine GC WALFacts VolInv WriteFacts FlushFacts UploadFacts DrainFacts GCFacts.

(** ** The device *)

Inductive op :=
| ReadOp (offset len : Z)
| WriteOp (offset : Z) (data : bytes)
| FlushOp
| DrainOp
| SweepOp.

Definition device : Type := Z -> byte.
Definition same_bytes (d d' : device) : Prop := forall o, 0 <= o -> d' o = d o.

(** The bytes in [offset, hi) come from [data]. *)
Definition written_upto (d d' : device) (offset : Z) (data : bytes) (hi : Z) : Prop :=
  forall o, 0 <= o -> d' o = if decide (offset <= o < hi) then data_at data (o - offset) else d o.

(** What a device may answer ([None] is an error) and become: a failed write
    stops at a block boundary. *)
Inductive dev_step (bs : Z) (d d' : device) : op -> option bytes -> Prop :=
| dev_read offset len : same_bytes d d' -> dev_step bs d d' (ReadOp offset len) (Some (d <$> seqZ offset len))
| dev_read_err offset len : same_bytes d d' -> dev_step bs d d' (ReadOp offset len) None
| dev_write offset data : written_upto d d' offset data (offset + blen data) ->
    dev_step bs d d' (WriteOp offset data) (Some [])
| dev_write_err offset data hi : offset <= hi <= offset + blen data -> (hi = offset \/ hi mod bs = 0) ->
    written_upto d d' offset data hi -> dev_step bs d d' (WriteOp offset data) None
| dev_flush r : same_bytes d d' -> dev_step bs d d' FlushOp r
| dev_drain r : same_bytes d d' -> dev_step bs d d' DrainOp r
| dev_sweep r : same_bytes d d' -> dev_step bs d d' SweepOp r.

Inductive dev_run (bs : Z) : device -> list (op * option bytes) -> device -> Prop :=
| dev_nil d : dev_run bs d [] d
| dev_cons d d1 d2 o r tr : dev_step bs d d1 o r -> dev_run bs d1 tr d2 -> dev_run bs d ((o, r) :: tr) d2.

(** ** The engine *)

Section engine.
Context {A : AEAD} {S : StateJSON} {P : ProbeJSON}.

Definition exec (sc : Sched) (o : op) : M bytes :=
  match o with
  | ReadOp offset len => do r <- ReadAtCtx offset len; ret r.1
  | WriteOp offset data => do _ <- WriteAtCtx sc 0 false offset data; ret []
  | FlushOp => run Flush; ret []
  | DrainOp => run DrainToBackendCtx sc; ret []
  | SweepOp => run runGCSweep sc; ret []
  end.

(** The records of the active log segment after an operation. *)
Definition log_after (o : op) (v : VB) (seg : list Block) : list Block :=
  match o with
  | ReadOp _ _ | WriteOp _ _ => seg
  | FlushOp => seg ++ Writes v
  | DrainOp | SweepOp => []
  end.

(** Requests in range, counters below their widths, no backpressure; for
    flushes and drains, a working local disk ([p]: what the backend does next). *)
Definition admissible (sc : Sched) (s : St) (seg : list Block) (o : op) (p : list outcome) : Prop :=
  let v := vb s in
  match o with
  | ReadOp offset len =>
      0 <= offset /\ 0 < len /\ offset + len <= VolumeSize v /\
      (offset + len - 1) / BlockSize v - offset / BlockSize v < MaxUint16
  | WriteOp offset data =>
      backendFull v = false /\ 0 <= offset /\ 0 < blen data /\ offset + blen data <= VolumeSize v /\
      SeqNum v + blocks_touched v offset data < 2 ^ 64 /\ 0 <= pendingBytes v /\
      pendingBytes v + blocks_touched v offset data * BlockSize v <= maxPendingBytes v < 2 ^ 64
  | FlushOp => works (2 * length (Writes v) + 0) p s
  | DrainOp | SweepOp => works (2 * length (Writes v) + 6) p s /\ sched_ok sc /\ WallNum (vb_WAL v) + 1 < 2 ^ 64 /\
      ObjectNum v + Z.of_nat (length (seg ++ Writes v)) < 2 ^ 64
  end.

Definition answer {X} (r : result error X) : option X := match r with Ok x => Some x | Err _ => None end.

Definition set_plan (p : list outcome) (s : St) : St := mkSt (vb s) ((world s) <| plan := p |>).

(** Operations one after the other; before each the outcomes of the calls it
    is going to make are chosen anew. *)
Inductive vol_run (sc : Sched) : St -> list Block -> list (op * option bytes) -> St -> list Block -> Prop :=
| vr_nil s seg : vol_run sc s seg [] s seg
| vr_step s seg o q p r s1 tr s2 seg2 :
    admissible sc (set_plan q s) seg o p -> exec sc o (set_plan q s) = (r, s1) ->
    vol_run sc s1 (log_after o (vb s) seg) tr s2 seg2 ->
    vol_run sc s seg ((o, answer r) :: tr) s2 seg2.

(** ** The simulation *)

Lemma bytes_of_blocks s s' :
  BlockSize (vb s') = BlockSize (vb s) -> (forall b, vol_block s' b = vol_block s b) -> same_bytes (byte_at s) (byte_at s').
Proof. intros E H o _. unfold byte_at. by rewrite E, H. Qed.

Lemma reads_size s s' : reads_same s s' -> BlockSize (vb s') = BlockSize (vb s).
Proof. by intros [(u & c & -> & _) _]. Qed.

Lemma set_plan_inv s seg q : vol_inv s seg -> vol_inv (set_plan q s) seg.
Proof.
  intros [[? ? ? ? ? ? ? ? ? ?] ? ? ? ? ? ? ? ? ? ? ? ? ? ? ? ?]. constructor; try done.
Qed.

Lemma exec_post {X Y} (m : M X) (k : X -> Y) s Q :
  post m s (fun r s' => Q (match r with Ok x => Ok (k x) | Err e => Err e end) s') ->
  post (do x <- m; ret (k x)) s Q.
Proof. intros H. apply post_bind. eapply post_mono; [exact H|]. by intros [x|e] s'. Qed.

Context (HA : AEADLaws A).

Lemma exec_step sc o p s seg :
  vol_inv s seg -> admissible sc s seg o p ->
  post (exec sc o) s (fun r s' => vol_inv s' (log_after o (vb s) seg) /\ BlockSize (vb s') = BlockSize (vb s) /\
    dev_step (BlockSize (vb s)) (byte_at s) (byte_at s') o (answer r)).
Proof.
  intros Hi Ha. destruct o as [offset len|offset data| | |]; cbn [exec admissible log_after] in *; apply exec_post.
  - destruct Ha as (H1 & H2 & H3 & H4).
    eapply post_mono; [apply (ReadAt_spec s (vi_store _ _ Hi) offset len); try done; apply Hi|].
    intros r s' (Hr & _ & Hd). pose proof (reads_size s s' Hr) as Hbs. split; [by eapply reads_inv|]. split; [done|].
    assert (same_bytes (byte_at s) (byte_at s')) as Hsame.
    { apply bytes_of_blocks; [done|]. intros b. by apply reads_same_block. }
    destruct r as [[d z]|e]; cbn; [|by constructor]. pose proof (Hd (d, z) eq_refl) as Hd'. cbn in Hd'. rewrite Hd'. by constructor.
  - destruct Ha as (H1 & H2 & H3 & H4 & H5 & H6 & H7).
    eapply post_mono; [apply (WriteAt_spec sc 0 offset data s seg Hi H1 H2 H3 H4 H5 H6 H7)|].
    intros r s' (Hi' & [Hbs _] & hi & Hhi & Hset & Hres). split; [done|]. split; [done|].
    destruct r as [b|e]; cbn.
    + destruct Hres as [_ ->]. by constructor.
    + by eapply dev_write_err.
  - eapply post_mono; [apply (Flush_works 0 p s seg Hi Ha)|].
    intros r s' (-> & _ & Hi' & (u & wd & Ev) & _ & _ & Hb). split; [done|]. split; [by rewrite Ev|].
    constructor. apply bytes_of_blocks; [by rewrite Ev|done].
  - destruct Ha as (H1 & H2 & H3 & H4).
    eapply post_mono; [apply (Drain_works HA p s seg sc Hi H1 H2 H3 H4)|]. intros r s' [Hdr _].
    assert (BlockSize (vb s') = BlockSize (vb s)) as Hbs by (pose proof (dr_fixed _ _ _ _ Hdr) as E; by injection E).
    split; [apply Hdr|]. split; [done|]. constructor. apply bytes_of_blocks; [done|apply Hdr].
  - destruct Ha as (H1 & H2 & H3 & H4).
    eapply post_mono; [apply (runGCSweep_works HA p s seg sc Hi H1 H2 H3 H4)|]. intros r s' (-> & Hi' & Hbs & Hb).
    split; [done|]. split; [done|]. constructor. by apply bytes_of_blocks.
Qed.
End engine.
