(* ===== verification/Durability.v ===== *)
(** * What the write-ahead log keeps

    Every block whose append succeeded is returned by recovery, in order,
    whatever happened to the appends in between. *)

From S2P Require Import Prelude Words BlockStore Crypto Paths Volume WAL SeqNum SeqNumFacts Instances WALFacts.

Section log.
Context {A : AEAD}.

(** The third call of an append, after the stat and the write, is the truncate
    that rolls a torn record back; it succeeds. *)
Definition rollback_works (s : St) : Prop :=
  match plan (world s) !! 2%nat with Some (Fails _ _) => False | _ => True end.

(** A history of appends to the open segment [name]: the blocks whose append
    returned nil. Any stat or write may fail, with any part of the record
    written, as long as the roll-back the code then makes is carried out. *)
Inductive wal_run (name : string) : St -> list Block -> St -> Prop :=
| wr_nil s : wal_run name s [] s
| wr_ok b s s1 acked s2 :
    wal_block (BlockSize (vb s)) b -> WriteWAL b s = (Ok tt, s1) ->
    wal_run name s1 acked s2 -> wal_run name s (b :: acked) s2
| wr_err b e s s1 acked s2 :
    wal_block (BlockSize (vb s)) b -> WriteWAL b s = (Err e, s1) -> rollback_works s ->
    wal_run name s1 acked s2 -> wal_run name s acked s2.

(** The next outcome is the head of the plan. *)
Lemma post_next_plan s Q :
  (forall s', quiet s s' -> plan (world s') = tail (plan (world s)) -> Q (Ok (default Works (head (plan (world s))))) s') ->
  post next s Q.
Proof.
  intros H. unfold post, next. destruct s as [v [fs os [|o p] sn t]]; cbn in *; [apply (H (mkSt v (mkWorld fs os [] sn t)))|apply (H (mkSt v (mkWorld fs os p sn t)))];
    done.
Qed.

(** The write and the roll-back of an append, when the truncate works. *)
Lemma append_rolls_back (rec old : bytes) name s :
  default [] (files (world s) !! name) = old ->
  match plan (world s) !! 1%nat with Some (Fails _ _) => False | _ => True end ->
  post (do w <- file_append name rec;
        run modify (set_wal_dirty true);
        let '(n, err) := w in
        if bool_decide (err = None) && (n =? blen rec) then ret tt
        else do truncErr <- file_truncate name (blen old);
             match truncErr with Some e => throw e | None => throw (default plain err) end) s
    (fun r s1 => forall e, r = Err e -> default [] (files (world s1) !! name) = old).
Proof.
  intros Hold Hp. apply post_bind. unfold file_append. apply post_bind, post_next_plan. intros s1 (_ & Ef & _) Ep. cbn beta iota.
  apply post_bind, post_get_file. cbn beta iota. rewrite Ef, Hold.
  assert (forall d err s2, default [] (files (world s2) !! name) = old ++ d -> plan (world s2) = plan (world s1) ->
    post (do truncErr <- file_truncate name (blen old);
          match truncErr with Some e => throw e | None => throw (default plain err) end) s2
      (fun (r : result error unit) s3 => forall e, r = Err e -> default [] (files (world s3) !! name) = old)) as Htr.
  { intros d err s2 Hf Hpl. apply post_bind. unfold file_truncate. apply post_bind, post_next_plan. intros s3 (_ & Ef3 & _) _. cbn beta iota.
    apply post_bind, post_get_file. cbn beta iota. rewrite Hpl, Ep, Ef3, Hf.
    assert (default Works (head (tail (plan (world s)))) = default Works (plan (world s) !! 1%nat)) as -> by (by destruct (plan (world s)) as [|? [|? ?]]).
    destruct (plan (world s) !! 1%nat) as [[|? ?|?]|]; try done; cbn [default from_option]; unfold id; mgo; intros e _; cbn;
      rewrite lookup_insert_eq; cbn; unfold blen, id; by rewrite Nat2Z.id, take_app_length. }
  destruct (default Works (head (plan (world s)))) as [|e1 k1|k1]; mgo.
  - rewrite bool_decide_eq_true_2, Z.eqb_refl by done. by mgo.
  - rewrite bool_decide_eq_false_2 by done. apply (Htr (take k1 rec) (Some e1)); [|done]. cbn. by rewrite lookup_insert_eq.
  - rewrite bool_decide_eq_false_2 by done. apply (Htr (take k1 rec) (Some plain)); [|done]. cbn. by rewrite lookup_insert_eq.
Qed.

(** A failed append is undone. *)
Lemma WriteWAL_rolls_back b name s :
  last (DB (vb_WAL (vb s))) = Some name -> rollback_works s ->
  post (WriteWAL b) s (fun r s1 => forall e, r = Err e ->
    default [] (files (world s1) !! name) = default [] (files (world s) !! name)).
Proof.
  intros Hl Hr. unfold WriteWAL. mgo. cbn zeta. rewrite Hl. destruct (wal_closed (vb_WAL (vb s))); [by mgo|].
  apply post_bind. unfold file_size. apply post_bind, post_next_plan. intros s1 (Ev1 & Ef1 & _) Ep1. cbn beta iota.
  apply post_bind, post_get_file. cbn beta iota. rewrite Ef1. set (old := default [] (files (world s) !! name)).
  destruct (default Works (head (plan (world s)))) as [|e1 k1|k1]; [|by mgo; rewrite Ef1|];
    (apply post_ret; apply append_rolls_back; [by rewrite Ef1|]; rewrite Ep1; unfold rollback_works in Hr;
     by destruct (plan (world s)) as [|? [|? ?]]).
Qed.

(** The appends change nothing of the volume but the dirty flag. *)
Definition same_log (v v' : VB) : Prop := v' = v \/ v' = set_wal_dirty true v.

Lemma wal_run_contents name s acked s' :
  wal_run name s acked s' -> last (DB (vb_WAL (vb s))) = Some name ->
  default [] (files (world s') !! name)
    = default [] (files (world s) !! name) ++ records (vb s) acked /\
  Forall (wal_block (BlockSize (vb s))) acked /\ same_log (vb s) (vb s').
Proof.
  induction 1 as [s|b s s1 acked s2 Hb Hw _ IH|b e s s1 acked s2 Hb Hw Hr _ IH]; intros Hl.
  { rewrite app_nil_r. by split; [|split; [|left]]. }
  all: pose proof (post_run _ _ _ (WriteWAL_append b name s Hl) _ _ Hw) as [Hv _ _ Hok Herr].
  all: assert (same_log (vb s) (vb s1)) as Hs by exact Hv.
  all: assert (last (DB (vb_WAL (vb s1))) = Some name /\ BlockSize (vb s1) = BlockSize (vb s) /\
    forall l, records (vb s1) l = records (vb s) l) as (Hl1 & Hbs & Hrec) by (destruct Hv as [-> | ->]; done).
  all: destruct (IH Hl1) as (Hc & Hf & Hs2); rewrite Hbs in Hf.
  all: assert (same_log (vb s) (vb s2)) as Hss
    by (unfold same_log in *; destruct Hs as [E1|E1], Hs2 as [E2|E2]; rewrite E2, ?E1; auto).
  - rewrite Hc, (Hok eq_refl), Hrec. cbn [default from_option]. unfold id. rewrite records_cons, <-app_assoc.
    by split; [|split; [constructor|]].
  - rewrite Hc, Hrec, (post_run _ _ _ (WriteWAL_rolls_back b name s Hl Hr) _ _ Hw e eq_refl). done.
Qed.

Lemma recovered_torn name t s acked s' b k :
  AEADLaws A -> header_ok (vb s) -> 0 < BlockSize (vb s) -> files (world s) !! name = Some (WALHeader (vb s) t) ->
  default [] (files (world s') !! name) = default [] (files (world s) !! name) ++ records (vb s) acked ->
  Forall (wal_block (BlockSize (vb s))) acked -> (k < Z.to_nat (record_size (vb s)))%nat ->
  recovered_blocks (vb s) (default [] (files (world s') !! name) ++ take k (wal_record (vb s) b)) = Ok acked.
Proof.
  intros HA Hh Hbs Hfile Hc Hf Hk. rewrite Hc, Hfile. cbn [default from_option]. unfold id. rewrite <-app_assoc.
  apply recovered_segment; [done..|]. unfold blen. rewrite length_take. lia.
Qed.
End log.

(** C6. On a freshly opened segment take any history of appends in which every
    roll-back the code makes after a failed write is carried out. Recovery
    returns exactly the blocks whose append succeeded, in order, after a crash
    that may have torn one more record; and after one last append that failed
    in any way, its roll-back included, recovery returns them and at most that
    block. Both for encrypted and for plain logs. *)
Theorem acked_blocks_recoverable {A : AEAD} name t s acked s' b :
  AEADLaws A -> header_ok (vb s) -> 0 < BlockSize (vb s) -> wal_block (BlockSize (vb s)) b ->
  last (DB (vb_WAL (vb s))) = Some name -> files (world s) !! name = Some (WALHeader (vb s) t) ->
  wal_run name s acked s' ->
  (forall k, (k < Z.to_nat (record_size (vb s)))%nat ->
    recovered_blocks (vb s) (default [] (files (world s') !! name) ++ take k (wal_record (vb s) b)) = Ok acked) /\
  (forall e s'', WriteWAL b s' = (Err e, s'') ->
    recovered_blocks (vb s) (default [] (files (world s'') !! name)) = Ok acked \/
    recovered_blocks (vb s) (default [] (files (world s'') !! name)) = Ok (acked ++ [b])).
Proof.
  intros HA Hh Hbs Hb Hl Hfile Hrun. destruct (wal_run_contents name s acked s' Hrun Hl) as (Hc & Hf & Hv).
  split; [intros k Hk|intros e s'' Hw].
  - by eapply recovered_torn.
  - assert (last (DB (vb_WAL (vb s'))) = Some name /\ wal_record (vb s') b = wal_record (vb s) b) as [Hl' Er] by (destruct Hv as [-> | ->]; done).
    destruct (ar_err _ _ _ _ _ (post_run _ _ _ (WriteWAL_append b name s' Hl') _ _ Hw) e eq_refl) as [k ->]. rewrite Er.
    destruct (decide (k < Z.to_nat (record_size (vb s)))%nat) as [Hk|Hk]; [left; by eapply recovered_torn|right].
    rewrite take_ge by (pose proof (length_wal_record HA (vb s) b Hb); lia). rewrite Hc, <-app_assoc.
    replace (records (vb s) acked ++ wal_record (vb s) b) with (records (vb s) (acked ++ [b]) ++ take 0 (wal_record (vb s) b))
      by (unfold records; rewrite app_nil_r, fmap_app, concat_app; cbn; by rewrite app_nil_r).
    rewrite Hfile. cbn [default from_option]. unfold id. apply recovered_segment; [done..| |].
    + by apply Forall_app_2; [|constructor].
    + change (0 < record_size (vb s)). unfold record_size. destruct (EncryptionEnabled _); lia.
Qed.

(** An encrypted volume with a fresh segment "w"; the first append is torn and
    rolled back, the second succeeds. *)
Definition seg_vb : VB := toy_vb <| vb_WAL := mkWAL ["w"%string] 0 "" (lit "VBWE") false false |>.
Definition seg_st : St :=
  mkSt seg_vb (mkWorld {[ "w"%string := WALHeader seg_vb 0 ]} ∅ [Works; Short 7; Works] [] 0).
Definition blk (seq b : Z) (d : bytes) : Block := mkBlock d seq b 0 4.
Definition d1 : bytes := [Byte.x01; Byte.x02; Byte.x03; Byte.x04].
Definition d2 : bytes := [Byte.x05; Byte.x06; Byte.x07; Byte.x08].

Lemma acked_blocks_recoverable_witness :
  exists s', wal_run (A := toy_aead) "w" seg_st [blk 2 9 d2] s' /\
    recovered_blocks (A := toy_aead) seg_vb (default [] (files (world s') !! "w"%string)
       ++ take 11 (wal_record (A := toy_aead) seg_vb (blk 3 5 d1))) = Ok [blk 2 9 d2].
Proof.
  set (s1 := (WriteWAL (A := toy_aead) (blk 1 9 d1) seg_st).2).
  set (s2 := (WriteWAL (A := toy_aead) (blk 2 9 d2) s1).2).
  assert (wal_run (A := toy_aead) "w" seg_st [blk 2 9 d2] s2) as Hr.
  { apply (wr_err (A := toy_aead) "w" (blk 1 9 d1) plain seg_st s1); [by constructor|vm_compute; reflexivity|exact I|].
    apply (wr_ok (A := toy_aead) "w" (blk 2 9 d2) s1 s2); [by constructor|vm_compute; reflexivity|].
    apply wr_nil. }
  exists s2. split; [exact Hr|].
  apply (acked_blocks_recoverable (A := toy_aead) "w" 0 seg_st [blk 2 9 d2] s2 (blk 3 5 d1)).
  - exact toy_aead_laws.
  - by repeat split.
  - reflexivity.
  - by constructor.
  - reflexivity.
  - reflexivity.
  - exact Hr.
  - vm_compute. lia.
Defined.

(** C30. A damaged record is never taken for a block that was not written: if
    recovery of an encrypted segment succeeds, every block it returns is the
    one whose sealed record, under this volume's identity, stands in the file,
    and the records appear one after the other from the start of the body. *)
Theorem recovery_only_sealed {A : AEAD} v fuel body bs :
  AEADLaws A -> 0 < BlockSize v ->
  recover_sealed fuel v (record_size v) body = Ok bs -> EncryptionEnabled v = true ->
  exists torn, body = records v bs ++ torn.
Proof.
  intros HA Hbs. revert body bs. induction fuel as [|fuel IH]; intros body bs.
  { intros [= <-] _. by exists body. }
  cbn [recover_sealed]. set (rec := take _ body).
  destruct (blen rec <? record_size v) eqn:El; [intros [= <-]; by exists body|]. apply Z.ltb_ge in El.
  destruct (decode_sealed v rec) as [b|] eqn:Ed; [|done].
  destruct (recover_sealed fuel v _ _) as [rest|] eqn:Er; [|done]. cbn [rbind]. intros [= <-] He.
  destruct (IH _ _ Er He) as [torn Ht]. exists torn. rewrite records_cons, <-app_assoc, <-Ht.
  assert (wal_record v b = rec) as ->; [|symmetry; apply take_drop].
  unfold wal_record, sealed_record. rewrite He. unfold decode_sealed, decode_header in Ed.
  destruct (Open _ _ _) as [p|] eqn:Eo; [|done]. injection Ed as <-. cbn [b_SeqNum b_Block b_Data b_Len].
  apply open_sound in Eo. rewrite <-Eo.
  unfold record_header, PutUint64. cbn [b_SeqNum b_Block b_Len].
  assert (length rec = Z.to_nat (record_size v)) as Hlen.
  { unfold rec in *. unfold blen in El. rewrite length_take in *. lia. }
  assert (40 <= record_size v) as H40 by (unfold record_size; rewrite He; lia).
  assert (forall lo hi, 0 <= lo -> hi = lo + 8 -> hi <= 24 ->
    be_put 8 (be_get (slice rec lo hi)) = slice rec lo hi) as Hpg.
  { intros lo hi ? ? ?. assert (length (slice rec lo hi) = 8%nat) as <-; [|apply be_put_get].
    unfold slice. rewrite length_take, length_drop. lia. }
  rewrite !Hpg by lia. unfold slice.
  change (Z.to_nat (8 - 0)) with 8%nat. change (Z.to_nat (16 - 8)) with 8%nat. change (Z.to_nat (24 - 16)) with 8%nat.
  change (Z.to_nat 0) with 0%nat. change (Z.to_nat 8) with 8%nat. change (Z.to_nat 16) with 16%nat.
  rewrite drop_0, (app_assoc (take 8 rec)), take_take_drop, take_take_drop. apply take_drop.
Qed.

Lemma recovery_only_sealed_witness :
  exists torn, records (A := toy_aead) seg_vb [blk 2 9 d2] ++ d1
    = records (A := toy_aead) seg_vb [blk 2 9 d2] ++ torn.
Proof.
  apply (recovery_only_sealed (A := toy_aead) seg_vb 9); [exact toy_aead_laws|reflexivity|vm_compute; reflexivity|reflexivity].
Defined.
