(* ===== verification/Nonces.v ===== *)
(** * Nonce uniqueness: the theorems

    Crash safety of the reservation scheme over whole histories, its
    interleavings at the granularity of the code's locks and atomics, and the
    three failures and schedules in which the scheme leaks. *)

From S2P Require Import Prelude Words Crypto Paths Volume SeqNum SeqNumFacts Writers Instances.

(** C7. No SeqNum is handed out twice: in a history of reservations, saves and
    UUID mints, one call at a time and each failing anywhere, and of crashes
    and reopens, any two intervals that [reserveSeqNum] returned on an
    encrypted volume are disjoint, and so are the nonces built from them (below
    the 56-bit limit). Two failures are not in these histories, because they do
    reissue SeqNums: a reopen whose read of the local config.json fails
    (shown at the end of this file), and a [SaveState] that mints the UUID
    and then fails to persist it (shown there too). *)
Theorem seqnums_never_reissued {A : AEAD} {S : StateJSON}
    {AL : AEADLaws A} {SL : StateJSONLaws S} nm base nh fp (OpenFromSnapshot : string -> M unit) ov w l :
  (forall id s, post (OpenFromSnapshot id) s (fun _ s' =>
     files (world s') = files (world s) /\ objects (world s') = objects (world s) /\
     VolumeName (vb s') = VolumeName (vb s) /\ BaseDir (vb s') = BaseDir (vb s) /\
     volumeNameHash (vb s') = volumeNameHash (vb s) /\ MasterKey (vb s') = MasterKey (vb s) /\
     EncryptionEnabled (vb s') = EncryptionEnabled (vb s) /\
     nextStateSeqNum (vb s') = nextStateSeqNum (vb s))) ->
  hist nm base nh fp OpenFromSnapshot ov w l ->
  forall i j p q x y, (i < j)%nat -> l !! i = Some p -> l !! j = Some q ->
    p.1 < x <= p.2 -> q.1 < y <= q.2 ->
    y < x /\ (x <= MaxSeqNum -> forall u d, length u = 4%nat -> makeNonce x u d <> makeNonce y u d).
Proof.
  intros Hopen Hh i j p q x y Hij Hi Hj Hx Hy.
  destruct (hist_inv nm base nh fp OpenFromSnapshot Hopen _ _ _ Hh) as (Hf & ol & _ & Hl & _).
  assert (q.2 <= p.1) as Hle.
  { clear -Hf Hij Hi Hj. revert i j Hij Hi Hj. induction Hf as [|a l Ha _ IH]; intros [|i] [|j] Hij Hi Hj; try done; try lia.
    - injection Hi as ->. rewrite Forall_forall in Ha. apply Ha. by eapply (list_elem_of_lookup_2 l j).
    - apply (IH i j); [lia|done..]. }
  split; [lia|]. intros Hmax u d Hu E.
  rewrite Forall_forall in Hl. apply list_elem_of_lookup_2, Hl in Hj as [? _].
  rewrite !makeNonce_eq in E. apply app_inj_1 in E as [E _]; [|by rewrite !length_be_put].
  change MaxSeqNum with (2 ^ 56 - 1) in Hmax.
  apply be_put_inj in E; [lia|..]; change (256 ^ Z.of_nat 7) with (2 ^ 56); lia.
Qed.

#[local] Existing Instance toy_aead.
#[local] Existing Instance toy_state_json.

(** Reserve, crash, reopen, reserve again. *)
Definition ex_r1 := @reserveSeqNum toy_aead toy_state_json 5 toy_st.
Definition ex_r2 := @LoadStateCtx toy_aead toy_state_json toy_open (mkSt toy_vb (world ex_r1.2)).
Definition ex_r3 := @reserveSeqNum toy_aead toy_state_json 3 ex_r2.2.

Definition toy_hist := @hist toy_aead toy_state_json "v" "" [] "k" toy_open.

Lemma toy_ident : ident "v" "" [] "k" toy_vb.
Proof. by constructor. Qed.

Lemma ex_hist : toy_hist (Some (vb ex_r3.2)) (world ex_r3.2) [(1048576, 1048579); (0, 5)].
Proof.
  assert (ex_r1.1 = Ok 0 /\ ex_r2.1 = Ok tt /\ ex_r3.1 = Ok 1048576) as (E1 & E2 & E3)
    by (vm_compute; repeat split).
  pose proof (h_new "v" "" [] "k" toy_open toy_vb toy_world eq_refl eq_refl toy_ident eq_refl eq_refl eq_refl) as H0.
  pose proof (h_reserve "v" "" [] "k" toy_open toy_vb toy_world [] 5 ex_r1.1 ex_r1.2 H0) as H1.
  rewrite E1 in H1. specialize (H1 ltac:(by repeat constructor) eq_refl eq_refl eq_refl).
  specialize (H1 ltac:(rewrite <-E1; apply surjective_pairing)). apply h_crash in H1.
  pose proof (h_load "v" "" [] "k" toy_open toy_vb (world ex_r1.2) [(0, 5)] ex_r2.1 ex_r2.2 H1 toy_ident) as H2.
  rewrite E2 in H2. specialize (H2 ltac:(vm_compute; exact I)). lapply H2.
  - clear H2. intros H2. specialize (H2 ltac:(rewrite <-E2; apply surjective_pairing)).
    pose proof (h_reserve "v" "" [] "k" toy_open _ _ _ 3 ex_r3.1 ex_r3.2 H2) as H3. rewrite E3 in H3.
    apply H3; try (vm_compute; reflexivity).
    vm_compute. constructor.
  - intros raw st Hraw Hst.
    assert (match files (world ex_r1.2) !! cfg "v" "" with
            | Some raw => match @decode_state toy_aead toy_state_json toy_vb raw with
                          | Ok st => vs_StateSeqNum st = 1 /\ vs_SeqNumHighWater st = 1048576
                          | Err _ => False end
            | None => False end) as Hc by (vm_compute; by split).
    rewrite Hraw, Hst in Hc. destruct Hc as [-> ->]. clear. split; vm_compute; reflexivity.
Qed.

Lemma seqnums_never_reissued_witness :
  3 < 1048577 /\ (1048577 <= MaxSeqNum -> forall u d, length u = 4%nat -> makeNonce 1048577 u d <> makeNonce 3 u d).
Proof.
  apply (@seqnums_never_reissued toy_aead toy_state_json toy_aead_laws toy_state_json_laws
    "v" "" [] "k" toy_open (Some (vb ex_r3.2)) (world ex_r3.2) [(1048576, 1048579); (0, 5)])
    with (i := 0%nat) (j := 1%nat) (p := (1048576, 1048579)) (q := (0, 5)).
  - intros id s. unfold toy_open. apply post_ret. repeat split.
  - exact ex_hist.
  - lia.
  - reflexivity.
  - reflexivity.
  - cbn. lia.
  - cbn. lia.
Defined.

(** ** Interleavings *)



Section turns.
Context {A : AEAD} {S : StateJSON} (nm base : string) (nh : bytes) (fp : string) (OpenFromSnapshot : string -> M unit).



End turns.




(** C39. A [SaveState] that runs beside a reservation rolls the durable mark
    back: on any encrypted volume that has its UUID, let a save read the mark,
    a writer reserve past it and return, and the save then persist the mark it
    read, every call succeeding. After a crash and a reopen from that
    config.json the counter restarts at the old mark, under the same
    VolumeUUID, and the next reservation hands out SeqNums of the first one
    again. *)
Theorem SaveState_race_reissues {A : AEAD} {S : StateJSON}
    {AL : AEADLaws A} {SL : StateJSONLaws S} nm base nh fp (OpenFromSnapshot : string -> M unit) v w l n v0 m :
  ident nm base nh fp v -> VolumeUUID v <> zeros 4 -> BlockSize v <> 0 -> SnapshotID v = EmptyString ->
  0 < n -> 0 <= SeqNum v <= seqNumHighWater v -> seqNumHighWater v < SeqNum v + n -> SeqNum v + n <= MaxSeqNum ->
  0 <= nextStateSeqNum v < 2 ^ 62 - 3 -> blen (blob_of nh (race_state v n)) < 2 ^ 32 ->
  ident nm base nh fp v0 -> 0 < m <= seqNumReservation -> seqNumHighWater v + m <= MaxSeqNum ->
  exists y p k, rtc (wstep nm base nh fp OpenFromSnapshot true) (mkW (Some (mkProc v None ∅)) w l) y /\
    w_issued y = (seqNumHighWater v, seqNumHighWater v + m) :: (SeqNum v, SeqNum v + n) :: l /\
    w_proc y = Some p /\ VolumeUUID (p_vb p) = VolumeUUID v /\
    SeqNum v < k <= SeqNum v + n /\ seqNumHighWater v < k <= seqNumHighWater v + m.
Proof.
  intros Hid Hu Hbs Hsn Hn Hs Hlt Hmax Hx Hlen Hid0 Hm Hm2.
  destruct (race_run nm base nh fp OpenFromSnapshot v w l n Hid Hu Hn Hs Hlt Hmax ltac:(lia)) as (w1 & Hrun & Hf1 & Ho1).
  set (s0 := mkSt v0 (tidy w1)).
  assert (good nm fp (stale_state v n)) as Hgs.
  { apply (state_of_good nm base nh fp); [by apply (ident_ext _ _ _ _ v)|done|lia|lia]. }
  assert (good nm fp (race_state v n)) as Hgr.
  { apply (state_of_good nm base nh fp); [by apply (ident_ext _ _ _ _ v)|done| |lia].
    destruct (advance_hw_spec (seqNumHighWater v) (SeqNum v + n)); [lia| |lia].
    change MaxSeqNum with (2 ^ 56 - 1) in Hmax. change seqNumReservation with 1048576. lia. }
  assert (decode_state v0 (blob_of nh (stale_state v n)) = Ok (stale_state v n)) as Ed1
    by (rewrite <-(id_hash _ _ _ _ _ Hid0); apply (decode_blob v0 _ fp); [apply Hid0..|apply Hgs]).
  assert (decode_state v0 (blob_of nh (race_state v n)) = Ok (race_state v n)) as Ed2
    by (rewrite <-(id_hash _ _ _ _ _ Hid0); apply (decode_blob v0 _ fp); [apply Hid0..|apply Hgr]).
  change MaxSeqNum with (2 ^ 56 - 1) in *. change seqNumReservation with 1048576 in *.
  assert (post (LoadStateCtx OpenFromSnapshot) s0 (fun r s' =>
    r = Ok tt /\ EncryptionEnabled (vb s') = true /\ SeqNum (vb s') = seqNumHighWater v /\
    seqNumHighWater (vb s') = seqNumHighWater v + seqNumReservation /\ VolumeUUID (vb s') = VolumeUUID v /\
    nextStateSeqNum (vb s') = u64 (nextStateSeqNum v + 2 + 1))) as Hload.
  { apply (load_calm nm base nh fp OpenFromSnapshot s0 (Ok (stale_state v n)) (Ok (race_state v n)) (stale_state v n)); try done.
    - change (seqNumHighWater v + 1048576 < 2 ^ 64). lia.
    - eapply post_mono; [apply (local_calm s0 _ (blob_of nh (stale_state v n))); [constructor|]|].
      + change (vb s0) with v0. rewrite (config_path_ident nm base nh fp) by done. exact Hf1.
      + intros r s' (-> & ? & ?). done.
    - intros s1 Hq Hc. pose proof Hq as (Ev & _ & Eo).
      eapply post_mono; [apply (backend_calm s1 (blob_of nh (race_state v n))); [done| |done]|].
      + rewrite Ev, Eo. change (vb s0) with v0. rewrite (id_name _ _ _ _ _ Hid0). exact Ho1.
      + intros r s' (-> & ? & ?). rewrite Ev. done.
    - unfold select_state. cbn [state_or_zero err_of]. change (vb s0) with v0.
      change (vs_BlockSize (race_state v n)) with (BlockSize v). destruct (Z.eqb_spec (BlockSize v) 0); [done|]. cbn [andb orb].
      change (vs_StateSeqNum (stale_state v n)) with (nextStateSeqNum v + 2). change (vs_StateSeqNum (race_state v n)) with (nextStateSeqNum v + 1).
      rewrite (proj2 (Z.ltb_ge _ _)) by lia. rewrite (id_enc _ _ _ _ _ Hid0), (g_enc _ _ _ Hgs), (id_key _ _ _ _ _ Hid0), (g_key _ _ _ Hgs).
      cbn [Bool.eqb negb andb]. by rewrite bool_decide_true by done. }
  destruct (LoadStateCtx OpenFromSnapshot s0) as [r s1] eqn:El.
  destruct (post_run _ _ _ Hload _ _ El) as (-> & He1 & Hs1 & Hh1 & Hu1 & Hn1). change seqNumReservation with 1048576 in Hh1.
  rewrite u64_small in Hn1 by (unfold_widths; lia).
  eexists _, (mkProc _ _ _), (seqNumHighWater v + 1). split; [|split; [|split; [|split]]].
  - etrans; [exact Hrun|]. eapply rtc_l; [apply tidy_step|].
    eapply rtc_l; [apply (ws_load _ _ _ _ _ _ v0 _ _ (Ok tt) s1); [done|exact I| |exact El]|].
    + intros raw st Hraw Hst. assert (raw = blob_of nh (stale_state v n)) as -> by (change (files w1 !! cfg nm base = Some raw) in Hraw; congruence). rewrite Ed1 in Hst. injection Hst as <-.
      change (nextStateSeqNum v + 2 < 2 ^ 63 /\ seqNumHighWater v < 2 ^ 63). lia.
    + cbv beta iota. apply (reserve_below nm base nh fp OpenFromSnapshot (vb s1) ∅ (world s1) _ 0 m); rewrite ?Hs1, ?Hh1, ?Hn1; try done; try lia.
  - cbn [w_issued]. by rewrite Hs1.
  - reflexivity.
  - cbn [p_vb]. exact Hu1.
  - lia.
Qed.

Definition race_v : VB := vb ex_r1.2. (* SeqNum 5, mark 1048576 *)

Lemma SaveState_race_reissues_witness :
  exists y p k, rtc (wstep "v" "" [] "k" toy_open true) (mkW (Some (mkProc race_v None ∅)) (world ex_r1.2) [(0, 5)]) y /\
    w_issued y = [(1048576, 1048577); (5, 5 + 1048576); (0, 5)] /\ w_proc y = Some p /\ VolumeUUID (p_vb p) = VolumeUUID race_v /\
    5 < k <= 5 + 1048576 /\ 1048576 < k <= 1048576 + 1.
Proof.
  assert (SeqNum race_v = 5 /\ seqNumHighWater race_v = 1048576) as [E1 E2] by (vm_compute; by split).
  rewrite <-E1, <-E2.
  apply (@SaveState_race_reissues toy_aead toy_state_json toy_aead_laws toy_state_json_laws "v" "" [] "k" toy_open race_v (world ex_r1.2)
    [(0, SeqNum race_v)] (seqNumHighWater race_v) toy_vb 1).
  - constructor; vm_compute; reflexivity.
  - vm_compute. discriminate.
  - vm_compute. discriminate.
  - vm_compute. reflexivity.
  - vm_compute. reflexivity.
  - rewrite E1, E2. lia.
  - rewrite E1, E2. lia.
  - vm_compute. discriminate.
  - vm_compute. split; [discriminate|reflexivity].
  - vm_compute. reflexivity.
  - exact toy_ident.
  - vm_compute. split; [reflexivity|discriminate].
  - vm_compute. discriminate.
Defined.

(** [SaveState] on a volume without a UUID publishes the first window
    before it is durable: here the local write fails, yet the next reservation
    succeeds while nothing at all is on disk. *)
Theorem SaveState_mint_not_durable :
  let s0 := mkSt toy_vb (mkWorld ∅ ∅ [Works; Fails plain 0] [[Byte.x01; Byte.x02; Byte.x03; Byte.x04]] 0) in
  let save := SaveStateCtx s0 in
  let res := reserveSeqNum 1 save.2 in
  save.1 = Err plain /\ res.1 = Ok 0 /\ files (world res.2) = ∅ /\ objects (world res.2) = ∅.
Proof. vm_compute. by repeat split. Qed.

(** C40. A transient error reading the local config.json makes [LoadState] take
    the backend's copy even when it lags: whatever the history of the volume,
    if an interval was handed out past the mark in the backend's copy and the
    one local read fails, the open succeeds and the next reservation hands out
    a SeqNum of that interval again. *)
Theorem LoadState_local_error_reissues {A : AEAD} {S : StateJSON}
    {AL : AEADLaws A} {SL : StateJSONLaws S} nm base nh fp (OpenFromSnapshot : string -> M unit) w l a b stb e k v m :
  hist nm base nh fp OpenFromSnapshot None w l -> (a, b) ∈ l ->
  objects w !! key nm = Some (blob_of nh stb) -> good nm fp stb -> blen (blob_of nh stb) < 2 ^ 32 ->
  vs_BlockSize stb <> 0 -> vs_SnapshotID stb = EmptyString -> a <= vs_SeqNumHighWater stb < b ->
  plan w = [Fails e k] -> errors_Is e ErrIntegrity = false -> errors_Is e ErrEncryptionMismatch = false ->
  ident nm base nh fp v -> 0 < m <= seqNumReservation -> vs_SeqNumHighWater stb + m <= MaxSeqNum ->
  exists s', LoadStateCtx OpenFromSnapshot (mkSt v w) = (Ok tt, s') /\ VolumeUUID (vb s') = vs_VolumeUUID stb /\
    exists start, (reserveSeqNum m s').1 = Ok start /\ a < start + 1 <= b.
Proof.
  intros _ Hin Hob Hg Hlen Hbs Hsn Hab Hp He1 He2 Hid Hm Hmax.
  change MaxSeqNum with (2 ^ 56 - 1) in *. change seqNumReservation with 1048576 in *.
  assert (decode_state v (blob_of nh stb) = Ok stb) as Ed
    by (rewrite <-(id_hash _ _ _ _ _ Hid); apply (decode_blob v _ fp); [apply Hid..|apply Hg]).
  assert (post (LoadStateCtx OpenFromSnapshot) (mkSt v w) (fun r s' =>
    r = Ok tt /\ EncryptionEnabled (vb s') = true /\ SeqNum (vb s') = vs_SeqNumHighWater stb /\
    seqNumHighWater (vb s') = vs_SeqNumHighWater stb + seqNumReservation /\ VolumeUUID (vb s') = vs_VolumeUUID stb /\
    nextStateSeqNum (vb s') = u64 (vs_StateSeqNum stb + 1))) as Hload.
  { apply (load_calm nm base nh fp OpenFromSnapshot (mkSt v w) (Err e) (Ok stb) stb); try done.
    - change seqNumReservation with 1048576. lia.
    - eapply post_mono; [apply (local_fails _ _ e k []); exact Hp|]. intros r s' (-> & Hq & Hp'). do 2 (split; [done|]).
      unfold calm. rewrite Hp'. constructor.
    - intros s1 Hq Hc. pose proof Hq as (Ev & _ & Eo). cbn [vb world] in Ev, Eo.
      eapply post_mono; [apply (backend_calm s1 (blob_of nh stb)); [done| |done]|].
      + rewrite Ev, Eo, (id_name _ _ _ _ _ Hid). exact Hob.
      + intros r s' (-> & ? & ?). rewrite Ev. done.
    - cbn [is_fatal_load]. by rewrite He1, He2.
    - unfold select_state. cbn [state_or_zero err_of vb]. destruct (Z.eqb_spec (vs_BlockSize stb) 0); [done|]. cbn [andb orb].
      rewrite (id_enc _ _ _ _ _ Hid), (g_enc _ _ _ Hg), (id_key _ _ _ _ _ Hid), (g_key _ _ _ Hg).
      cbn [Bool.eqb negb andb]. by rewrite bool_decide_true by done. }
  destruct (LoadStateCtx OpenFromSnapshot (mkSt v w)) as [r s1] eqn:El.
  destruct (post_run _ _ _ Hload _ _ El) as (-> & Hen & Hs1 & Hh1 & Hu1 & _). change seqNumReservation with 1048576 in Hh1.
  exists s1. split; [done|]. split; [done|]. exists (vs_SeqNumHighWater stb). split; [|lia].
  rewrite <-Hs1. pose proof (g_hw _ _ _ Hg). apply reserve_fast; rewrite ?Hs1, ?Hh1; try done; try lia.
Qed.

(** Both copies hold mark 1048576, the upload of the next mark fails, crash. *)
Definition lag_save := SaveStateCtx toy_st.
Definition lag_reserve := reserveSeqNum 1048577
  (mkSt (vb lag_save.2) (mkWorld (files (world lag_save.2)) (objects (world lag_save.2)) (repeat Works 9 ++ [Fails plain 0]) [] (now (world lag_save.2)))).
Definition lag_world : World := mkWorld (files (world lag_reserve.2)) (objects (world lag_reserve.2)) [Fails plain 0] [] (now (world lag_reserve.2)).
Definition lag_vb : VB := toy_vb <| VolumeUUID := VolumeUUID (vb lag_save.2) |> <| nextStateSeqNum := 1 |>.
Definition lag_state : VBState := state_of lag_vb 1048576 1.

Lemma lag_hist : toy_hist None lag_world [(0, 1048577)].
Proof.
  assert (lag_save.1 = Ok tt /\ lag_reserve.1 = Ok 0) as [E1 E2] by (vm_compute; by split).
  pose proof (h_new "v" "" [] "k" toy_open toy_vb toy_world eq_refl eq_refl toy_ident eq_refl eq_refl eq_refl) as H0.
  pose proof (h_save "v" "" [] "k" toy_open toy_vb toy_world [] lag_save.1 lag_save.2 H0 ltac:(by repeat constructor) eq_refl
    (surjective_pairing _) (or_intror E1)) as H1.
  apply (h_env _ _ _ _ _ _ _ _ (repeat Works 9 ++ [Fails plain 0]) []) in H1.
  pose proof (h_reserve "v" "" [] "k" toy_open _ _ _ 1048577 lag_reserve.1 lag_reserve.2 H1) as H2. rewrite E2 in H2.
  lapply H2; [clear H2; intros H2|constructor]. lapply H2; [clear H2; intros H2|clear; lia].
  lapply H2; [clear H2; intros H2|vm_compute; reflexivity]. lapply H2; [clear H2; intros H2|vm_compute; reflexivity].
  lapply H2; [clear H2; intros H2|rewrite <-E2; apply surjective_pairing].
  apply h_env, (h_crash _ _ _ _ _ _ _ _ H2).
Qed.

Lemma LoadState_local_error_reissues_witness :
  exists s', LoadStateCtx toy_open (mkSt toy_vb lag_world) = (Ok tt, s') /\ VolumeUUID (vb s') = vs_VolumeUUID lag_state /\
    exists start, (reserveSeqNum 1 s').1 = Ok start /\ 0 < start + 1 <= 1048577.
Proof.
  apply (@LoadState_local_error_reissues toy_aead toy_state_json toy_aead_laws toy_state_json_laws "v" "" [] "k" toy_open lag_world
    [(0, 1048577)] 0 1048577 lag_state plain 0 toy_vb 1).
  - exact lag_hist.
  - constructor.
  - vm_compute. reflexivity.
  - constructor; vm_compute; try reflexivity; discriminate.
  - vm_compute. reflexivity.
  - vm_compute. discriminate.
  - vm_compute. reflexivity.
  - vm_compute. split; [discriminate|reflexivity].
  - reflexivity.
  - reflexivity.
  - reflexivity.
  - exact toy_ident.
  - vm_compute. split; [reflexivity|discriminate].
  - vm_compute. discriminate.
Defined.
