(* ===== verification/RoundTrips.v ===== *)
(** * Checkpoint theorems

    What [SaveLiveCheckpoint] writes, [LoadLiveCheckpoint] reads back; and what
    [LoadBlockState] makes of a failed read. *)

From S2P Require Import Prelude Words BlockMap Extents BlockStore BlockStoreFacts BlockStoreRace Crypto Paths Volume.
From S2P Require Import WAL Checkpoint CheckpointFacts SeqNum Frames Instances.

(** A backend write that returns nil stored exactly the bytes it was given. *)
Lemma backend_Write_ok t id h d s s1 :
  backend_Write t id h d s = (Ok tt, s1) ->
  vb s1 = vb s /\ files (world s1) = files (world s) /\ now (world s1) = now (world s) /\
  objects (world s1) = <[GetFilePath t id (VolumeName (vb s)) := h ++ d]> (objects (world s)).
Proof.
  unfold backend_Write, backend_WriteTo, bind, get, next.
  destruct (plan (world s)) as [|[|e [|k]|k] p]; cbn; intros [= <-]; done.
Qed.

Lemma backend_Write_err t id h d s e s1 :
  backend_Write t id h d s = (Err e, s1) -> vb s1 = vb s.
Proof.
  unfold backend_Write, backend_WriteTo, bind, get, next.
  destruct (plan (world s)) as [|[|e' [|k]|k] p]; cbn; intros [= <- <-]; done.
Qed.

Lemma live_attempts_ok n c e s s1 :
  live_attempts n c e s = (Ok tt, s1) ->
  objects (world s1) !! live_key (vb s) = Some c.
Proof.
  revert e s. induction n as [|n IH]; intros e s; [done|].
  cbn [live_attempts]. unfold bind at 1, try at 1.
  destruct (backend_Write _ _ _ _ s) as [[[]|e1] s2] eqn:E; intros H.
  - apply backend_Write_ok in E as (? & ? & ? & Ho). injection H as <-. cbn. rewrite Ho.
    apply lookup_insert_eq.
  - apply IH in H. apply backend_Write_err in E. by rewrite E in H.
Qed.

(** A successful save leaves the serialised map under the live key. *)
Lemma SaveLive_object s s1 :
  bto_dirty (vb s) = true -> SaveLiveCheckpointCtx s = (Ok tt, s1) ->
  exists t, objects (world s1) !! live_key (vb s) = Some (serialize_map (vb s) t).
Proof.
  intros Hd. unfold SaveLiveCheckpointCtx, bind at 1, get. rewrite Hd. cbn [negb].
  unfold bind, get_now. intros H. exists (now (world s)). by apply live_attempts_ok in H.
Qed.

(** A whole-object read with nothing failing. *)
Lemma backend_Read_whole t id v w d :
  plan w = [] -> objects w !! GetFilePath t id (VolumeName v) = Some d -> blen d < 2 ^ 32 ->
  backend_Read t id 0 0 (mkSt v w) = (Ok d, mkSt v w).
Proof.
  intros Hp Ho Hl. unfold backend_Read, backend_ReadFrom, bind, get, next, get_object. cbn [vb world].
  rewrite Hp. cbn [vb world]. rewrite Ho. cbn [Z.eqb].
  assert (SafeInt64ToUint32 (blen d) = blen d) as ->.
  { unfold SafeInt64ToUint32, blen in *. unfold_widths. zcrush. }
  rewrite Z.add_0_l. destruct (Z.ltb_spec (blen d) (blen d)); [lia|].
  unfold ret. by rewrite slice_all.
Qed.

(** Loading the map another instance of the same format saved. *)
Lemma load_saved v v2 w2 t :
  map_saveable v -> same_format v v2 -> plan w2 = [] -> objects w2 !! live_key v = Some (serialize_map v t) ->
  exists v3, LoadLiveCheckpointCtx (mkSt v2 w2) = (Ok tt, mkSt v3 w2) /\
    v3 = parse_into (expand_all (map_to_list (BlocksToObject v)).*2 (blockStride v)) (v2 <| gcRefcount := if GCEnabled v2 then ∅ else gcRefcount v2 |>).
Proof.
  intros Hms Hsf Hp Ho. destruct (parse_saved _ Hms v2 w2 t Hsf) as (v3 & Hrun & Hv3). exists v3. split; [|done].
  unfold LoadLiveCheckpointCtx, bind at 1, try.
  rewrite (backend_Read_whole FileTypeBlockCheckpointLive 0 v2 w2 (serialize_map v t) Hp); [exact Hrun| |].
  - rewrite (sf_name _ _ Hsf). exact Ho.
  - rewrite serialize_length by done. apply Hms.
Qed.

(** C29. After [SaveLiveCheckpoint] succeeds on a volume, [LoadLiveCheckpoint]
    by another instance of the same format, reading the same object, succeeds
    and installs a well-formed map that resolves every block to the same
    chunk, offset and SeqNum; with GC enabled the rebuilt reference counts are
    exact; the next ObjectNum is above every chunk in use; and a block store
    with no persisted extents resolves every block to the same place. *)
Theorem live_checkpoint_roundtrip s s1 v2 w2 :
  map_saveable (vb s) -> bto_dirty (vb s) = true -> SaveLiveCheckpointCtx s = (Ok tt, s1) ->
  same_format (vb s) v2 -> plan w2 = [] -> persistedExtents (BStore v2) = ∅ ->
  objects w2 !! live_key v2 = objects (world s1) !! live_key v2 ->
  let stride := blockStride (vb s) in
  exists v3, LoadLiveCheckpointCtx (mkSt v2 w2) = (Ok tt, mkSt v3 w2) /\
    map_wf stride (BlocksToObject v3) /\
    (forall b, LookupBlockToObject stride (BlocksToObject v3) b
             = LookupBlockToObject stride (BlocksToObject (vb s)) b) /\
    (GCEnabled v2 = true -> rc_exact (gcRefcount v3) (BlocksToObject v3)) /\
    (forall k bl, BlocksToObject (vb s) !! k = Some bl -> bl_ObjectID bl < ObjectNum v3) /\
    (UseBlockStore v2 = true -> forall b, readPersisted (persistedExtents (BStore v3)) b
             = entry_of <$> LookupBlockToObject stride (BlocksToObject (vb s)) b).
Proof.
  intros Hms Hd Hsave Hsf Hp Hbs Ho stride.
  apply SaveLive_object in Hsave as [t Hobj]; [|done].
  assert (live_key v2 = live_key (vb s)) as Hk by (unfold live_key; by rewrite (sf_name _ _ Hsf)).
  rewrite Hk, Hobj in Ho. destruct (load_saved _ v2 w2 t Hms Hsf Hp Ho) as (v3 & Hrun & Hv3).
  exists v3. split; [exact Hrun|]. subst v3. destruct (parse_into_recs _ Hms (v2 <| gcRefcount := if GCEnabled v2 then ∅ else gcRefcount v2 |>))
    as (W & L & G & O & B); [by destruct Hsf|].
  split; [exact W|]. split; [exact L|]. split; [exact G|]. split; [exact O|].
  intros Hu b. destruct (B Hu) as (_ & _ & R).
  - change (persistedExtents (BStore _)) with (persistedExtents (BStore v2)). rewrite Hbs.
    apply exts_wf_empty.
  - rewrite R. change (persistedExtents (BStore _)) with (persistedExtents (BStore v2)). rewrite Hbs.
    by destruct (LookupBlockToObject _ _ b).
Qed.

Definition ck_map : gmap Z BlockLookup := {[ 3 := mkBL [7; 9] 3 5 7 10 2; 9 := mkBL [] 9 2 4 50 1 ]}.
Definition ck_vb : VB := toy_vb <| BlocksToObject := ck_map |> <| bto_dirty := true |> <| GCEnabled := true |>.
Definition ck_st : St := mkSt ck_vb toy_world.

Lemma ck_saveable : map_saveable ck_vb.
Proof.
  constructor.
  - reflexivity.
  - split; done.
  - apply map_wf_iff. apply (bool_decide_unpack _). vm_compute. exact I.
  - assert (map_Forall (fun _ bl => bl_ObjectOffset bl + (bl_NumBlocks bl - 1) * 20 < MaxUint16 * 20) ck_map) as H
      by (apply (bool_decide_unpack _); vm_compute; exact I).
    exact H.
  - assert (map_Forall (fun _ bl => 0 <= bl_ObjectID bl < 2 ^ 64 - 1 /\ in_u64 (bl_SeqNum bl) /\
      Forall in_u64 (bl_SeqNums bl)) ck_map) as H by (apply (bool_decide_unpack _); vm_compute; exact I).
    intros k bl Hk. destruct (H k bl Hk) as (? & ? & Hf). split; [done|]. intros i. unfold seqNumAt.
    destruct (_ && _); [|done]. destruct (bl_SeqNums bl !! _) as [x|] eqn:E; [|done].
    rewrite Forall_forall in Hf. apply Hf. by eapply list_elem_of_lookup_2.
  - vm_compute. reflexivity.
Qed.

Lemma live_checkpoint_roundtrip_witness :
  (SaveLiveCheckpointCtx ck_st).1 = Ok tt /\
  let w2 := world (SaveLiveCheckpointCtx ck_st).2 in
  exists v3, LoadLiveCheckpointCtx (mkSt toy_vb w2) = (Ok tt, mkSt v3 w2) /\
    LookupBlockToObject 20 (BlocksToObject v3) 4 = Some (5, 30, 9) /\ 5 < ObjectNum v3.
Proof.
  assert ((SaveLiveCheckpointCtx ck_st).1 = Ok tt) as E by (vm_compute; reflexivity).
  split; [exact E|]. intros w2.
  destruct (live_checkpoint_roundtrip ck_st (SaveLiveCheckpointCtx ck_st).2 toy_vb w2)
    as (v3 & Hr & _ & L & _ & O & _).
  - exact ck_saveable.
  - reflexivity.
  - rewrite <-E. apply surjective_pairing.
  - by constructor.
  - vm_compute. reflexivity.
  - reflexivity.
  - reflexivity.
  - exists v3. split; [exact Hr|]. split.
    + change 20 with (blockStride (vb ck_st)). rewrite L. vm_compute. reflexivity.
    + apply (O 3 (mkBL [7; 9] 3 5 7 10 2)). reflexivity.
Defined.

(** A numbered checkpoint cannot be lost quietly by truncation, except at a
    record boundary: every other proper prefix of a checkpoint is refused, and
    the block map of the volume that tried to load it is not changed. *)
Theorem truncated_checkpoint_refused c n v w :
  (n < length c)%nat -> Z.of_nat n - 14 <> 34 * Z.of_nat ((n - 14) / 34) ->
  exists e v', parseBlockCheckpoint (take n c) (mkSt v w) = (Err e, mkSt v' w) /\
    BlocksToObject v' = BlocksToObject v /\ ObjectNum v' = ObjectNum v /\ BStore v' = BStore v.
Proof.
  intros Hn Hc. destruct (walk_truncated c n (Version v) (WALMagic (BlockToObjectWAL v)) Hn Hc) as [e He].
  rewrite parse_run, He. by repeat eexists.
Qed.

Lemma truncated_checkpoint_refused_witness :
  let c := serialize_map ck_vb 0 in
  length c = 116%nat /\ exists e v', parseBlockCheckpoint (take 90 c) toy_st = (Err e, mkSt v' toy_world).
Proof.
  intros c. assert (length c = 116%nat) as Hl by (vm_compute; reflexivity). split; [exact Hl|].
  destruct (truncated_checkpoint_refused c 90 toy_vb toy_world) as (e & v' & H & _).
  - rewrite Hl. lia.
  - vm_compute. discriminate.
  - exists e, v'. exact H.
Defined.

(** [LoadBlockState] reports a checkpoint it could not read as success: with
    no local copy, any error of the backend read, not only a missing object,
    leaves the volume with the block map it had (empty on a fresh open) and
    returns nil. *)
Theorem LoadBlockState_hides_read_errors v w e k :
  files w !! numbered_path v = None -> plan w = [Works; Fails e k] ->
  exists w', LoadBlockStateCtx (mkSt v w) = (Ok tt, mkSt v w') /\ objects w' = objects w.
Proof.
  intros Hf Hp. unfold LoadBlockStateCtx, backend_Read, backend_ReadFrom, bind, try, get, get_file, next, get_object, throw.
  cbn [vb world]. rewrite Hf, Hp. cbn. eexists. split; [reflexivity|done].
Qed.

Lemma LoadBlockState_hides_read_errors_witness :
  let w1 := world (SaveBlockStateCtx ck_st).2 in
  let w2 := mkWorld ∅ (objects w1) [Works; Fails plain 0] [] 0 in
  (SaveBlockStateCtx ck_st).1 = Ok tt /\ objects w2 <> ∅ /\
  exists w3, LoadBlockStateCtx (mkSt toy_vb w2) = (Ok tt, mkSt toy_vb w3) /\ objects w3 = objects w2.
Proof.
  intros w1 w2. split; [vm_compute; reflexivity|]. split; [vm_compute; discriminate|].
  apply (LoadBlockState_hides_read_errors toy_vb w2 plain 0); reflexivity.
Defined.
