(* ===== verification/Device.v ===== *)
(** * Theorems on the volume as a device

    Every run of the engine is a run of the abstract device; a range that was
    written reads back until it is overwritten; after a drain another instance
    finds the same bytes from the backend alone. *)

From S2P Require Import Prelude Words BlockMap Extents BlockStore BlockStoreFacts BlockStoreRace Crypto Paths Volume WAL Chunk ChunkFacts Read Blocks Inherit Content Requests ReadFacts Checkpoint CheckpointFacts SeqNum Frames Footprint Engine GC WALFacts VolInv WriteFacts FlushFacts UploadFacts DrainFacts GCFacts Refinement.
From S2P Require Import SeqNumFacts Instances RoundTrips.

(** ** A fresh volume *)

Section fresh.
Context {A : AEAD}.

(** A volume that was just opened: an empty segment, nothing in any index. *)
Record fresh_volume (v : VB) (w : World) (t : Z) : Prop := {
  fr_geo : geometry_ok v;
  fr_stride : stride_ok v;
  fr_pos : 0 < blockStride v;
  fr_use : UseBlockStore v = true;
  fr_base : BaseBlockMap v = None /\ ancestors v = [];
  fr_store : BStore v = NewUnifiedBlockStore (BlockSize v);
  fr_map : BlocksToObject v = ∅;
  fr_refs : gcRefcount v = ∅ /\ 0 <= gcFloor v;
  fr_writes : Writes v = [];
  fr_nums : 0 <= SeqNum v /\ 0 <= ObjectNum v /\ 0 <= WallNum (vb_WAL v);
  fr_active : last (DB (vb_WAL v)) = Some (wal_path v (WallNum (vb_WAL v)));
  fr_open : wal_closed (vb_WAL v) = false;
  fr_files : files w !! wal_path v (WallNum (vb_WAL v)) = Some (WALHeader v t);
  fr_next : forall n, WallNum (vb_WAL v) < n -> files w !! wal_path v n = None
}.

Lemma get_entry_new bs b : get_entry (NewUnifiedBlockStore bs) b = None.
Proof.
  unfold get_entry, NewUnifiedBlockStore. cbn. destruct (_ !! getShard b) as [sh|] eqn:E; [|done].
  change ([∅; ∅; ∅; ∅; ∅; ∅; ∅; ∅; ∅; ∅; ∅; ∅; ∅; ∅; ∅; ∅]) with (replicate 16 (∅ : gmap Z BlockEntry)) in E.
  apply lookup_replicate in E as [-> _]. apply lookup_empty.
Qed.

Lemma lookup_empty_map stride b : LookupBlockToObject stride (∅ : gmap Z BlockLookup) b = None.
Proof. unfold LookupBlockToObject, resolveBlockLookup, resolve_in. by rewrite lookup_empty, map_to_list_empty. Qed.

Lemma fresh_inv v w t : fresh_volume v w t -> vol_inv (mkSt v w) [] /\ forall o, byte_at (mkSt v w) o = Byte.x00.
Proof.
  intros [Hg Hs Hp Hu [Hb Ha] Hst Hm [Hrc Hgf] HW (H1 & H2 & H3) Hac Hop Hf Hn].
  assert (forall b, get_entry (BStore v) b = None) as He by (intros; rewrite Hst; apply get_entry_new).
  assert (forall b, readPersisted (persistedExtents (BStore v)) b = None) as Hr.
  { intros b. rewrite Hst. unfold readPersisted, findPersistedExtentLocked. cbn. by rewrite lookup_empty, map_to_list_empty. }
  assert (forall b, LookupBlockToObject (blockStride v) (BlocksToObject v) b = None) as Hl by (intros; rewrite Hm; apply lookup_empty_map).
  split.
  - constructor; cbn [vb world]; rewrite ?HW; try done.
    + constructor; cbn [vb world]; try done.
      * by apply (not_clone_wf v (objects w)).
      * by apply (not_clone_wf v (objects w)).
      * rewrite Hst. apply new_wf.
      * rewrite Hst. apply exts_wf_empty.
      * intros b e. by rewrite He.
      * intros b pe. by rewrite Hr.
      * intros b p q. by rewrite Hr.
    + exists t. by rewrite Hf, app_nil_r.
    + intros b e. by rewrite He.
    + intros x e Hx. inversion Hx.
    + rewrite Hm. constructor; intros *; by rewrite lookup_empty.
    + intros b. by rewrite Hr, Hl.
    + intros b l. by rewrite Hl.
    + exists (SeqNum v). split; [lia|]. split; [|done]. intros b l. by rewrite Hl.
    + split; [|done]. intros _ c. rewrite Hrc, Hm. unfold chunk_refs. by rewrite lookup_empty, map_filter_empty, map_size_empty.
  - intros o. unfold byte_at, vol_block. cbn [vb world]. rewrite He, Hr. unfold inh_data. rewrite not_clone_inherited by done. unfold zeros.
    destruct (replicate _ _ !! _) as [x|] eqn:E; [|done]. by apply lookup_replicate in E as [-> _].
Qed.
End fresh.

(** ** Every run is a run of the device *)

(** The simulation, along a whole run. *)
Lemma vol_run_dev {A : AEAD} {S : StateJSON} {P : ProbeJSON} sc s seg tr s' seg' :
  AEADLaws A -> vol_inv s seg -> vol_run sc s seg tr s' seg' ->
  vol_inv s' seg' /\ dev_run (BlockSize (vb s)) (byte_at s) tr (byte_at s').
Proof.
  intros HA Hi Hr. induction Hr as [|s seg o q p r s1 tr s2 seg2 Hadm Hex Hrun IH]; [by split; [|constructor]|].
  pose proof (exec_step HA sc o p (set_plan q s) seg (set_plan_inv s seg q Hi) Hadm) as Hst.
  apply (post_run _ _ _ Hst) in Hex as (Hi1 & Hbs & Hd). destruct (IH Hi1) as [Hi2 Hdr].
  split; [done|]. rewrite Hbs in Hdr. by econstructor.
Qed.

(** C1. Refinement. Every sequence of reads, writes, flushes, drains and chunk
    garbage collections of an open volume, encrypted or not, with any backend
    call of any of them failing, torn or short and any order of the concurrent
    uploads, is a sequence of the abstract device: each read that succeeds
    returns the device's bytes, each write that succeeds replaces exactly its
    range, one that fails replaces a prefix ending at a block boundary, flushes,
    drains and sweeps change nothing; and the volume's invariant (which has the
    reference counts exact) holds again at the end. *)
Theorem volume_refines_device {A : AEAD} {S : StateJSON} {P : ProbeJSON} sc s seg tr s' seg' :
  AEADLaws A -> vol_inv s seg -> vol_run sc s seg tr s' seg' ->
  vol_inv s' seg' /\ dev_run (BlockSize (vb s)) (byte_at s) tr (byte_at s').
Proof. apply vol_run_dev. Qed.

(** A volume with a sealed log and garbage collection, on a disk that holds its empty first segment. *)
Definition dev_vb : VB := toy_vb <| GCEnabled := true |> <| BaseDir := "d"%string |> <| VolumeUUID := [Byte.x01; Byte.x02; Byte.x03; Byte.x04] |>
  <| vb_WAL := mkWAL ["d/v/wal/chunks/wal.00000000.bin"%string] 0 "d" (lit "VBWE") false false |>.
Definition dev_st : St :=
  mkSt dev_vb (mkWorld {[ "d/v/wal/chunks/wal.00000000.bin"%string := WALHeader dev_vb 0 ]} ∅ [] [] 0).

#[local] Existing Instance toy_aead.
#[local] Existing Instance toy_state_json.
#[local] Existing Instance toy_probe_json.

Lemma dev_fresh : fresh_volume dev_vb (world dev_st) 0.
Proof.
  constructor; try done.
  - intros n Hn. cbn in Hn. cbn [world dev_st files]. rewrite lookup_singleton_ne; [done|].
    change "d/v/wal/chunks/wal.00000000.bin"%string with (wal_path dev_vb 0). intros Heq%wal_path_inj; lia.
Qed.

Definition dev_data : bytes := [Byte.x61; Byte.x62; Byte.x63; Byte.x64; Byte.x65; Byte.x66].
Definition dev_1 : St := (exec serial (WriteOp 2 dev_data) (set_plan [] dev_st)).2.
Definition dev_2 : St := (DrainToBackendCtx serial (set_plan [] dev_1)).2.

Lemma run_eq {X} (m : M X) s r : (m s).1 = r -> m s = (r, (m s).2).
Proof. intros <-. apply surjective_pairing. Qed.

Lemma dev_drains : DrainToBackendCtx serial (set_plan [] dev_1) = (Ok tt, dev_2).
Proof. unfold dev_2. apply run_eq. vm_compute. reflexivity. Qed.

(** Write, drain, sweep, read. *)
Definition dev_kept : St := (exec serial SweepOp (set_plan [] dev_2)).2.
Definition dev_trace : list (op * option bytes) :=
  [(WriteOp 2 dev_data, Some []); (DrainOp, Some []); (SweepOp, Some []); (ReadOp 3 4, Some (slice dev_data 1 5))].

Lemma dev_run_ok : vol_run serial dev_st [] dev_trace (exec serial (ReadOp 3 4) (set_plan [] dev_kept)).2 [].
Proof.
  apply (vr_step serial dev_st [] (WriteOp 2 dev_data) [] [] (Ok []) dev_1).
  { vm_compute. intuition discriminate. }
  { unfold dev_1. apply (run_eq (exec serial (WriteOp 2 dev_data))). vm_compute. reflexivity. }
  apply (vr_step serial dev_1 [] DrainOp [] [] (Ok []) dev_2).
  { split; [apply works_calm; exact (Forall_nil_2 _)|]. split; [by intros ?|]. vm_compute. done. }
  { exact (bind_Ok _ _ _ _ _ dev_drains). }
  apply (vr_step serial dev_2 [] SweepOp [] [] (Ok []) dev_kept).
  { split; [apply works_calm; exact (Forall_nil_2 _)|]. split; [by intros ?|]. vm_compute. done. }
  { unfold dev_kept. apply (run_eq (exec serial SweepOp)). vm_compute. reflexivity. }
  apply (vr_step serial dev_kept [] (ReadOp 3 4) [] [] (Ok (slice dev_data 1 5)) (exec serial (ReadOp 3 4) (set_plan [] dev_kept)).2).
  { vm_compute. intuition discriminate. }
  { apply (run_eq (exec serial (ReadOp 3 4))). vm_compute. reflexivity. }
  constructor.
Qed.

Lemma volume_refines_device_witness :
  exists s' seg', vol_run serial dev_st [] dev_trace s' seg' /\
    vol_inv s' seg' /\ dev_run 4 (byte_at dev_st) dev_trace (byte_at s').
Proof.
  eexists _, _. split; [exact dev_run_ok|].
  apply (volume_refines_device serial dev_st [] dev_trace _ [] toy_aead_laws (proj1 (fresh_inv _ _ _ dev_fresh)) dev_run_ok).
Defined.

(** ** Reading back what was written *)

(** A range no write of a trace touches. *)
Definition untouched (lo hi : Z) (tr : list (op * option bytes)) : Prop :=
  forall offset data r, (WriteOp offset data, r) ∈ tr -> offset + blen data <= lo \/ hi <= offset.

Lemma dev_step_keeps bs d d' o r lo hi : dev_step bs d d' o r -> untouched lo hi [(o, r)] ->
  forall x, 0 <= x -> lo <= x < hi -> d' x = d x.
Proof.
  intros Hs Hu x Hx Hr. destruct Hs as [? ? H|? ? H|offset data H|offset data h Hh _ H|? H|? H|? H]; try by apply H.
  - rewrite (H x Hx), decide_False; [done|]. destruct (Hu offset data _ ltac:(by left)); lia.
  - rewrite (H x Hx), decide_False; [done|]. destruct (Hu offset data _ ltac:(by left)); lia.
Qed.

Lemma dev_run_keeps bs d tr d' lo hi : dev_run bs d tr d' -> untouched lo hi tr ->
  forall x, 0 <= x -> lo <= x < hi -> d' x = d x.
Proof.
  induction 1 as [|d d1 d2 o r tr Hs Hr IH]; intros Hu x Hx Hin; [done|].
  rewrite IH; [|intros ? ? ? ?; eapply Hu; by right|done|done].
  eapply dev_step_keeps; [done| |done|done]. intros offset data r' E%list_elem_of_singleton. eapply Hu. rewrite E. by left.
Qed.

Lemma dev_run_snoc bs d tr o r d' : dev_run bs d (tr ++ [(o, r)]) d' ->
  exists d1, dev_run bs d tr d1 /\ dev_step bs d1 d' o r.
Proof.
  revert d. induction tr as [|[o1 r1] tr IH]; intros d H; cbn in H; inversion H; subst.
  - inversion H6; subst. exists d. split; [constructor|done].
  - destruct (IH _ H6) as (d3 & ? & ?). exists d3. split; [by econstructor|done].
Qed.

(** C13. A write that was acknowledged is read back: after it, and after any
    further operations that leave its range alone (flushes and drains that fail
    included), a read inside the range that succeeds returns the bytes written. *)
Theorem read_your_writes {A : AEAD} {S : StateJSON} {P : ProbeJSON} sc s seg offset data tr ro rl got s' seg' :
  AEADLaws A -> vol_inv s seg -> 0 <= offset <= ro -> 0 < rl -> ro + rl <= offset + blen data ->
  vol_run sc s seg ((WriteOp offset data, Some []) :: tr ++ [(ReadOp ro rl, Some got)]) s' seg' ->
  untouched offset (offset + blen data) tr -> got = slice data (ro - offset) (ro - offset + rl).
Proof.
  intros HA Hi Ho Hrl Hin Hrun Hu. apply vol_run_dev in Hrun as [_ Hd]; [|done..].
  inversion Hd as [|? d1 ? ? ? ? Hw Hrest]; subst. apply dev_run_snoc in Hrest as (d2 & Htr & Hread).
  inversion Hw as [| |? ? Hset| | | |]; subst. inversion Hread; subst.
  apply list_eq. intros i. unfold slice. rewrite list_lookup_fmap.
  destruct (decide (Z.of_nat i < rl)) as [Hlt|Hge].
  - rewrite lookup_seqZ_lt by lia. cbn [fmap option_fmap option_map]. rewrite lookup_take_lt by lia. rewrite lookup_drop.
    rewrite (dev_run_keeps _ _ _ _ _ _ Htr Hu) by lia. rewrite Hset by lia. rewrite decide_True by lia. unfold data_at.
    replace (Z.to_nat (ro + Z.of_nat i - offset)) with (Z.to_nat (ro - offset) + i)%nat by lia.
    destruct (data !! _) as [x|] eqn:E; [done|]. apply lookup_ge_None in E. unfold blen in *. lia.
  - rewrite lookup_seqZ_ge by lia. cbn. symmetry. apply lookup_take_ge. lia.
Qed.

Lemma read_your_writes_witness : slice dev_data 1 5 = slice dev_data (3 - 2) (3 - 2 + 4).
Proof.
  apply (read_your_writes serial dev_st [] 2 dev_data [(DrainOp, Some []); (SweepOp, Some [])] 3 4 (slice dev_data 1 5)
           (exec serial (ReadOp 3 4) (set_plan [] dev_kept)).2 []).
  - exact toy_aead_laws.
  - exact (proj1 (fresh_inv _ _ _ dev_fresh)).
  - lia.
  - lia.
  - vm_compute. discriminate.
  - exact dev_run_ok.
  - intros o d r Hin. rewrite elem_of_cons, list_elem_of_singleton in Hin. destruct Hin; discriminate.
Defined.
