(* ===== verification/PartialFlush.v ===== *)
(** * A flush that fails half way

    [flushLocked] drops from the write buffer every block whose number it has
    flushed, also the versions it has not reached. *)

From S2P Require Import Prelude Words BlockMap Extents BlockStore BlockStoreFacts BlockStoreRace Crypto Paths Volume WAL Chunk ChunkFacts Read Blocks Inherit Content Requests ReadFacts Checkpoint CheckpointFacts SeqNum Frames Footprint Engine GC WALFacts VolInv WriteFacts FlushFacts UploadFacts DrainFacts GCFacts Refinement.
From S2P Require Import SeqNumFacts Instances RoundTrips Device.

Section partial.
Context {A : AEAD}.

Lemma flush_loop_app w l1 l2 : forall fl n s Q,
  post (flush_loop w l1 fl n) s (fun r s1 => exists f m, r = Ok (f, m, None) /\ post (flush_loop w l2 f m) s1 Q) ->
  post (flush_loop w (l1 ++ l2) fl n) s Q.
Proof.
  induction l1 as [|b l1 IH]; intros fl n s Q; cbn [flush_loop app].
  { intros (f & m & [= -> ->] & H). exact H. }
  unfold post, bind, try. destruct (w b s) as [[[]|e] s1]; cbn.
  - apply IH.
  - intros (f & m & [=] & _).
Qed.

Lemma WriteWAL_refused e k q s name b :
  works 0 (Fails e k :: q) s -> last (DB (vb_WAL (vb s))) = Some name ->
  post (WriteWAL b) s (fun r s' => (exists e', r = Err e') /\ vb s' = vb s /\ files (world s') = files (world s)).
Proof.
  intros [E|[_ [=]]] Hl. cbn in E. unfold WriteWAL. mgo. cbn zeta. rewrite Hl.
  destruct (wal_closed _); mgo; [by eauto|].
  unfold post, file_size, bind, next. rewrite E. cbn. eauto.
Qed.

(** The records before the failing one are written, the others are not. *)
Lemma flush_loop_stops e k q s seg xs y rest :
  vol_inv s seg -> Writes (vb s) = xs ++ y :: rest -> works (2 * length xs) (Fails e k :: q) s ->
  post (flush_loop WriteWAL (Writes (vb s)) ∅ 0) s (fun r s' =>
    (exists s1, flushing s s1 seg xs /\ vb s' = vb s1 /\ files (world s') = files (world s1)) /\
    exists err, r = Ok (list_to_set (b_Block <$> xs), length xs, Some err)).
Proof.
  intros Hi HW Hw. rewrite HW. apply flush_loop_app.
  assert (flushing s s seg []) as H0.
  { constructor; [by rewrite app_nil_r|intros x e' Hx; by inversion Hx|done|done|].
    exists (BStore (vb s)), (wal_dirty (vb_WAL (vb s))). by rewrite flush_eta. }
  eapply post_mono; [apply (flush_loop_works (Fails e k :: q) s seg xs [] 0 s ∅ 0 H0); [|by rewrite Nat.add_0_r]|].
  { intros x Hx. rewrite HW. apply elem_of_app. by left. }
  cbn beta. intros r s1 (Hf & Hw1 & ->). rewrite app_nil_l, union_empty_r_L, Nat.add_0_r in *.
  do 2 eexists. split; [reflexivity|]. cbn [flush_loop].
  pose proof (WriteWAL_refused e k q s1 _ y Hw1 (vi_active _ _ (fl_inv _ _ _ _ Hf))) as Hy.
  unfold post, bind, try in *. destruct (WriteWAL y s1) as [r s2]. cbn in Hy |- *. destruct Hy as ([e' ->] & Ev & Ef).
  split; eauto.
Qed.

(** A flush with an empty buffer touches nothing. *)
Lemma Flush_empty s : UseShardedWAL (vb s) = false -> Writes (vb s) = [] ->
  post Flush s (fun r s' => r = Ok tt /\ Writes (vb s') = [] /\ files (world s') = files (world s)).
Proof. intros Hs HW. unfold Flush. mgo. rewrite Hs. unfold flushLocked. mgo. rewrite HW. cbn [flush_loop]. mgo. by cbn. Qed.

(** Every block number of the buffer was flushed: nothing stays in it. *)
Lemma settle_covered v u wd xs ys :
  Writes v = xs ++ ys -> ys <> [] -> (forall b, b ∈ ys -> b_Block b ∈ b_Block <$> xs) ->
  Writes (settle_flush (Writes v) (list_to_set (b_Block <$> xs))
    (v <| BStore := u |> <| vb_WAL := (vb_WAL v) <| wal_dirty := wd |> |>)) = [].
Proof.
  intros HW Hne Hin. unfold settle_flush. cbn. destruct (decide _) as [He|_].
  - destruct ys as [|y ys]; [done|]. specialize (Hin y ltac:(by left)).
    assert (b_Block y ∈ (list_to_set (b_Block <$> xs) : gset Z)) as Hy by (by apply elem_of_list_to_set). rewrite He in Hy. set_solver.
  - apply filter_none. intros x Hx. apply negb_false_iff, bool_decide_eq_true, elem_of_list_to_set.
    change (x ∈ Writes v) in Hx. rewrite HW in Hx. apply elem_of_app in Hx as [Hx|Hx]; [|by apply Hin]. apply list_elem_of_fmap. eauto.
Qed.

Lemma Flush_partial e k q s seg xs y rest :
  vol_inv s seg -> Writes (vb s) = xs ++ y :: rest -> (forall b, b ∈ y :: rest -> b_Block b ∈ b_Block <$> xs) ->
  works (2 * length xs) (Fails e k :: q) s ->
  post Flush s (fun r s1 => r = Err plain /\ UseShardedWAL (vb s1) = false /\ Writes (vb s1) = [] /\
    Forall (wal_block (BlockSize (vb s))) (seg ++ xs) /\
    exists t, files (world s1) !! wal_path (vb s) (WallNum (vb_WAL (vb s)))
      = Some (WALHeader (vb s) t ++ records (vb s) (seg ++ xs))).
Proof.
  intros Hi HW Hin Hw. unfold Flush. mgo. rewrite (go_shards _ (vi_geo _ _ Hi)). unfold flushLocked. mgo.
  eapply post_mono; [by eapply flush_loop_stops|]. cbn beta.
  intros r s' ((s1 & [Hi1 _ _ _ (u & wd & Ev)] & Ev' & Ef') & err & ->). cbn beta iota. mgo.
  assert ((length xs <? length (Writes (vb s)))%nat = true) as ->.
  { apply Nat.ltb_lt. rewrite HW, length_app. cbn [length]. lia. }
  mgo. cbn [vb world]. rewrite Ev', Ev. split; [done|]. split; [exact (go_shards _ (vi_geo _ _ Hi))|].
  split; [by eapply settle_covered|]. destruct s1 as [v1 w1]. cbn [vb world] in *. subst v1.
  split.
  - destruct (Forall_app (buffered ((vb s) <| BStore := u |> <| vb_WAL := (vb_WAL (vb s)) <| wal_dirty := wd |> |>)) (Writes (vb s)) (seg ++ xs)) as [H _].
    eapply Forall_impl; [exact (proj2 (H (vi_bufs _ _ Hi1)))|]. by intros b [].
  - destruct (vi_seg _ _ Hi1) as [t Ht]. exists t. rewrite Ef'. exact Ht.
Qed.
End partial.

(** C38. A flush that fails between two writes of one block loses the later
    one: when appending [y] fails and the block of [y], and of every write
    after it, was already flushed in an older version, the failing Flush
    removes all of them from the write buffer. The next Flush finds an empty
    buffer and reports success, although the log it acknowledges ends before
    [y]: recovery returns the older versions. *)
Theorem partial_flush_loses_rewrite {A : AEAD} s seg xs y rest e k :
  AEADLaws A -> vol_inv s seg -> Writes (vb s) = xs ++ y :: rest ->
  (forall b, b ∈ y :: rest -> b_Block b ∈ b_Block <$> xs) ->
  plan (world s) = replicate (2 * length xs) Works ++ [Fails e k] ->
  exists s1 s2, Flush s = (Err plain, s1) /\ Flush (set_plan [] s1) = (Ok tt, s2) /\ Writes (vb s2) = [] /\
    recovered_blocks (vb s) (default [] (files (world s2) !! wal_path (vb s) (WallNum (vb_WAL (vb s)))))
      = Ok (seg ++ xs).
Proof.
  intros HA Hi HW Hin Hp. pose proof (Flush_partial e k [] s seg xs y rest Hi HW Hin ltac:(by left)) as H.
  unfold post in H. destruct (Flush s) as [r s1] eqn:E1. cbn in H. destruct H as (-> & Hs & HW1 & Hf & t & Ht).
  pose proof (Flush_empty (set_plan [] s1) Hs HW1) as H2. unfold post in H2.
  destruct (Flush (set_plan [] s1)) as [r2 s2] eqn:E2. cbn in H2. destruct H2 as (-> & HW2 & Ef).
  exists s1, s2. do 3 (split; [done|]). change (files (world s2) = files (world s1)) in Ef. rewrite Ef.
  rewrite Ht. cbn [default from_option]. unfold id. rewrite <-(app_nil_r (records _ _)).
  pose proof (proj1 (si_stride _ (vi_store _ _ Hi))) as Hbs.
  apply recovered_segment; [done|done|exact (go_header _ (vi_geo _ _ Hi))|done|].
  pose proof (record_size_pos (vb s)). unfold blen. cbn [length]. lia.
Qed.

#[local] Existing Instance toy_aead.
#[local] Existing Instance toy_state_json.
#[local] Existing Instance toy_probe_json.

(** Block 0 written twice; the disk refuses the second record. *)
Definition old_data : bytes := [Byte.x01; Byte.x01; Byte.x01; Byte.x01].
Definition new_data : bytes := [Byte.x02; Byte.x02; Byte.x02; Byte.x02].
Definition pf_1 : St := (exec serial (WriteOp 0 old_data) (set_plan [] dev_st)).2.
Definition pf_2 : St := (exec serial (WriteOp 0 new_data) (set_plan [] pf_1)).2.
Definition pf_plan : list outcome := [Works; Works; Fails plain 0].

Lemma pf_run : vol_run serial dev_st [] [(WriteOp 0 old_data, Some []); (WriteOp 0 new_data, Some [])] pf_2 [].
Proof.
  apply (vr_step serial dev_st [] (WriteOp 0 old_data) [] [] (Ok []) pf_1).
  { vm_compute. intuition discriminate. }
  { apply (run_eq (exec serial (WriteOp 0 old_data))). vm_compute. reflexivity. }
  apply (vr_step serial pf_1 [] (WriteOp 0 new_data) [] [] (Ok []) pf_2).
  { vm_compute. intuition discriminate. }
  { apply (run_eq (exec serial (WriteOp 0 new_data))). vm_compute. reflexivity. }
  constructor.
Qed.

Lemma partial_flush_loses_rewrite_witness :
  exists x s1 s2, b_Data x = old_data /\ Flush (set_plan pf_plan pf_2) = (Err plain, s1) /\
    Flush (set_plan [] s1) = (Ok tt, s2) /\ Writes (vb s2) = [] /\
    recovered_blocks (vb pf_2) (default [] (files (world s2) !! wal_path (vb pf_2) 0)) = Ok [x].
Proof.
  pose proof (proj1 (vol_run_dev serial _ _ _ _ _ toy_aead_laws (proj1 (fresh_inv _ _ _ dev_fresh)) pf_run)) as Hi.
  exists (mkBlock old_data 1 0 0 4).
  destruct (partial_flush_loses_rewrite (set_plan pf_plan pf_2) [] [mkBlock old_data 1 0 0 4] (mkBlock new_data 2 0 0 4) [] plain 0)
    as (s1 & s2 & H1 & H2 & H3 & H4).
  - exact toy_aead_laws.
  - by apply set_plan_inv.
  - vm_compute. reflexivity.
  - intros b ->%list_elem_of_singleton. cbn. left.
  - reflexivity.
  - exists s1, s2. split; [reflexivity|]. split; [exact H1|]. split; [exact H2|]. split; [exact H3|]. exact H4.
Defined.
