(* ===== verification/NbdFacts.v ===== *)
(** * Facts on the nbdkit plugin

    The requests of a connection are requests of a disk; a configuration that
    passes [ConfigComplete] is one [New] accepts; numbers parse as printed. *)

From stdpp Require Import pretty.
From Stdlib Require Import Ascii.
From S2P Require Import Prelude Words LRUCache BlockMap Extents BlockStore BlockStoreFacts BlockStoreRace Crypto Paths Volume WAL Chunk ChunkFacts Read Blocks Inherit Content Requests ReadFacts Checkpoint CheckpointFacts SeqNum Frames Footprint Engine GC WALFacts VolInv WriteFacts FlushFacts UploadFacts DrainFacts Refinement.
From S2P Require Import GC Snapshot Lifecycle SeqNumFacts Instances RoundTrips Device Nbd.

(** ** The disk a client of the plugin sees *)

(** What a request may answer ([None] is an error) and do to the disk. *)
Definition disk_step (bs : Z) (d d' : device) (r : request) (a : option bytes) : Prop :=
  match r, a with
  | RRead offset buf, Some x => same_bytes d d' /\ x = d <$> seqZ offset (blen buf)
  | RWrite offset data, Some _ => written_upto d d' offset data (offset + blen data)
  | RZero offset count, Some _ => written_upto d d' offset (zeros count) (offset + count)
  | RWrite offset data, None =>
      exists hi, offset <= hi <= offset + blen data /\ (hi = offset \/ hi mod bs = 0)
        /\ written_upto d d' offset data hi
  | RZero offset count, None =>
      exists hi, offset <= hi <= offset + count /\ (hi = offset \/ hi mod bs = 0)
        /\ written_upto d d' offset (zeros count) hi
  | _, _ => same_bytes d d'
  end.

(** The engine operation behind a request. *)
Definition request_op (r : request) : option op :=
  match r with
  | RRead offset buf => Some (ReadOp offset (blen buf))
  | RWrite offset data => Some (WriteOp offset data)
  | RZero offset count => if count =? 0 then None else Some (WriteOp offset (zeros count))
  | RTrim _ _ => None
  | RFlush => Some FlushOp
  end.

Section requests.
Context {A : AEAD} {S : StateJSON} {P : ProbeJSON}.

(** Requests one after the other, as the operations they make are admissible. *)
Definition request_ok (sc : Sched) (s : St) (seg : list Block) (r : request) (p : list outcome) : Prop :=
  match request_op r with Some o => admissible sc s seg o p | None => True end
  /\ match r with RZero _ count => 0 <= count | _ => True end.

Definition log_after_request (r : request) (v : VB) (seg : list Block) : list Block :=
  match request_op r with Some o => log_after o v seg | None => seg end.

Inductive conn_run (sc : Sched)
    : St -> list Block -> list (request * option bytes) -> St -> list Block -> Prop :=
| cr_nil s seg : conn_run sc s seg [] s seg
| cr_step s seg r q p x s1 tr s2 seg2 :
    request_ok sc (set_plan q s) seg r p -> serve sc r (set_plan q s) = (Ok x, s1) ->
    conn_run sc s1 (log_after_request r (vb s) seg) tr s2 seg2 ->
    conn_run sc s seg ((r, match x with Ok b => Some b | Err _ => None end) :: tr) s2 seg2.

Inductive disk_run (bs : Z) : device -> list (request * option bytes) -> device -> Prop :=
| disk_nil d : disk_run bs d [] d
| disk_cons d d1 d2 r a tr :
    disk_step bs d d1 r a -> disk_run bs d1 tr d2 -> disk_run bs d ((r, a) :: tr) d2.

(** The answer of a request, from the result of its operation. *)
Definition answer_of (r : request) (x : result error bytes) : option bytes :=
  match x with
  | Err _ => None
  | Ok d => Some (match r with RRead _ buf => copy_buf buf d | _ => [] end)
  end.

(** A request with an operation behind it runs that operation. *)
Lemma serve_exec sc r o s : request_op r = Some o ->
  exists y, serve sc r s = (Ok y, (exec sc o s).2)
    /\ (match y with Ok b => Some b | Err _ => None end) = answer_of r (exec sc o s).1.
Proof.
  destruct r as [offset buf|offset data|offset count|offset count|]; cbn [request_op]; intros E.
  - injection E as <-. unfold serve, exec, PRead, try, bind, ret.
    destruct (ReadAtCtx offset (blen buf) s) as [[[d z]|e] s']; eexists; (split; [reflexivity|done]).
  - injection E as <-. unfold serve, exec, PWrite, try, bind, ret.
    destruct (WriteAtCtx sc 0 false offset data s) as [[b|e] s']; eexists; (split; [reflexivity|done]).
  - unfold serve, Zero. destruct (count =? 0); [done|]. injection E as <-.
    unfold exec, try, bind, ret.
    destruct (WriteAtCtx sc 0 false offset (zeros count) s) as [[b|e] s']; eexists; (split; [reflexivity|done]).
  - done.
  - injection E as <-. unfold serve, exec, conn_Flush, try, bind, ret.
    destruct (Flush s) as [[b|e] s']; eexists; (split; [reflexivity|done]).
Qed.

(** A request with no operation answers at once and does nothing. *)
Lemma serve_none sc r s : request_op r = None -> serve sc r s = (Ok (Ok []), s).
Proof.
  destruct r as [| |offset count| |]; cbn [request_op serve]; try done.
  unfold Zero. by destruct (count =? 0).
Qed.

Lemma copy_buf_full buf data : length data = length buf -> copy_buf buf data = data.
Proof. intros H. unfold copy_buf. rewrite <-H, firstn_all, H, skipn_all. apply app_nil_r. Qed.

(** A step of the device is a step of the disk. *)
Lemma disk_of_dev bs d d' r o x : request_op r = Some o ->
  match r with RZero _ count => 0 <= count | _ => True end ->
  dev_step bs d d' o (answer x) -> disk_step bs d d' r (answer_of r x).
Proof.
  intros E Hc Hd. remember (answer x) as a eqn:Ea.
  destruct r as [offset buf|offset data|offset count| |]; cbn [request_op] in E.
  - injection E as <-. inversion Hd as [? ? Hs|? ? Hs| | | | |]; subst; destruct x as [b|e]; try done.
    cbn in *. split; [done|]. simplify_eq.
    rewrite copy_buf_full; [done|]. rewrite length_fmap, length_seqZ. unfold blen. lia.
  - injection E as <-. inversion Hd as [| |? ? Hw|? ? hi H1 H2 Hw| | |]; subst; destruct x; try done.
    cbn. eauto.
  - destruct (count =? 0); [done|]. injection E as <-.
    assert (blen (zeros count) = count) as Hz by (unfold blen; rewrite length_zeros; lia).
    inversion Hd as [| |? ? Hw|? ? hi H1 H2 Hw| | |]; subst; destruct x; try done; rewrite Hz in *; cbn; eauto.
  - done.
  - injection E as <-. inversion Hd; subst. by destruct x.
Qed.

Lemma disk_of_none bs d r : request_op r = None ->
  match r with RZero _ count => 0 <= count | _ => True end -> disk_step bs d d r (Some []).
Proof.
  destruct r as [| |offset count| |]; cbn [request_op disk_step]; try done.
  destruct (Z.eqb_spec count 0) as [->|]; [|done]. intros _ _ o Ho. rewrite decide_False by lia. done.
Qed.

Context (HA : AEADLaws A).

Lemma conn_run_disk sc s seg tr s' seg' : vol_inv s seg -> conn_run sc s seg tr s' seg' ->
  vol_inv s' seg' /\ disk_run (BlockSize (vb s)) (byte_at s) tr (byte_at s').
Proof.
  intros Hi Hr. induction Hr as [|s seg r q p x s1 tr s2 seg2 [Hadm Hc] Hex Hrun IH]; [by split; [|constructor]|].
  pose proof (set_plan_inv s seg q Hi) as Hiq. unfold log_after_request in *.
  destruct (request_op r) as [o|] eqn:Eo.
  - destruct (serve_exec sc r o (set_plan q s) Eo) as (y & Ey & Ha). rewrite Hex in Ey. injection Ey as -> Es.
    pose proof (exec_step HA sc o p (set_plan q s) seg Hiq Hadm) as Hst.
    destruct (exec sc o (set_plan q s)) as [r0 s0] eqn:Ee. cbn in Es, Ha. subst s0.
    apply (post_run _ _ _ Hst) in Ee as (Hi1 & Hbs & Hd). destruct (IH Hi1) as [Hi2 Hdr].
    split; [done|]. rewrite Hbs in Hdr. rewrite Ha. econstructor; [|exact Hdr].
    by apply (disk_of_dev _ _ _ r o).
  - rewrite (serve_none sc r _ Eo) in Hex. injection Hex as <- <-. destruct (IH Hiq) as [Hi2 Hdr].
    split; [done|]. econstructor; [|exact Hdr]. by apply disk_of_none.
Qed.
End requests.

(** ** Parameters *)

Lemma any_digit_char c d : digit_val c = Some d -> any_digit c = Some d.
Proof. unfold any_digit. by intros ->. Qed.

Lemma parse_digits_mono ds acc : all_digits ds -> 0 <= acc -> acc <= parse_digits acc ds.
Proof.
  revert acc. induction ds as [|c ds IH]; intros acc Hd Ha; [cbn; lia|].
  inversion_clear Hd as [|? ? [d Ed] Hds]. unfold parse_digits in *. cbn [fold_left]. rewrite Ed. cbn.
  assert (0 <= d < 10) by (unfold digit_val in Ed; zcase; simplify_eq/=; try lia; done).
  specialize (IH (acc * 10 + d) Hds ltac:(lia)). lia.
Qed.

(** Decimal digits without overflow convert to the number they spell. *)
Lemma digits_value_dec us seen_us ds acc : all_digits ds -> 0 <= acc ->
  parse_digits acc ds <= MaxUint64 ->
  digits_value 10 us acc seen_us ds = (parse_digits acc ds, None, seen_us).
Proof.
  revert acc. induction ds as [|c ds IH]; intros acc Hd Ha Hm; [done|].
  inversion_clear Hd as [|? ? [d Ed] Hds]. cbn [digits_value].
  assert (Ascii.eqb c "_"%char = false) as ->.
  { destruct (Ascii.eqb_spec c "_"%char) as [->|]; [|done]. vm_compute in Ed. done. }
  rewrite andb_false_r, (any_digit_char _ _ Ed).
  assert (0 <= d < 10) by (unfold digit_val in Ed; zcase; simplify_eq/=; try lia; done).
  assert (parse_digits acc (c :: ds) = parse_digits (acc * 10 + d) ds) as E.
  { unfold parse_digits. cbn [fold_left]. by rewrite Ed. }
  pose proof (parse_digits_mono ds (acc * 10 + d) Hds ltac:(lia)).
  destruct (Z.leb_spec 10 d); [lia|]. destruct (Z.ltb_spec MaxUint64 (acc * 10 + d)); [lia|].
  rewrite E. apply IH; [done|lia|lia].
Qed.

(** A positive number is printed without a leading zero. *)
Lemma pretty_go_head x : forall s, (0 < x)%N ->
  exists c ds, chars_of (pretty_N_go x s) = c :: ds /\ c <> "0"%char.
Proof.
  induction (N.lt_wf_0 x) as [x _ IH]. intros s Hx. rewrite pretty_N_go_step by done.
  destruct (decide (0 < x / 10)%N) as [Hq|Hq].
  - apply IH; [apply N.div_lt; lia|done].
  - assert (x / 10 = 0)%N as E by (apply N.le_0_r; by apply N.nlt_ge). rewrite E, pretty_N_go_0. cbn. eexists _, _. split; [done|].
    assert (x < 10)%N as Hlt by (apply N.div_small_iff in E; lia).
    rewrite N.mod_small by done.
    assert (x ∈ [1; 2; 3; 4; 5; 6; 7; 8; 9]%N) as Hin by (rewrite !elem_of_cons; lia).
    clear -Hin. revert x Hin. apply Forall_forall. by repeat constructor.
Qed.

Lemma pretty_head n : (0 < n)%N -> exists c ds, chars_of (pretty n) = c :: ds /\ c <> "0"%char.
Proof.
  intros Hn. unfold pretty, pretty_N. destruct (decide (n = 0)%N) as [->|]; [lia|]. by apply pretty_go_head.
Qed.

(** Reading a printed number. *)
Lemma ParseUint0_pretty n : (n < 2 ^ 64)%N -> ParseUint0 (pretty n) = (Z.of_N n, None).
Proof.
  intros Hn. destruct (decide (n = 0)%N) as [->|Hz]; [reflexivity|].
  destruct (parse_pretty n) as (Hd & Hp & _).
  destruct (pretty_head n ltac:(lia)) as (c & ds & E & Hc).
  unfold ParseUint0. rewrite E in *.
  assert (base_prefix (c :: ds) = (10, c :: ds)) as ->.
  { unfold base_prefix. destruct c as [[] [] [] [] [] [] [] []]; try reflexivity. by destruct Hc. }
  rewrite digits_value_dec; [by rewrite Hp|done|lia|]. rewrite Hp. unfold MaxUint64. lia.
Qed.

(** ** Properties *)

(** C10. A connection is a disk: any sequence of read, write, zero, trim and
    flush requests served over an open volume answers as a disk.  Reads return
    exactly the disk's bytes in a buffer of the requested length, writes and
    zeroes replace exactly their range, a failed one replaces a prefix ending
    at a block boundary, trims and flushes change nothing. *)
Theorem nbd_refines_disk {A : AEAD} {S : StateJSON} {P : ProbeJSON} sc s seg tr s' seg' :
  AEADLaws A -> vol_inv s seg -> conn_run sc s seg tr s' seg' ->
  vol_inv s' seg' /\ disk_run (BlockSize (vb s)) (byte_at s) tr (byte_at s').
Proof. intros HA. by apply conn_run_disk. Qed.

#[local] Existing Instance toy_aead.
#[local] Existing Instance toy_state_json.
#[local] Existing Instance toy_probe_json.

(** Write, zero part of it, trim, read. *)
Definition nbd_reqs : list request :=
  [RWrite 2 dev_data; RZero 4 2; RTrim 0 8; RRead 3 (zeros 4)].
Definition nbd_1 : St := (serve serial (RWrite 2 dev_data) (set_plan [] dev_st)).2.
Definition nbd_2 : St := (serve serial (RZero 4 2) (set_plan [] nbd_1)).2.
Definition nbd_3 : St := (serve serial (RTrim 0 8) (set_plan [] nbd_2)).2.
Definition nbd_4 : St := (serve serial (RRead 3 (zeros 4)) (set_plan [] nbd_3)).2.
Definition nbd_trace : list (request * option bytes) :=
  [(RWrite 2 dev_data, Some []); (RZero 4 2, Some []); (RTrim 0 8, Some []);
   (RRead 3 (zeros 4), Some [Byte.x62; Byte.x00; Byte.x00; Byte.x65])].

Lemma nbd_run_ok : conn_run serial dev_st [] nbd_trace nbd_4 [].
Proof.
  apply (cr_step serial dev_st [] (RWrite 2 dev_data) [] [] (Ok []) nbd_1).
  { split; [vm_compute; intuition discriminate|done]. }
  { unfold nbd_1. apply (run_eq (serve serial (RWrite 2 dev_data))). vm_compute. reflexivity. }
  apply (cr_step serial nbd_1 [] (RZero 4 2) [] [] (Ok []) nbd_2).
  { split; [vm_compute; intuition discriminate|done]. }
  { unfold nbd_2. apply (run_eq (serve serial (RZero 4 2))). vm_compute. reflexivity. }
  apply (cr_step serial nbd_2 [] (RTrim 0 8) [] [] (Ok []) nbd_3).
  { done. }
  { unfold nbd_3. apply (run_eq (serve serial (RTrim 0 8))). vm_compute. reflexivity. }
  apply (cr_step serial nbd_3 [] (RRead 3 (zeros 4)) [] [] (Ok [Byte.x62; Byte.x00; Byte.x00; Byte.x65]) nbd_4).
  { split; [vm_compute; intuition discriminate|done]. }
  { unfold nbd_4. apply (run_eq (serve serial (RRead 3 (zeros 4)))). vm_compute. reflexivity. }
  constructor.
Qed.

Lemma nbd_refines_disk_witness :
  conn_run serial dev_st [] nbd_trace nbd_4 [] /\ vol_inv nbd_4 []
  /\ disk_run 4 (byte_at dev_st) nbd_trace (byte_at nbd_4).
Proof.
  split; [exact nbd_run_ok|].
  apply (nbd_refines_disk serial dev_st [] nbd_trace nbd_4 [] toy_aead_laws
           (proj1 (fresh_inv _ _ _ dev_fresh)) nbd_run_ok).
Defined.

Lemma calm_os_call s : calm s -> exists s', os_call s = (Ok tt, s') /\ calm s'.
Proof.
  intros Hc. unfold os_call, bind, next, calm in *. destruct (plan (world s)) as [|o pl] eqn:E; [exists s; by rewrite E|].
  apply Forall_cons in Hc as [-> Hp]. by eexists.
Qed.

(** C33. What a configuration that passes [ConfigComplete] guarantees. Size,
    volume, bucket, region, both keys, base directory and host are all set, and
    nothing but the loaded master key was changed; a volume with a master key
    never runs on the sharded log, which stores blocks in the clear and which
    [Open] switches on without going through the checks of [New]; and the
    engine's [New] accepts what [Open] builds from it, when the directories can
    be made, exactly if the cache size is not negative: a negative cache_size is
    not checked here and makes [New] panic. *)
Theorem ConfigComplete_accepts {H : Hash} {L : LRULib} load env p p' s :
  LRULaws L -> calm s -> ConfigComplete load env p = (p', Ok tt) ->
  (p_size p' <> 0 /\ p_volume p' <> "" /\ p_bucket p' <> "" /\ p_region p' <> "" /\
   p_access_key p' <> "" /\ p_secret_key p' <> "" /\ p_base_dir p' <> "" /\ p_host p' <> "") /\
  p' = p <| p_loadedMasterKey := p_loadedMasterKey p' |> /\
  ~ (p_use_shardwal p' = true /\ p_loadedMasterKey p' <> None) /\
  (0 <= p_cache_size p' -> exists s', New (Some (vbconfig p')) (vbconfig_cache p') "s3" s = (Ok tt, s') /\
     vb s' = new_volume (vbconfig p')) /\
  (p_cache_size p' < 0 -> New (Some (vbconfig p')) (vbconfig_cache p') "s3" s = (Err [GoPanic], s)).
Proof.
  intros HL Hc. unfold ConfigComplete. destruct (list_find _ (required p)) as [[? [? ?]]|] eqn:Ef; [done|].
  apply list_find_None in Ef.
  destruct (LoadMasterKeyFromFlagOrEnv load env (p_encryption_key_file p)) as [mkey|]; [|done].
  set (q := p <| p_loadedMasterKey := mkey |>). change (p_use_shardwal q) with (p_use_shardwal p).
  destruct (p_use_shardwal p && bool_decide (mkey <> None)) eqn:Es; [done|]. intros E.
  assert (p' = q) as -> by congruence. clear E.
  assert (p_size p <> 0 /\ p_volume p <> "" /\ p_bucket p <> "" /\ p_region p <> "" /\
   p_access_key p <> "" /\ p_secret_key p <> "" /\ p_base_dir p <> "" /\ p_host p <> "") as Hreq.
  { unfold required in Ef. rewrite !Forall_cons in Ef. cbn in Ef. rewrite !bool_decide_eq_true, Z.eqb_eq in Ef. tauto. }
  split; [exact Hreq|]. split; [done|]. split.
  { intros [H1 H2]. change (p_use_shardwal p = true) in H1. change (mkey <> None) in H2. by rewrite H1, bool_decide_eq_true_2 in Es. }
  assert (check_config (Some (vbconfig q)) "s3" = Ok (vbconfig q)) as Hck.
  { destruct Hreq as (Hs & Hv & _). unfold check_config.
    change (VolumeName (vbconfig _)) with (p_volume p). change (VolumeSize (vbconfig _)) with (p_size p).
    rewrite bool_decide_eq_false_2 by done. rewrite (proj2 (Z.eqb_neq _ _) Hs). destruct mkey; reflexivity. }
  pose proof (HL (p_cache_size p)) as Hlru. unfold New, bind, of_result. rewrite Hck. unfold new_cache.
  change (Size (vbconfig_cache q)) with (p_cache_size p). change (p_cache_size q) with (p_cache_size p). split; intros Hsz.
  - destruct (calm_os_call s Hc) as (s1 & E1 & Hc1), (calm_os_call s1 Hc1) as (s2 & E2 & _).
    exists (mkSt (new_volume (vbconfig q)) (world s2)). split; [|done].
    destruct (Z.eqb_spec (p_cache_size p) 0); [|destruct (lru_New (p_cache_size p)); [|lia]]; cbn; by rewrite E1, E2.
  - destruct (Z.eqb_spec (p_cache_size p) 0); [lia|]. destruct (lru_New (p_cache_size p)); [lia|]. done.
Qed.

Definition sample_params : params :=
  params0 <| p_size := 4096 |> <| p_volume := "v"%string |> <| p_bucket := "b"%string |>
    <| p_region := "r"%string |> <| p_access_key := "a"%string |> <| p_secret_key := "s"%string |>
    <| p_base_dir := "/d"%string |> <| p_host := "h"%string |> <| p_encryption_key_file := "/k"%string |>.
Definition sample_ready : params := sample_params <| p_loadedMasterKey := Some "fingerprint"%string |>.
Definition sample_loader : key_loader := fun _ => Ok "fingerprint"%string.

Lemma ConfigComplete_accepts_witness :
  (exists s', New (H := toy_hash) (L := size_lru) (Some (vbconfig sample_ready)) (vbconfig_cache sample_ready) "s3" dev_st = (Ok tt, s')) /\
  ~ (p_use_shardwal sample_ready = true /\ p_loadedMasterKey sample_ready <> None).
Proof.
  destruct (ConfigComplete_accepts (H := toy_hash) (L := size_lru) sample_loader "" sample_params sample_ready dev_st) as (_ & _ & H1 & H2 & _).
  - exact size_lru_laws.
  - vm_compute. constructor.
  - reflexivity.
  - split; [|exact H1]. destruct H2 as (s' & E & _); [vm_compute; discriminate|]. exists s'. exact E.
Defined.

(** The size parameter reads back: any 64-bit size, printed in decimal, is
    accepted and stored as that number, and no other parameter changes. *)
Theorem size_parameter_roundtrip p n : (n < 2 ^ 64)%N ->
  Config p "size" (pretty n) = (p <| p_size := Z.of_N n |>, Ok tt).
Proof. intros Hn. unfold Config. rewrite decide_True by done. by rewrite ParseUint0_pretty. Qed.

Lemma size_parameter_roundtrip_witness :
  pretty 18446744073709551615%N = "18446744073709551615"%string
  /\ Config params0 "size" (pretty 18446744073709551615%N)
     = (params0 <| p_size := Z.of_N 18446744073709551615 |>, Ok tt).
Proof. split; [reflexivity|]. apply (size_parameter_roundtrip params0 18446744073709551615). lia. Defined.

(** A full backend is reported as such: while the volume is latched full,
    every write and every non-empty zero request fails with [ENOSPC] and
    leaves the volume and the world as they were. *)
Theorem full_backend_reports_ENOSPC {A : AEAD} {S : StateJSON}
    sc fuel nearFull buf count offset s :
  backendFull (vb s) = true -> count <> 0 ->
  (exists m, PWrite sc fuel nearFull buf offset s = (Ok (Err (mkPluginError m true)), s))
  /\ exists m, Zero sc fuel nearFull count offset s = (Ok (Err (mkPluginError m true)), s).
Proof.
  intros Hf Hc. unfold Zero. rewrite (proj2 (Z.eqb_neq _ _) Hc).
  unfold PWrite, WriteAtCtx, try, bind, get, ret. rewrite Hf. cbn.
  split; eexists; reflexivity.
Qed.

Definition full_st : St := mkSt (dev_vb <| backendFull := true |>) (world dev_st).

Lemma full_backend_reports_ENOSPC_witness :
  (exists m, PWrite serial 0 false dev_data 0 full_st = (Ok (Err (mkPluginError m true)), full_st))
  /\ exists m, Zero serial 0 false 4 0 full_st = (Ok (Err (mkPluginError m true)), full_st).
Proof. apply (full_backend_reports_ENOSPC serial 0 false dev_data 4 0 full_st); [reflexivity|lia]. Defined.
