(* ===== verification/ImportFacts.v ===== *)
(** * Theorems on the disk image import

    The progress callback is throttled, on every run of the copy. *)

From S2P Require Import Prelude Words BlockMap BlockStore Crypto Paths Volume WAL Chunk Read Checkpoint SeqNum Engine Frames Instances Refinement Device Import.

(** ** Properties *)

(** C35. Progress is throttled: however many blocks an import copies or skips,
    and whatever its writes do, the callback is called at most 101 times, the
    final call included. *)
Theorem progress_bounded {A : AEAD} {S : StateJSON} sc fuel bs reads enabled total p s s' :
  read_total reads <= total -> total * 100 < 2 ^ 64 ->
  import_loop sc fuel bs reads 0 0 (newProgressReporter enabled total) s = (Ok p, s') ->
  (length (pr_calls (finish p)) <= 101)%nat.
Proof.
  intros Ht Hw Hrun. apply import_loop_throttled in Hrun as [[Hl Hn] _]; [|cbn; lia..|apply new_throttled].
  unfold finish. destruct (negb (pr_enabled p) || (pr_total p =? 0)); cbn [orb]; [lia|].
  destruct (Z.leb_spec 100 (pr_lastPct p)); [lia|]. cbn. rewrite length_app. cbn. lia.
Qed.

#[local] Existing Instance toy_aead.
#[local] Existing Instance toy_state_json.

(** Three blocks, the second of zeros, on a fresh volume. *)
Definition sample_reads : list file_read :=
  [([Byte.x61; Byte.x62; Byte.x63; Byte.x64], ReadOk); (zeros 4, ReadOk);
   ([Byte.x65; Byte.x66; Byte.x67; Byte.x68], ReadOk)].
Abbreviation sample_import :=
  (import_loop serial 0 4 sample_reads 0 0 (newProgressReporter true 12)).

Lemma progress_bounded_witness : exists p s',
  sample_import dev_st = (Ok p, s')
  /\ pr_calls (finish p) = [(4, 12); (8, 12); (12, 12)]
  /\ (length (pr_calls (finish p)) <= 101)%nat.
Proof.
  assert ((sample_import dev_st).1
          = Ok (mkReporter true 12 100 [(4, 12); (8, 12); (12, 12)])) as E by (vm_compute; reflexivity).
  apply run_eq in E. eexists _, _. split; [exact E|]. split; [reflexivity|].
  apply (progress_bounded serial 0 4 sample_reads true 12 _ dev_st _) in E; [exact E|vm_compute; discriminate|lia].
Defined.
