(* ===== verification/Restart.v ===== *)
(** * Restarting from the backend

    After a successful drain the backend alone holds the volume: a new instance
    that loads the live checkpoint reads the bytes the old one served, with the
    local disk gone and whatever chunks were swept since. *)

From S2P Require Import Prelude Words BlockMap Extents BlockStore BlockStoreFacts BlockStoreRace Crypto Paths Volume WAL Chunk ChunkFacts Read Blocks Inherit Content Requests ReadFacts Checkpoint CheckpointFacts SeqNum Frames Footprint Engine GC WALFacts VolInv WriteFacts FlushFacts UploadFacts DrainFacts GCFacts Refinement.
From S2P Require Import SeqNumFacts Instances RoundTrips Device.

(** The instance that takes over: same volume, same format and identity, an
    empty block store. *)
Record successor (v v2 : VB) : Prop := {
  su_format : same_format v v2;
  su_bs : BlockSize v2 = BlockSize v;
  su_enc : EncryptionEnabled v2 = EncryptionEnabled v;
  su_uuid : VolumeUUID v2 = VolumeUUID v;
  su_hash : volumeNameHash v2 = volumeNameHash v;
  su_use : UseBlockStore v2 = true;
  su_store : BStore v2 = NewUnifiedBlockStore (BlockSize v2);
  (* the same snapshot below it, if any *)
  su_inh : inh_view v2 = inh_view v
}.

(** No block is only in memory and in a segment that was rotated away. *)
Definition no_orphans (v : VB) (seg : list Block) : Prop :=
  forall b e, get_entry (BStore v) b = Some e -> b ∈ b_Block <$> (seg ++ Writes v).

Section restart.
Context {A : AEAD} {S : StateJSON} {P : ProbeJSON}.

(** Two volumes that resolve every block to the same place hold the same bytes. *)
Lemma same_locations s s2 :
  BlockSize (vb s2) = BlockSize (vb s) -> EncryptionEnabled (vb s2) = EncryptionEnabled (vb s) ->
  VolumeUUID (vb s2) = VolumeUUID (vb s) -> volumeNameHash (vb s2) = volumeNameHash (vb s) ->
  VolumeName (vb s2) = VolumeName (vb s) -> blockStride (vb s2) = blockStride (vb s) ->
  inh_view (vb s2) = inh_view (vb s) ->
  objects (world s2) = objects (world s) ->
  (forall b, get_entry (BStore (vb s)) b = None /\ get_entry (BStore (vb s2)) b = None) ->
  (forall b, readPersisted (persistedExtents (BStore (vb s2))) b = readPersisted (persistedExtents (BStore (vb s))) b) ->
  forall b, vol_block s2 b = vol_block s b.
Proof.
  intros E1 E2 E3 E4 E5 E6 Ev Eo Hg Hr b. destruct (Hg b) as [G1 G2].
  unfold vol_block, loc_data, chunk_key. rewrite G1, G2, Hr, Eo, (view_data _ _ _ b Ev). destruct (readPersisted _ b) as [pe|]; [|done].
  unfold stored_block. by rewrite E1, E2, E3, E4, E5, E6.
Qed.

Lemma restart_loads s v2 w2 t :
  (forall b, get_entry (BStore (vb s)) b = None) ->
  (forall b, readPersisted (persistedExtents (BStore (vb s))) b
     = entry_of <$> LookupBlockToObject (blockStride (vb s)) (BlocksToObject (vb s)) b) ->
  map_saveable (vb s) -> objects (world s) !! live_key (vb s) = Some (serialize_map (vb s) t) ->
  successor (vb s) v2 -> objects w2 = objects (world s) -> plan w2 = [] ->
  exists v3, LoadLiveCheckpointCtx (mkSt v2 w2) = (Ok tt, mkSt v3 w2) /\ BlockSize v3 = BlockSize v2 /\
    forall b, vol_block (mkSt v3 w2) b = vol_block s b.
Proof.
  intros Hg Ha Hms Hlive [Hsf Hbs Henc Huu Hh Hu Hst Hvw] Ho Hp.
  rewrite <-Ho in Hlive. destruct (load_saved _ v2 w2 t Hms Hsf Hp Hlive) as (v3 & Hrun & Hv3).
  exists v3. split; [exact Hrun|]. split; [by rewrite Hv3|].
  destruct (parse_into_recs _ Hms (v2 <| gcRefcount := if GCEnabled v2 then ∅ else gcRefcount v2 |>))
    as (_ & _ & _ & _ & B); [by destruct Hsf|]. rewrite <-Hv3 in B.
  change (persistedExtents (BStore (v2 <| gcRefcount := _ |>))) with (persistedExtents (BStore v2)) in B.
  change (shards (BStore (v2 <| gcRefcount := _ |>))) with (shards (BStore v2)) in B.
  rewrite Hst in B. destruct B as (_ & Sh & R); [done|apply exts_wf_empty|].
  apply same_locations; cbn [vb world]; try (by rewrite Hv3); try done.
  - rewrite Hv3. apply (sf_name _ _ Hsf).
  - rewrite Hv3. apply (sf_stride _ _ Hsf).
  - intros b. split; [done|]. unfold get_entry. rewrite Sh. apply (get_entry_new (BlockSize v2)).
  - intros b. rewrite R, Ha. destruct (LookupBlockToObject _ _ b); [done|].
    unfold readPersisted, findPersistedExtentLocked. cbn. by rewrite lookup_empty, map_to_list_empty.
Qed.

(** Sweeps, each with outcomes of its own. *)
Definition sweep_step (s s' : St) : Prop := exists q r, sweepChunks (set_plan q s) = (r, s').

Lemma sweeps_swept s s' : vol_inv s [] -> rtc sweep_step s s' -> swept s s'.
Proof.
  intros Hi Hr. revert Hi. induction Hr as [s|s s1 s2 (q & r & E) _ IH]; intros Hi; [apply swept_refl|].
  pose proof (set_plan_inv s [] q Hi) as Hq. destruct (vi_refs _ _ Hq) as [Hrf Hfl].
  apply (post_run _ _ _ (sweepChunks_swept (set_plan q s) Hrf Hfl)) in E as [Hs1 _].
  assert (swept s s1) as H1 by (apply (swept_trans _ (set_plan q s)); [by apply quiet_swept|exact Hs1]).
  eapply swept_trans; [exact H1|]. apply IH. by eapply swept_inv.
Qed.

Lemma swept_saveable s s' : swept s s' -> map_saveable (vb s) -> map_saveable (vb s').
Proof. intros [(? & ? & ? & ? & ? & ? & ? & ? & ->) _ _ _ _ _] []. by constructor. Qed.
End restart.

(** C2. Durability of a drain. When [DrainToBackend] succeeds on a volume with
    buffered writes and no block left over from a failed upload, another
    instance that loads the live checkpoint, with nothing of the old one but
    the backend's objects, succeeds and holds the same bytes: whatever uploads
    ran concurrently, however often the checkpoint write was retried, and
    however often chunks were garbage collected in between, with any of the
    collector's calls failing. *)
Theorem drained_volume_survives_restart {A : AEAD} {S : StateJSON} {P : ProbeJSON} p s seg sc s1 s' v2 w2 :
  AEADLaws A -> vol_inv s seg -> works (2 * length (Writes (vb s)) + 6) p s -> sched_ok sc ->
  WallNum (vb_WAL (vb s)) + 1 < 2 ^ 64 -> ObjectNum (vb s) + Z.of_nat (length (seg ++ Writes (vb s))) < 2 ^ 64 ->
  no_orphans (vb s) seg -> seg ++ Writes (vb s) <> [] ->
  DrainToBackendCtx sc s = (Ok tt, s1) -> rtc sweep_step s1 s' -> map_saveable (vb s1) ->
  successor (vb s1) v2 -> objects w2 = objects (world s') -> plan w2 = [] ->
  exists v3, LoadLiveCheckpointCtx (mkSt v2 w2) = (Ok tt, mkSt v3 w2) /\
    same_bytes (byte_at s) (byte_at (mkSt v3 w2)).
Proof.
  intros HA Hi Hw Hsc Hwn Hon Hno Hne Hdrain Hsw Hms Hsu Ho Hp.
  pose proof (Drain_works HA p s seg sc Hi Hw Hsc Hwn Hon) as H.
  apply (post_run _ _ _ H) in Hdrain as [Hdr Hok]. destruct (Hok eq_refl) as [_ Hsv]. destruct (Hsv Hne) as [t Ht].
  apply sweeps_swept in Hsw as Hs'; [|apply Hdr]. destruct (swept_inv s1 s' [] (dr_inv _ _ _ _ Hdr) Hs') as (Hi' & Hbs' & Hb').
  pose proof (swept_saveable s1 s' Hs' Hms) as Hms'.
  assert (objects (world s') !! live_key (vb s1) = Some (serialize_map (vb s1) t)) as Ht'.
  { rewrite (sw_other _ _ Hs'); [exact Ht|]. intros i Hk. by apply (chunk_not_live i (VolumeName (vb s1))). }
  destruct (sw_vb _ _ Hs') as (g & r & f & fr & sf & ck & ba & la & Ev).
  assert (forall b, get_entry (BStore (vb s')) b = None) as Hg.
  { intros b. rewrite Ev. change (get_entry (BStore (vb s1)) b = None).
    destruct (get_entry (BStore (vb s)) b) as [e|] eqn:E; [|by apply (dr_mono _ _ _ _ Hdr)].
    apply Hno in E. apply list_elem_of_fmap in E as (x & -> & Hx). by apply (dr_gone _ _ _ _ Hdr). }
  destruct (restart_loads s' v2 w2 t Hg (vi_agree _ _ Hi') Hms') as (v3 & Hl & Ebs3 & Hb); [by rewrite Ev| |done..|].
  { rewrite Ev. destruct Hsu as [[? ? ? ?] ? ? ? ? ? ?]. by constructor. }
  exists v3. split; [done|]. pose proof (dr_fixed _ _ _ _ Hdr) as Efx. injection Efx as Ebs _ _ _ _ _.
  apply bytes_of_blocks; [|intros b; rewrite Hb, Hb'; apply Hdr].
  cbn [vb]. by rewrite Ebs3, (su_bs _ _ Hsu).
Qed.

#[local] Existing Instance toy_aead.
#[local] Existing Instance toy_state_json.
#[local] Existing Instance toy_probe_json.

(** The volume of [Device] after one write, about to drain; and after the
    drain, swept. *)
Definition dev_dirty : St := set_plan [] dev_1.
Definition dev_swept : St := (sweepChunks (set_plan [] dev_2)).2.

Lemma dev_sweeps : rtc sweep_step dev_2 dev_swept.
Proof.
  apply rtc_once. exists [], (Ok tt). unfold dev_swept. apply (run_eq sweepChunks). vm_compute. reflexivity.
Qed.

Lemma dev_dirty_inv : vol_inv dev_dirty [].
Proof.
  apply set_plan_inv. pose proof (exec_step toy_aead_laws serial (WriteOp 2 dev_data) [] (set_plan [] dev_st) []) as H.
  unfold post in H. fold dev_1 in H. apply H.
  - apply set_plan_inv, (fresh_inv _ _ _ dev_fresh).
  - vm_compute. intuition discriminate.
Qed.

Lemma saveable_dec v :
  0 < blockStride v -> magic_ok v -> bool_decide (map_wf (blockStride v) (BlocksToObject v)) = true ->
  bool_decide (map_Forall (fun _ bl => bl_ObjectOffset bl + (bl_NumBlocks bl - 1) * blockStride v < MaxUint16 * blockStride v /\
    0 <= bl_ObjectID bl < 2 ^ 64 - 1 /\ in_u64 (bl_SeqNum bl) /\ Forall in_u64 (bl_SeqNums bl)) (BlocksToObject v)) = true ->
  14 + 34 * Z.of_nat (length (expand_all (map_to_list (BlocksToObject v)).*2 (blockStride v))) < 2 ^ 32 ->
  map_saveable v.
Proof.
  intros Hs Hm Hw%bool_decide_eq_true Hf%bool_decide_eq_true Hb. constructor; try done.
  - intros k bl Hk. by apply (Hf k bl Hk).
  - intros k bl Hk. destruct (Hf k bl Hk) as (_ & ? & ? & Hq). split; [done|]. intros i. unfold seqNumAt.
    destruct (_ && _); [|done]. destruct (bl_SeqNums bl !! _) as [x|] eqn:E; [|done].
    rewrite Forall_forall in Hq. apply Hq. by eapply list_elem_of_lookup_2.
Qed.

(** The same world with an empty local disk. *)
Definition disk_lost (w : World) : World := w <| files := ∅ |>.

Lemma disk_lost_objects w : objects (disk_lost w) = objects w.
Proof. by destruct w. Qed.

Lemma dev_no_orphans : no_orphans (vb dev_dirty) [].
Proof.
  intros b e He. apply (all_entries_elem _ (si_shards _ (vi_store _ _ dev_dirty_inv))) in He.
  assert (b ∈ (all_entries (BStore (vb dev_dirty))).*1) as Hb by (apply list_elem_of_fmap; by exists (b, e)).
  assert ((all_entries (BStore (vb dev_dirty))).*1 = b_Block <$> ([] ++ Writes (vb dev_dirty))) as E by (vm_compute; reflexivity).
  by rewrite <-E.
Qed.

Lemma drained_volume_survives_restart_witness :
  exists v3, LoadLiveCheckpointCtx (mkSt dev_vb (disk_lost (world dev_swept))) = (Ok tt, mkSt v3 (disk_lost (world dev_swept))) /\
    same_bytes (byte_at dev_dirty) (byte_at (mkSt v3 (disk_lost (world dev_swept)))).
Proof.
  apply (drained_volume_survives_restart [] dev_dirty [] serial dev_2 dev_swept dev_vb (disk_lost (world dev_swept))).
  - exact toy_aead_laws.
  - exact dev_dirty_inv.
  - apply works_calm. exact (Forall_nil_2 _).
  - by intros ?.
  - vm_compute. reflexivity.
  - vm_compute. reflexivity.
  - exact dev_no_orphans.
  - vm_compute. discriminate.
  - exact dev_drains.
  - exact dev_sweeps.
  - apply saveable_dec; [vm_compute; reflexivity|split; vm_compute; [reflexivity|intuition discriminate]|vm_compute; reflexivity..].
  - constructor; [constructor|..]; vm_compute; reflexivity.
  - apply disk_lost_objects.
  - vm_compute. reflexivity.
Defined.
