(* ===== verification/Clones.v ===== *)
(** * Snapshots and clones

    Taking a snapshot and opening another volume on top of it: the source
    keeps its contents, and the clone starts with them, whatever layers the
    source itself was built on. *)

From S2P Require Import Prelude Words BlockMap Extents BlockStore BlockStoreFacts Json Crypto Paths Volume WAL Chunk ChunkFacts CommitFacts Read Blocks Inherit Content Requests ReadFacts Checkpoint CheckpointFacts SeqNum Frames Footprint Engine GC Snapshot FlatFacts WALFacts VolInv WriteFacts FlushFacts UploadFacts DrainFacts GCFacts Refinement RoundTrips Instances Device Restart.
From Stdlib Require Strings.String.

(** What the code relies on of [encoding/json] for SnapshotState. *)
Class SnapJSONLaws (SJ : SnapJSON) : Prop := {
  snap_valid : forall st, json_valid (marshal_snap st) = true;
  snap_unmarshal : forall st, unmarshal_snap (marshal_snap st) = Some st;
  snap_peek : forall st, peek_snap (marshal_snap st)
    = Some (ss_SourceVolumeUUID st, ss_SourceVolumeNameHash st, ss_StateSeqNum st)
}.

(** ** Calls that leave the contents alone *)

Lemma checkpoint_not_config id vol : GetFilePath FileTypeBlockCheckpoint 0 id <> GetFilePath FileTypeConfig 0 vol.
Proof.
  intros E. apply (f_equal rchars) in E. cbn [GetFilePath] in E. rewrite !rchars_app in E. by cbn in E.
Qed.

Section source.
Context {A : AEAD} (HA : AEADLaws A) {S : StateJSON} {P : ProbeJSON} {SJ : SnapJSON}.

Lemma post_backend_WriteTo vol t id h d s Q :
  (forall r s', vb s' = vb s -> files (world s') = files (world s) -> (calm s -> calm s' /\ r = Ok tt) ->
    (forall k, k <> GetFilePath t id vol -> objects (world s') !! k = objects (world s) !! k) ->
    (r = Ok tt -> objects (world s') !! GetFilePath t id vol = Some (h ++ d)) -> Q r s') ->
  post (backend_WriteTo vol t id h d) s Q.
Proof.
  intros H. unfold backend_WriteTo. apply post_bind, post_next_calm. intros o s' (Ev & Ef & Eo) Hc. cbn zeta.
  destruct o as [|e [|k]|k]; mgo; apply H; cbn [vb world files objects with_objects]; rewrite ?Ef, ?Eo; try done;
    try (intros x Hx; by rewrite lookup_insert_ne by done); try (intros; by rewrite lookup_insert_eq);
    intros Hcalm; destruct (Hc Hcalm); done.
Qed.

(** A write that works. *)
Lemma post_WriteTo_works k p vol t id h d s Q :
  works (Datatypes.S k) p s ->
  (forall s', vb s' = vb s -> files (world s') = files (world s) -> works k p s' ->
    (forall x, x <> GetFilePath t id vol -> objects (world s') !! x = objects (world s) !! x) -> Q (Ok tt) s') ->
  post (backend_WriteTo vol t id h d) s Q.
Proof.
  intros Hw H. unfold backend_WriteTo. apply post_bind, post_next_works with (k := k) (p := p); [done|]. intros s' (Ev & Ef & Eo) Hw'.
  cbn zeta. mgo. apply H; cbn [vb world files objects with_objects]; rewrite ?Ef, ?Eo; try done.
  intros x Hx. by rewrite lookup_insert_ne by done.
Qed.

(** [SaveState] on a volume that has its UUID. *)
Lemma SaveState_frame s :
  (EncryptionEnabled (vb s) = true -> VolumeUUID (vb s) <> zeros 4) ->
  post SaveStateCtx s (fun _ s' => state_frame s s' /\ SeqNum (vb s') = SeqNum (vb s)).
Proof.
  intros Hu. apply post_save. unfold save_alone. do 2 mstep.
  assert (forall m : M unit, post m s (fun _ s' => s' = s) ->
    post (run m; do v <- get; saveStateWithHighWater (seqNumHighWater v)) s (fun _ s' => state_frame s s' /\ SeqNum (vb s') = SeqNum (vb s))) as Hm.
  { intros m Hm. apply post_bind. eapply post_mono; [exact Hm|]. intros r s' ->. destruct r; cbn beta iota; [|by split; [apply state_frame_refl|]].
    do 2 mstep. unfold saveStateWithHighWater. apply post_bind. eapply post_mono; [apply persist_frame|]. intros r1 s1 [H1 E1].
    destruct r1 as [b|e]; cbn beta iota; [|done]. eapply post_mono; [apply push_frame|]. intros r2 s2 [H2 E2].
    split; [by eapply state_frame_trans|]. by rewrite E2. }
  apply Hm. destruct (EncryptionEnabled (vb s)); [|mgo; done].
  unfold mintVolumeUUID. mgo. rewrite bool_decide_false by auto. cbn [negb]. mgo. done.
Qed.

(** The latch that stops chunk collection. *)
Lemma latch_inv s seg c :
  vol_inv s seg ->
  let s' := mkSt ((vb s) <| gcLatchedOff := c |>) (world s) in
  vol_inv s' seg /\ forall b, vol_block s' b = vol_block s b.
Proof.
  intros Hi s'.
  assert (s' = mkSt (gc_vb (gcRefcount (vb s)) (gcReconciled (vb s)) (gcFloor (vb s)) (gcFloorReady (vb s)) (gcSnapshotSafe (vb s))
    (gcSnapshotChecked (vb s)) (gcMarkerBaseline (vb s)) c (vb s)) (world s)) as -> by (unfold s'; by destruct s as [[] ?]).
  destruct (swept_inv s _ seg Hi (flags_swept s (gcRefcount (vb s)) (gcReconciled (vb s)) (gcFloor (vb s)) (gcFloorReady (vb s))
    (gcSnapshotSafe (vb s)) (gcSnapshotChecked (vb s)) (gcMarkerBaseline (vb s)) c (fun H1 H2 => H1 H2) id)) as (? & _ & ?). done.
Qed.

(** Objects that are not chunks do not matter to the contents. *)
Lemma other_objects s seg s' k :
  vol_inv s seg -> vb s' = vb s -> files (world s') = files (world s) ->
  (forall x, x <> k -> objects (world s') !! x = objects (world s) !! x) ->
  (forall i vol, k <> GetFilePath FileTypeChunk i vol) ->
  vol_inv s' seg /\ forall b, vol_block s' b = vol_block s b.
Proof.
  intros Hi Ev Ef Ho Hk. destruct s' as [v' w']. cbn [vb world] in *. subst v'.
  apply chunks_frame; [done|done|]. intros i vol. apply Ho. intros E. by apply (Hk i vol).
Qed.

(** The drain before the map is frozen. *)
Lemma drainForSnapshot_spec p s seg sc :
  vol_inv s seg -> works (2 * length (Writes (vb s)) + 6) p s -> sched_ok sc ->
  WallNum (vb_WAL (vb s)) + 1 < 2 ^ 64 -> ObjectNum (vb s) + Z.of_nat (length (seg ++ Writes (vb s))) < 2 ^ 64 ->
  post (drainForSnapshot sc) s (fun r s' => drained s s' seg (r = Ok tt)).
Proof.
  intros Hi Hw Hsc Hwn Hon. unfold drainForSnapshot. do 2 mstep. apply post_bind.
  match goal with |- post _ s ?Q => change (post Flush s Q) end.
  eapply post_mono; [exact (Flush_works 6 p s seg Hi Hw)|].
  intros r s1 (-> & Hw1 & Hi1 & (u & wd & Ev1) & Hp1 & Hm1 & Hb1). cbn beta iota. apply post_bind.
  assert (calm s -> calm s1) as Hc1 by (by rewrite (works_calm_iff _ _ _ Hw1), <-(works_calm_iff _ _ _ Hw)).
  eapply post_mono; [apply (WriteWALToChunk_works HA p s1 (seg ++ Writes (vb s)) sc Hi1); try done; [split; [by rewrite Ev1|done]|by rewrite Ev1..]|].
  intros r s2 Hco. pose proof (flush_consolidate s s1 s2 p seg u wd _ Ev1 Hc1 Hb1 Hm1 Hco) as Hdr.
  destruct r as [[]|e]; cbn beta iota; [|done].
  apply post_bind, post_try. eapply post_mono; [apply SaveLive_spec|]. intros r s3 ([d Ev3] & Ef3 & Eo3 & Hc3 & _). destruct s3 as [v3 w3].
  cbn [vb world] in *. subst v3. cbn beta iota. mgo.
  assert ((vb s2) <| bto_dirty := d |> = (vb s2) <| bto_dirty := d |> <| backendFull := backendFull (vb s2) |>) as E by (by destruct (vb s2)).
  rewrite E. eapply drained_flags; [exact Hdr|done| |done|].
  - intros i vol. apply Eo3. intros Ek. symmetry in Ek. by apply live_not_chunk in Ek.
  - intros Hcs _. split; [by apply Hc3|done].
Qed.

(** The bytes of a snapshot's config. *)
Definition snap_blob (v : VB) (id : string) (snap : SnapshotState) : bytes :=
  if EncryptionEnabled v
  then sealMeta (marshal_snap snap) (snap_aad (volumeNameHash v) id (ss_StateSeqNum snap))
         (makeNonce (ss_StateSeqNum snap) (VolumeUUID v) DomainSnapshotMeta)
  else marshal_snap snap.

(** What the config says of the source. *)
Record describes (v : VB) (snap : SnapshotState) : Prop := {
  de_name : ss_SourceVolumeName snap = VolumeName v;
  de_count : ss_BlockCount snap = block_count (BlocksToObject v);
  de_flat : ss_HasFlatSection snap = bool_decide (BaseBlockMap v <> None);
  de_hex : (ss_SourceVolumeUUID snap, ss_SourceVolumeNameHash snap)
    = if EncryptionEnabled v then (hex_encode (VolumeUUID v), hex_encode (volumeNameHash v)) else (EmptyString, EmptyString)
}.

(** Everything is on the backend, and the snapshot's objects describe it. *)
Record snapped (s s1 : St) (seg : list Block) (id : string) (snap : SnapshotState) : Prop := {
  sn_inv : vol_inv s1 [];
  sn_mem : no_orphans (vb s) seg -> forall b, get_entry (BStore (vb s1)) b = None;
  sn_ckpt : exists t ck, snapshot_checkpoint (vb s1) t = Ok ck /\
    objects (world s1) !! GetFilePath FileTypeBlockCheckpoint 0 id = Some ck;
  sn_conf : objects (world s1) !! GetFilePath FileTypeConfig 0 id = Some (snap_blob (vb s1) id snap);
  sn_desc : describes (vb s1) snap;
  sn_gc : no_collect (vb s1)
}.

Definition undisturbed (s s1 : St) : Prop :=
  (exists seg', vol_inv s1 seg') /\ (forall b, vol_block s1 b = vol_block s b) /\ identity (vb s1) = identity (vb s).

(** The identity of the source in the config, and the state it is stamped with. *)
Lemma snap_meta s snap0 (mk : VB -> VB -> SnapshotState) :
  (EncryptionEnabled (vb s) = true -> VolumeUUID (vb s) <> zeros 4) ->
  (EncryptionEnabled (vb s) = false -> describes (vb s) snap0) ->
  (EncryptionEnabled (vb s) = true -> forall v1 v2, VolumeUUID v2 = VolumeUUID (vb s) -> describes (vb s) (mk v1 v2)) ->
  post (if EncryptionEnabled (vb s) then
          run modify (fun v => v <| nextStateSeqNum := u64 (nextStateSeqNum v + 1) |>);
          do v1 <- get; run SaveStateCtx; do v2 <- get; ret (mk v1 v2)
        else ret snap0) s
    (fun r s' => state_frame s s' /\ SeqNum (vb s') = SeqNum (vb s) /\ forall snap, r = Ok snap -> describes (vb s) snap).
Proof.
  intros Hu H0 H1. destruct (EncryptionEnabled (vb s)) eqn:Ee.
  2: { mgo. split; [apply state_frame_refl|]. split; [done|]. intros snap [= <-]. by apply H0. }
  do 4 mstep. set (s1 := mkSt _ (world s)).
  assert (state_frame s s1) as F1.
  { replace s1 with (mkSt (counters (SeqNum (vb s)) (u64 (nextStateSeqNum (vb s) + 1)) (seqNumHighWater (vb s)) (vb s)) (world s));
      [by apply state_frame_counters|]. unfold s1. by destruct (vb s). }
  apply post_bind. eapply post_mono; [apply SaveState_frame; intros _; by apply Hu|]. intros r s2 [F2 E2].
  assert (state_frame s s2) as F02 by (by eapply state_frame_trans).
  destruct r as [[]|e]; cbn beta iota; [|by split]. mgo. split; [done|]. split; [done|]. intros snap [= <-].
  apply H1; [done|]. destruct (sf_vb _ _ F02) as (a & b & c & ->). done.
Qed.

(** The source's side of a snapshot. *)
Lemma CreateSnapshot_spec p s seg sc id :
  vol_inv s seg -> works (2 * length (Writes (vb s)) + 7) p s -> sched_ok sc ->
  WallNum (vb_WAL (vb s)) + 1 < 2 ^ 64 -> ObjectNum (vb s) + Z.of_nat (length (seg ++ Writes (vb s))) < 2 ^ 64 ->
  post (CreateSnapshot sc id) s (fun r s1 => undisturbed s s1 /\ forall snap, r = Ok snap -> snapped s s1 seg id snap).
Proof.
  intros Hi Hw Hsc Hwn Hon. unfold CreateSnapshot. do 2 mstep. set (sa := mkSt _ (world s)).
  destruct (latch_inv s seg _ Hi : vol_inv sa seg /\ _) as [Hia Hba].
  unfold writeSnapshotMarker. apply post_bind, post_bind. unfold get_now, post at 1. cbn [fst snd].
  unfold backend_Write. apply post_bind. do 1 mstep.
  apply (post_WriteTo_works (2 * length (Writes (vb s)) + 6) p); [destruct Hw as [Hw|Hw]; [left|by right]; rewrite <-plus_n_Sm in Hw; exact Hw|].
  intros sb Evb Efb Hwb Hob. destruct (other_objects sa seg sb _ Hia Evb Efb Hob) as [Hib Hbb]; [intros i vol; apply marker_not_chunk|].
  cbn beta iota. do 2 mstep. change (get_now) with (fun s0 : St => (@Ok error Z (now (world s0)), s0)).
  assert (ownsWAL (vb sb) = true) as ->.
  { unfold ownsWAL. rewrite (go_shards _ (vi_geo _ _ Hib)). apply negb_true_iff, bool_decide_eq_false. intros E.
    pose proof (vi_active _ _ Hib) as Ha. by rewrite E in Ha. }
  apply post_bind. eapply post_mono; [apply (drainForSnapshot_spec p sb seg sc Hib); by rewrite ?Evb|].
  intros r s3 Hdr.
  assert (undisturbed s s3) as H3.
  { split; [eexists; apply Hdr|]. split; [intros b; by rewrite (dr_block _ _ _ _ Hdr), Hbb, Hba|].
    rewrite (dr_ident _ _ _ _ Hdr), Evb. done. }
  destruct r as [[]|e]; cbn beta iota; [|by split]. pose proof (dr_inv _ _ _ _ Hdr) as Hi3.
  assert (no_orphans (vb s) seg -> forall b, get_entry (BStore (vb s3)) b = None) as Hm3.
  { intros Hno b. destruct (get_entry (BStore (vb sb)) b) as [e|] eqn:E; [|by apply (dr_mono _ _ _ _ Hdr)].
    rewrite Evb in E. apply Hno in E. apply list_elem_of_fmap in E as (x & -> & Hx). apply (dr_gone _ _ _ _ Hdr); [done|].
    by rewrite Evb. }
  assert (no_collect (vb s3)) as Hg3.
  { unfold no_collect. destruct (dr_gc _ _ _ _ Hdr) as [-> ->]. rewrite Evb.
    change (GCEnabled (vb s) = false \/ GCEnabled (vb s) || gcLatchedOff (vb s) = true). destruct (GCEnabled (vb s)); auto. }
  clear Hdr Hbb Hba Hia Hib Hob Hwb Evb Efb sa sb. do 2 mstep. apply post_bind. unfold post at 1. cbn [fst snd]. mstep.
  apply post_of_result. destruct (snapshot_checkpoint (vb s3) (now (world s3))) as [ck|e] eqn:Eck; cbn beta iota; [|by split].
  apply post_bind, post_backend_WriteTo. intros r s4 Ev4 Ef4 _ Ho4 Hk4.
  destruct (other_objects s3 [] s4 _ Hi3 Ev4 Ef4 Ho4) as [Hi4 Hb4]; [intros i vol; by apply checkpoint_not_chunk|].
  assert (undisturbed s s4) as H4.
  { destruct H3 as (_ & Hb & Hid). split; [by eexists|]. split; [intros b; by rewrite Hb4, Hb|by rewrite Ev4]. }
  destruct r as [[]|e]; cbn beta iota; [|by split]. rewrite <-Ev4. apply post_bind.
  eapply post_mono; [apply (snap_meta s4 _ (fun v1 v2 => mkSnapshotState _ _ _ _ _ _ _ _ _ _ _ _))|].
  { apply (go_uuid _ (vi_geo _ _ Hi4)). }
  { intros Ee. constructor; cbn; try done. by rewrite Ee. }
  { intros Ee v1 v2 Eu. constructor; cbn; try done. by rewrite Ee, Eu. }
  intros r s5 (F5 & Es5 & Hd5). pose proof (frame_inv s4 s5 [] F5 ltac:(lia) Hi4) as Hi5.
  pose proof (fun b => frame_block s4 s5 b (vi_store _ _ Hi4) F5) as Hb5.
  destruct (sf_vb _ _ F5) as (a & b0 & c & Ev5).
  assert (undisturbed s s5) as H5.
  { destruct H4 as (_ & Hb & Hid). split; [by eexists|]. split; [intros b; by rewrite Hb5, Hb|by rewrite Ev5]. }
  destruct r as [snap|e]; cbn beta iota; [|by split]. specialize (Hd5 snap eq_refl). do 2 mstep.
  apply post_bind, post_backend_WriteTo. intros r s6 Ev6 Ef6 _ Ho6 Hk6.
  destruct (other_objects s5 [] s6 _ Hi5 Ev6 Ef6 Ho6) as [Hi6 Hb6]; [intros i vol; apply config_not_chunk|].
  assert (undisturbed s s6) as H6.
  { destruct H5 as (_ & Hb & Hid). split; [by eexists|]. split; [intros b; by rewrite Hb6, Hb|by rewrite Ev6]. }
  destruct r as [[]|e]; cbn beta iota; [|by split]. mgo. split; [done|]. intros sn [= <-].
  assert (vb s6 = counters a b0 c (vb s3)) as E6 by (by rewrite Ev6, Ev5, Ev4). constructor; [done|..].
  - intros Hno b. rewrite E6. by apply Hm3.
  - exists (now (world s3)), ck. split; [rewrite E6; exact Eck|].
    rewrite Ho6 by apply checkpoint_not_config. rewrite (sf_objects _ _ F5) by apply checkpoint_not_config. by apply Hk4.
  - rewrite Hk6 by done. rewrite Ev6. done.
  - rewrite Ev6, Ev5. destruct Hd5. by constructor.
  - by rewrite E6.
Qed.
End source.

(** ** The clone's side *)

Section clone.
Context {A : AEAD} (HA : AEADLaws A) {S : StateJSON} {P : ProbeJSON}
  {SJ : SnapJSON} (HSJ : SnapJSONLaws SJ).

(** The objects a snapshot of [v] stands on are still there: its own two, and
    the chunks that existed when it was taken. *)
Record frozen (v : VB) (id : string) (objs objs2 : gmap string bytes) : Prop := {
  fz_conf : objs2 !! GetFilePath FileTypeConfig 0 id = objs !! GetFilePath FileTypeConfig 0 id;
  fz_ckpt : objs2 !! GetFilePath FileTypeBlockCheckpoint 0 id = objs !! GetFilePath FileTypeBlockCheckpoint 0 id;
  fz_chunk : forall i vol obj, 0 <= i -> (vol = VolumeName v -> i < ObjectNum v) ->
    objs !! GetFilePath FileTypeChunk i vol = Some obj -> objs2 !! GetFilePath FileTypeChunk i vol = Some obj
}.

(** A volume that can be opened on a snapshot of [v]. *)
Record clonable (v v2 : VB) : Prop := {
  cl_bs : BlockSize v2 = BlockSize v;
  cl_stride : blockStride v2 = blockStride v;
  cl_enc : EncryptionEnabled v2 = EncryptionEnabled v;
  cl_version : Version v2 = Version v;
  cl_magic : WALMagic (BlockToObjectWAL v2) = WALMagic (BlockToObjectWAL v);
  cl_source : VolumeName v <> EmptyString;
  cl_name : VolumeName v2 <> VolumeName v;
  cl_layers : forall ly, ly ∈ inh_layers v -> VolumeName v2 <> ly_name ly;
  cl_uuid : blen (VolumeUUID v) = 4;
  cl_hash : blen (volumeNameHash v) = 32
}.

(** The identity an unencrypted snapshot does not record is zero. *)
Definition snap_uuid (v : VB) : bytes := if EncryptionEnabled v then VolumeUUID v else zeros 4.
Definition snap_hash (v : VB) : bytes := if EncryptionEnabled v then volumeNameHash v else zeros 32.
Definition clone_of (v : VB) (id : string) (v2 : VB) : VB := on_snapshot v id (snap_uuid v) (snap_hash v) v2.

Lemma ReadFrom_whole vol t id v w d :
  plan w = [] -> objects w !! GetFilePath t id vol = Some d -> blen d < 2 ^ 32 ->
  backend_ReadFrom vol t id 0 0 (mkSt v w) = (Ok d, mkSt v w).
Proof.
  intros Hp Ho Hl. unfold backend_ReadFrom, bind, next, get_object. cbn [vb world].
  rewrite Hp. cbn [vb world]. rewrite Ho. cbn [Z.eqb].
  assert (SafeInt64ToUint32 (blen d) = blen d) as -> by (unfold SafeInt64ToUint32, blen in *; unfold_widths; zcrush).
  rewrite Z.add_0_l. destruct (Z.ltb_spec (blen d) (blen d)); [lia|]. unfold ret. by rewrite slice_all.
Qed.

(** The config opens to the JSON that was sealed. *)
Lemma open_config v v2 id snap :
  describes v snap -> EncryptionEnabled v2 = EncryptionEnabled v -> blen (VolumeUUID v) = 4 -> blen (volumeNameHash v) = 32 ->
  open_snapshot_config v2 id (snap_blob v id snap) = Ok (marshal_snap snap).
Proof.
  intros [_ _ _ Hh] Ee Hu Hn. unfold open_snapshot_config, snap_blob. rewrite Ee. destruct (EncryptionEnabled v); [|done].
  injection Hh as E1 E2. rewrite split_seal by apply snap_valid. rewrite snap_peek, E1, E2.
  rewrite !hex_field_encode by done. by rewrite verify_seal.
Qed.

(** Opening the snapshot of [v] on another volume. *)
Lemma OpenFromSnapshot_run v snap id v2 w2 t ck :
  map_saveable v -> flattenable v -> describes v snap -> clonable v v2 ->
  snapshot_checkpoint v t = Ok ck -> plan w2 = [] ->
  objects w2 !! GetFilePath FileTypeBlockCheckpoint 0 id = Some ck -> blen ck < 2 ^ 32 ->
  objects w2 !! GetFilePath FileTypeConfig 0 id = Some (snap_blob v id snap) -> blen (snap_blob v id snap) < 2 ^ 32 ->
  OpenFromSnapshot id (mkSt v2 w2) = (Ok tt, mkSt (clone_of v id v2) w2).
Proof.
  intros Hv Hf Hd [Hbs Hst Hee Hver Hmag Hsrc Hn1 Hn2 Hu Hh] Hck Hp Hokc Hlc Hocf Hlf.
  pose proof (open_config v v2 id snap Hd Hee Hu Hh) as Hopen. pose proof Hd as [Hnm Hcnt Hfl Hhex].
  assert (optional_hex 4 (ss_SourceVolumeUUID snap) = Ok (snap_uuid v) /\
          optional_hex 32 (ss_SourceVolumeNameHash snap) = Ok (snap_hash v)) as [E1 E2].
  { unfold snap_uuid, snap_hash. destruct (EncryptionEnabled v); injection Hhex as -> ->; [|done].
    by rewrite !optional_hex_encode. }
  unfold OpenFromSnapshot, LoadSnapshotBlockMap, bind, get, of_result, ret. cbn [vb].
  rewrite (ReadFrom_whole _ _ _ v2 w2 _ Hp Hocf Hlf), Hopen, snap_unmarshal, E1, E2.
  rewrite (ReadFrom_whole _ _ _ v2 w2 _ Hp Hokc Hlc), (parse_snapshot v v2 snap t ck) by done.
  cbn [fst snd id_SourceVolumeName]. rewrite Hnm. rewrite bool_decide_false by done. reflexivity.
Qed.

(** ** The contents of a clone *)

Section contents.
Context (s : St) (seg : list Block) (Hi : vol_inv s seg) (Hv : map_saveable (vb s)) (Hf : flattenable (vb s))
  (Hmem : forall b, get_entry (BStore (vb s)) b = None)
  (id : string) (v2 : VB) (Hc : clonable (vb s) v2) (objs2 : gmap string bytes) (Hz : frozen (vb s) id (objects (world s)) objs2).

Abbreviation v := (vb s).
Abbreviation v3 := (clone_of (vb s) id v2).

(** A layer of the source decodes the same bytes for the clone. *)
Lemma layer_same ly ly' obj off seq b :
  (EncryptionEnabled v = true -> ly_uuid ly = ly_uuid ly' /\ ly_hash ly = ly_hash ly') ->
  stored_block (as_layer ly v3) obj off seq b = stored_block (as_layer ly' v) obj off seq b.
Proof.
  intros Hly. unfold stored_block. change (blockStride (as_layer ly v3)) with (blockStride v2).
  change (EncryptionEnabled (as_layer ly v3)) with (EncryptionEnabled v2).
  change (blockStride (as_layer ly' v)) with (blockStride v). change (EncryptionEnabled (as_layer ly' v)) with (EncryptionEnabled v).
  rewrite (cl_stride _ _ Hc), (cl_enc _ _ Hc). destruct (EncryptionEnabled v); [|done].
  destruct (Hly eq_refl) as [E1 E2]. cbn. by rewrite E1, E2.
Qed.

Lemma clone_layer_0 : inh_layers v3 !! 0%nat = Some (mkLy (VolumeName v) (snap_uuid v) (snap_hash v)).
Proof. done. Qed.

Lemma clone_layer_S b j l : inherited v b = Some (j, l) -> inh_layers v3 !! Datatypes.S j = inh_layers v !! j.
Proof.
  intros Hb. unfold clone_of. rewrite clone_inh_layers. destruct (BaseBlockMap v) eqn:E; [done|].
  rewrite not_clone_inherited in Hb; [done|done|]. by apply (fn_none _ Hf).
Qed.

(** The source's location of a block it owns. *)
Lemma source_loc b l :
  LookupBlockToObject (blockStride v) (BlocksToObject v) b = Some l ->
  readPersisted (persistedExtents (BStore v)) b = Some (entry_of l).
Proof. intros E. rewrite (vi_agree _ _ Hi), E. done. Qed.

(** Each block of the clone is at a place that still holds it. *)
Lemma clone_place b j l ly :
  inherited v3 b = Some (j, l) -> inh_layers v3 !! j = Some ly ->
  ly_name ly <> EmptyString /\ ly_name ly <> VolumeName v2 /\ 0 <= l.1.1 /\ layer_ok v3 objs2 ly b l /\
  layer_data v3 objs2 ly b l = Some (vol_block s b).
Proof.
  unfold clone_of at 1. rewrite clone_inherited by done.
  destruct (LookupBlockToObject (blockStride v) (BlocksToObject v) b) as [l'|] eqn:El.
  - intros [= <- <-]. rewrite clone_layer_0. intros [= <-]. pose proof (source_loc b l' El) as Hr.
    destruct (si_loc _ (vi_store _ _ Hi) b _ Hr) as (Ho & obj & d & Hobj & Hd & Hl & Hm).
    pose proof (loc_bound s (vi_store _ _ Hi) b _ Hr) as Hbd. destruct (vi_obj _ _ Hi b l' El) as [H0 H1].
    cbn [entry_of be_ObjectID be_ObjectOffset be_SeqNum] in *.
    assert (objs2 !! GetFilePath FileTypeChunk l'.1.1 (VolumeName v) = Some obj) as Hobj2 by (by apply (fz_chunk _ _ _ _ Hz)).
    assert (stored_block (as_layer (mkLy (VolumeName v) (snap_uuid v) (snap_hash v)) v3) obj l'.1.2 l'.2 b = Some d) as Hd2.
    { rewrite <-Hd. etrans; [apply (layer_same _ (own_layer v))|by rewrite as_own]. intros Ee. unfold snap_uuid, snap_hash. by rewrite Ee. }
    split; [apply Hc|]. split; [apply not_eq_sym, Hc|]. split; [done|]. split.
    + split; [done|]. split; [change (blockStride v3) with (blockStride v2); by rewrite (cl_stride _ _ Hc)|].
      exists obj, d. split; [done|]. split; [done|]. change (BlockSize v3) with (BlockSize v2). change (EncryptionEnabled v3) with (EncryptionEnabled v2).
      by rewrite (cl_bs _ _ Hc), (cl_enc _ _ Hc).
    + unfold layer_data. cbn [ly_name]. rewrite Hobj2, Hd2. unfold vol_block. rewrite Hmem, Hr. unfold loc_data.
      cbn [entry_of be_ObjectID be_ObjectOffset be_SeqNum]. by rewrite Hobj, Hd.
  - destruct (inherited v b) as [[j' l']|] eqn:Ei; [|done]. intros [= <- <-] Hly. rewrite (clone_layer_S b j' l' Ei) in Hly.
    destruct (si_inh _ (vi_store _ _ Hi) b j' l' ly Ei Hly) as (Hne & Hnv & H0 & Ho & Hbd & obj & d & Hobj & Hd & Hl & Hm).
    assert (objs2 !! GetFilePath FileTypeChunk l'.1.1 (ly_name ly) = Some obj) as Hobj2 by (by apply (fz_chunk _ _ _ _ Hz)).
    assert (stored_block (as_layer ly v3) obj l'.1.2 l'.2 b = Some d) as Hd2 by (by rewrite <-Hd; apply layer_same).
    split; [done|]. split; [apply not_eq_sym, (cl_layers _ _ Hc), list_elem_of_lookup; by exists j'|]. split; [done|]. split.
    + split; [done|]. split; [change (blockStride v3) with (blockStride v2); by rewrite (cl_stride _ _ Hc)|].
      exists obj, d. split; [done|]. split; [done|]. change (BlockSize v3) with (BlockSize v2). change (EncryptionEnabled v3) with (EncryptionEnabled v2).
      by rewrite (cl_bs _ _ Hc), (cl_enc _ _ Hc).
    + unfold layer_data. rewrite Hobj2, Hd2. unfold vol_block. rewrite Hmem.
      rewrite (vi_agree _ _ Hi), El. cbn [fmap option_fmap option_map]. unfold inh_data. rewrite Ei, Hly.
      unfold layer_data. by rewrite Hobj, Hd.
Qed.

Lemma clone_wf : inh_wf v3 objs2.
Proof. intros b j l ly Hb Hly. destruct (clone_place b j l ly Hb Hly) as (? & ? & ? & ? & _). done. Qed.

Lemma clone_layout : inh_layout v3.
Proof.
  intros b j p q. unfold clone_of. rewrite !clone_inherited by done. change (blockStride (on_snapshot _ _ _ _ v2)) with (blockStride v2).
  rewrite (cl_stride _ _ Hc).
  destruct (LookupBlockToObject (blockStride v) (BlocksToObject v) b) as [l1|] eqn:E1,
    (LookupBlockToObject (blockStride v) (BlocksToObject v) (b + 1)) as [l2|] eqn:E2.
  - intros [= <- <-] [= <-]. apply (si_layout _ (vi_store _ _ Hi) b (entry_of l1) (entry_of l2)); by apply source_loc.
  - destruct (inherited v (b + 1)) as [[? ?]|]; [|done]. by intros [= <- <-] [= ?].
  - destruct (inherited v b) as [[? ?]|]; [|done]. by intros [= <- <-] [= ?].
  - destruct (inherited v b) as [[j1 m1]|] eqn:I1; [|done]. destruct (inherited v (b + 1)) as [[j2 m2]|] eqn:I2; [|done].
    intros [= <- <-] [= Hj <-]. subst j2. by apply (si_inh_layout _ (vi_store _ _ Hi) _ _ _ _ I1 I2).
Qed.

Lemma clone_data b : inh_data v3 objs2 b = vol_block s b.
Proof.
  unfold inh_data. destruct (inherited v3 b) as [[j l]|] eqn:E.
  - destruct (inherited_layer _ _ _ _ E) as [ly Hly]. rewrite Hly.
    destruct (clone_place b j l ly E Hly) as (_ & _ & _ & _ & ->). done.
  - unfold clone_of in E. rewrite clone_inherited in E by done.
    destruct (LookupBlockToObject (blockStride v) (BlocksToObject v) b) as [l|] eqn:El; [done|].
    unfold vol_block. rewrite Hmem, (vi_agree _ _ Hi), El. cbn [fmap option_fmap option_map]. unfold inh_data.
    destruct (inherited v b) as [[? ?]|]; [done|]. change (BlockSize v3) with (BlockSize v2). by rewrite (cl_bs _ _ Hc).
Qed.

(** A clone can be snapshotted in turn. *)
Lemma clone_flattenable : flattenable v3.
Proof.
  assert (blen (snap_uuid v) = 4 /\ blen (snap_hash v) = 32) as [Hu Hh].
  { unfold snap_uuid, snap_hash. destruct (EncryptionEnabled v); [split; apply Hc|done]. }
  constructor.
  - intros m [= <-]. split; [by apply base_of_recs|done].
  - change (ancestors v3) with (ancestor_of <$> clone_layers v). unfold clone_layers. destruct (BaseBlockMap v) as [base|] eqn:E; [|constructor].
    pose proof (sources_fit v base Hf E) as Hs. rewrite <-list_fmap_compose. apply Forall_fmap.
    eapply Forall_impl; [exact Hs|]. intros src [Hu' Hh' Hr]. split; [|done].
    cbn. intros b l Hb.
    assert (forall recs, Forall rec_fits recs -> flat_of recs !! b = Some l -> bl_StartBlock l = b /\ rec_fits l) as Hg; [|by apply (Hg (sg_blocks src))].
    clear. induction recs as [|r recs IH] using rev_ind; intros Hf Hb; [done|].
    apply Forall_app in Hf as [Hf Hr]. rewrite flat_of_snoc, lookup_insert_Some in Hb.
    destruct Hb as [[<- <-]|[_ Hb]]; [split; [done|by apply Forall_inv in Hr]|by apply IH].
  - done.
Qed.
End contents.

Lemma flattenable_ident v v' : identity v' = identity v -> flattenable v -> flattenable v'.
Proof.
  unfold identity, inh_view, base_layer. intros [= _ _ _ Eb _ Eu Eh Ea _ _ _ _ _ _ _] [H1 H2 H3].
  constructor; by rewrite ?Eb, ?Eu, ?Eh, ?Ea.
Qed.

(** The rest of a volume's invariant does not depend on what it inherits. *)
Lemma fresh_on_snapshot v id v2 w2 seg :
  vol_inv (mkSt v2 w2) seg -> inh_wf (clone_of v id v2) (objects w2) -> inh_layout (clone_of v id v2) ->
  vol_inv (mkSt (clone_of v id v2) w2) seg.
Proof.
  intros [[? ? ? ? ? ? ? ? Hloc ?] [? ? ? ? ? ? ? ? ? ?] ? ? ? ? ? ? ? Hb ? ? ? ? ? ? ?] Hw Hl.
  constructor; cbn [vb world]; try done.
  - eapply Forall_impl; [exact Hb|]. intros x [? ? ? ?]. by constructor.
Qed.
End clone.

(** What [CreateSnapshot] and [OpenFromSnapshot] do together. *)
Lemma clone_opens {A : AEAD} {S : StateJSON} {P : ProbeJSON} {SJ : SnapJSON}
    p s seg sc id snap s1 v2 w2 t2 :
  AEADLaws A -> SnapJSONLaws SJ ->
  vol_inv s seg -> works (2 * length (Writes (vb s)) + 7) p s -> sched_ok sc ->
  WallNum (vb_WAL (vb s)) + 1 < 2 ^ 64 -> ObjectNum (vb s) + Z.of_nat (length (seg ++ Writes (vb s))) < 2 ^ 64 ->
  no_orphans (vb s) seg -> flattenable (vb s) -> CreateSnapshot sc id s = (Ok snap, s1) -> map_saveable (vb s1) ->
  fresh_volume v2 w2 t2 -> clonable (vb s1) v2 -> frozen (vb s1) id (objects (world s1)) (objects w2) -> plan w2 = [] ->
  (forall k d, objects w2 !! k = Some d -> blen d < 2 ^ 32) ->
  snapped s s1 seg id snap /\ flattenable (vb s1) /\ (forall b, get_entry (BStore (vb s1)) b = None) /\
  OpenFromSnapshot id (mkSt v2 w2) = (Ok tt, mkSt (clone_of (vb s1) id v2) w2) /\
  vol_inv (mkSt (clone_of (vb s1) id v2) w2) [] /\ same_bytes (byte_at s) (byte_at (mkSt (clone_of (vb s1) id v2) w2)).
Proof.
  intros HA HSJ Hi Hw Hsc Hwn Hon Hno Hf0 Hrun Hv Hfr Hc Hz Hp Hsz.
  apply (post_run _ _ _ (CreateSnapshot_spec HA p s seg sc id Hi Hw Hsc Hwn Hon)) in Hrun as ((_ & Hb & Hid) & Hok).
  pose proof (Hok snap eq_refl) as Hsn. pose proof Hsn as [Hi1 Hm (t & ck & Hck & Hobj) Hconf Hd _]. specialize (Hm Hno). clear Hok.
  destruct (fresh_inv _ _ _ Hfr) as [Hi2 _]. pose proof (flattenable_ident _ _ Hid Hf0) as Hf.
  do 3 (split; [done|]). split; [|split].
  - eapply OpenFromSnapshot_run; [done..| | | |]; rewrite ?(fz_ckpt _ _ _ _ Hz), ?(fz_conf _ _ _ _ Hz); try done.
    + apply (Hsz (GetFilePath FileTypeBlockCheckpoint 0 id)). by rewrite (fz_ckpt _ _ _ _ Hz).
    + apply (Hsz (GetFilePath FileTypeConfig 0 id)). by rewrite (fz_conf _ _ _ _ Hz).
  - apply fresh_on_snapshot; [done|by apply (clone_wf s1 [])|by apply (clone_layout s1 [])].
  - pose proof (f_equal (fun x => x.1.2.2.1.1) Hid) as Ebs. cbn in Ebs.
    apply bytes_of_blocks; [cbn [vb]; change (BlockSize (clone_of (vb s1) id v2)) with (BlockSize v2); by rewrite (cl_bs _ _ Hc), Ebs|].
    intros b. rewrite <-Hb, <-(clone_data s1 [] Hi1 Hv Hf Hm id v2 Hc (objects w2) Hz b).
    unfold vol_block. cbn [vb world]. change (BStore (clone_of (vb s1) id v2)) with (BStore v2).
    rewrite (fr_store _ _ _ Hfr), get_entry_new. unfold readPersisted, findPersistedExtentLocked. cbn [NewUnifiedBlockStore persistedExtents].
    by rewrite lookup_empty, map_to_list_empty.
Qed.

(** C4. A clone starts as a copy of its source. When [CreateSnapshot] succeeds on
    a volume with no block left over from a failed upload, another instance
    under another name that opens the snapshot, with nothing of the source but
    the backend's objects, succeeds: the invariant holds of it, it holds the
    bytes the source had when the snapshot was taken, and it can be snapshotted
    in turn. This holds of encrypted and plain volumes, of sources that are
    clones themselves, whatever uploads failed or were reordered on the way, and
    whatever happened on the backend since, as long as the chunks that existed
    then and the snapshot's own objects are still there. *)
Theorem clone_reads_source {A : AEAD} {S : StateJSON} {P : ProbeJSON} {SJ : SnapJSON}
    p s seg sc id snap s1 v2 w2 t2 :
  AEADLaws A -> SnapJSONLaws SJ ->
  vol_inv s seg -> works (2 * length (Writes (vb s)) + 7) p s -> sched_ok sc ->
  WallNum (vb_WAL (vb s)) + 1 < 2 ^ 64 -> ObjectNum (vb s) + Z.of_nat (length (seg ++ Writes (vb s))) < 2 ^ 64 ->
  no_orphans (vb s) seg -> flattenable (vb s) -> CreateSnapshot sc id s = (Ok snap, s1) -> map_saveable (vb s1) ->
  fresh_volume v2 w2 t2 -> clonable (vb s1) v2 -> frozen (vb s1) id (objects (world s1)) (objects w2) -> plan w2 = [] ->
  (forall k d, objects w2 !! k = Some d -> blen d < 2 ^ 32) ->
  exists v3, OpenFromSnapshot id (mkSt v2 w2) = (Ok tt, mkSt v3 w2) /\ vol_inv (mkSt v3 w2) [] /\ flattenable v3 /\
    same_bytes (byte_at s) (byte_at (mkSt v3 w2)).
Proof.
  intros HA HSJ Hi Hw Hsc Hwn Hon Hno Hf0 Hrun Hv Hfr Hc Hz Hp Hsz.
  destruct (clone_opens p s seg sc id snap s1 v2 w2 t2 HA HSJ Hi Hw Hsc Hwn Hon Hno Hf0 Hrun Hv Hfr Hc Hz Hp Hsz) as (_ & Hf & _ & Ho & Hi3 & Hb).
  exists (clone_of (vb s1) id v2). do 2 (split; [done|]). split; [by apply clone_flattenable|done].
Qed.

#[local] Existing Instance toy_aead.
#[local] Existing Instance toy_state_json.
#[local] Existing Instance toy_probe_json.
#[local] Existing Instance toy_snap_json.

Lemma toy_snap_json_laws : SnapJSONLaws toy_snap_json.
Proof.
  constructor; intros st.
  - apply bits_valid.
  - apply toy_snap_unmarshal_marshal.
  - cbn [peek_snap toy_snap_json]. by rewrite (toy_snap_unmarshal_marshal st).
Qed.

(** An encrypted volume with one buffered write, its snapshot "s", and the
    volume "c" about to be opened on it. *)
Definition src_vb : VB := dev_vb <| volumeNameHash := zeros 32 |>.
Definition src_st : St :=
  mkSt src_vb (mkWorld {[ "d/v/wal/chunks/wal.00000000.bin"%string := WALHeader src_vb 0 ]} ∅ [] [] 0).
Definition src_dirty : St := set_plan [] (exec serial (WriteOp 2 dev_data) (set_plan [] src_st)).2.
Definition src_snapped : St := (CreateSnapshot serial "s" src_dirty).2.
Definition cl_vb : VB := src_vb <| VolumeName := "c"%string |> <| volumeNameHash := replicate 32 Byte.x01 |>
  <| VolumeUUID := [Byte.x05; Byte.x06; Byte.x07; Byte.x08] |>
  <| vb_WAL := mkWAL ["d/c/wal/chunks/wal.00000000.bin"%string] 0 "d" (lit "VBWE") false false |>.
Definition cl_world (objs : gmap string bytes) : World :=
  mkWorld {[ "d/c/wal/chunks/wal.00000000.bin"%string := WALHeader cl_vb 0 ]} objs [] [] 0.

Lemma cl_objects objs : objects (cl_world objs) = objs.
Proof. done. Qed.

Lemma frozen_refl v id objs : frozen v id objs objs.
Proof. by constructor. Qed.

Lemma src_fresh : fresh_volume src_vb (world src_st) 0.
Proof.
  constructor; try done.
  - intros n Hn. cbn in Hn. cbn [world src_st files]. rewrite lookup_singleton_ne; [done|].
    change "d/v/wal/chunks/wal.00000000.bin"%string with (wal_path src_vb 0). intros Heq%wal_path_inj; lia.
Qed.

Lemma cl_fresh objs : fresh_volume cl_vb (cl_world objs) 0.
Proof.
  constructor; try done.
  - intros n Hn. cbn in Hn. cbn [files cl_world]. rewrite lookup_singleton_ne; [done|].
    change "d/c/wal/chunks/wal.00000000.bin"%string with (wal_path cl_vb 0). intros Heq%wal_path_inj; lia.
Qed.

Lemma src_dirty_inv : vol_inv src_dirty [].
Proof.
  apply set_plan_inv. pose proof (exec_step toy_aead_laws serial (WriteOp 2 dev_data) [] (set_plan [] src_st) []) as H.
  unfold post in H. apply H.
  - apply set_plan_inv, (fresh_inv _ _ _ src_fresh).
  - vm_compute. intuition discriminate.
Qed.

Lemma src_no_orphans : no_orphans (vb src_dirty) [].
Proof.
  intros b e He. apply (all_entries_elem _ (si_shards _ (vi_store _ _ src_dirty_inv))) in He.
  assert (b ∈ (all_entries (BStore (vb src_dirty))).*1) as Hb by (apply list_elem_of_fmap; by exists (b, e)).
  assert ((all_entries (BStore (vb src_dirty))).*1 = b_Block <$> ([] ++ Writes (vb src_dirty))) as E by (vm_compute; reflexivity).
  by rewrite <-E.
Qed.

Definition snap_result : result error SnapshotState := Eval vm_compute in (CreateSnapshot serial "s" src_dirty).1.
Definition the_snap : SnapshotState := match snap_result with Ok st => st | Err _ => mkSnapshotState "" "" 0 0 0 0 0 0 "" "" 0 false end.

Lemma src_snapshots : CreateSnapshot serial "s" src_dirty = (Ok the_snap, src_snapped).
Proof. unfold src_snapped. apply run_eq. vm_compute. reflexivity. Qed.

Lemma src_clonable : clonable (vb src_snapped) cl_vb.
Proof.
  constructor; try (vm_compute; reflexivity); try (vm_compute; discriminate).
  intros ly Hly. assert (inh_layers (vb src_snapped) = [mkLy "" (zeros 4) []]) as E by (vm_compute; reflexivity).
  rewrite E in Hly. apply list_elem_of_singleton in Hly as ->. discriminate.
Qed.

Lemma clone_reads_source_witness :
  let w := cl_world (objects (world src_snapped)) in
  exists v3, OpenFromSnapshot "s" (mkSt cl_vb w) = (Ok tt, mkSt v3 w) /\ vol_inv (mkSt v3 w) [] /\ flattenable v3 /\
    same_bytes (byte_at src_dirty) (byte_at (mkSt v3 w)).
Proof.
  intros w. apply (clone_reads_source [] src_dirty [] serial "s" the_snap src_snapped cl_vb w 0).
  - exact toy_aead_laws.
  - exact toy_snap_json_laws.
  - exact src_dirty_inv.
  - apply works_calm. exact (Forall_nil_2 _).
  - by intros ?.
  - vm_compute. reflexivity.
  - vm_compute. reflexivity.
  - exact src_no_orphans.
  - apply not_clone_flattenable; vm_compute; reflexivity.
  - exact src_snapshots.
  - apply saveable_dec; [vm_compute; reflexivity|split; vm_compute; [reflexivity|intuition discriminate]|vm_compute; reflexivity..].
  - apply cl_fresh.
  - exact src_clonable.
  - unfold w. rewrite cl_objects. apply frozen_refl.
  - done.
  - unfold w. rewrite cl_objects. apply map_Forall_lookup. apply (bool_decide_eq_true_1 _). vm_compute. reflexivity.
Defined.
