(* ===== verification/Isolation.v ===== *)
(** * Volumes that share a backend

    What each operation touches on the backend, and that a source and its
    clone, running side by side, do not see each other. *)

From S2P Require Import Prelude Words BlockMap Extents BlockStore BlockStoreFacts Crypto Paths Volume WAL Chunk ChunkFacts CommitFacts Read Blocks Inherit Content Requests ReadFacts Checkpoint CheckpointFacts SeqNum Frames Footprint Engine GC Snapshot FlatFacts WALFacts VolInv WriteFacts FlushFacts UploadFacts DrainFacts GCFacts Refinement Instances Device Restart Clones.

Section footprints.
Context {A : AEAD} (HA : AEADLaws A) {S : StateJSON} {P : ProbeJSON}.

(** ** Flushing writes the active segment alone *)

Definition logged_only (name : string) (s s' : St) : Prop :=
  DB (vb_WAL (vb s')) = DB (vb_WAL (vb s)) /\ objects (world s') = objects (world s) /\
  forall f, f <> name -> files (world s') !! f = files (world s) !! f.

Lemma logged_trans name s1 s2 s3 : logged_only name s1 s2 -> logged_only name s2 s3 -> logged_only name s1 s3.
Proof. intros (D1 & O1 & F1) (D2 & O2 & F2). split; [congruence|]. split; [congruence|]. intros f Hf. by rewrite F2, F1. Qed.

Lemma flush_disk s seg : vol_inv s seg -> post Flush s (fun _ s' => logged_only (wal_path (vb s) (WallNum (vb_WAL (vb s)))) s s').
Proof.
  intros Hi. unfold Flush. do 2 mstep. rewrite (go_shards _ (vi_geo _ _ Hi)). unfold flushLocked. do 2 mstep. apply post_bind.
  set (name := wal_path _ _).
  assert (forall l fl n s, last (DB (vb_WAL (vb s))) = Some name -> post (flush_loop WriteWAL l fl n) s (fun _ s' => logged_only name s s')) as H.
  { induction l as [|b l IH]; intros fl n s0 Hl; cbn [flush_loop]; [mgo; done|]. apply post_bind, post_try.
    eapply post_mono; [by apply WriteWAL_append|]. intros r s1 [Ev Eo Ef _ _].
    assert (logged_only name s0 s1) as H1 by (split; [by destruct Ev as [-> | ->]|done]).
    destruct r as [[]|e]; cbn beta iota; [|mgo; done]. do 2 mstep.
    match goal with |- post _ ?x _ => assert (logged_only name s1 x) as H2 by (split; [cbn [vb]; by destruct (UseBlockStore (vb s1))|done]) end.
    pose proof (logged_trans name s0 s1 _ H1 H2) as H3. eapply post_mono; [apply IH; destruct H3 as (-> & _); done|].
    intros r s2 H4. by eapply logged_trans. }
  eapply post_mono; [apply H, Hi|]. intros r s1 H1. destruct r as [[[fl n] e]|e]; cbn beta iota; [|done]. do 2 mstep.
  destruct (_ <? _)%nat; mgo; exact H1.
Qed.

(** ** Draining *)

Lemma progress_footprint s s' : progress s s' -> footprint s s'.
Proof.
  intros [_ (m & g & u & pbw & pb & d & n & E) _ _ _ _ _ Ho Hn Hl].
  constructor; try done; rewrite ?E; try done. intros k _ _ Hk. by apply Ho.
Qed.

Lemma consolidated_footprint p s s' seg ok : consolidated p s s' seg ok -> footprint s s'.
Proof.
  intros [(s1 & [Ev _ _ _ _ Eo] & Hp) _ _ _ _ _ _ _]. apply (footprint_trans _ s1); [|by apply progress_footprint].
  apply footprint_vb; rewrite ?Ev; done.
Qed.

Lemma live_footprint s s' d full :
  vb s' = (vb s) <| bto_dirty := d |> <| backendFull := full |> ->
  (forall k, k <> live_key (vb s) -> objects (world s') !! k = objects (world s) !! k) -> footprint s s'.
Proof.
  intros E Ho. constructor; rewrite ?E; try done.
  - intros k _ Hk _. by apply Ho.
  - intros _ i _. apply Ho. apply chunk_not_live.
Qed.

Lemma drain_footprint p s seg sc :
  vol_inv s seg -> works (2 * length (Writes (vb s)) + 6) p s -> sched_ok sc ->
  WallNum (vb_WAL (vb s)) + 1 < 2 ^ 64 -> ObjectNum (vb s) + Z.of_nat (length (seg ++ Writes (vb s))) < 2 ^ 64 ->
  post (DrainToBackendCtx sc) s (fun _ s' => footprint s s').
Proof.
  intros Hi Hw Hsc Hwn Hon. unfold DrainToBackendCtx. do 3 mstep.
  eapply post_mono; [apply post_and; [apply (Flush_works 6 p s seg Hi Hw)|apply (flush_disk s seg Hi)]|].
  intros r s1 [(-> & Hw1 & Hi1 & (u & wd & Ev1) & Hp1 & Hm1 & Hb1) (_ & Eo1 & _)]. cbn beta iota. do 2 mstep.
  rewrite (go_shards _ (vi_geo _ _ Hi1)). mstep.
  assert (footprint s s1) as F1 by (apply footprint_vb; rewrite ?Ev1; done).
  eapply post_mono; [apply (WriteWALToChunk_works HA p s1 (seg ++ Writes (vb s)) sc Hi1); try done; [split; [by rewrite Ev1|done]|by rewrite Ev1..]|].
  intros r s2 Hco. pose proof (footprint_trans _ _ _ F1 (consolidated_footprint _ _ _ _ _ Hco)) as F2.
  destruct r as [[]|e]; cbn beta iota.
  - eapply post_mono; [apply SaveLive_spec|]. intros r s3 ([d Ev3] & Ef3 & Eo3 & _ & _).
    apply post_latch. intros full _. eapply footprint_trans; [exact F2|]. apply (live_footprint _ _ d full); [by rewrite Ev3|done].
  - apply post_latch. intros full _. eapply footprint_trans; [exact F2|]. apply (live_footprint _ _ (bto_dirty (vb s2)) full); [cbn; by destruct (vb s2)|done].
Qed.

(** ** Sweeping *)

Lemma sweep_off s : no_collect (vb s) -> post sweepChunks s (fun _ s' => s' = s).
Proof.
  intros [Hg|Hl]; unfold sweepChunks; do 2 mstep; [rewrite Hg; cbn [negb]; mgo; done|].
  destruct (GCEnabled (vb s)); cbn [negb]; [|mgo; done]. unfold ensureGCSnapshotSafe. mgo. rewrite Hl. mgo. done.
Qed.

#[local] Instance no_collect_dec v : Decision (no_collect v).
Proof. unfold no_collect. apply _. Defined.

Lemma sweep_footprint s : refs_ok (vb s) -> 0 <= gcFloor (vb s) -> post sweepChunks s (fun _ s' => footprint s s').
Proof.
  intros Hr Hf. destruct (decide (no_collect (vb s))) as [Hn|Hn].
  - eapply post_mono; [by apply sweep_off|]. intros r s' ->. apply footprint_refl.
  - eapply post_mono; [by apply sweepChunks_swept|]. intros r s' [[(g & rec & fl & flr & safe & chk & base & lat & E) _ Ho _ _ _] _].
    constructor; rewrite ?E; try done. intros k _ _ Hk. by apply Ho.
Qed.

(** ** Every operation of an admissible run *)

Lemma exec_footprint sc o p s seg :
  vol_inv s seg -> admissible sc s seg o p -> post (exec sc o) s (fun _ s' => footprint s s').
Proof.
  intros Hi Ha. destruct o as [offset len|offset data| | |]; cbn [exec admissible] in *; apply exec_post.
  - destruct Ha as (H1 & H2 & H3 & H4).
    eapply post_mono; [apply (ReadAt_spec s (vi_store _ _ Hi) offset len); try done; apply Hi|].
    intros r s' (Hr & _). by apply reads_footprint.
  - destruct Ha as (H1 & H2 & H3 & H4 & H5 & H6 & H7).
    eapply post_mono; [apply (WriteAt_spec sc 0 offset data s seg Hi H1 H2 H3 H4 H5 H6 H7)|]. by intros r s' (_ & [_ [Hf _]] & _).
  - eapply post_mono; [apply post_and; [apply (Flush_works 0 p s seg Hi Ha)|apply (flush_disk s seg Hi)]|].
    intros r s' [(_ & _ & _ & (u & wd & Ev) & _) (_ & Eo & _)]. apply footprint_vb; rewrite ?Ev; done.
  - destruct Ha as (H1 & H2 & H3 & H4). by apply (drain_footprint p s seg).
  - destruct Ha as (H1 & H2 & H3 & H4). unfold runGCSweep. apply post_bind, post_try.
    eapply post_mono; [apply post_and; [by apply (drain_footprint p s seg)|apply (Drain_works HA p s seg sc Hi H1 H2 H3 H4)]|].
    intros r s1 [F1 [Hdr _]]. destruct r as [[]|e]; cbn beta iota; [|mgo; done].
    destruct (vi_refs _ _ (dr_inv _ _ _ _ Hdr)) as [Hrf Hfl].
    eapply post_mono; [by apply sweep_footprint|]. intros r s2 F2. by eapply footprint_trans.
Qed.
End footprints.

(** ** Volumes side by side *)

Section fleet.
Context {A : AEAD} (HA : AEADLaws A) {S : StateJSON} {P : ProbeJSON}.

(** [u]'s chunks that [v] inherits blocks from are written and stay. *)
Definition leans (v u : VB) : Prop :=
  forall b j l ly, inherited v b = Some (j, l) -> inh_layers v !! j = Some ly -> ly_name ly = VolumeName u ->
    l.1.1 < ObjectNum u /\ no_collect u.

(** The local machine of a volume, with the backend all volumes share. *)
Definition share (objs : gmap string bytes) (s : St) : St := mkSt (vb s) (with_objects (fun _ => objs) (world s)).

(** The open volumes, each with the records of its active log segment. *)
Definition fleet : Type := list (St * list Block).

Record fleet_ok (objs : gmap string bytes) (ms : fleet) : Prop := {
  fo_inv : forall i m, ms !! i = Some m -> vol_inv (share objs m.1) m.2;
  fo_pair : forall i j m n, i <> j -> ms !! i = Some m -> ms !! j = Some n ->
    VolumeName (vb m.1) <> VolumeName (vb n.1) /\ leans (vb m.1) (vb n.1)
}.

(** Operations of any of the volumes, one after the other. *)
Inductive fleet_run (sc : Sched) : gmap string bytes -> fleet -> list (nat * (op * option bytes)) -> gmap string bytes -> fleet -> Prop :=
| flr_nil objs ms : fleet_run sc objs ms [] objs ms
| flr_step objs ms i m o q p r s1 tr objs2 ms2 :
    ms !! i = Some m ->
    admissible sc (set_plan q (share objs m.1)) m.2 o p -> exec sc o (set_plan q (share objs m.1)) = (r, s1) ->
    fleet_run sc (objects (world s1)) (<[i := (s1, log_after o (vb m.1) m.2)]> ms) tr objs2 ms2 ->
    fleet_run sc objs ms ((i, (o, answer r)) :: tr) objs2 ms2.

(** The operations of one volume. *)
Definition trace_of (i : nat) (tr : list (nat * (op * option bytes))) : list (op * option bytes) :=
  (filter (fun x => x.1 = i) tr).*2.

Lemma leans_step v s s' : footprint s s' -> leans v (vb s) -> leans v (vb s').
Proof.
  intros F Hl b j l ly H1 H2 H3. rewrite (fp_name _ _ F) in H3. destruct (Hl b j l ly H1 H2 H3) as [H4 H5].
  split; [pose proof (fp_num _ _ F); lia|by apply (fp_gc _ _ F)].
Qed.

Lemma leans_view v v' u : inh_view v' = inh_view v -> leans v u -> leans v' u.
Proof.
  intros E Hl b j l ly H1 H2. destruct (view_inherited v v' b E) as [E1 E2]. rewrite E1 in H1. rewrite E2 in H2. by eapply Hl.
Qed.

(** A step of another volume changes nothing of this one. *)
Lemma foreign_step objs s seg t t' :
  footprint t t' -> objects (world t) = objs -> VolumeName (vb s) <> VolumeName (vb t) -> leans (vb s) (vb t) ->
  vol_inv (share objs s) seg ->
  vol_inv (share (objects (world t')) s) seg /\
  forall b, vol_block (share (objects (world t')) s) b = vol_block (share objs s) b.
Proof.
  intros F Eo Hn Hl Hi.
  assert (forall i vol, 0 <= i -> vol <> VolumeName (vb t) ->
    objects (world t') !! GetFilePath FileTypeChunk i vol = objs !! GetFilePath FileTypeChunk i vol) as Hk.
  { intros i vol H0 Hv. rewrite (fp_other _ _ F); [by rewrite Eo|..].
    - intros E. symmetry in E. by apply config_not_chunk in E.
    - intros E. symmetry in E. by apply live_not_chunk in E.
    - intros k E. symmetry in E. by apply own_chunk_key in E. }
  apply (objects_frame (share objs s) seg (with_objects (fun _ => objects (world t')) (world s)) Hi); [done|..].
  - intros i H0. by apply Hk.
  - intros b j l ly Hb Hly. destruct (si_inh _ (vi_store _ _ Hi) b j l ly Hb Hly) as (_ & _ & H0 & _).
    destruct (decide (ly_name ly = VolumeName (vb t))) as [E|E]; [|by apply Hk].
    destruct (Hl b j l ly Hb Hly E) as [H1 H2]. rewrite E. etrans; [by apply (fp_low _ _ F)|by rewrite Eo].
Qed.

(** A device starts from its bytes, however they are written down. *)
Lemma dev_run_ext bs d0 d1 tr d2 :
  (forall o, d1 o = d0 o) -> dev_run bs d1 tr d2 -> exists d3, dev_run bs d0 tr d3 /\ forall o, d3 o = d2 o.
Proof.
  intros E Hr. destruct Hr as [d1|d1 d2 d3 o r tr Hs Hr]; [exists d0; by split; [constructor|]|].
  exists d3. split; [|done]. econstructor; [|exact Hr].
  destruct Hs as [off len H|off len H|off data H|off data hi H1 H2 H|r H|r H|r H];
    try (constructor; intros x Hx; by rewrite (H x Hx), ?E).
  - assert (d1 <$> seqZ off len = d0 <$> seqZ off len) as ->
      by (apply list_fmap_ext; intros ? ? _; apply E).
    constructor. intros x Hx. by rewrite (H x Hx), E.
  - eapply dev_write_err; [done..|]. intros x Hx. by rewrite (H x Hx), E.
Qed.

Lemma share_share objs s : objects (world s) = objs -> share objs s = s.
Proof. intros <-. by destruct s as [v []]. Qed.

Lemma fleet_ok_step sc objs ms i m o q p r s1 :
  fleet_ok objs ms -> ms !! i = Some m ->
  admissible sc (set_plan q (share objs m.1)) m.2 o p -> exec sc o (set_plan q (share objs m.1)) = (r, s1) ->
  fleet_ok (objects (world s1)) (<[i := (s1, log_after o (vb m.1) m.2)]> ms) /\
  BlockSize (vb s1) = BlockSize (vb m.1) /\
  dev_step (BlockSize (vb m.1)) (byte_at (share objs m.1)) (byte_at s1) o (answer r) /\
  forall j n, j <> i -> ms !! j = Some n -> forall x, byte_at (share (objects (world s1)) n.1) x = byte_at (share objs n.1) x.
Proof.
  intros [Hi Hpr] Hm Ha Hex. set (s0 := set_plan q (share objs m.1)) in *.
  pose proof (set_plan_inv _ _ q (Hi i m Hm) : vol_inv s0 _) as Hi0.
  pose proof (post_run _ _ _ (exec_step HA sc o p s0 m.2 Hi0 Ha) _ _ Hex) as (Hi1 & Hbs & Hd).
  pose proof (post_run _ _ _ (exec_footprint HA sc o p s0 m.2 Hi0 Ha) _ _ Hex) as F.
  assert (forall j n, j <> i -> ms !! j = Some n ->
    vol_inv (share (objects (world s1)) n.1) n.2 /\
    forall b, vol_block (share (objects (world s1)) n.1) b = vol_block (share objs n.1) b) as Hf.
  { intros j n Hj Hn. destruct (Hpr j i n m Hj Hn Hm) as [Hv Hl]. eapply foreign_step; [exact F|done..|by apply Hi with j]. }
  split; [constructor|split; [done|split; [done|]]].
  - intros j n. rewrite list_lookup_insert_Some. intros [(-> & <- & _)|[Hj Hn]]; [|by apply (Hf j)].
    cbn [fst snd]. by rewrite share_share.
  - intros j k n n' Hjk. rewrite !list_lookup_insert_Some.
    intros [(<- & <- & _)|[Hj Hn]] [(<- & <- & _)|[Hk Hn']]; try done; cbn [fst].
    + destruct (Hpr i k m n' Hjk Hm Hn') as [? Hl]. split; [by rewrite (fp_name _ _ F)|]. by eapply leans_view, Hl; apply F.
    + destruct (Hpr j i n m Hjk Hn Hm) as [? Hl]. split; [by rewrite (fp_name _ _ F)|]. by apply (leans_step _ _ _ F).
    + by apply (Hpr j k).
  - intros j n Hj Hn x. unfold byte_at. cbn [vb share]. by rewrite (proj2 (Hf j n Hj Hn)).
Qed.
End fleet.

(** C5. Volumes that share a backend do not see each other. Take any number of
    open volumes of different names on one backend, each of which may be a
    clone of others, directly or through a chain, as long as the chunks a clone
    inherits blocks from are not collected by their owner (taking a snapshot
    turns its collection off). Then whatever admissible reads, writes, flushes,
    drains and sweeps they make in whatever order (in range, below the
    backpressure mark, flushes and drains on a working local disk), whatever
    the backend's calls do, each volume answers as a device of its own that
    only its own operations change, and the invariants of all of them hold at
    the end. *)
Theorem volumes_isolated {A : AEAD} {S : StateJSON} {P : ProbeJSON} sc objs ms tr objs' ms' :
  AEADLaws A -> fleet_ok objs ms -> fleet_run sc objs ms tr objs' ms' ->
  fleet_ok objs' ms' /\
  forall i m, ms !! i = Some m -> exists m' d, ms' !! i = Some m' /\
    dev_run (BlockSize (vb m.1)) (byte_at (share objs m.1)) (trace_of i tr) d /\
    forall x, d x = byte_at (share objs' m'.1) x.
Proof.
  intros HA Hok Hrun. induction Hrun as [objs ms|objs ms i m o q p r s1 tr objs2 ms2 Hm Ha Hex Hrun IH].
  { split; [done|]. intros i m Hm. exists m, (byte_at (share objs m.1)). split; [done|]. split; [constructor|done]. }
  destruct (fleet_ok_step HA sc objs ms i m o q p r s1 Hok Hm Ha Hex) as (Hok1 & Hbs & Hd & Hf).
  destruct (IH Hok1) as [Hok2 Hdev]. split; [done|]. intros j n Hn. destruct (decide (j = i)) as [->|Hj].
  - rewrite Hm in Hn. injection Hn as <-.
    destruct (Hdev i (s1, log_after o (vb m.1) m.2)) as (m' & d & Hm' & Hdr & He); [apply list_lookup_insert_eq; by eapply lookup_lt_Some|].
    exists m', d. split; [done|]. split; [|done]. cbn [fst] in Hdr. rewrite share_share, Hbs in Hdr by done.
    unfold trace_of. rewrite filter_cons_True by done. by econstructor.
  - destruct (Hdev j n) as (m' & d & Hm' & Hdr & He); [etrans; [by apply list_lookup_insert_ne|done]|].
    destruct (dev_run_ext _ (byte_at (share objs n.1)) _ _ _ (Hf j n Hj Hn) Hdr) as (d3 & Hdr3 & He3).
    exists m', d3. split; [done|]. split; [|intros x; by rewrite He3].
    unfold trace_of. rewrite filter_cons_False by (cbn; congruence). exact Hdr3.
Qed.

(** ** A clone joins *)

Section join.
Context {A : AEAD} {S : StateJSON} {P : ProbeJSON}.

(** No open volume, and no layer of one, has the name. *)
Definition unused (name : string) (ms : fleet) : Prop :=
  forall i m, ms !! i = Some m -> name <> VolumeName (vb m.1) /\ forall ly, ly ∈ inh_layers (vb m.1) -> name <> ly_name ly.

Lemma unused_leans name ms i m u : unused name ms -> ms !! i = Some m -> VolumeName u = name -> leans (vb m.1) u.
Proof.
  intros Hu Hm En b j l ly _ Hly E. exfalso. destruct (Hu i m Hm) as [_ H]. apply (H ly); [by eapply list_elem_of_lookup_2|congruence].
Qed.

(** A clone stands on its source and on what the source stands on. *)
Lemma clone_leans s seg id v2 u :
  vol_inv s seg -> flattenable (vb s) -> map_saveable (vb s) -> clonable (vb s) v2 -> no_collect (vb s) ->
  (VolumeName (vb s) = VolumeName u -> u = vb s) -> leans (vb s) u -> leans (clone_of (vb s) id v2) u.
Proof.
  intros Hi Hf Hv Hc Hg Hn Hl b j l ly. unfold clone_of at 1. rewrite clone_inherited by (done || apply Hc).
  destruct (LookupBlockToObject (blockStride (vb s)) (BlocksToObject (vb s)) b) as [l'|] eqn:El.
  - intros [= <- <-] [= <-] E. cbn [ly_name] in E. rewrite (Hn E). split; [by apply (vi_obj _ _ Hi b l' El)|done].
  - destruct (inherited (vb s) b) as [[j' l']|] eqn:Ei; [|done]. intros [= <- <-] Hly E.
    unfold clone_of in Hly. rewrite clone_inh_layers in Hly. destruct (BaseBlockMap (vb s)) eqn:Eb.
    + by apply (Hl b j' l' ly Ei).
    + rewrite not_clone_inherited in Ei; [done|done|]. by apply (fn_none _ Hf).
Qed.

(** Opening a snapshot of one of the volumes adds a member. *)
Lemma fleet_clone objs ms i s seg id v2 w2 :
  fleet_ok objs ms -> ms !! i = Some (s, seg) -> unused (VolumeName v2) ms ->
  flattenable (vb s) -> map_saveable (vb s) -> clonable (vb s) v2 -> no_collect (vb s) ->
  vol_inv (share objs (mkSt (clone_of (vb s) id v2) w2)) [] ->
  fleet_ok objs (ms ++ [(mkSt (clone_of (vb s) id v2) w2, [])]).
Proof.
  intros [Hi Hp] Hm Hu Hf Hv Hc Hg Hn.
  assert (forall k n, ms !! k = Some n -> leans (clone_of (vb s) id v2) (vb n.1)) as Hl.
  { intros k n Hk. pose proof (Hi i _ Hm) as Hs. cbn [fst snd] in Hs.
    apply (clone_leans (share objs s) seg id v2 (vb n.1) Hs); try done; cbn [vb share].
    - intros E. destruct (decide (i = k)) as [<-|Hik]; [rewrite Hm in Hk; by injection Hk as <-|].
      by destruct (Hp i k _ n Hik Hm Hk) as [? _].
    - destruct (decide (i = k)) as [<-|Hik]; [|by apply (Hp i k _ n Hik Hm Hk)]. rewrite Hm in Hk. injection Hk as <-. cbn [fst].
      intros b j l ly Hb Hly E. by destruct (si_inh _ (vi_store _ _ Hs) b j l ly Hb Hly) as (_ & ? & _). }
  constructor.
  - intros k n. rewrite lookup_app_Some, list_lookup_singleton_Some. intros [Hk|(_ & _ & <-)]; [by apply (Hi k)|done].
  - intros k1 k2 n1 n2 Hk. rewrite !lookup_app_Some, !list_lookup_singleton_Some.
    intros [H1|(L1 & E1 & <-)] [H2|(L2 & E2 & <-)]; cbn [fst vb].
    + by apply (Hp k1 k2).
    + split; [|by eapply (unused_leans _ _ k1)]. apply not_eq_sym, (Hu k1 n1 H1).
    + split; [apply (Hu k2 n2 H2)|by apply (Hl k2)].
    + lia.
Qed.

(** One volume alone. *)
Lemma fleet_single s seg : vol_inv s seg -> fleet_ok (objects (world s)) [(s, seg)].
Proof.
  intros Hi. constructor.
  - intros i m. rewrite list_lookup_singleton_Some. intros [_ <-]. cbn [fst snd]. by rewrite share_share.
  - intros i j m n Hij. rewrite !list_lookup_singleton_Some. lia.
Qed.

(** A source and its clone. *)
Lemma fleet_pair s seg id v2 w2 :
  vol_inv s seg -> flattenable (vb s) -> map_saveable (vb s) -> clonable (vb s) v2 -> no_collect (vb s) ->
  objects w2 = objects (world s) -> vol_inv (mkSt (clone_of (vb s) id v2) w2) [] ->
  fleet_ok (objects (world s)) [(s, seg); (mkSt (clone_of (vb s) id v2) w2, [])].
Proof.
  intros Hi Hf Hv Hc Hg Eo Hi2. apply (fleet_clone _ [(s, seg)] 0 s seg); try done.
  - by apply fleet_single.
  - intros i m. rewrite list_lookup_singleton_Some. intros [_ <-]. split; [apply Hc|apply (cl_layers _ _ Hc)].
  - by rewrite share_share.
Qed.
End join.

#[local] Existing Instance toy_aead.
#[local] Existing Instance toy_state_json.
#[local] Existing Instance toy_probe_json.
#[local] Existing Instance toy_snap_json.

(** The encrypted source of the snapshot "s" and the clone opened on it. *)
Definition duo_objs : gmap string bytes := objects (world src_snapped).
Definition duo_clone : St := mkSt (clone_of (vb src_snapped) "s" cl_vb) (cl_world duo_objs).
Definition duo : fleet := [(src_snapped, []); (duo_clone, [])].

Lemma duo_ok : fleet_ok duo_objs duo.
Proof.
  assert (map_saveable (vb src_snapped)) as Hv by (apply saveable_dec;
    [vm_compute; reflexivity|split; vm_compute; [reflexivity|intuition discriminate]|vm_compute; reflexivity..]).
  destruct (clone_opens [] src_dirty [] serial "s" the_snap src_snapped cl_vb (cl_world duo_objs) 0) as (Hsn & Hf & _ & _ & Hi & _).
  - exact toy_aead_laws.
  - exact toy_snap_json_laws.
  - exact src_dirty_inv.
  - apply works_calm. exact (Forall_nil_2 _).
  - by intros ?.
  - vm_compute. reflexivity.
  - vm_compute. reflexivity.
  - exact src_no_orphans.
  - apply not_clone_flattenable; vm_compute; reflexivity.
  - exact src_snapshots.
  - exact Hv.
  - apply cl_fresh.
  - apply src_clonable.
  - rewrite cl_objects. apply frozen_refl.
  - done.
  - rewrite cl_objects. apply map_Forall_lookup. apply (bool_decide_eq_true_1 _). vm_compute. reflexivity.
  - exact (fleet_pair src_snapped [] "s" cl_vb (cl_world duo_objs) (sn_inv _ _ _ _ _ Hsn) Hf Hv src_clonable (sn_gc _ _ _ _ _ Hsn) (cl_objects _) Hi).
Qed.

(** The source is overwritten and drained; the clone still reads what was snapshotted. *)
Definition duo_data : bytes := replicate 6 Byte.x7a.
Definition duo_do (o : op) (objs : gmap string bytes) (s : St) : result error bytes * St := exec serial o (set_plan [] (share objs s)).
Definition duo_1 : St := (duo_do (WriteOp 2 duo_data) duo_objs src_snapped).2.
Definition duo_2 : St := (duo_do DrainOp (objects (world duo_1)) duo_1).2.
Definition duo_3 : St := (duo_do (ReadOp 2 6) (objects (world duo_2)) duo_clone).2.
Definition duo_4 : St := (duo_do (ReadOp 2 6) (objects (world duo_3)) duo_2).2.
Definition duo_trace : list (nat * (op * option bytes)) :=
  [(0%nat, (WriteOp 2 duo_data, Some [])); (0%nat, (DrainOp, Some [])); (1%nat, (ReadOp 2 6, Some dev_data));
   (0%nat, (ReadOp 2 6, Some duo_data))].

Lemma duo_run_ok : fleet_run serial duo_objs duo duo_trace (objects (world duo_4)) [(duo_4, []); (duo_3, [])].
Proof.
  apply (flr_step serial duo_objs duo 0 (src_snapped, []) (WriteOp 2 duo_data) [] [] (Ok []) duo_1); [exact eq_refl|..].
  { vm_compute. intuition discriminate. }
  { unfold duo_1, duo_do. apply run_eq. vm_compute. reflexivity. }
  apply (flr_step serial _ [(duo_1, []); (duo_clone, [])] 0 (duo_1, []) DrainOp [] [] (Ok []) duo_2); [exact eq_refl|..].
  { split; [apply works_calm; exact (Forall_nil_2 _)|]. split; [by intros ?|]. vm_compute. done. }
  { unfold duo_2, duo_do. apply run_eq. vm_compute. reflexivity. }
  apply (flr_step serial _ [(duo_2, []); (duo_clone, [])] 1 (duo_clone, []) (ReadOp 2 6) [] [] (Ok dev_data) duo_3); [exact eq_refl|..].
  { vm_compute. intuition discriminate. }
  { unfold duo_3, duo_do. apply run_eq. vm_compute. reflexivity. }
  apply (flr_step serial _ [(duo_2, []); (duo_3, [])] 0 (duo_2, []) (ReadOp 2 6) [] [] (Ok duo_data) duo_4); [exact eq_refl|..].
  { vm_compute. intuition discriminate. }
  { unfold duo_4, duo_do. apply run_eq. vm_compute. reflexivity. }
  constructor.
Qed.

Lemma volumes_isolated_witness :
  fleet_run serial duo_objs duo duo_trace (objects (world duo_4)) [(duo_4, []); (duo_3, [])] /\
  fleet_ok (objects (world duo_4)) [(duo_4, []); (duo_3, [])].
Proof.
  split; [exact duo_run_ok|].
  exact (proj1 (volumes_isolated serial duo_objs duo duo_trace _ _ toy_aead_laws duo_ok duo_run_ok)).
Defined.
