(* ===== verification/Replay.v ===== *)
(** * Replaying the log

    [RecoverLocalWALs] uploads the blocks of the local log as chunks of their
    own while nothing is in memory: the commit changes the block map alone, and
    the block store is brought up to date at the end. *)

From S2P Require Import Prelude Words BlockMap Extents BlockStore BlockStoreFacts BlockStoreRace Crypto Paths Volume WAL Chunk ChunkFacts CommitFacts Read Blocks Inherit Content Requests ReadFacts Checkpoint CheckpointFacts SeqNum Frames Engine Snapshot WALFacts VolInv FlushFacts UploadFacts DrainFacts Lifecycle.

(** ** A commit with nothing in memory *)

(** No block in memory, and the persisted locations of [u]. *)
Record idle (stride : Z) (u u' : UnifiedBlockStore) : Prop := {
  id_shards : shards_wf u';
  id_exts : exts_wf stride (persistedExtents u');
  id_mem : forall b, get_entry u' b = None;
  id_read : forall b, readPersisted (persistedExtents u') b = readPersisted (persistedExtents u) b
}.

Lemma idle_trans stride u1 u2 u3 : idle stride u1 u2 -> idle stride u2 u3 -> idle stride u1 u3.
Proof. intros [? ? ? R1] [? ? ? R2]. constructor; try done. intros b. by rewrite R2, R1. Qed.

Lemma mark_idle stride u blocks oid off seqs :
  0 < stride -> idle stride u u -> length blocks = length seqs -> drain_args_ok stride off (zip blocks seqs) ->
  idle stride u (MarkPersistedRange blocks oid off stride seqs u).2.
Proof.
  intros Hst [Hs He Hm _] Hl Ha. destruct (mark_range_parts stride Hst u blocks oid off seqs Hs He Hl Ha) as (W & X & _ & G & R).
  assert (forall b, items_entry oid off stride 0 (range_pass1 u blocks seqs) b = None) as Hn.
  { intros b. destruct (items_entry _ _ _ _ _ b) as [e|] eqn:E; [|done]. apply items_entry_Some in E as [s Hin].
    unfold range_pass1 in Hin. apply elem_of_lookup_zip_with in Hin as (i & b' & s' & Heq & _ & _).
    unfold is_sealed in Heq. rewrite Hm in Heq. discriminate. }
  constructor; [exact W|exact X|..]; intros b; [rewrite G|rewrite R]; by rewrite Hn.
Qed.

Section chunk.
Context (v : VB) (idx n0 f : Z) (l : list Block) (T : list Z).
Abbreviation stride := (blockStride v).
Context (Hst : 0 < stride) (Hu : UseBlockStore v = true) (Hm : map_wf stride (BlocksToObject v))
  (Hid : idle stride (BStore v) (BStore v))
  (Hold : older stride n0 f T (BlocksToObject v)) (Hn0 : n0 <= idx)
  (Hl : forall b, b ∈ l -> 0 <= b_Block b < 2 ^ 64 - 1) (Hnd : NoDup (b_Block <$> l))
  (HT : forall b, b ∈ l -> b_Block b ∈ T) (Hnew : forall b, b ∈ l -> f < b_SeqNum b)
  (Hlen : Z.of_nat (length l) <= MaxUint16) (Hfit : ChunkHeaderSize + Z.of_nat (length l) * stride < 2 ^ 32).

Definition replay_run (pre : list Block) (v' : VB) : Prop :=
  exists m g u, v' = upd_map m g u v /\ relocated v idx pre m /\ idle stride (BStore v) u /\ (refs_ok v -> refs_ok v').

Lemma replay_run_step pre first more post v' :
  l = pre ++ (first :: more) ++ post -> consecutive (b_Block first) (first :: more) -> replay_run pre v' ->
  replay_run (pre ++ first :: more) (commit_run idx v' (Z.of_nat (length pre), (first, more))).
Proof.
  intros Hl' Hc (m & g & u & -> & Hr & Hi & Hrf).
  pose proof (next_fits v l Hst Hl Hlen Hfit pre first more post Hl') as Hf.
  destruct (commit_accepts v idx n0 f l T Hst Hu Hold Hn0 Hnd HT Hnew pre first more post Hl' m g u Hr) as (g' & Eq & Eg').
  destruct Hr as [Hw Hlk]. rewrite Eq. eexists _, _, _. split; [reflexivity|].
  split; [|split; [|intros H0 Hgc; rewrite Eg'; apply (accept_refs v Hst (upd_map m g u v) m g); try done; [by eapply run_wf|intros _; apply (Hrf H0 Hgc)]]].
  - destruct (insert_over_resolves stride (run_lookup idx ChunkHeaderSize stride (Z.of_nat (length pre)) first more) m
      (refcounts (upd_map m g u v)) (map_to_list m).*1 Hst (run_wf stride idx Hst _ first more Hf Hc) Hw) as [W L].
    { intros j [e Hj]. apply list_elem_of_fmap. exists (j, e). by rewrite elem_of_map_to_list. }
    split; [exact W|]. intros b. unfold insertCoalescedLocked. cbn [fst]. rewrite L, Hlk, chunk_loc_app.
    pose proof (run_loc stride idx Hst (Z.of_nat (length pre)) first more Hf Hc b) as Hrl. rewrite Z.add_0_l, <-Hrl.
    destruct (_ && _) eqn:Ec; [|by destruct (chunk_loc stride idx 0 pre b)].
    destruct (chunk_loc stride idx 0 pre b) as [y|] eqn:Ep; [|done]. exfalso.
    symmetry in Hrl. apply chunk_loc_Some in Hrl as (j & x & Hj & <- & _).
    by rewrite (next_fresh v idx l Hnd pre first more post Hl') in Ep by (by eapply list_elem_of_lookup_2).
  - eapply idle_trans; [exact Hi|]. pose proof (run_blocks stride (Z.of_nat (length pre)) first more Hf Hc) as Hb.
    rewrite length_fmap, (run_offset stride idx Hst (Z.of_nat (length pre)) first more Hf), Hb.
    apply mark_idle; [done| |by rewrite !length_fmap|by apply (run_args stride Hst (Z.of_nat (length pre)) first more Hf Hc)].
    destruct Hi. by constructor.
Qed.

Lemma replay_runs pre runs : chain l pre runs -> forall v', replay_run pre v' -> replay_run l (fold_left (commit_run idx) runs v').
Proof.
  induction 1 as [|pre first more runs Hc Hch IH]; intros v' Hup; [done|]. cbn [fold_left]. apply IH.
  apply chain_prefix in Hch as [post Hpost]. eapply (replay_run_step pre first more post); [by rewrite Hpost, <-app_assoc|done..].
Qed.
End chunk.

(** The whole effect of a commit with nothing in memory. *)
Lemma commit_replays v idx n0 f l T :
  0 < blockStride v -> UseBlockStore v = true -> map_wf (blockStride v) (BlocksToObject v) ->
  idle (blockStride v) (BStore v) (BStore v) -> older (blockStride v) n0 f T (BlocksToObject v) -> n0 <= idx ->
  (forall b, b ∈ l -> 0 <= b_Block b < 2 ^ 64 - 1) -> NoDup (b_Block <$> l) ->
  (forall b, b ∈ l -> b_Block b ∈ T) -> (forall b, b ∈ l -> f < b_SeqNum b) ->
  Z.of_nat (length l) <= MaxUint16 -> ChunkHeaderSize + Z.of_nat (length l) * blockStride v < 2 ^ 32 ->
  exists m g u, commit_chunk idx l v = (upd_map m g u (release_pending l v)) <| bto_dirty := true |> /\
    relocated v idx l m /\ idle (blockStride v) (BStore v) u /\ (refs_ok v -> GCEnabled v = true -> rc_exact g m).
Proof.
  intros. unfold commit_chunk.
  destruct (replay_runs (release_pending l v) idx n0 f l T) with (pre := @nil Block) (runs := runs_of l) (v' := release_pending l v)
    as (m & g & u & -> & Hp & Hi & Hr); try done; [by apply runs_of_chain| |by exists m, g, u].
  exists (BlocksToObject v), (gcRefcount v), (BStore v). split; [by destruct v|]. split; [by split|]. by split.
Qed.

(** ** The map as an index of the backend *)

Section index.
Context {A : AEAD} (HA : AEADLaws A).

Abbreviation lookup_block s b := (LookupBlockToObject (blockStride (vb s)) (BlocksToObject (vb s)) b).

(** A volume with nothing in memory whose map locates every block it has. *)
Record indexed (s : St) : Prop := {
  ix_geo : geometry_ok (vb s);
  ix_stride : stride_ok (vb s);
  ix_pos : 0 < blockStride (vb s);
  ix_use : UseBlockStore (vb s) = true;
  ix_inh : inh_wf (vb s) (objects (world s));
  ix_inh_layout : inh_layout (vb s);
  ix_wf : map_wf (blockStride (vb s)) (BlocksToObject (vb s));
  ix_num : 0 <= ObjectNum (vb s);
  ix_obj : forall b l, lookup_block s b = Some l -> 0 <= l.1.1 < ObjectNum (vb s);
  ix_loc : forall b l, lookup_block s b = Some l -> loc_ok s b (entry_of l);
  ix_layout : forall b p q, lookup_block s b = Some p -> lookup_block s (b + 1) = Some q ->
    q.1.1 = p.1.1 -> q.1.2 = p.1.2 + blockStride (vb s);
  ix_idle : idle (blockStride (vb s)) (BStore (vb s)) (BStore (vb s));
  ix_sub : forall b, lookup_block s b = None -> readPersisted (persistedExtents (BStore (vb s))) b = None;
  ix_refs : refs_ok (vb s)
}.

(** The contents of a block according to the map. *)
Definition map_block (s : St) (b : Z) : bytes :=
  match lookup_block s b with
  | Some l => default (zeros (BlockSize (vb s))) (loc_data s b (entry_of l))
  | None => inh_data (vb s) (objects (world s)) b
  end.

(** A write under the key of an object nothing points to. *)
Lemma put_indexed s s1 :
  indexed s -> vb s1 = (vb s) <| ObjectNum := ObjectNum (vb s) + 1 |> ->
  (forall k, k <> chunk_key (vb s) (ObjectNum (vb s)) -> objects (world s1) !! k = objects (world s) !! k) ->
  indexed s1 /\ forall b, map_block s1 b = map_block s b.
Proof.
  intros Hx E Ho. pose proof (ix_num _ Hx) as Hn. destruct s1 as [v1 w1]. cbn [vb world] in *. subst v1.
  assert (forall b l, lookup_block s b = Some l ->
    objects w1 !! chunk_key (vb s) l.1.1 = objects (world s) !! chunk_key (vb s) l.1.1) as Hk.
  { intros b l Hl. apply Ho. pose proof (ix_obj _ Hx b l Hl). intros Heq%chunk_key_inj; lia. }
  assert (others_same (VolumeName (vb s)) (objects (world s)) (objects w1)) as Hoth
    by (apply (others_key _ _ _ (chunk_key (vb s) (ObjectNum (vb s)))); [apply own_chunk_key|done]).
  split.
  - destruct Hx as [[? ? ? ? ? ? ? ? ? ?] ? ? ? Hin ? ? ? Hob Hloc ? ? ? ?].
    constructor; cbn [vb world]; try done.
    + by apply (others_wf (vb s) (objects (world s))).
    + change (0 <= ObjectNum (vb s) + 1). lia.
    + intros b l Hl. change (0 <= l.1.1 < ObjectNum (vb s) + 1). specialize (Hob b l Hl). lia.
    + intros b l Hl. destruct (Hloc b l Hl) as (? & obj & d & Hobj & Hd). split; [done|]. exists obj, d. split; [|done].
      cbn [world vb entry_of be_ObjectID] in *. etrans; [apply (Hk b l Hl)|done].
  - intros b. unfold map_block, loc_data. cbn [vb world].
    change (LookupBlockToObject _ _ b) with (lookup_block s b) at 1. destruct (lookup_block s b) as [l|] eqn:El.
    + cbn [entry_of be_ObjectID]. change (chunk_key _ l.1.1) with (chunk_key (vb s) l.1.1) at 1. by rewrite (Hk b l El).
    + apply (others_data (vb s)); [done|apply Hx].
Qed.

Section commit.
Context (s : St) (idx : Z) (l : list Block) (Hx : indexed s) (Hl : forall x, x ∈ l -> wal_block (BlockSize (vb s)) x)
  (Hsorted : StronglySorted Z.lt (b_Block <$> l))
  (Hobj : objects (world s) !! chunk_key (vb s) idx = Some (ChunkHeader (vb s) ++ List.concat (slot (vb s) <$> l)))
  (Hfresh : forall b x, lookup_block s b = Some x -> x.1.1 < idx) (Hidx : 0 <= idx < ObjectNum (vb s))
  (m : gmap Z BlockLookup) (Hm : relocated (vb s) idx l m)
  (g : gmap Z Z) (Hg : GCEnabled (vb s) = true -> rc_exact g m)
  (u : UnifiedBlockStore) (Hu : idle (blockStride (vb s)) (BStore (vb s)) u) (pbw : list Block) (pb : Z) (d : bool).
Abbreviation s' := (mkSt (drained_vb m g u pbw pb d (ObjectNum (vb s)) (vb s)) (world s)).
Abbreviation L := (chunk_loc (blockStride (vb s)) idx 0 l).

Lemma replay_stored b x : L b = Some x ->
  exists y, y ∈ l /\ b_Block y = b /\ x.1.1 = idx /\ 0 <= x.1.2 /\
    stored_block (vb s) (ChunkHeader (vb s) ++ List.concat (slot (vb s) <$> l)) x.1.2 x.2 b = Some (b_Data y).
Proof.
  intros (j & y & Hj & <- & ->)%chunk_loc_Some. exists y. pose proof (list_elem_of_lookup_2 _ _ _ Hj) as Hy.
  pose proof (ix_pos _ Hx). do 3 (split; [done|]). cbn.
  split; [unfold ChunkHeaderSize; nia|]. apply (stored_slot HA); [apply Hx|apply Hx| |done].
  apply Forall_forall. intros z Hz. apply (Hl z Hz).
Qed.

Lemma replay_lookup b : lookup_block s' b = match L b with Some x => Some x | None => lookup_block s b end.
Proof. apply Hm. Qed.

Lemma replay_indexed : indexed s'.
Proof.
  pose proof replay_lookup as Hk. pose proof replay_stored as Hst. destruct Hm as [Hw _].
  destruct Hx as [[? ? ? Hvb ? ? ? ? ? ?] ? ? ? ? ? ? ? Hob Hloc Hlay ? Hsub ?].
  constructor; cbn [vb world]; try done.
  - intros b x E. rewrite Hk in E. change (0 <= x.1.1 < ObjectNum (vb s)). destruct (L b) as [y|] eqn:El; [|by apply (Hob b)].
    injection E as <-. destruct (Hst b y El) as (_ & _ & _ & -> & _). done.
  - intros b x E. rewrite Hk in E. destruct (L b) as [y|] eqn:El; [|by apply Hloc].
    injection E as <-. destruct (Hst b y El) as (z & Hz & _ & Hid & Ho & Hd). split; [exact Ho|].
    exists (ChunkHeader (vb s) ++ List.concat (slot (vb s) <$> l)), (b_Data z).
    split; [cbn [entry_of be_ObjectID]; rewrite Hid; exact Hobj|]. split; [exact Hd|]. split; [apply (Hl z Hz)|].
    intros He. unfold ChunkHeader. rewrite <-app_assoc, (Hvb He). by rewrite slice_app_l.
  - intros b p q. rewrite !Hk. change (blockStride (drained_vb _ _ _ _ _ _ _ (vb s))) with (blockStride (vb s)).
    destruct (L b) as [x|] eqn:Ex, (L (b + 1)) as [y|] eqn:Ey.
    + intros [= <-] [= <-] _. apply chunk_loc_Some in Ex as (i & bi & Hi' & Hb & ->), Ey as (j & bj & Hj & Hb' & ->).
      assert (j = S i) as ->; [|cbn; lia]. apply (sorted_adjacent (b_Block <$> l) i j b); [done|..];
        rewrite list_lookup_fmap, ?Hi', ?Hj; cbn; by f_equal.
    + intros [= <-] Hq%Hfresh Hid. apply chunk_loc_Some in Ex as (i & bi & _ & _ & ->). cbn in Hid. lia.
    + intros Hq%Hfresh [= <-] Hid. apply chunk_loc_Some in Ey as (i & bi & _ & _ & ->). cbn in Hid. lia.
    + apply Hlay.
  - destruct Hu. by constructor.
  - intros b. rewrite Hk. change (BStore _) with u. rewrite (id_read _ _ _ Hu). destruct (L b); [done|]. apply Hsub.
Qed.

Lemma replay_new b : b ∈ b_Block <$> l -> exists y, y ∈ l /\ b_Block y = b /\ map_block s' b = b_Data y.
Proof.
  intros Hb. destruct (L b) as [x|] eqn:El; [|by apply chunk_loc_None in El].
  destruct (replay_stored b x El) as (y & Hy & Hyb & Hid & _ & Hd). exists y. do 2 (split; [done|]).
  unfold map_block, loc_data. rewrite replay_lookup, El. cbn [vb world entry_of be_ObjectID be_ObjectOffset be_SeqNum]. rewrite Hid.
  change (chunk_key (drained_vb _ _ _ _ _ _ _ (vb s)) idx) with (chunk_key (vb s) idx). rewrite Hobj.
  change (stored_block (drained_vb _ _ _ _ _ _ _ (vb s))) with (stored_block (vb s)). by rewrite Hd.
Qed.

Lemma replay_old b : b ∉ b_Block <$> l -> map_block s' b = map_block s b.
Proof. intros Hb%(chunk_loc_None (blockStride (vb s)) idx l 0). unfold map_block. rewrite replay_lookup, Hb. done. Qed.
End commit.
(** ** One chunk, then all of them *)

(** A recovered record, newer than everything at or below [f]. *)
Record fits (v : VB) (f : Z) (x : Block) : Prop := {
  ft_wal : wal_block (BlockSize v) x;
  ft_range : b_Block x < 2 ^ 64 - 1;
  ft_new : f < b_SeqNum x
}.

(** The blocks of [l] were moved to new chunks, the rest is where it was. *)
Record replayed (s s' : St) (l : list Block) : Prop := {
  re_ix : indexed s';
  re_calm : calm s';
  re_vb : exists m g u pbw pb d n, vb s' = drained_vb m g u pbw pb d n (vb s);
  re_files : files (world s') = files (world s);
  re_num : ObjectNum (vb s) <= ObjectNum (vb s');
  re_other : forall k, (forall i, k <> chunk_key (vb s) i) -> objects (world s') !! k = objects (world s) !! k;
  re_new : forall b, b ∈ b_Block <$> l -> exists y, y ∈ l /\ b_Block y = b /\ map_block s' b = b_Data y;
  re_old : forall b, b ∉ b_Block <$> l -> map_block s' b = map_block s b;
  re_dirty : l <> [] \/ bto_dirty (vb s) = true -> bto_dirty (vb s') = true;
  re_lookup : forall b x, lookup_block s' b = Some x ->
    lookup_block s b = Some x \/ (ObjectNum (vb s) <= x.1.1 /\ b ∈ b_Block <$> l)
}.

Lemma replayed_nil s : indexed s -> calm s -> replayed s s [].
Proof.
  intros. constructor; try done.
  - apply (pr_vb s s), progress_refl.
  - intros b Hb. inversion Hb.
  - naive_solver.
  - by left.
Qed.

Lemma replayed_trans s1 s2 s3 l1 l2 :
  replayed s1 s2 l1 -> replayed s2 s3 l2 -> NoDup (b_Block <$> l1 ++ l2) -> replayed s1 s3 (l1 ++ l2).
Proof.
  intros [_ _ (m & g & u & p & q & d & n & E) F1 N1 O1 W1 K1 D1 L1] [I2 C2 (m' & g' & u' & p' & q' & d' & n' & E') F2 N2 O2 W2 K2 D2 L2] Hnd.
  rewrite fmap_app in Hnd. apply NoDup_app in Hnd as (_ & Hd & _).
  constructor; try done; rewrite ?fmap_app.
  - rewrite E in E'. exists m', g', u', p', q', d', n'. rewrite E'. reflexivity.
  - by rewrite F2.
  - lia.
  - intros k Hk. rewrite O2, O1; [done..|]. intros i. rewrite E. apply Hk.
  - intros b [Hb|Hb]%elem_of_app.
    + destruct (W1 b Hb) as (y & Hy & Hyb & Hd1). exists y. split; [apply elem_of_app; by left|]. split; [done|]. rewrite <-Hd1. apply K2, Hd, Hb.
    + destruct (W2 b Hb) as (y & Hy & H). exists y. split; [apply elem_of_app; by right|done].
  - intros b Hb. rewrite elem_of_app in Hb. rewrite K2, K1; [done|naive_solver..].
  - intros Hne. apply D2. destruct l1; [|right; apply D1; by left]. destruct Hne as [Hne|Hne]; [by left|right; apply D1; by right].
  - intros b x Hx. destruct (L2 b x Hx) as [H2|[H2 H3]]; [|right; split; [lia|apply elem_of_app; by right]].
    destruct (L1 b x H2) as [|[H4 H5]]; [by left|right]. split; [done|apply elem_of_app; by left].
Qed.

Lemma replay_chunk s n0 f j l T :
  indexed s -> calm s -> older (blockStride (vb s)) n0 f T (BlocksToObject (vb s)) -> n0 <= ObjectNum (vb s) ->
  (forall x, x ∈ l -> b_Block x ∈ T /\ fits (vb s) f x) -> StronglySorted Z.lt (b_Block <$> l) ->
  Z.of_nat (length l) <= ObjBlockSize (vb s) / BlockSize (vb s) + 1 -> job_of j l -> ObjectNum (vb s) + 1 < 2 ^ 64 ->
  post (createChunkFile j.1 j.2) s (fun r s' => r = Ok tt /\ replayed s s' l /\ ObjectNum (vb s') = ObjectNum (vb s) + 1).
Proof.
  intros Hx Hc Hold Hn0 Hl Hso Hlen Hj Hnum. pose proof (ix_num _ Hx) as Hpos. pose proof Hj as (_ & Ej & Hne).
  assert (Forall (fun b => blen (b_Data b) = BlockSize (vb s)) l) as Hbl.
  { apply Forall_forall. intros x Hxl. apply (ft_wal _ _ _ (proj2 (Hl x Hxl))). }
  unfold createChunkFile, put_chunk. mgo. cbn zeta. rewrite (u64_small (ObjectNum (vb s) + 1)) by wsolve.
  rewrite (chunk_body_slots (vb s) j l) by done. mgo.
  apply post_backend_Write. cbn [vb world]. intros r s1 Ev Ef Hc1 Ho Hok. destruct (Hc1 Hc) as [Hcalm1 ->]. specialize (Hok eq_refl).
  destruct (put_indexed s s1 Hx Ev Ho) as [Hx1 Hb1]. mgo.
  pose proof (go_blocks _ (ix_geo _ Hx)) as Hgb. pose proof (go_bytes _ (ix_geo _ Hx)) as Hgy. pose proof (ix_pos _ Hx) as Hstp.
  destruct (commit_replays (vb s1) (ObjectNum (vb s)) n0 f (mb_of <$> l) T) as (m & g & u & Ec & Hrl & Hid & Hrf).
  - apply Hx1.
  - apply Hx1.
  - apply Hx1.
  - apply Hx1.
  - by rewrite Ev.
  - done.
  - apply (mb_forall (fun b _ => 0 <= b < 2 ^ 64 - 1)). intros x Hxl. destruct (proj2 (Hl x Hxl)) as [Hw ? _]. destruct Hw. wsolve.
  - rewrite mb_blocks. by apply NoDup_sorted.
  - apply (mb_forall (fun b _ => b ∈ T)). intros x Hxl. apply (Hl x Hxl).
  - apply (mb_forall (fun _ q => f < q)). intros x Hxl. apply (ft_new _ _ _ (proj2 (Hl x Hxl))).
  - rewrite length_fmap. lia.
  - rewrite length_fmap, Ev. change (ChunkHeaderSize + Z.of_nat (length l) * blockStride (vb s) < 2 ^ 32). nia.
  - set (pbw := PendingBackendWrites (release_pending (mb_of <$> l) (vb s1))).
    set (pb := pendingBytes (release_pending (mb_of <$> l) (vb s1))).
    assert (relocated (vb s1) (ObjectNum (vb s)) l m) as Hrl'.
    { destruct Hrl as [? Hk]. split; [done|]. intros b. by rewrite Hk, chunk_loc_mb. }
    assert (commit_chunk (ObjectNum (vb s)) (mb_of <$> l) (vb s1) = drained_vb m g u pbw pb true (ObjectNum (vb s1)) (vb s1)) as Ec'.
    { rewrite Ec. unfold upd_map, drained_vb, release_pending. by destruct (vb s1). }
    rewrite Ej, Ec'. clearbody pbw pb.
    assert (forall x, x ∈ l -> wal_block (BlockSize (vb s1)) x) as Hlw.
    { intros x Hxl. rewrite Ev. apply (ft_wal _ _ _ (proj2 (Hl x Hxl))). }
    assert (objects (world s1) !! chunk_key (vb s1) (ObjectNum (vb s)) = Some (ChunkHeader (vb s1) ++ List.concat (slot (vb s1) <$> l))) as Hobj
      by (rewrite Ev; exact Hok).
    assert (forall b x, lookup_block s1 b = Some x -> x.1.1 < ObjectNum (vb s)) as Hfr.
    { intros b x. rewrite Ev. apply (ix_obj _ Hx). }
    assert (0 <= ObjectNum (vb s) < ObjectNum (vb s1)) as Hidx by (rewrite Ev; change (0 <= ObjectNum (vb s) < ObjectNum (vb s) + 1); lia).
    pose proof (replay_indexed s1 _ l Hx1 Hlw Hso Hobj Hfr Hidx m Hrl' g (Hrf (ix_refs _ Hx1)) u Hid pbw pb true) as Hx2.
    split; [done|]. split; [|change (ObjectNum (vb s1) = ObjectNum (vb s) + 1); rewrite Ev; reflexivity].
    constructor; cbn [vb world]; [exact Hx2|exact Hcalm1|..|intros _; reflexivity|].
    + exists m, g, u, pbw, pb, true, (ObjectNum (vb s) + 1). rewrite Ev. reflexivity.
    + exact Ef.
    + change (ObjectNum (vb s) <= ObjectNum (vb s1)). lia.
    + intros k Hk. apply Ho. exact (Hk (ObjectNum (vb s))).
    + intros b Hb. by apply (replay_new s1 (ObjectNum (vb s)) l Hx1 Hlw Hobj m Hrl').
    + intros b Hb. rewrite <-Hb1. by apply (replay_old s1 (ObjectNum (vb s)) l m Hrl').
    + intros b x. pose proof (replay_lookup s1 (ObjectNum (vb s)) l m Hrl' g u pbw pb true b) as Hk. cbn [vb world] in Hk. rewrite Hk.
      destruct (chunk_loc _ _ 0 l b) as [y|] eqn:E; [|rewrite Ev; by left].
      intros [= <-]. right. apply chunk_loc_Some in E as (i & z & Hz & <- & ->). split; [cbn; lia|].
      apply list_elem_of_fmap. exists z. split; [done|by eapply list_elem_of_lookup_2].
Qed.

Lemma replay_loop n0 f jobs l : splits jobs l -> forall s,
  indexed s -> calm s -> older (blockStride (vb s)) n0 f (b_Block <$> l) (BlocksToObject (vb s)) -> n0 <= ObjectNum (vb s) ->
  (forall x, x ∈ l -> fits (vb s) f x) -> StronglySorted Z.lt (b_Block <$> l) ->
  (forall j, j ∈ jobs -> Z.of_nat (length j.2) <= ObjBlockSize (vb s) / BlockSize (vb s) + 1) ->
  ObjectNum (vb s) + Z.of_nat (length jobs) < 2 ^ 64 ->
  post (mfor jobs (fun j => createChunkFile j.1 j.2)) s (fun r s' => r = Ok tt /\ replayed s s' l).
Proof.
  induction 1 as [|j jobs l ls Hj Hsp IH]; intros s Hx Hc Hold Hn0 Hf Hso Hlen Hnum; cbn [mfor].
  { mgo. split; [done|]. by apply replayed_nil. }
  cbn [length] in Hnum. rewrite fmap_app in Hso, Hold. pose proof (NoDup_sorted _ Hso) as Hnd.
  apply StronglySorted_app in Hso as (_ & Hs1 & Hs2). apply post_bind.
  eapply post_mono; [eapply (replay_chunk s n0 f j l); try done|].
  - intros x Hxl. split; [|apply Hf, elem_of_app; by left]. apply elem_of_app. left. apply list_elem_of_fmap. eauto.
  - specialize (Hlen j ltac:(by left)). destruct Hj as (_ & Ej & _). rewrite Ej, length_fmap in Hlen. exact Hlen.
  - lia.
  - intros r s1 (-> & Hre & En). cbn beta iota. pose proof (re_vb _ _ _ Hre) as (m & g & u & pbw & pb & d & n & E).
    assert (forall b, b ∈ b_Block <$> l -> b ∉ b_Block <$> ls) as Hdj by (by apply NoDup_app in Hnd as (_ & ? & _)).
    eapply post_mono; [apply (IH s1)|].
    + apply Hre.
    + apply Hre.
    + intros b x Hl. assert (lookup_block s1 b = Some x) as Hl' by exact Hl.
      destruct (re_lookup _ _ _ Hre b x Hl') as [Hl0|[Hid Hin]]; [|right; split; [lia|by apply Hdj]].
      destruct (Hold b x Hl0) as [|[? Hni]]; [by left|right]. split; [done|]. intros Hb. apply Hni, elem_of_app. by right.
    + lia.
    + intros x Hxl. destruct (Hf x) as [? ? ?]; [apply elem_of_app; by right|]. rewrite E. by constructor.
    + done.
    + intros j' Hj'. rewrite E. by apply Hlen; right.
    + lia.
    + intros r s2 [-> Hre2]. split; [done|]. eapply replayed_trans; [done..|]. by rewrite fmap_app.
Qed.

(** The records of a log, replayed. *)
Lemma replay_log s n0 f log :
  indexed s -> calm s -> older (blockStride (vb s)) n0 f (b_Block <$> log) (BlocksToObject (vb s)) -> n0 <= ObjectNum (vb s) ->
  (forall x, x ∈ log -> fits (vb s) f x) -> ObjectNum (vb s) + Z.of_nat (length log) < 2 ^ 64 ->
  post (mfor (chunk_jobs (vb s) log) (fun j => createChunkFile j.1 j.2)) s
    (fun r s' => r = Ok tt /\ replayed s s' (sortedBlocks log)).
Proof.
  intros Hx Hc Hold Hn0 Hf Hnum. pose proof (proj1 (ix_stride _ Hx)) as Hbs. pose proof (go_obj _ (ix_geo _ Hx)) as Hob.
  assert (Forall (fun b => blen (b_Data b) = BlockSize (vb s)) log) as Hbl.
  { apply Forall_forall. intros x Hxl. apply (ft_wal _ _ _ (Hf x Hxl)). }
  pose proof (chunk_jobs_splits (vb s) log Hbs Hbl) as Hsp. destruct (chunk_jobs_pieces (vb s) log Hbs Hob Hbl) as (Hj & _).
  pose proof (chunk_jobs_count (vb s) log Hbs Hbl) as Hcnt.
  apply (replay_loop n0 f _ _ Hsp); try done.
  - intros b x Hl. destruct (Hold b x Hl) as [|[? Hni]]; [by left|right]. split; [done|].
    intros (y & -> & [Hy _]%sortedBlocks_in)%list_elem_of_fmap. apply Hni, list_elem_of_fmap. eauto.
  - intros x [Hxl _]%sortedBlocks_in. by apply Hf.
  - apply sortedBlocks_sorted.
  - intros j Hjj. destruct (Hj j Hjj) as [p [(_ & -> & _) _ _ Hlen]]. by rewrite length_fmap.
  - lia.
Qed.

(** ** Bringing the block store up to date *)

Definition synced (s : St) : St :=
  mkSt ((vb s) <| BStore := sync_store (BlocksToObject (vb s)) (blockStride (vb s)) (BStore (vb s)) |>) (world s).

Lemma synced_store s : indexed s -> store_inv (synced s) /\ forall b, vol_block (synced s) b = map_block s b.
Proof.
  intros [_ H1 H2 H3 H4 H5 Hw _ _ Hloc Hlay [Is Ie Im _] Hsub _].
  destruct (sync_store_spec (blockStride (vb s)) H2 _ (BStore (vb s)) Hw Ie) as (W & Sh & R).
  assert (forall b, readPersisted (persistedExtents (BStore (vb (synced s)))) b = entry_of <$> lookup_block s b) as Hr.
  { intros b. cbn [vb synced]. change (BStore (_ <| BStore := ?u |>)) with u. rewrite R.
    destruct (LookupBlockToObject _ _ b) eqn:E; [done|]. by apply Hsub. }
  assert (forall b, get_entry (BStore (vb (synced s))) b = None) as Hg.
  { intros b. unfold get_entry. cbn [vb synced]. change (BStore (_ <| BStore := ?u |>)) with u. rewrite Sh. apply Im. }
  split.
  - constructor; try done.
    + change (shards_wf (sync_store (BlocksToObject (vb s)) (blockStride (vb s)) (BStore (vb s)))). constructor; rewrite Sh; apply Is.
    + intros b e. by rewrite Hg.
    + intros b pe. rewrite Hr. destruct (lookup_block s b) as [l|] eqn:E; [|done]. intros [= <-]. exact (Hloc b l E).
    + intros b p q. rewrite !Hr. destruct (lookup_block s b) as [l|] eqn:E, (lookup_block s (b + 1)) as [l'|] eqn:E'; try done.
      intros [= <-] [= <-]. by apply (Hlay b).
  - intros b. unfold vol_block, map_block. rewrite Hg, Hr. by destruct (lookup_block s b).
Qed.
End index.
