(* ===== verification/Recovery.v ===== *)
(** * Recovering the local log

    [RecoverLocalWALs] after a crash: what was flushed since the volume was
    opened is back, and the case in which it is not. *)

From S2P Require Import Prelude Words BlockMap Extents BlockStore BlockStoreFacts BlockStoreRace Crypto Paths Volume WAL Chunk ChunkFacts CommitFacts Read Blocks Inherit Content Requests ReadFacts Checkpoint CheckpointFacts SeqNum Frames Footprint Engine GC Snapshot WALFacts VolInv WriteFacts FlushFacts UploadFacts DrainFacts GCFacts Refinement Lifecycle.
From S2P Require Import SeqNumFacts Instances RoundTrips Device Restart Clones Isolation Replay.

Section calls.
Context {A : AEAD} {S : StateJSON}.

Lemma SaveState_calm s :
  calm s -> (EncryptionEnabled (vb s) = true -> VolumeUUID (vb s) <> zeros 4) ->
  post SaveStateCtx s (fun r s' => r = Ok tt /\ calm s').
Proof.
  intros Hc Hu. apply post_save. unfold save_alone. do 2 mstep.
  assert (forall m : M unit, post m s (fun r s' => r = Ok tt /\ s' = s) ->
    post (run m; do v <- get; saveStateWithHighWater (seqNumHighWater v)) s (fun r s' => r = Ok tt /\ calm s')) as Hm.
  { intros m Hm. apply post_bind. eapply post_mono; [exact Hm|]. intros r s' [-> ->]. cbn beta iota. do 2 mstep.
    unfold saveStateWithHighWater, persistStateLocal, pushStateToBackend. do 4 mstep.
    apply post_bind. eapply post_mono; [by apply writeFileAtomic_calm|]. intros r s1 [-> Hc1]. cbn beta iota. do 1 mstep.
    apply post_backend_Write. intros r s2 _ _ H _ _. by destruct (H Hc1). }
  apply Hm. destruct (EncryptionEnabled (vb s)); [|mgo; done].
  unfold mintVolumeUUID. mgo. rewrite bool_decide_false by auto. cbn [negb]. mgo. done.
Qed.

(** The numbered checkpoint: one file, one object, one counter. *)
Lemma SaveBlockState_calm s : calm s ->
  post SaveBlockStateCtx s (fun r s' => r = Ok tt /\ calm s' /\
    (exists x, vb s' = (vb s) <| BlockToObjectWAL := x |>) /\
    (forall k, k <> numbered_path (vb s) -> files (world s') !! k = files (world s) !! k) /\
    (forall k, k <> GetFilePath FileTypeBlockCheckpoint (WallNum (BlockToObjectWAL (vb s))) (VolumeName (vb s)) ->
      objects (world s') !! k = objects (world s) !! k)).
Proof.
  intros Hc. unfold SaveBlockStateCtx. do 2 mstep. apply post_bind. unfold get_now, post at 1. cbn [fst snd]. cgo. cbn [snd]. cgo.
  apply post_backend_Write. intros r s3 Ev Ef Hk Ho _.
  destruct (Hk H4) as [Hc3 ->]. mgo. destruct H as (E0 & F0 & O0). cbn [vb world files objects with_files] in *.
  rewrite H1, E0 in *. rewrite H2, O0 in *. rewrite H3, F0 in *.
  split; [done|]. split; [exact Hc3|]. split; [rewrite Ev; by eexists|]. split; [|exact Ho].
  intros k Hne. by rewrite Ef, !lookup_insert_ne by done.
Qed.

Lemma remove_files_calm names : forall s, calm s ->
  post (remove_files names) s (fun r s' => r = Ok tt /\ calm s' /\ vb s' = vb s /\ objects (world s') = objects (world s) /\
    (forall k, k ∈ names -> files (world s') !! k = None) /\
    (forall k, k ∉ names -> files (world s') !! k = files (world s) !! k)).
Proof.
  induction names as [|n names IH]; intros s Hc; unfold remove_files; cbn [mfor].
  { mgo. do 4 (split; [done|]). split; [intros k Hk; inversion Hk|done]. }
  cgo. destruct H as (E0 & F0 & O0).
  match goal with |- post _ ?x _ => assert (calm x) as Hc1 by assumption end.
  eapply post_mono; [exact (IH _ Hc1)|]. intros r s1 (-> & Hc2 & E1 & O1 & F1 & K1). cbn [vb world files objects with_files] in *.
  split; [done|]. split; [done|]. split; [congruence|]. split; [congruence|]. split.
  - intros k [-> |Hk]%elem_of_cons; [|by apply F1]. destruct (decide (n ∈ names)) as [|Hn]; [by apply F1|].
    by rewrite (K1 n Hn), lookup_delete_eq.
  - intros k [Hk1 Hk2]%not_elem_of_cons. by rewrite (K1 k Hk2), lookup_delete_ne, F0 by done.
Qed.

(** The log files, in the order in which they are replayed. *)
Definition wal_names (v : VB) (w : World) : list string :=
  merge_sort (fun a b : string => String.leb a b = true)
    (filter (fun k => String.prefix (wal_dir v) k = true) (map_to_list (files w)).*1).

Lemma wal_files_calm s : calm s ->
  post wal_files s (fun r s' => r = Ok (wal_names (vb s) (world s)) /\ quiet s s' /\ calm s').
Proof.
  intros Hc. unfold wal_files. do 2 mstep. apply post_bind, post_next_calm. intros o s' Hq Ho. destruct (Ho Hc) as [-> Hc'].
  unfold post. cbn [fst snd]. split; [|done]. destruct Hq as (_ & F & _). unfold wal_names. by rewrite F.
Qed.

(** A readable log file and its records. *)
Definition holds_records (v : VB) (w : World) (name : string) (bs : list Block) : Prop :=
  exists raw, files w !! name = Some raw /\ recovered_blocks v raw = Ok bs.

Lemma max_seq_bound bs : (forall x, x ∈ bs -> b_SeqNum x <= max_seq bs) /\ 0 <= max_seq bs.
Proof.
  unfold max_seq. induction bs as [|b bs [IH IH0]] using rev_ind; [split; [intros x Hx; inversion Hx|done]|].
  rewrite fold_left_app. cbn [fold_left]. split; [|lia].
  intros x [Hx| ->%list_elem_of_singleton]%elem_of_app; [specialize (IH x Hx)|]; lia.
Qed.

Lemma recover_files_calm names segs : forall s, calm s -> Forall2 (holds_records (vb s) (world s)) names segs ->
  post (recover_files names) s (fun r s' => quiet s s' /\ calm s' /\
    exists mx, r = Ok (List.concat segs, mx, names) /\ forall x, x ∈ List.concat segs -> b_SeqNum x <= mx).
Proof.
  intros s Hc Hf. revert s Hc Hf. revert segs. induction names as [|n names IH]; intros segs s Hc Hf; inversion Hf as [|? bs ? segs' (raw & Hr & Hb) Hf']; subst; cbn [recover_files].
  { mgo. split; [done|]. split; [done|]. exists 0. split; [done|]. intros x Hx. inversion Hx. }
  apply post_bind, post_try. unfold readWALFileForRecovery, os_ReadFile. do 3 mstep.
  apply post_bind, post_next_calm. intros o s1 (E1 & F1 & O1) Ho. destruct (Ho Hc) as [-> Hc1]. do 2 mstep. rewrite F1, Hr. do 3 mstep. rewrite Hb. do 2 mstep.
  eapply post_mono; [apply (IH segs' s1 Hc1)|].
  { eapply Forall2_impl; [exact Hf'|]. intros n' bs' (raw' & H1 & H2). exists raw'. by rewrite F1, E1. }
  intros r s2 (Hq & Hc2 & mx & -> & Hmx). cbn beta iota. mgo. split; [by eapply (quiet_trans _ s1)|]. split; [done|].
  exists (Z.max (max_seq bs) mx). split; [done|]. cbn [List.concat]. intros x [Hx|Hx]%elem_of_app.
  - pose proof (proj1 (max_seq_bound bs) x Hx). lia.
  - specialize (Hmx x Hx). lia.
Qed.
End calls.

Section recover.
Context {A : AEAD} (HA : AEADLaws A) {S : StateJSON}.

Lemma indexed_quiet s s' : quiet s s' -> indexed s -> indexed s' /\ forall b, map_block s' b = map_block s b.
Proof.
  destruct s as [v w], s' as [v' w']. intros (E & F & O). cbn [vb world] in *. subst v'. intros [? ? ? ? ? ? ? ? ? Hl ? ? ? ?].
  unfold map_block, loc_data. cbn [vb world]. rewrite O. split; [|done]. constructor; cbn [vb world]; try done; [by rewrite O|].
  intros b l Hb. destruct (Hl b l Hb) as (? & obj & d & H). split; [done|]. exists obj, d. cbn [vb world] in *. by rewrite O.
Qed.

(** The first block of an extent. *)
Lemma lookup_start stride m k bl : 0 < stride -> map_wf stride m -> m !! k = Some bl ->
  LookupBlockToObject stride m (bl_StartBlock bl) = Some (loc_at stride bl 0).
Proof.
  intros Hs Hm Hk. apply lookup_locates; [done|done|]. exists k, bl. split; [done|].
  destruct (mw_wf _ _ Hm _ _ Hk). unfold covers. split; [lia|]. f_equal. lia.
Qed.

(** The map's chunks are below ObjectNum already. *)
Lemma reconcile_id s : indexed s -> ObjectNum (vb s) < 2 ^ 64 -> reconcile_object_num (vb s) = vb s.
Proof.
  intros Hx Hn. unfold reconcile_object_num. destruct (max_object _) as [mx|] eqn:E; [|done].
  apply max_object_in in E as (e & He & <-). apply list_elem_of_fmap in He as ([k e'] & -> & Hk%elem_of_map_to_list). cbn [snd] in *.
  assert (0 <= bl_ObjectID e' < ObjectNum (vb s)) as [H0 H1].
  { apply (ix_obj s Hx (bl_StartBlock e') (loc_at (blockStride (vb s)) e' 0)). apply (lookup_start _ _ k); [apply Hx|apply Hx|done]. }
  rewrite u64_small by wsolve. destruct (Z.leb_spec (bl_ObjectID e' + 1) (ObjectNum (vb s))); [|lia]. by destruct (vb s).
Qed.

(** Fields and objects the contents do not depend on. *)
Lemma store_other s s' x d :
  store_inv s -> vb s' = (vb s) <| BlockToObjectWAL := x |> <| bto_dirty := d |> ->
  (forall i vol, objects (world s') !! GetFilePath FileTypeChunk i vol = objects (world s) !! GetFilePath FileTypeChunk i vol) ->
  store_inv s' /\ forall b, vol_block s' b = vol_block s b.
Proof.
  destruct s' as [v' w']. cbn [vb world]. intros Hs -> Ho.
  assert (others_same (VolumeName (vb s)) (objects (world s)) (objects w')) as Hoth by (intros i vol _ _; apply Ho).
  split.
  - destruct Hs as [? ? ? ? ? ? ? ? Hl ?]. constructor; cbn [vb world]; try done; [by apply (others_wf (vb s) (objects (world s)))|].
    intros b pe Hr. destruct (Hl b pe Hr) as (? & obj & dd & Hd). split; [done|]. exists obj, dd. cbn [world vb]. unfold chunk_key.
    by rewrite Ho.
  - intros b. unfold vol_block, loc_data. cbn [vb world]. change (BStore _) with (BStore (vb s)). destruct (get_entry _ b); [done|].
    destruct (readPersisted _ b); [unfold chunk_key; cbn [world vb]; by rewrite Ho|]. apply (others_data (vb s)); [done|apply Hs].
Qed.

(** What a successful recovery leaves. *)
Record recovered (s s' : St) (names : list string) (log : list Block) : Prop := {
  rc_store : store_inv s';
  rc_size : BlockSize (vb s') = BlockSize (vb s);
  rc_new : forall b, b ∈ b_Block <$> log -> exists y, newest_in log y /\ b_Block y = b /\ vol_block s' b = b_Data y;
  rc_old : forall b, b ∉ b_Block <$> log -> vol_block s' b = map_block s b;
  rc_seq : forall x, x ∈ log -> b_SeqNum x <= SeqNum (vb s');
  rc_files : forall k, k ∈ names -> files (world s') !! k = None;
  rc_live : exists t, objects (world s') !! live_key (vb s') = Some (serialize_map (vb s') t)
}.

(** The end of a recovery: the new map is in use and saved, the log is removed. *)
Lemma Recover_tail s mx names :
  indexed s -> calm s -> bto_dirty (vb s) = true -> 0 <= WallNum (BlockToObjectWAL (vb s)) ->
  post (run modify (fun v => v <| SeqNum := if mx <=? SeqNum v then SeqNum v else mx |>);
        run SaveStateCtx; run SaveBlockStateCtx; run try SaveLiveCheckpointCtx; remove_files names) (synced s)
    (fun r s' => r = Ok tt /\ store_inv s' /\ BlockSize (vb s') = BlockSize (vb s) /\
      (forall b, vol_block s' b = map_block s b) /\ mx <= SeqNum (vb s') /\
      (forall k, k ∈ names -> files (world s') !! k = None) /\
      exists t, objects (world s') !! live_key (vb s') = Some (serialize_map (vb s') t)).
Proof.
  intros Hx Hc Hd Hwn. destruct (synced_store s Hx) as [Hst Hb]. do 2 mstep. set (q := if mx <=? _ then _ else _).
  assert (mx <= q) as Hq by (unfold q; destruct (Z.leb_spec mx (SeqNum (vb (synced s)))); lia). clearbody q.
  set (s1 := mkSt _ _). assert (state_frame (synced s) s1) as F1.
  { replace s1 with (mkSt (counters q (nextStateSeqNum (vb s)) (seqNumHighWater (vb s)) (vb (synced s))) (world s)); [by apply state_frame_counters|].
    unfold s1, synced. by destruct (vb s). }
  assert (calm s1) as Hc1 by exact Hc. assert (SeqNum (vb s1) = q) as Eq1 by done. clearbody s1.
  destruct (sf_vb _ _ F1) as (a1 & b1 & c1 & Ev1).
  assert (EncryptionEnabled (vb s1) = true -> VolumeUUID (vb s1) <> zeros 4) as Hu by (rewrite Ev1; apply (go_uuid _ (ix_geo _ Hx))).
  apply post_bind. eapply post_mono; [apply post_and; [by apply SaveState_frame|by apply SaveState_calm]|].
  intros r s2 [[F2 Eq2] [-> Hc2]]. cbn beta iota. pose proof (state_frame_trans _ _ _ F1 F2) as F.
  pose proof (frame_store _ _ F Hst) as Hst2. pose proof (fun b => frame_block _ _ b Hst F) as Hb2.
  destruct (sf_vb _ _ F) as (a & b0 & c & Ev2). rewrite Eq1 in Eq2. clear F F1 F2 Eq1 Ev1 Hc1 Hu.
  apply post_bind. eapply post_mono; [by apply SaveBlockState_calm|]. intros r s3 (-> & Hc3 & [x Ev3] & Ef3 & Eo3). cbn beta iota.
  assert (vb s3 = (vb s2) <| BlockToObjectWAL := x |> <| bto_dirty := bto_dirty (vb s2) |>) as Ev3' by (rewrite Ev3; by destruct (vb s2)).
  destruct (store_other s2 s3 x _ Hst2 Ev3') as [Hst3 Hb3].
  { intros i vol. apply Eo3. intros E. symmetry in E. revert E. apply checkpoint_not_chunk. rewrite Ev2. exact Hwn. }
  apply post_bind, post_try. eapply post_mono; [apply SaveLive_spec|]. intros r s4 ([d Ev4] & Ef4 & Eo4 & Hc4 & Hl4).
  destruct (Hc4 Hc3) as [Hcalm4 ->]. cbn beta iota.
  assert (vb s4 = (vb s3) <| BlockToObjectWAL := BlockToObjectWAL (vb s3) |> <| bto_dirty := d |>) as Ev4' by (rewrite Ev4; by destruct (vb s3)).
  destruct (store_other s3 s4 _ d Hst3 Ev4') as [Hst4 Hb4].
  { intros i vol. apply Eo4. intros E. symmetry in E. by apply live_not_chunk in E. }
  destruct (Hl4 eq_refl) as [t Ht]; [rewrite Ev3, Ev2; exact Hd|].
  eapply post_mono; [by apply remove_files_calm|]. intros r s5 (-> & _ & Ev5 & Eo5 & Hgone & _).
  split; [done|].
  destruct (store_other s4 s5 (BlockToObjectWAL (vb s4)) (bto_dirty (vb s4)) Hst4) as [Hst5 Hb5];
    [rewrite Ev5; by destruct (vb s4)|by intros; rewrite Eo5|].
  split; [done|]. split; [rewrite Ev5, Ev4, Ev3, Ev2; done|]. split; [intros b; by rewrite Hb5, Hb4, Hb3, Hb2, Hb|].
  split; [rewrite Ev5, Ev4, Ev3; change (mx <= SeqNum (vb s2)); lia|]. split; [done|].
  exists t. rewrite Eo5, Ev5, Ev4. exact Ht.
Qed.

Lemma Recover_spec s segs n0 f :
  let names := wal_names (vb s) (world s) in let log := List.concat segs in
  indexed s -> calm s -> Forall2 (holds_records (vb s) (world s)) names segs -> log <> [] ->
  older (blockStride (vb s)) n0 f (b_Block <$> log) (BlocksToObject (vb s)) -> n0 <= ObjectNum (vb s) ->
  (forall x, x ∈ log -> fits (vb s) f x) -> ObjectNum (vb s) + Z.of_nat (length log) < 2 ^ 64 ->
  0 <= WallNum (BlockToObjectWAL (vb s)) ->
  post RecoverLocalWALs s (fun r s' => r = Ok tt /\ recovered s s' names log).
Proof.
  intros names log Hx Hc Hh Hne Hold Hn0 Hf Hnum Hwn. unfold RecoverLocalWALs. apply post_bind.
  eapply post_mono; [by apply wal_files_calm|]. intros r s1 (-> & Hq1 & Hc1). cbn beta iota. fold names.
  destruct names as [|n0' names'] eqn:En; [inversion Hh; subst segs; by destruct Hne|]. rewrite <-En in *.
  assert (Forall2 (holds_records (vb s1) (world s1)) names segs) as Hh1.
  { eapply Forall2_impl; [exact Hh|]. destruct Hq1 as (E & F & _). intros k bs (raw & H1 & H2). exists raw. by rewrite E, F. }
  apply post_bind. eapply post_mono; [by apply (recover_files_calm names segs s1)|]. intros r s2 (Hq2 & Hc2 & mx & -> & Hmx). cbn beta iota.
  fold log in Hmx |- *. destruct log as [|x0 log'] eqn:El; [done|]. rewrite <-El in *. clear x0 log' El n0' names' En.
  pose proof (quiet_trans _ _ _ Hq1 Hq2) as Hq. destruct (indexed_quiet s s2 Hq Hx) as [Hx2 Hb2]. destruct Hq as (Ev2 & Ef2 & Eo2).
  do 2 mstep. rewrite reconcile_id by (try done; rewrite Ev2; lia).
  replace (mkSt (vb s2) (world s2)) with s2 by (by destruct s2). do 2 mstep. rewrite <-Ev2 in Hold, Hn0, Hf, Hnum.
  apply post_bind. eapply post_mono; [by apply (replay_log HA s2 n0 f log)|]. intros r s3 [-> Hre]. cbn beta iota. do 2 mstep.
  rewrite (ix_use _ (re_ix _ _ _ Hre)). destruct (re_vb _ _ _ Hre) as (m & g & u & pbw & pb & d & n & E3).
  eapply post_mono; [apply (Recover_tail s3 mx names)|].
  - apply Hre.
  - apply Hre.
  - apply (re_dirty _ _ _ Hre). left. intros E. destruct log as [|x log'] eqn:El; [done|].
    pose proof (sortedBlocks_covers (x :: log') x ltac:(by left)) as Hin. rewrite E in Hin. inversion Hin.
  - rewrite E3. change (0 <= WallNum (BlockToObjectWAL (vb s2))). by rewrite Ev2.
  - intros r s4 (-> & Hst & Hbs & Hb & Hsq & Hgone & Hlive). split; [done|]. constructor; try done.
    + rewrite Hbs, E3. change (BlockSize (vb s2) = BlockSize (vb s)). by rewrite Ev2.
    + intros b Hin. rewrite Hb. destruct (re_new _ _ _ Hre b) as (y & Hy & Hyb & Hd).
      { apply list_elem_of_fmap in Hin as (z & -> & Hz). by apply sortedBlocks_covers. }
      exists y. split; [by apply sortedBlocks_in|done].
    + intros b Hin. rewrite Hb, (re_old _ _ _ Hre), Hb2; [done|].
      intros (y & -> & [Hy _]%sortedBlocks_in)%list_elem_of_fmap. apply Hin, list_elem_of_fmap. eauto.
    + intros x Hxl. specialize (Hmx x Hxl). lia.
Qed.

(** ** The instance that takes over *)

(** The same volume on the same machine, with an empty block store. *)
Record reopened (v v2 : VB) : Prop := {
  ro_succ : successor v v2;
  ro_geo : geometry_ok v2;
  ro_stride : stride_ok v2;
  ro_log : WALMagic (vb_WAL v2) = WALMagic (vb_WAL v);
  ro_dir : BaseDir v2 = BaseDir v;
  ro_nums : 0 <= ObjectNum v2 /\ 0 <= WallNum (BlockToObjectWAL v2)
}.

Lemma parse_object_num recs v N :
  (forall r, r ∈ recs -> 0 <= bl_ObjectID r < N) -> N < 2 ^ 64 -> 0 <= ObjectNum v ->
  0 <= ObjectNum (parse_into recs v) <= Z.max (ObjectNum v) N.
Proof.
  intros Hr HN H0. unfold parse_into.
  change (0 <= match max_object recs with
               | Some maxID => if u64 (maxID + 1) <=? ObjectNum v then ObjectNum v else u64 (maxID + 1)
               | None => ObjectNum v end <= Z.max (ObjectNum v) N).
  destruct (max_object recs) as [mx|] eqn:E; [|lia]. apply max_object_in in E as (r & Hin & <-). specialize (Hr r Hin).
  rewrite u64_small by wsolve. destruct (Z.leb_spec (bl_ObjectID r + 1) (ObjectNum v)); lia.
Qed.

(** Loading the live checkpoint. *)
Lemma load_indexed s seg v2 w2 t :
  vol_inv s seg -> map_saveable (vb s) -> objects (world s) !! live_key (vb s) = Some (serialize_map (vb s) t) ->
  reopened (vb s) v2 -> objects w2 = objects (world s) -> plan w2 = [] -> ObjectNum (vb s) < 2 ^ 64 ->
  exists v3, LoadLiveCheckpointCtx (mkSt v2 w2) = (Ok tt, mkSt v3 w2) /\ indexed (mkSt v3 w2) /\
    (forall b, LookupBlockToObject (blockStride v3) (BlocksToObject v3) b
             = LookupBlockToObject (blockStride (vb s)) (BlocksToObject (vb s)) b) /\
    (forall b, map_block (mkSt v3 w2) b = map_block s b) /\ ObjectNum v3 <= Z.max (ObjectNum v2) (ObjectNum (vb s)) /\
    (exists m g u n, v3 = v2 <| BlocksToObject := m |> <| gcRefcount := g |> <| BStore := u |> <| ObjectNum := n |>).
Proof.
  intros Hi Hms Hlive [[Hsf Hbs Henc Huu Hh Hu Hst Hvw] Hgeo Hstr Hlog Hdir [Hn0 Hw0]] Ho Hp HN.
  rewrite <-Ho in Hlive. destruct (load_saved _ v2 w2 t Hms Hsf Hp Hlive) as (v3 & Hrun & Hv3).
  pose proof (vi_store _ _ Hi) as [_ Hpos _ Hin Hinl _ _ _ Hloc Hlay].
  assert (forall b, readPersisted (persistedExtents (BStore (vb s))) b
    = entry_of <$> LookupBlockToObject (blockStride (vb s)) (BlocksToObject (vb s)) b) as Hag by apply Hi.
  destruct (parse_into_recs _ Hms (v2 <| gcRefcount := if GCEnabled v2 then ∅ else gcRefcount v2 |>))
      as (Hw3 & Hlk & Hrc & Hid & B); [by destruct Hsf|]. rewrite <-Hv3 in *.
  change (persistedExtents (BStore (v2 <| gcRefcount := _ |>))) with (persistedExtents (BStore v2)) in B.
  change (shards (BStore (v2 <| gcRefcount := _ |>))) with (shards (BStore v2)) in B.
  rewrite Hst in B. destruct B as (He3 & Sh & R); [done|apply exts_wf_empty|].
  assert (exists m g u n, v3 = v2 <| BlocksToObject := m |> <| gcRefcount := g |> <| BStore := u |> <| ObjectNum := n |>) as (m & g & u & n & E3)
    by (rewrite Hv3; by eexists _, _, _, _).
  assert (blockStride v3 = blockStride (vb s)) as Est by (rewrite E3; apply (sf_stride _ _ Hsf)).
  assert (VolumeName v3 = VolumeName (vb s)) as Enm by (rewrite E3; apply (sf_name _ _ Hsf)).
  assert (inh_view v3 = inh_view (vb s)) as Evw by (rewrite E3; exact Hvw).
  assert (forall obj off q b, stored_block v3 obj off q b = stored_block (vb s) obj off q b) as Hsb.
  { intros obj off q b. unfold stored_block. rewrite Est. replace (EncryptionEnabled v3) with (EncryptionEnabled (vb s)) by (by rewrite E3).
    replace (VolumeUUID v3) with (VolumeUUID (vb s)) by (by rewrite E3). by replace (volumeNameHash v3) with (volumeNameHash (vb s)) by (by rewrite E3). }
  assert (BlockSize v3 = BlockSize (vb s)) as Ebs by (by rewrite E3).
  assert (0 <= ObjectNum v3 <= Z.max (ObjectNum v2) (ObjectNum (vb s))) as [Hnum0 Hnum].
  { rewrite Hv3. match goal with |- 0 <= ObjectNum (parse_into ?recs ?x) <= _ => refine (parse_object_num recs x (ObjectNum (vb s)) _ HN Hn0) end.
    intros r (k & bl & Hk & Hc & ->)%(expand_all_elem _ Hpos _ _ _ (vi_map _ _ Hi) (order_elem (vb s))).
    apply (vi_obj _ _ Hi (bl_StartBlock bl) (loc_at (blockStride (vb s)) bl 0)). by apply (lookup_start _ _ k); [|apply Hi|]. }
  exists v3. split; [|split; [|split; [|split; [|split; [done|by exists m, g, u, n]]]]].
  - exact Hrun.
  - constructor; cbn [vb world]; rewrite ?Est; try done.
    + rewrite E3. destruct Hgeo. by constructor.
    + rewrite E3. exact Hstr.
    + by rewrite E3.
    + rewrite Ho. by apply (view_wf (vb s)).
    + by apply (view_layout (vb s)).
    + intros b l. rewrite Hlk. intros Hl. split; [apply (vi_obj _ _ Hi b l Hl)|].
      apply lookup_locates in Hl as (k & bl & Hk & _ & ->); [|done|apply Hi]. by apply (Hid k).
    + intros b l. rewrite Hlk. intros Hl. destruct (Hloc b (entry_of l)) as (H0 & obj & d & Hobj & Hd & Hsz & Hm); [by rewrite Hag, Hl|].
      split; [done|]. exists obj, d. unfold chunk_key. cbn [vb world]. rewrite Enm, Ho, Hsb, Ebs. do 3 (split; [done|]).
      replace (EncryptionEnabled v3) with (EncryptionEnabled (vb s)) by (by rewrite E3). done.
    + intros b p q. rewrite !Hlk. intros H1 H2. apply (Hlay b (entry_of p) (entry_of q)); [by rewrite Hag, H1|by rewrite Hag, H2].
    + constructor; try done.
      * constructor; rewrite Sh; apply (new_wf (BlockSize v2)).
      * intros b. unfold get_entry. rewrite Sh. apply (get_entry_new (BlockSize v2)).
    + intros b. rewrite Hlk, R. intros ->. unfold readPersisted, findPersistedExtentLocked. cbn. by rewrite lookup_empty, map_to_list_empty.
    + intros Hg. apply Hrc. rewrite E3 in Hg. exact Hg.
  - intros b. by rewrite Est.
  - intros b. unfold map_block. cbn [vb world]. rewrite Est, Hlk, Ebs, Ho, (view_data _ _ _ b Evw).
    destruct (LookupBlockToObject _ _ b) as [l|]; [|done]. unfold loc_data, chunk_key. cbn [vb world]. rewrite Enm, Ho.
    f_equal. destruct (objects (world s) !! GetFilePath _ (be_ObjectID (entry_of l)) _); [apply Hsb|done].
Qed.
End recover.

(** ** A volume that has not drained since it was opened *)

Lemma prefix_app (a x y : string) : String.prefix (a +:+ x) (a +:+ y) = String.prefix x y.
Proof.
  induction a as [|c a IH]; [done|].
  change ((if Ascii.ascii_dec c c then String.prefix (a +:+ x) (a +:+ y) else false) = String.prefix x y).
  destruct (Ascii.ascii_dec c c); [apply IH|done].
Qed.

Lemma append_assoc (a b c : string) : ((a +:+ b) +:+ c = a +:+ b +:+ c)%string.
Proof.
  induction a as [|x a IH]; [done|]. change (String x ((a +:+ b) +:+ c) = String x (a +:+ b +:+ c))%string. by rewrite IH.
Qed.

(** The directory of the log: every segment is in it, the state is not. *)
Lemma wal_in_dir v n : wal_BaseDir (vb_WAL v) = BaseDir v -> String.prefix (wal_dir v) (wal_path v n) = true.
Proof.
  intros E. unfold wal_dir, local_dir, wal_path. cbn [GetFilePath]. rewrite E, !append_assoc.
  change ("/" +:+ "wal/chunks/")%string with "/wal/chunks/"%string.
  change ("/wal/chunks/wal." +:+ ?x)%string with ("/wal/chunks/" +:+ ("wal." +:+ x))%string. rewrite !prefix_app.
  reflexivity.
Qed.

Section dir.
Context {A : AEAD} {S : StateJSON}.

Lemma config_not_in_dir v : String.prefix (wal_dir v) (config_path v) = false /\
  String.prefix (wal_dir v) (config_path v +:+ ".tmp")%string = false.
Proof.
  unfold wal_dir, local_dir, config_path. cbn [GetFilePath]. rewrite !append_assoc, !prefix_app. done.
Qed.

(** The live checkpoint is the block map, and the directory of the log holds
    the active segment alone. *)
Record unsaved (s : St) (seg : list Block) : Prop := {
  un_inv : vol_inv s seg;
  un_mem : no_orphans (vb s) seg;
  un_map : map_saveable (vb s);
  un_live : exists t, objects (world s) !! live_key (vb s) = Some (serialize_map (vb s) t);
  un_log : forall k, is_Some (files (world s) !! k) -> String.prefix (wal_dir (vb s)) k = true ->
    k = wal_path (vb s) (WallNum (vb_WAL (vb s)))
}.

(** What [log_view] determines. *)
Lemma view_paths v v' n : log_view v' = log_view v ->
  wal_dir v' = wal_dir v /\ wal_path v' n = wal_path v n /\ WallNum (vb_WAL v') = WallNum (vb_WAL v) /\ live_key v' = live_key v /\
  (forall t, serialize_map v' t = serialize_map v t) /\ (map_saveable v -> map_saveable v').
Proof.
  unfold log_view. intros [= E1 E2 E3 E4 E5 E6 E7 E8 E9 E10 E11 E12].
  unfold wal_dir, local_dir, wal_path, live_key, GetVolume, serialize_map, BlockToObjectWALHeader. rewrite E1, E2, E3, E4, E5, E7, E8, E9.
  do 5 (split; [done|]). intros [? [? ?] ? ? ? ?]. constructor; unfold magic_ok; by rewrite ?E1, ?E7, ?E8, ?E9.
Qed.

Lemma unsaved_appended s s' seg : unsaved s seg -> vol_inv s' seg -> appended s s' -> unsaved s' seg.
Proof.
  intros [Hi Hno Hms [t Ht] Hlog] Hi' [V M W F O].
  destruct (view_paths _ _ (WallNum (vb_WAL (vb s))) V) as (Ed & Ep & En & El & Es & Hs).
  constructor; [done| |by apply Hs| |].
  - intros b e He. destruct (M b) as [Hb|Hb]; [by rewrite He| |rewrite fmap_app; apply elem_of_app; by right].
    destruct (get_entry (BStore (vb s)) b) as [e'|] eqn:E; [|done]. apply Hno in E. rewrite fmap_app in *.
    apply elem_of_app in E as [E|(x & -> & Hx)%list_elem_of_fmap]; apply elem_of_app; [by left|right]. apply list_elem_of_fmap. eauto.
  - exists t. rewrite El, Es, O; [done|]. apply live_not_config.
  - intros k Hk Hpre. rewrite Ed in Hpre. rewrite En, Ep. apply Hlog; [|done]. destruct (config_not_in_dir (vb s)) as [H1 H2].
    rewrite <-F; [done|..]; intros ->; congruence.
Qed.

Lemma unsaved_flush s seg p :
  unsaved s seg -> works (2 * length (Writes (vb s)) + 0) p s ->
  post Flush s (fun r s' => unsaved s' (seg ++ Writes (vb s)) /\ Writes (vb s') = []).
Proof.
  intros [Hi Hno Hms [t Ht] Hlog] Hw.
  eapply post_mono; [apply post_and; [apply (Flush_works 0 p s seg Hi Hw)|apply (flush_disk s seg Hi)]|].
  intros r s' [(_ & _ & Hi' & (u & wd & Ev) & _ & Hm & _) (_ & Eo & Ef)]. split; [|by rewrite Ev].
  assert (log_view (vb s') = log_view (vb s)) as V by (by rewrite Ev).
  destruct (view_paths _ _ (WallNum (vb_WAL (vb s))) V) as (Ed & Ep & En & El & Es & Hs).
  constructor; [done| |by apply Hs| |].
  - intros b e He. replace (Writes (vb s')) with (@nil Block) by (by rewrite Ev). rewrite app_nil_r.
    destruct (get_entry (BStore (vb s)) b) as [e'|] eqn:E; [by apply (Hno b e')|]. by rewrite (Hm b E) in He.
  - exists t. by rewrite El, Es, Eo.
  - intros k Hk Hpre. rewrite Ed in Hpre. rewrite En, Ep.
    destruct (decide (k = wal_path (vb s) (WallNum (vb_WAL (vb s))))) as [|Hne]; [done|]. apply Hlog; [by rewrite <-Ef|done].
Qed.

(** ** Reads, writes and flushes *)

Definition undrained (o : op) : bool := match o with DrainOp | SweepOp => false | _ => true end.

Lemma unsaved_plan s seg q : unsaved s seg -> unsaved (set_plan q s) seg.
Proof. intros []. constructor; try done. by apply set_plan_inv. Qed.

Context {P : ProbeJSON}.

Lemma unsaved_exec sc o p s seg :
  unsaved s seg -> admissible sc s seg o p -> undrained o = true ->
  post (exec sc o) s (fun _ s' => unsaved s' (log_after o (vb s) seg) /\ (o = FlushOp -> Writes (vb s') = [])).
Proof.
  intros Hun Ha Hu. pose proof (un_inv _ _ Hun) as Hi.
  destruct o as [offset len|offset data| | |]; cbn [exec admissible log_after] in *; try done; apply exec_post.
  - destruct Ha as (H1 & H2 & H3 & H4).
    eapply post_mono; [apply (ReadAt_spec s (vi_store _ _ Hi) offset len); try done; apply Hi|].
    intros r s' (Hr & _). split; [|done].
    apply (unsaved_appended s); [done|by eapply reads_inv|by apply reads_trail].
  - destruct Ha as (H1 & H2 & H3 & H4 & H5 & H6 & H7).
    eapply post_mono; [apply (WriteAt_spec sc 0 offset data s seg Hi H1 H2 H3 H4 H5 H6 H7)|].
    intros r s' (Hi' & [_ [_ Hap]] & _). split; [by apply (unsaved_appended s)|done].
  - eapply post_mono; [by apply (unsaved_flush s seg p)|]. by intros r s' [H1 H2].
Qed.

(** A run without a drain. *)
Lemma unsaved_run sc s seg tr s' seg' :
  vol_run sc s seg tr s' seg' -> Forall (fun x => undrained x.1 = true) tr -> unsaved s seg -> unsaved s' seg'.
Proof.
  induction 1 as [s seg|s seg o q p r s1 tr s2 seg2 Ha He _ IH]; [done|]. intros [Ho Htr]%Forall_cons Hun. apply IH; [done|].
  by apply (post_run _ _ _ (unsaved_exec sc o p (set_plan q s) seg (unsaved_plan s seg q Hun) Ha Ho)) in He as [? _].
Qed.
End dir.

(** ** Crash and recovery *)

(** What a crash leaves: the backend, and the local files with, at most, a
    piece of one more record at the end of the active segment. *)
Record crashed {A : AEAD} (s : St) (w2 : World) : Prop := {
  cr_objects : objects w2 = objects (world s);
  cr_calm : plan w2 = [];
  cr_files : let name := wal_path (vb s) (WallNum (vb_WAL (vb s))) in
    exists torn, blen torn < record_size (vb s) /\
      files w2 = <[name := default [] (files (world s) !! name) ++ torn]> (files (world s))
}.

Lemma wal_names_one v w name :
  (forall k, is_Some (files w !! k) -> String.prefix (wal_dir v) k = true -> k = name) ->
  is_Some (files w !! name) -> String.prefix (wal_dir v) name = true -> wal_names v w = [name].
Proof.
  intros Ha [raw Hr] Hp. unfold wal_names.
  set (l := filter _ _). assert (NoDup l) as Hnd by (apply NoDup_filter, NoDup_fst_map_to_list).
  assert (forall k, k ∈ l <-> k = name) as Hl.
  { intros k. unfold l. rewrite list_elem_of_filter. split.
    - intros [H1 ([k' d] & -> & H2%elem_of_map_to_list)%list_elem_of_fmap]. by apply Ha.
    - intros ->. split; [done|]. apply list_elem_of_fmap. exists (name, raw). split; [done|]. by apply elem_of_map_to_list. }
  assert (l = [name]) as ->; [|done].
  destruct l as [|x l]; [by destruct (not_elem_of_nil name); apply Hl|].
  assert (x = name) as -> by (apply Hl; by left). f_equal. destruct l as [|y l]; [done|]. assert (y = name) as -> by (apply Hl; right; by left).
  inversion Hnd as [|? ? Hn]. destruct Hn. by left.
Qed.

(** Reading a segment depends on the format and the identity alone. *)
Lemma reopened_records {A : AEAD} v v' raw :
  WALMagic (vb_WAL v) = WALMagic (vb_WAL v') -> Version v = Version v' -> BlockSize v = BlockSize v' ->
  EncryptionEnabled v = EncryptionEnabled v' -> VolumeUUID v = VolumeUUID v' -> volumeNameHash v = volumeNameHash v' ->
  recovered_blocks v raw = recovered_blocks v' raw.
Proof.
  intros E1 E2 E3 E4 E5 E6. unfold recovered_blocks, check_magic. rewrite E1, E2, E3, E4.
  assert (record_size v = record_size v') as -> by (unfold record_size; by rewrite E3, E4).
  assert (forall fuel body, recover_sealed fuel v (record_size v') body = recover_sealed fuel v' (record_size v') body) as Hs.
  { induction fuel as [|fuel IH]; intros body; [done|]. cbn [recover_sealed]. unfold decode_sealed. rewrite E5, E6.
    by rewrite IH. }
  by rewrite Hs.
Qed.

Section crash.
Context {A : AEAD} (HA : AEADLaws A) {S : StateJSON}.

(** With an empty buffer, the log holds what is in memory. *)
Lemma logged_block s seg y : vol_inv s seg -> Writes (vb s) = [] -> newest_in seg y -> vol_block s (b_Block y) = b_Data y.
Proof.
  intros Hi Hw [Hy Hnew]. pose proof (vi_bufs _ _ Hi) as Hb. rewrite Hw, Forall_forall in Hb.
  destruct (bu_entry _ _ (Hb y Hy)) as (e & He & Hle & Hd). unfold vol_block. rewrite He. apply Hd.
  destruct (vi_newest _ _ Hi y e) as (z & Hz & Ez & Eq); [by rewrite Hw|done|]. rewrite Hw in Hz.
  specialize (Hnew z Hz Ez). lia.
Qed.

Lemma unlogged_block s seg b : unsaved s seg -> Writes (vb s) = [] -> b ∉ b_Block <$> seg -> vol_block s b = map_block s b.
Proof.
  intros Hun Hw Hb. unfold vol_block, map_block. destruct (get_entry (BStore (vb s)) b) as [e|] eqn:E.
  { apply (un_mem _ _ Hun) in E. by rewrite Hw, app_nil_r in E. }
  rewrite (vi_agree _ _ (un_inv _ _ Hun)). by destruct (LookupBlockToObject _ _ b).
Qed.

Lemma crash_recovers s seg v2 w2 :
  unsaved s seg -> Writes (vb s) = [] -> seg <> [] -> reopened (vb s) v2 -> crashed s w2 ->
  Z.max (ObjectNum v2) (ObjectNum (vb s)) + Z.of_nat (length seg) < 2 ^ 64 ->
  exists v3 s4, LoadLiveCheckpointCtx (mkSt v2 w2) = (Ok tt, mkSt v3 w2) /\ RecoverLocalWALs (mkSt v3 w2) = (Ok tt, s4) /\
    store_inv s4 /\ same_bytes (byte_at s) (byte_at s4) /\ (forall x, x ∈ seg -> b_SeqNum x <= SeqNum (vb s4)) /\
    files (world s4) !! wal_path (vb s) (WallNum (vb_WAL (vb s))) = None /\
    exists t, objects (world s4) !! live_key (vb s4) = Some (serialize_map (vb s4) t).
Proof.
  intros Hun Hw Hne Hro [Ho Hp (torn & Htorn & Hf)] Hnum. destruct Hun as [Hi Hno Hms [t Ht] Hlog] eqn:EU. clear EU.
  set (name := wal_path (vb s) (WallNum (vb_WAL (vb s)))) in *.
  destruct (load_indexed s seg v2 w2 t Hi Hms Ht Hro Ho Hp ltac:(lia)) as (v3 & Hload & Hix & Hlk & Hmb & Hn3 & (m & g & u & n & E3)).
  destruct Hro as [[[Enm _ Ever _] Ebs Eenc Euu Eh _ _ _] _ _ Emag Edir [_ Hw0]].
  assert (wal_dir v3 = wal_dir (vb s)) as Ed.
  { unfold wal_dir, local_dir, GetVolume. assert (BaseDir v3 = BaseDir (vb s)) as -> by (by rewrite E3).
    by assert (VolumeName v3 = VolumeName (vb s)) as -> by (by rewrite E3). }
  assert (wal_names v3 w2 = [name]) as En.
  { apply wal_names_one; rewrite ?Ed.
    - intros k. rewrite Hf. destruct (decide (k = name)) as [->|Hk]; [done|]. rewrite lookup_insert_ne by done. apply Hlog.
    - rewrite Hf, lookup_insert_eq. done.
    - apply wal_in_dir, (go_dir _ (vi_geo _ _ Hi)). }
  destruct (vi_seg _ _ Hi) as [t0 Hseg]. fold name in Hseg.
  pose proof (vi_bufs _ _ Hi) as Hb. rewrite Hw in Hb. cbn [app] in Hb.
  assert (Forall2 (holds_records v3 w2) [name] [seg]) as Hh.
  { constructor; [|constructor]. exists (WALHeader (vb s) t0 ++ records (vb s) seg ++ torn).
    split; [rewrite Hf, Hseg, lookup_insert_eq; cbn [default from_option id]; by rewrite <-app_assoc|].
    rewrite (reopened_records v3 (vb s)); [|rewrite E3; by repeat split..].
    apply recovered_segment; [done|apply Hi|apply Hi| |done]. eapply Forall_impl; [exact Hb|]. by intros x []. }
  destruct (vi_floor _ _ Hi) as (f & _ & Hfl & Hgt). rewrite Hw, Forall_forall in Hgt. rewrite Forall_forall in Hb.
  assert (BlockSize v3 = BlockSize (vb s)) as Ebs3 by (by rewrite E3).
  pose proof (Recover_spec HA (mkSt v3 w2) [seg] (ObjectNum v3) f) as Hrec. cbn [vb world] in Hrec.
  rewrite En in Hrec. cbn [List.concat] in Hrec. rewrite app_nil_r in Hrec. unfold post in Hrec.
  destruct (RecoverLocalWALs (mkSt v3 w2)) as [r s4] eqn:Er. cbn [fst snd] in Hrec.
  destruct Hrec as [-> [Hst Hbs Hnew Hold Hsq Hgone Hlive]]; try done.
  { unfold calm. cbn [world]. by rewrite Hp. }
  { intros b l Hl. left. split; [by apply (ix_obj _ Hix b l)|]. rewrite Hlk in Hl. by apply (Hfl b). }
  { intros x Hx. destruct (Hb x Hx). constructor; [by rewrite Ebs3|done|by apply Hgt]. }
  { lia. }
  { by rewrite E3. }
  exists v3, s4. do 3 (split; [done|]). split; [|split; [done|split; [|done]]]; [|apply Hgone; by left].
  apply bytes_of_blocks; [by etrans|]. intros b. destruct (decide (b ∈ b_Block <$> seg)) as [Hin|Hin].
  - destruct (Hnew b Hin) as (y & Hy & <- & ->). symmetry. by apply (logged_block s seg).
  - rewrite Hold, Hmb by done. symmetry. by apply (unlogged_block s seg).
Qed.
End crash.

(** The operation a run ends with. *)
Lemma vol_run_snoc {A : AEAD} {S : StateJSON} {P : ProbeJSON} sc s seg tr o r s' seg' :
  vol_run sc s seg (tr ++ [(o, r)]) s' seg' ->
  exists s1 seg1 q p x, vol_run sc s seg tr s1 seg1 /\ admissible sc (set_plan q s1) seg1 o p /\
    exec sc o (set_plan q s1) = (x, s') /\ r = answer x /\ seg' = log_after o (vb s1) seg1.
Proof.
  revert s seg. induction tr as [|[o1 r1] tr IH]; intros s seg H; cbn [app] in H; inversion H as [|? ? ? q p x s1 ? ? ? Ha He Hr]; subst.
  - inversion Hr; subst. exists s, seg, q, p, x. split; [constructor|done].
  - destruct (IH _ _ Hr) as (s2 & seg2 & q2 & p2 & x2 & H2 & Hrest). exists s2, seg2, q2, p2, x2. split; [by econstructor|exact Hrest].
Qed.

(** C3. Crash recovery. A volume opened from its live checkpoint serves any
    reads, writes and flushes (reads and writes may fail, a flush finds the
    local disk working); it is killed after a flush, possibly in the middle of
    one more append to the log, before anything was drained. An instance that
    loads the live checkpoint and runs [RecoverLocalWALs] on that disk, every
    call working, succeeds and holds exactly the bytes the old one served; its
    sequence numbers continue past every logged one, the recovered log is gone
    and the live checkpoint is the new block map, so that a second crash loses
    nothing either. *)
Theorem flushed_writes_survive_crash {A : AEAD} {S : StateJSON} {P : ProbeJSON} sc s0 seg0 tr r s seg v2 w2 :
  AEADLaws A -> unsaved s0 seg0 -> vol_run sc s0 seg0 (tr ++ [(FlushOp, r)]) s seg ->
  Forall (fun x => undrained x.1 = true) tr -> seg <> [] -> reopened (vb s) v2 -> crashed s w2 ->
  Z.max (ObjectNum v2) (ObjectNum (vb s)) + Z.of_nat (length seg) < 2 ^ 64 ->
  exists v3 s4, LoadLiveCheckpointCtx (mkSt v2 w2) = (Ok tt, mkSt v3 w2) /\ RecoverLocalWALs (mkSt v3 w2) = (Ok tt, s4) /\
    store_inv s4 /\ same_bytes (byte_at s) (byte_at s4) /\ (forall x, x ∈ seg -> b_SeqNum x <= SeqNum (vb s4)) /\
    files (world s4) !! wal_path (vb s) (WallNum (vb_WAL (vb s))) = None /\
    exists t, objects (world s4) !! live_key (vb s4) = Some (serialize_map (vb s4) t).
Proof.
  intros HA Hun Hrun Hops Hne Hro Hcr Hnum. apply vol_run_snoc in Hrun as (s1 & seg1 & q & p & x & Hr1 & Ha & He & _ & ->).
  pose proof (unsaved_plan _ _ q (unsaved_run _ _ _ _ _ _ Hr1 Hops Hun)) as Hun1.
  apply (post_run _ _ _ (unsaved_exec sc FlushOp p _ seg1 Hun1 Ha eq_refl)) in He as [Hs Hw].
  by apply (crash_recovers HA s _ v2 w2 Hs (Hw eq_refl)).
Qed.

#[local] Existing Instance toy_aead.
#[local] Existing Instance toy_state_json.
#[local] Existing Instance toy_probe_json.

(** ** A volume that was just opened from its checkpoint *)

Definition saved_st : St := mkSt dev_vb ((world dev_st) <| objects := {[ live_key dev_vb := serialize_map dev_vb 0 ]} |>).

Lemma saved_fresh : fresh_volume dev_vb (world saved_st) 0.
Proof. destruct dev_fresh. by constructor. Qed.

Lemma saved_unsaved : unsaved saved_st [].
Proof.
  constructor.
  - exact (proj1 (fresh_inv _ _ _ saved_fresh)).
  - intros b e. change (BStore (vb saved_st)) with (NewUnifiedBlockStore 4). by rewrite get_entry_new.
  - apply saveable_dec; [vm_compute; reflexivity|split; vm_compute; [reflexivity|intuition discriminate]|vm_compute; reflexivity..].
  - exists 0. apply lookup_singleton_eq.
  - intros k Hk _. change (files (world saved_st)) with (files (world dev_st)) in Hk. destruct (decide (k = wal_path dev_vb 0)) as [|Hne]; [done|].
    change (files (world dev_st)) with ({[ wal_path dev_vb 0 := WALHeader dev_vb 0 ]} : gmap string bytes) in Hk.
    rewrite lookup_singleton_ne in Hk by done. by destruct Hk.
Qed.

Definition saved_1 : St := (exec serial (WriteOp 2 dev_data) (set_plan [] saved_st)).2.
Definition saved_2 : St := (exec serial FlushOp (set_plan [] saved_1)).2.
Definition torn_world (s : St) (torn : bytes) : World :=
  let name := wal_path (vb s) (WallNum (vb_WAL (vb s))) in
  (world s) <| plan := [] |> <| files := <[name := default [] (files (world s) !! name) ++ torn]> (files (world s)) |>.

Lemma torn_crashed s torn : blen torn < record_size (vb s) -> crashed s (torn_world s torn).
Proof. destruct s as [v []]. intros Ht. constructor; [reflexivity..|]. exists torn. by split. Qed.

Lemma saved_run_ok : vol_run serial saved_st [] ([(WriteOp 2 dev_data, Some [])] ++ [(FlushOp, Some [])]) saved_2 (Writes (vb saved_1)).
Proof.
  apply (vr_step serial saved_st [] (WriteOp 2 dev_data) [] [] (Ok []) saved_1).
  { vm_compute. intuition discriminate. }
  { unfold saved_1. apply (run_eq (exec serial (WriteOp 2 dev_data))). vm_compute. reflexivity. }
  apply (vr_step serial saved_1 [] FlushOp [] [] (Ok []) saved_2).
  { apply works_calm. exact (Forall_nil_2 _). }
  { unfold saved_2. apply (run_eq (exec serial FlushOp)). vm_compute. reflexivity. }
  constructor.
Qed.

Lemma dev_vb_reopened v : successor v dev_vb -> WALMagic (vb_WAL v) = lit "VBWE" -> BaseDir v = "d"%string -> reopened v dev_vb.
Proof. intros Hs Hm Hd. constructor; try done; apply dev_fresh. Qed.

(** Three bytes of one more record are in the log. *)
Lemma flushed_writes_survive_crash_witness :
  let w2 := torn_world saved_2 [Byte.x01; Byte.x02; Byte.x03] in
  exists v3 s4, LoadLiveCheckpointCtx (mkSt dev_vb w2) = (Ok tt, mkSt v3 w2) /\ RecoverLocalWALs (mkSt v3 w2) = (Ok tt, s4) /\
    store_inv s4 /\ same_bytes (byte_at saved_2) (byte_at s4) /\ (forall x, x ∈ Writes (vb saved_1) -> b_SeqNum x <= SeqNum (vb s4)) /\
    files (world s4) !! wal_path (vb saved_2) (WallNum (vb_WAL (vb saved_2))) = None /\
    exists t, objects (world s4) !! live_key (vb s4) = Some (serialize_map (vb s4) t).
Proof.
  apply (flushed_writes_survive_crash serial saved_st [] [(WriteOp 2 dev_data, Some [])] (Some []) saved_2 (Writes (vb saved_1))
           dev_vb (torn_world saved_2 [Byte.x01; Byte.x02; Byte.x03])).
  - exact toy_aead_laws.
  - exact saved_unsaved.
  - exact saved_run_ok.
  - by repeat constructor.
  - vm_compute. discriminate.
  - apply dev_vb_reopened; [constructor; [constructor|..]|..]; vm_compute; reflexivity.
  - apply torn_crashed. vm_compute. reflexivity.
  - vm_compute. reflexivity.
Defined.

(** ** A log that was drained in part *)

Definition old_data : bytes := replicate 8 Byte.x01.
Definition new_data : bytes := replicate 4 Byte.x02.
Definition part_1 : St := (exec serial (WriteOp 0 old_data) (set_plan [] dev_st)).2.
Definition part_2 : St := (exec serial DrainOp (set_plan [] part_1)).2.
Definition part_3 : St := (exec serial (WriteOp 4 new_data) (set_plan [] part_2)).2.
Definition part_4 : St := (exec serial FlushOp (set_plan [] part_3)).2.
Definition part_trace : list (op * option bytes) :=
  [(WriteOp 0 old_data, Some []); (DrainOp, Some []); (WriteOp 4 new_data, Some []); (FlushOp, Some [])].

Lemma part_run_ok : vol_run serial dev_st [] part_trace part_4 (Writes (vb part_3)).
Proof.
  apply (vr_step serial dev_st [] (WriteOp 0 old_data) [] [] (Ok []) part_1).
  { vm_compute. intuition discriminate. }
  { unfold part_1. apply (run_eq (exec serial (WriteOp 0 old_data))). vm_compute. reflexivity. }
  apply (vr_step serial part_1 [] DrainOp [] [] (Ok []) part_2).
  { split; [apply works_calm; exact (Forall_nil_2 _)|]. split; [by intros ?|]. vm_compute. done. }
  { unfold part_2. apply (run_eq (exec serial DrainOp)). vm_compute. reflexivity. }
  apply (vr_step serial part_2 [] (WriteOp 4 new_data) [] [] (Ok []) part_3).
  { vm_compute. intuition discriminate. }
  { unfold part_3. apply (run_eq (exec serial (WriteOp 4 new_data))). vm_compute. reflexivity. }
  apply (vr_step serial part_3 [] FlushOp [] [] (Ok []) part_4).
  { apply works_calm. exact (Forall_nil_2 _). }
  { unfold part_4. apply (run_eq (exec serial FlushOp)). vm_compute. reflexivity. }
  constructor.
Qed.

(** C37. Recovery can drop a flushed write. On an encrypted volume blocks 0 and
    1 are written and drained, then block 1 is overwritten and flushed, every
    call acknowledged and working; the process dies. The log segment that was
    drained is still on the disk, so recovery groups block 0 from it with the
    newer block 1, and the stale-drain guard of [createChunkFile], which
    compares the SeqNum of the first block of the run alone, rejects both.
    [RecoverLocalWALs] reports success, removes the log, and the volume reads
    the overwritten bytes. *)
Theorem recovery_drops_flushed_write :
  exists s seg s3 s4, vol_run serial dev_st [] part_trace s seg /\ reopened (vb s) dev_vb /\ crashed s (torn_world s []) /\
    LoadLiveCheckpointCtx (mkSt dev_vb (torn_world s [])) = (Ok tt, s3) /\ RecoverLocalWALs s3 = (Ok tt, s4) /\
    byte_at s <$> seqZ 4 4 = new_data /\ byte_at s4 <$> seqZ 4 4 = replicate 4 Byte.x01 /\
    wal_names (vb s3) (world s3) <> [] /\ wal_names (vb s4) (world s4) = [].
Proof.
  set (s3 := (LoadLiveCheckpointCtx (mkSt dev_vb (torn_world part_4 []))).2).
  set (s4 := (RecoverLocalWALs s3).2).
  exists part_4, (Writes (vb part_3)), s3, s4. split; [exact part_run_ok|].
  split; [apply dev_vb_reopened; [constructor; [constructor|..]|..]; vm_compute; reflexivity|].
  split; [apply torn_crashed; vm_compute; reflexivity|].
  split; [apply (run_eq LoadLiveCheckpointCtx); vm_compute; reflexivity|].
  split; [apply (run_eq RecoverLocalWALs); vm_compute; reflexivity|].
  split; [vm_compute; reflexivity|]. split; [vm_compute; reflexivity|].
  split; [vm_compute; discriminate|vm_compute; reflexivity].
Qed.
