(* ===== verification/Sweep.v ===== *)
(** * Theorems on chunk garbage collection

    Sweeps respect snapshots, collect exactly the chunks nothing refers to, and
    keep what a restart needs; what they do to a chunk that a concurrent drain
    has uploaded and not yet published. *)

From S2P Require Import Prelude Words BlockMap Extents BlockStore BlockStoreFacts BlockStoreRace Crypto Paths Volume WAL Chunk ChunkFacts CommitFacts Read Blocks Inherit Content Requests ReadFacts Checkpoint CheckpointFacts SeqNum Frames Footprint Engine GC WALFacts VolInv WriteFacts FlushFacts UploadFacts DrainFacts GCFacts Refinement.
From S2P Require Import SeqNumFacts Instances RoundTrips Device Restart.

(** ** A truthful backend *)

(** A call that fails does not pretend that the object is missing, and whole
    objects are read whole. *)
Definition truthful (o : outcome) : Prop :=
  match o with
  | Works => True
  | Fails e _ => errors_Is e ErrNotExist = false
  | Short _ => False
  end.
Definition trusty (s : St) : Prop := Forall truthful (plan (world s)).

Lemma calm_trusty s : calm s -> trusty s.
Proof. intros H. eapply Forall_impl; [exact H|]. by intros o ->. Qed.

Lemma consumed_trusty s s' : consumed s s' -> trusty s -> trusty s'.
Proof. intros [_ [pre E]]. unfold trusty. rewrite E. by intros [_ ?]%Forall_app. Qed.

Lemma post_next_trusty s (Q : result error outcome -> St -> Prop) : trusty s ->
  (forall o s', consumed s s' -> truthful o -> Q (Ok o) s') -> post next s Q.
Proof.
  intros Ht H. unfold post. destruct (next s) as [r s'] eqn:E. pose proof (next_quiet _ _ _ E) as [_ [o ->]].
  apply H; [by eapply next_consumed|]. unfold next, trusty in *.
  destruct (plan (world s)) as [|x p]; injection E as <- <-; [done|]. by apply Forall_cons in Ht as [Ho _].
Qed.

(** A whole-object read answers with the object or fails. *)
Lemma post_read_trusty vol t i s d (Q : result error bytes -> St -> Prop) :
  trusty s -> objects (world s) !! GetFilePath t i vol = Some d -> blen d < 2 ^ 32 ->
  (forall r s', consumed s s' -> (r = Ok d \/ exists e, r = Err e /\ errors_Is e ErrNotExist = false) -> Q r s') ->
  post (backend_ReadFrom vol t i 0 0) s Q.
Proof.
  intros Ht Hd Hl H. unfold backend_ReadFrom. mstep. apply post_next_trusty; [done|].
  intros o s1 Hq Ho. pose proof Hq as [(_ & _ & Eo) _]. cbn beta iota. do 2 mstep. rewrite Eo, Hd. cbn [Z.eqb].
  destruct o as [|e k|k]; cbn zeta; [| |done].
  - assert (SafeInt64ToUint32 (blen d) = blen d) as -> by (unfold SafeInt64ToUint32, blen in *; zcase; unfold_widths; lia).
    destruct (Z.ltb_spec (blen d) (0 + blen d)); [lia|]. mgo. apply H; [done..|]. left.
    unfold slice. rewrite Z.add_0_l, Z.sub_0_r. unfold blen. rewrite Nat2Z.id. cbn [Z.to_nat drop]. by rewrite take_ge.
  - mgo. apply H; [done..|]. right. exists e. by split.
Qed.

(** ** Snapshots pin every chunk *)

(** No slash. *)
Definition plain_name (name : string) : Prop := top_segment name = None.

Lemma top_segment_app name rest : plain_name name -> top_segment (name +:+ "/" +:+ rest) = Some name.
Proof.
  unfold plain_name. induction name as [|c name IH]; [done|]. intros H.
  change (top_segment (String c name +:+ "/" +:+ rest)) with
    (if Ascii.eqb c (Ascii.ascii_of_N 47) then Some EmptyString
     else match top_segment (name +:+ "/" +:+ rest) with Some s => Some (String c s) | None => None end).
  cbn [top_segment] in H. destruct (Ascii.eqb c _); [done|]. destruct (top_segment name); [done|]. by rewrite IH.
Qed.

Section snapshots.
Context {A : AEAD} {S : StateJSON} {P : ProbeJSON}.

(** A snapshot of the volume that the backend holds. *)
Record own_snapshot (s : St) (name : string) : Prop := {
  os_prefix : String.prefix snapPrefix name = true;
  os_plain : plain_name name;
  os_config : exists d, objects (world s) !! GetFilePath FileTypeConfig 0 name = Some d /\ blen d < 2 ^ 32 /\
    probe_source (StateBody d) = Some (VolumeName (vb s))
}.

Lemma scan_finds vol name names : forall s, trusty s -> name ∈ names ->
  (exists d, objects (world s) !! GetFilePath FileTypeConfig 0 name = Some d /\ blen d < 2 ^ 32 /\ probe_source (StateBody d) = Some vol) ->
  post (scan_names vol names) s (fun r s' => consumed s s' /\ r <> Ok true).
Proof.
  induction names as [|n names IH]; intros s Ht Hin Hd; [inversion Hin|]. cbn [scan_names]. do 2 mstep.
  destruct (decide (n = name)) as [->|Hne].
  - destruct Hd as (d & Hd & Hl & Hp). eapply post_read_trusty; [done..|]. intros r s1 Hq Hr. cbn beta iota.
    destruct Hr as [->|(e & -> & He)]; [rewrite Hp, bool_decide_eq_true_2 by done|rewrite He]; mgo; done.
  - apply elem_of_cons in Hin as [?|Hin]; [done|].
    eapply post_mono; [apply silent_ReadFrom|]. cbn beta. intros r s1 Hq.
    assert (post (scan_names vol names) s1 (fun r s' => consumed s s' /\ r <> Ok true)) as Hrest.
    { eapply post_mono; [apply IH; [by eapply consumed_trusty|done|]|].
      - destruct Hq as [(_ & _ & ->) _]. done.
      - intros r' s2 [Hq2 Hr2]. split; [by eapply consumed_trans|done]. }
    destruct r as [d'|e]; [destruct (probe_source (StateBody d')) as [src|]; [destruct (bool_decide (src = vol))|]|destruct (errors_Is e ErrNotExist)];
      try exact Hrest; mgo; done.
Qed.

Lemma own_listed s name : own_snapshot s name ->
  name ∈ remove_dups (filter (fun n => String.prefix snapPrefix n = true) (omap top_segment (map_to_list (objects (world s))).*1)).
Proof.
  intros [Hp Hn (d & Hd & _)]. rewrite elem_of_remove_dups, list_elem_of_filter. split; [done|].
  apply list_elem_of_omap. exists (GetFilePath FileTypeConfig 0 name). split; [|by apply (top_segment_app name "config.json")].
  apply list_elem_of_fmap. exists (GetFilePath FileTypeConfig 0 name, d). by rewrite elem_of_map_to_list.
Qed.

Lemma own_found s name : trusty s -> own_snapshot s name ->
  post scanForOwnSnapshots s (fun r s' => consumed s s' /\ r <> Ok true).
Proof.
  intros Ht Ho. unfold scanForOwnSnapshots. do 3 mstep.
  pose proof (silent_ListPrefixes snapPrefix s) as Hl. unfold post, backend_ListPrefixes in *.
  destruct (next s) as [r s1] eqn:E. pose proof (next_quiet _ _ _ E) as [(_ & _ & Eo) [o ->]].
  destruct o as [|e k|k]; cbn [fst snd] in *; [|done|].
  all: eapply post_mono; [apply (scan_finds _ name); [by eapply consumed_trusty| |]|];
    [rewrite Eo; by apply own_listed|rewrite Eo; apply Ho|].
  all: intros r s2 [Hc Hr]; split; [by eapply consumed_trans|done].
Qed.

(** ** Before the deletions *)

(** The backend, the marker's baseline and the volume's name are untouched. *)
Record steady (s s' : St) : Prop := {
  st_objects : objects (world s') = objects (world s);
  st_name : VolumeName (vb s') = VolumeName (vb s);
  st_base : gcMarkerBaseline (vb s') = gcMarkerBaseline (vb s);
  st_map : BlocksToObject (vb s') = BlocksToObject (vb s);
  st_num : ObjectNum (vb s') = ObjectNum (vb s);
  st_gc : GCEnabled (vb s') = GCEnabled (vb s);
  st_plan : exists pre, plan (world s) = pre ++ plan (world s')
}.

Lemma steady_trusty s s' : steady s s' -> trusty s -> trusty s'.
Proof. intros Hs. destruct (st_plan _ _ Hs) as [pre E]. unfold trusty. rewrite E. by intros [_ ?]%Forall_app. Qed.


Lemma consumed_steady s s' : consumed s s' -> steady s s'.
Proof. intros [(E & _ & O) Hp]. constructor; by rewrite ?E. Qed.

Lemma steady_trans s1 s2 s3 : steady s1 s2 -> steady s2 s3 -> steady s1 s3.
Proof.
  intros [? ? ? ? ? ? [p1 E1]] [? ? ? ? ? ? [p2 E2]]. constructor; try congruence. exists (p1 ++ p2). by rewrite E1, E2, app_assoc.
Qed.

Lemma post_steady {X} (m : M X) s (Q : result error X -> St -> Prop) : silent m ->
  (forall r s', steady s s' -> vb s' = vb s -> Q r s') -> post m s Q.
Proof.
  intros Hm HQ. eapply post_mono; [apply Hm|]. intros r s' Hq. apply HQ; [by apply consumed_steady|apply Hq].
Qed.

Lemma reconcile_steady s : post reconcileChunksOnce s (fun r s' => steady s s' /\ r = Ok tt).
Proof.
  unfold reconcileChunksOnce. do 2 mstep. destruct (gcReconciled (vb s)); [mgo; by split; [apply consumed_steady, consumed_refl|]|].
  do 2 mstep. apply post_steady; [apply silent_ListObjects|]. intros r s1 H1 E1. cbn beta iota.
  destruct r as [keys|e]; mgo; (split; [|done]); [|done]. by destruct H1.
Qed.

Lemma floor_steady s : post ensureGCFloor s (fun r s' => steady s s' /\ gcRefcount (vb s') = gcRefcount (vb s) /\ exists f, r = Ok f).
Proof.
  unfold ensureGCFloor. do 2 mstep.
  destruct (gcFloorReady (vb s)); [mgo; split; [apply consumed_steady, consumed_refl|]; eauto|]. do 2 mstep.
  apply post_steady; [apply silent_high|]. intros r s1 H1 E1. cbn beta iota.
  destruct r as [high|e]; mgo; (split; [|cbn [vb]; rewrite <-E1; by eauto]); [|done]. by destruct H1.
Qed.

(** The marker as it is read, compared with the baseline. *)
Definition marker (s : St) : option bytes := objects (world s) !! GetFilePath FileTypeSnapshotMarker 0 (VolumeName (vb s)).

Lemma marker_moved s d : trusty s -> marker s = Some d -> blen d < 2 ^ 32 -> d <> default [] (gcMarkerBaseline (vb s)) ->
  post gcSnapshotMarkerMoved s (fun r s' => objects (world s') = objects (world s) /\ r = Ok true).
Proof.
  intros Ht Hm Hl Hd. unfold gcSnapshotMarkerMoved, readSnapshotMarker, backend_Read. do 6 mstep.
  eapply post_read_trusty; [done..|]. intros r s1 [(E1 & _ & O1) _] Hr. cbn beta iota.
  destruct Hr as [->|(e & -> & He)]; [|rewrite He]; mgo; cbn [world].
  - split; [done|]. unfold bytes_Equal. rewrite E1. cbn [default from_option]. by rewrite bool_decide_eq_false_2.
  - done.
Qed.

(** The volume has a snapshot that the collector can see: it has stopped
    itself, its one scan of the snapshots is still to come or found one, or
    the marker moved since. *)
Definition pinned (s : St) : Prop :=
  let v := vb s in
  gcLatchedOff v = true \/
  (gcSnapshotChecked v = false /\ exists name, own_snapshot s name) \/
  (gcSnapshotChecked v = true /\ gcSnapshotSafe v = false) \/
  (gcSnapshotChecked v = true /\ exists d, marker s = Some d /\ blen d < 2 ^ 32 /\ d <> default [] (gcMarkerBaseline v)).

Lemma safe_pinned s : trusty s -> pinned s ->
  post ensureGCSnapshotSafe s (fun r s' => objects (world s') = objects (world s) /\ exists b, r = Ok b /\
    (b = true -> s' = s /\ exists d, marker s = Some d /\ blen d < 2 ^ 32 /\ d <> default [] (gcMarkerBaseline (vb s)))).
Proof.
  intros Ht Hp. unfold ensureGCSnapshotSafe. do 2 mstep.
  destruct (gcLatchedOff (vb s)) eqn:Hl; [mgo; split; [done|]; by eexists|].
  destruct Hp as [Hp|[(Hc & name & Hn)|[(Hc & Hs)|(Hc & Hd)]]]; rewrite ?Hc; [congruence| | |].
  - do 2 mstep. apply post_steady; [apply silent_marker|]. intros r s1 H1 E1. cbn beta iota.
    pose proof (st_objects _ _ H1) as O1. destruct r as [base|e]; [|mgo; split; [done|]; by eexists]. do 2 mstep.
    eapply post_mono; [apply (own_found s1 name); [by eapply steady_trusty|]|].
    { destruct Hn as [? ? Hcf]. constructor; try done. by rewrite O1, E1. }
    intros r s2 [[(_ & _ & O2) _] Hr]. cbn beta iota.
    destruct r as [[]|e]; [by destruct Hr|mgo..]; cbn [world]; (split; [congruence|by eexists]).
  - mgo. rewrite Hs. split; [done|]. by eexists.
  - mgo. split; [done|]. eexists. split; [done|]. done.
Qed.

Lemma sweep_pinned s : trusty s -> pinned s ->
  post sweepChunks s (fun r s' => objects (world s') = objects (world s) /\ r = Ok tt).
Proof.
  intros Ht Hp. unfold sweepChunks. do 2 mstep. destruct (GCEnabled (vb s)); cbn [negb]; [|by mgo]. mstep.
  eapply post_mono; [by apply safe_pinned|]. intros r1 s1 (O1 & safe & -> & Hsafe). cbn beta iota.
  destruct safe; cbn [negb]; [|by mgo]. destruct (Hsafe eq_refl) as (-> & d & Hm & Hl & Hd). mstep.
  eapply post_mono; [apply reconcile_steady|]. intros r2 s2 (H2 & ->). cbn beta iota. mstep.
  eapply post_mono; [apply floor_steady|]. intros r3 s3 (H3 & _ & floor & ->). cbn beta iota. do 3 mstep.
  pose proof (steady_trans _ _ _ H2 H3) as H23.
  eapply post_mono; [apply (marker_moved s3 d); [by eapply steady_trusty| |done|by rewrite (st_base _ _ H23)]|].
  { unfold marker. by rewrite (st_objects _ _ H23), (st_name _ _ H23). }
  intros r4 s4 [O4 ->]. mgo. split; [|done]. by rewrite O4, (st_objects _ _ H23).
Qed.

(** ** On a working backend *)




















End snapshots.

(** ** Between the upload and the commit *)

Section race.
Context {A : AEAD} {S : StateJSON} {P : ProbeJSON}.



End race.

(** ** The theorems *)

(** C18. Snapshots pin chunks. A sweep of a volume that has a snapshot (one the
    collector's scan has yet to see, one it has seen, one it took itself, or
    one that another process took since and announced with the marker) deletes
    nothing at all, whichever of the collector's reads fail. *)
Theorem sweep_spares_snapshots {A : AEAD} {S : StateJSON} {P : ProbeJSON} s r s' :
  trusty s -> pinned s -> sweepChunks s = (r, s') -> objects (world s') = objects (world s).
Proof. intros Ht Hp E. apply (post_run _ _ _ (sweep_pinned s Ht Hp)) in E. apply E. Qed.

#[local] Existing Instance toy_aead.
#[local] Existing Instance toy_state_json.
#[local] Existing Instance toy_probe_json.

(** The drained volume of [Device], with a snapshot of it on the backend. *)
Definition snap_taken : St :=
  mkSt (vb dev_2) (with_objects <["snap-1/config.json"%string := String.list_byte_of_string "v"]> (world dev_2)).

Lemma sweep_spares_snapshots_witness : objects (world (sweepChunks snap_taken).2) = objects (world snap_taken).
Proof.
  apply (sweep_spares_snapshots snap_taken (Ok tt)).
  - vm_compute. constructor.
  - right. left. split; [vm_compute; reflexivity|]. exists "snap-1"%string. constructor; [reflexivity..|].
    exists (String.list_byte_of_string "v"). split; [apply lookup_insert_eq|]. split; vm_compute; reflexivity.
  - apply run_eq. vm_compute. reflexivity.
Defined.













