(* ===== verification/Backpressure.v ===== *)
(** * Backpressure: when a blocked writer is released, and when it is not *)

From S2P Require Import Prelude Words BlockMap Extents BlockStore BlockStoreFacts BlockStoreRace Crypto Paths Volume WAL Chunk ChunkFacts Read Blocks Inherit Content Requests ReadFacts Checkpoint CheckpointFacts SeqNum Frames Footprint Engine GC WALFacts VolInv WriteFacts FlushFacts UploadFacts DrainFacts Refinement.
From S2P Require Import SeqNumFacts Instances RoundTrips Device Restart.

Section pressure.
Context {A : AEAD} {S : StateJSON} {P : ProbeJSON} (HA : AEADLaws A).

(** Every block waiting for the backend is in the segment about to be drained. *)
Definition all_in_segment (v : VB) (seg : list Block) : Prop :=
  forall x, x ∈ PendingBackendWrites v -> b_Block x ∈ b_Block <$> seg.

(** A drain that succeeds takes every counted byte off the counter. *)
Lemma drained_clear s s' seg (ok : Prop) : drained s s' seg ok -> ok -> all_in_segment (vb s) seg ->
  PendingBackendWrites (vb s') = [] /\ pendingBytes (vb s') = acct (vb s).
Proof.
  intros Hdr Hok Hall. assert (PendingBackendWrites (vb s') = []) as Hp.
  { destruct (PendingBackendWrites (vb s')) as [|x l] eqn:Ep; [done|]. exfalso.
    assert (b_Block x ∈ b_Block <$> (seg ++ Writes (vb s))) as (y & Hy & Hin)%list_elem_of_fmap.
    { assert (x ∈ PendingBackendWrites (vb s) ++ Writes (vb s)) as [Hx|Hx]%elem_of_app
        by (apply (dr_pend _ _ _ _ Hdr); rewrite Ep; by left).
      - rewrite fmap_app, elem_of_app. left. by apply Hall.
      - rewrite fmap_app, elem_of_app. right. apply list_elem_of_fmap. by exists x. }
    by apply (dr_free _ _ _ _ Hdr Hok x y); [rewrite Ep; left|..]. }
  split; [done|]. pose proof (dr_acct _ _ _ _ Hdr) as Ha. unfold acct in Ha at 1. rewrite Hp, (dr_W _ _ _ _ Hdr) in Ha. cbn in Ha. lia.
Qed.

(** A drain with nothing failing: the counter falls to what was never counted. *)
Lemma calm_drain sc s seg :
  vol_inv s seg -> calm s -> sched_ok sc -> all_in_segment (vb s) seg ->
  WallNum (vb_WAL (vb s)) + 1 < 2 ^ 64 -> ObjectNum (vb s) + Z.of_nat (length (seg ++ Writes (vb s))) < 2 ^ 64 ->
  exists s', DrainToBackendCtx sc s = (Ok tt, s') /\ drained s s' seg True /\
    PendingBackendWrites (vb s') = [] /\ pendingBytes (vb s') = acct (vb s) /\ calm s'.
Proof.
  intros Hi Hc Hsc Hall Hwn Hon.
  pose proof (Drain_works HA [] s seg sc Hi (works_calm _ s Hc) Hsc Hwn Hon) as H. unfold post in H.
  destruct (DrainToBackendCtx sc s) as [r s'] eqn:E. cbn [fst snd] in H. destruct H as [Hdr _].
  destruct (dr_calm _ _ _ _ Hdr Hc) as [Hc' ->]. exists s'. split; [done|].
  destruct (drained_clear s s' seg _ Hdr eq_refl Hall) as [Hp Hz].
  split; [destruct Hdr as [? ? ? ? ? ? ? ? ? ? Hg Hf]; constructor; auto|done].
Qed.
End pressure.

(** C20. Backpressure ends. With the buffered bytes counted and nothing failing,
    a writer that crossed the high-water mark is released after one drain: the
    wait returns, the counter is at zero, nothing is buffered, and no byte of
    the volume changed. *)
Theorem backpressure_released {A : AEAD} {S : StateJSON} sc fuel s seg :
  AEADLaws A -> vol_inv s seg -> calm s -> sched_ok sc -> all_in_segment (vb s) seg -> acct (vb s) = 0 ->
  WallNum (vb_WAL (vb s)) + 1 < 2 ^ 64 -> ObjectNum (vb s) + Z.of_nat (length (seg ++ Writes (vb s))) < 2 ^ 64 ->
  0 <= maxPendingBytes (vb s) < PendingBytes (vb s) ->
  exists s', awaitBackpressure sc (Datatypes.S fuel) s = (Ok true, s') /\ pendingBytes (vb s') = 0 /\
    Writes (vb s') = [] /\ PendingBackendWrites (vb s') = [] /\ same_bytes (byte_at s) (byte_at s').
Proof.
  intros HA Hi Hc Hsc Hall Ha Hwn Hon Hmax.
  destruct (calm_drain HA sc s seg Hi Hc Hsc Hall Hwn Hon) as (s' & E & Hdr & Hp & Hz & Hc').
  assert (PendingBytes (vb s') = 0) as Hz' by (unfold PendingBytes; by rewrite Hz, Ha).
  exists s'. unfold awaitBackpressure, bind at 1, get. cbn [fst snd].
  destruct (Z.leb_spec (PendingBytes (vb s)) (maxPendingBytes (vb s))); [lia|]. cbn [backpressure_loop].
  pose proof (Z.div_lt_upper_bound (maxPendingBytes (vb s)) 2 (PendingBytes (vb s)) ltac:(lia) ltac:(lia)) as Hlow.
  pose proof (Z.div_pos (maxPendingBytes (vb s)) 2 ltac:(lia) ltac:(lia)) as Hlow0.
  unfold bind at 1, get. destruct (Z.leb_spec (PendingBytes (vb s)) (maxPendingBytes (vb s) / 2)); [lia|].
  unfold bind at 1, try. rewrite E. split.
  - assert ((0 <=? maxPendingBytes (vb s) / 2) = true) as Hle by (by apply Z.leb_le).
    destruct fuel; cbn [backpressure_loop]; unfold bind, get; by rewrite Hz', Hle.
  - split; [by rewrite Hz|]. split; [apply Hdr|]. split; [done|].
    pose proof (dr_fixed _ _ _ _ Hdr) as Efx. apply bytes_of_blocks; [by injection Efx|apply Hdr].
Qed.

(** C21. Bytes that were buffered but never counted block writers for good. A
    [WriteAt] that fails part-way leaves its first blocks in the buffer without
    adding them to the counter; draining them takes them off, the counter goes
    below zero and, read as a uint64, above every watermark. From then on a
    writer that waits is never released: however many drains it drives, and
    though every one of them succeeds, it is still waiting. *)
Theorem uncounted_bytes_block_writers {A : AEAD} {S : StateJSON} sc fuel low n s :
  AEADLaws A -> vol_inv s [] -> calm s -> sched_ok sc -> Writes (vb s) = [] -> PendingBackendWrites (vb s) = [] ->
  - 2 ^ 63 <= pendingBytes (vb s) < 0 -> low < 2 ^ 63 ->
  WallNum (vb_WAL (vb s)) + Z.of_nat fuel < 2 ^ 64 -> ObjectNum (vb s) < 2 ^ 64 ->
  exists s', backpressure_loop sc fuel low n s = (Ok false, s') /\ pendingBytes (vb s') = pendingBytes (vb s).
Proof.
  intros HA. revert s n. induction fuel as [|fuel IH]; intros s n Hi Hc Hsc HW HP Hneg Hlow Hwn Hon.
  all: assert (low < PendingBytes (vb s)) as Hover by
    (unfold PendingBytes, u64, wrap; rewrite <-(Z.mod_unique_pos (pendingBytes (vb s)) (2 ^ 64) (-1) (pendingBytes (vb s) + 2 ^ 64)); lia).
  - exists s. cbn [backpressure_loop]. unfold bind, get. by rewrite (proj2 (Z.leb_gt _ _) Hover).
  - destruct (calm_drain HA sc s [] Hi Hc Hsc) as (s1 & E & Hdr & Hp & Hz & Hc1); [by intros x; rewrite HP; intros Hx; inversion Hx|lia|rewrite HW; cbn; lia|].
    assert (acct (vb s) = pendingBytes (vb s)) as Ha by (unfold acct; rewrite HW, HP; cbn; lia). rewrite Ha in Hz.
    pose proof (dr_num _ _ _ _ Hdr) as Hnum. rewrite HW in Hnum. cbn in Hnum. pose proof (dr_wal _ _ _ _ Hdr) as Hwal.
    destruct (IH s1 0) as (s' & E' & Hp'); [apply Hdr|done|done|apply Hdr|done|lia..|].
    exists s'. split; [|congruence]. cbn [backpressure_loop]. unfold bind, get, try.
    rewrite (proj2 (Z.leb_gt _ _) Hover), E. exact E'.
Qed.

#[local] Existing Instance toy_aead.
#[local] Existing Instance toy_state_json.
#[local] Existing Instance toy_probe_json.

(** The drained volume of [Device]; then a write of six bytes whose second
    block must be read back first, with that read failing; then a drain. *)
Definition dev_3 : St := (exec serial (WriteOp 0 dev_data) (set_plan [Fails plain 0] dev_2)).2.
Definition dev_4 : St := (DrainToBackendCtx serial (set_plan [] dev_3)).2.

Lemma drain_inv p s seg s' r : vol_inv s seg -> works (2 * length (Writes (vb s)) + 6) p s ->
  WallNum (vb_WAL (vb s)) + 1 < 2 ^ 64 -> ObjectNum (vb s) + Z.of_nat (length (seg ++ Writes (vb s))) < 2 ^ 64 ->
  DrainToBackendCtx serial s = (r, s') -> vol_inv s' [].
Proof.
  intros Hi Hw Hn Ho E. pose proof (Drain_works toy_aead_laws p s seg serial Hi Hw ltac:(by intros ?) Hn Ho) as H.
  apply (post_run _ _ _ H) in E as [Hdr _]. apply Hdr.
Qed.

Lemma dev_4_inv : vol_inv dev_4 [].
Proof.
  assert (vol_inv dev_2 []) as H2.
  { eapply (drain_inv [] dev_dirty []); [exact dev_dirty_inv|apply works_calm; exact (Forall_nil_2 _)| | |exact dev_drains]; vm_compute; reflexivity. }
  assert (vol_inv dev_3 []) as H3.
  { pose proof (exec_step toy_aead_laws serial (WriteOp 0 dev_data) [] (set_plan [Fails plain 0] dev_2) []) as H.
    unfold post in H. fold dev_3 in H. apply H; [by apply set_plan_inv|]. vm_compute. intuition discriminate. }
  eapply (drain_inv [] (set_plan [] dev_3) []); [by apply set_plan_inv|apply works_calm; exact (Forall_nil_2 _)| | |].
  - vm_compute. reflexivity.
  - vm_compute. reflexivity.
  - unfold dev_4. apply surjective_pairing.
Qed.

Lemma uncounted_bytes_block_writers_witness :
  pendingBytes (vb dev_4) = -4 /\
  forall fuel, Z.of_nat fuel < 2 ^ 63 -> exists s', backpressure_loop serial fuel 2048 0 dev_4 = (Ok false, s') /\ pendingBytes (vb s') = -4.
Proof.
  assert (pendingBytes (vb dev_4) = -4) as E by (vm_compute; reflexivity). split; [exact E|]. intros fuel Hf. rewrite <-E.
  apply (uncounted_bytes_block_writers serial fuel 2048 0 dev_4).
  - exact toy_aead_laws.
  - exact dev_4_inv.
  - unfold calm. assert (plan (world dev_4) = []) as -> by (vm_compute; reflexivity). exact (Forall_nil_2 _).
  - by intros ?.
  - vm_compute. reflexivity.
  - vm_compute. reflexivity.
  - rewrite E. lia.
  - lia.
  - assert (WallNum (vb_WAL (vb dev_4)) = 2) as -> by (vm_compute; reflexivity). lia.
  - vm_compute. reflexivity.
Defined.

(** The volume of [Device] about to drain, with a high-water mark of one block. *)
Definition tight : St := mkSt ((vb dev_dirty) <| MaxPendingBytes := 4 |>) (world dev_dirty).

Lemma limit_inv s seg n : vol_inv s seg -> vol_inv (mkSt ((vb s) <| MaxPendingBytes := n |>) (world s)) seg.
Proof.
  intros [[? ? ? ? ? ? ? ? ? ?] [? ? ? ? ? ? ? ? ? ?] ? ? ? ? ? ? ? Hb ? ? ? ? ? ? ?]. constructor; try done.
  eapply Forall_impl; [exact Hb|]. intros x [? ? ? ?]. by constructor.
Qed.

Lemma backpressure_released_witness :
  PendingBytes (vb tight) = 8 /\
  exists s', awaitBackpressure serial 1 tight = (Ok true, s') /\ pendingBytes (vb s') = 0 /\
    Writes (vb s') = [] /\ PendingBackendWrites (vb s') = [] /\ same_bytes (byte_at tight) (byte_at s').
Proof.
  split; [vm_compute; reflexivity|]. apply (backpressure_released serial 0 tight []).
  - exact toy_aead_laws.
  - apply limit_inv, dev_dirty_inv.
  - exact (Forall_nil_2 _).
  - by intros ?.
  - intros x Hx. assert (PendingBackendWrites (vb tight) = []) as E by (vm_compute; reflexivity). rewrite E in Hx. inversion Hx.
  - vm_compute. reflexivity.
  - vm_compute. reflexivity.
  - vm_compute. reflexivity.
  - vm_compute. intuition discriminate.
Defined.
