(* ===== verification/BackgroundFacts.v ===== *)
(** * Theorems on the background goroutines

    Starting and stopping is safe in every interleaving, and a Stop that waits
    completes. The theorems hold whatever a tick does to the volume: requests
    and the parts of concurrent drains and sweeps may change it between any two
    steps. *)

From S2P Require Import Prelude Words BlockMap Extents BlockStore BlockStoreFacts BlockStoreRace Crypto Paths Volume WAL Chunk ChunkFacts Read Blocks Inherit Content Requests ReadFacts Checkpoint CheckpointFacts SeqNum Frames Footprint Engine GC Background WALFacts VolInv WriteFacts FlushFacts UploadFacts DrainFacts GCFacts Refinement.
From S2P Require Import SeqNumFacts Instances RoundTrips Device.

(** A volume that was just made: no goroutine was started yet. *)
Definition bg0 (wi ci gi : Z) : BG := mkBG wi ci gi service0 service0 service0 None false.

Lemma bg0_inv wi ci gi : bg_inv (bg0 wi ci gi).
Proof.
  split; [done|]. intros k. assert (svc k (bg0 wi ci gi) = service0) as -> by (by destruct k).
  split; [by apply ok_idle|]. by split; [|split].
Qed.

(** C16. In every interleaving of Start and Stop calls, ticks, triggers and
    requests, no channel is closed twice (which would panic), at most one
    goroutine of each kind runs, one runs exactly when its stop field is set
    unless a Stop is waiting for it, and when a Stop returns its goroutine is
    gone: the fields may be cleared and the volume closed. *)
Theorem background_exclusive {A : AEAD} {S : StateJSON} {P : ProbeJSON} sc es wi ci gi s b s' :
  occur_all sc es (bg0 wi ci gi) s = Some (b, s') ->
  panicked b = false /\
  (forall k, (length (s_workers (svc k b)) <= 1)%nat) /\
  (forall k, bgMu b <> Some k -> s_workers (svc k b) = [] <-> s_stop (svc k b) = None) /\
  (forall k b1 s1, occur sc (EStopped k) b s' = Some (b1, s1) -> s_workers (svc k b1) = []).
Proof.
  intros He. pose proof (occur_all_inv sc es _ _ _ _ (bg0_inv wi ci gi) He) as Hi. pose proof Hi as [Hp Hk].
  split; [done|]. split; [|split].
  - intros k. destruct (proj1 (Hk k)) as [? ? ? Hw|? ? ? ? ? Hw|? ? ? ? ? Hw|? ? ? ? Hw]; rewrite Hw; cbn; lia.
  - intros k Hm. destruct (proj1 (Hk k)) as [? Hs ? Hw|? ? ? Hs ? Hw|? ? Hh|? Hh]; rewrite ?Hs, ?Hw; done.
  - intros k b1 s1. cbn [occur]. rewrite Stop_eq. cbn [snd]. destruct (decide _) as [Hm|]; [|done]. destruct (s_done (svc k b)) as [g|] eqn:Hd; [|done].
    destruct (decide _) as [Hc|]; [|done]. intros [= <- <-]. by eapply end_inv.
Qed.

(** ** Stopping *)

Section stopping.
Context {A : AEAD} {S : StateJSON} {P : ProbeJSON}.

(** A sync changes nothing but the dirty flag; when the disk works it clears it. *)
Record synced (s s' : St) : Prop := {
  sy_vb : vb s' = vb s \/ exists d, vb s' = set_wal_dirty d (vb s);
  sy_files : files (world s') = files (world s);
  sy_objects : objects (world s') = objects (world s);
  sy_calm : calm s -> wal_closed (vb_WAL (vb s)) = false -> wal_dirty (vb_WAL (vb s')) = false /\ calm s'
}.

Lemma sync_works s : UseShardedWAL (vb s) = false -> post sync_wal s (fun _ s' => synced s s').
Proof.
  intros Hs. unfold sync_wal. mgo. rewrite Hs. unfold syncWALIfDirty. mgo.
  destruct (wal_dirty (vb_WAL (vb s))) eqn:Hd; cbn [negb]; [|mgo; constructor; auto].
  mgo. destruct (last (DB (vb_WAL (vb s)))) as [name|]; [|mgo; constructor; cbn; eauto].
  destruct (wal_closed (vb_WAL (vb s))) eqn:Hc.
  { unfold post, bind, try, throw, modify. cbn. by constructor; cbn; eauto. }
  unfold post, bind, try, os_call. cbn. unfold bind, next. cbn.
  destruct (plan (world s)) as [|[| |] p] eqn:Ep; cbn; constructor; cbn; eauto; unfold calm; rewrite Ep; cbn; intros Hca _;
    apply Forall_cons in Hca as [? ?]; done.
Qed.

Lemma synced_sharded s s' : synced s s' -> UseShardedWAL (vb s') = UseShardedWAL (vb s) /\
  wal_closed (vb_WAL (vb s')) = wal_closed (vb_WAL (vb s)).
Proof. by intros [[-> | [d ->]] _ _ _]. Qed.

(** The last sync of the syncer leaves a clean log on a working disk. *)
Lemma exit_syncs sc i b s b' s' : occur sc (EExit Syncer i) b s = Some (b', s') ->
  UseShardedWAL (vb s) = false -> calm s -> wal_closed (vb_WAL (vb s)) = false -> wal_dirty (vb_WAL (vb s')) = false.
Proof.
  intros Ho Hs Hc Hop. cbn [occur] in Ho. destruct (s_workers _ !! i) as [[g []]|]; try done. destruct (decide _); [|done].
  injection Ho as <- <-. pose proof (sync_works s Hs) as H. unfold post in H. by apply H.
Qed.

(** The steps of the worker and of the Stop that waits for it. *)
Definition own_event (k : kind) (e : event) : Prop :=
  match e with EWork k' _ | EExit k' _ | EStopped k' => k' = k | _ => False end.

Lemma wind_up_own k b : Forall (own_event k) (wind_up k b) /\ (1 <= length (wind_up k b) <= 3)%nat.
Proof.
  unfold wind_up. destruct (s_workers (svc k b)) as [|[g []] l]; cbn; split; try lia; repeat constructor.
Qed.

(** The select of worker [k] takes its ticker or the upload trigger; any of
    its other steps. *)
Definition is_pick (k : kind) (e : event) : bool :=
  match e with
  | ETick k' _ => bool_decide (k' = k)
  | ETrigger _ => bool_decide (k = Uploader)
  | _ => false
  end.
Definition is_rest (k : kind) (e : event) : bool :=
  match e with EWork k' _ | EExit k' _ => bool_decide (k' = k) | _ => false end.

Definition picks (k : kind) (es : list event) : nat := length (filter (fun e => is_pick k e = true) es).
Definition steps (k : kind) (es : list event) : nat := length (filter (fun e => is_pick k e || is_rest k e = true) es).

Lemma held_worker b k i g d : bg_inv b -> bgMu b = Some k -> s_workers (svc k b) !! i = Some (mkWorker g d) ->
  i = 0%nat /\ s_workers (svc k b) = [mkWorker g d].
Proof.
  intros Hi Hm Hw. destruct (held_service b k Hi Hm) as (g' & _ & _ & [(bz & Hw' & _)|[Hw' _]]); rewrite Hw' in Hw |- *; [|done].
  destruct i; [|done]. by injection Hw as <- <-.
Qed.

Lemma busy_workers k d b g d0 : s_workers (svc k b) = [mkWorker g d0] ->
  s_workers (svc k (set_svc k (set_busy d 0 (svc k b)) b)) = [mkWorker g d].
Proof.
  intros Hw. rewrite svc_set, decide_True by done.
  change (alter (fun w => mkWorker (w_gen w) d) 0%nat (s_workers (svc k b)) = [mkWorker g d]). by rewrite Hw.
Qed.

(** Every event but the Stop's own return keeps the Stop waiting; what is left
    to do shrinks with the worker's steps and grows only when it takes its
    ticker again. *)
Lemma waiting_step sc e k b s b1 s1 : bg_inv b -> bgMu b = Some k -> e <> EStopped k -> occur sc e b s = Some (b1, s1) ->
  bgMu b1 = Some k /\
  (length (wind_up k b1) + (if is_rest k e then 1 else 0) = length (wind_up k b) + (if is_pick k e then 1 else 0))%nat.
Proof.
  intros Hi Hm Hne Ho.
  assert (forall k' x, bgMu (set_svc k' x b) = Some k) as Hmu by (intros; by rewrite (proj1 (set_svc_rest _ _ _))).
  assert (forall k' x, k' <> k -> wind_up k (set_svc k' x b) = wind_up k b) as Hother.
  { intros k' x Hk. unfold wind_up. by rewrite svc_set, decide_False by done. }
  assert (forall k' i g d d', s_workers (svc k' b) !! i = Some (mkWorker g d) ->
    (length (wind_up k (set_svc k' (set_busy d' i (svc k' b)) b)) + (if bool_decide (k' = k) && d then 1 else 0)
     = length (wind_up k b) + (if bool_decide (k' = k) && d' then 1 else 0))%nat) as Hbusy.
  { intros k' i g d d' Hw. destruct (decide (k' = k)) as [->|Hk].
    - rewrite bool_decide_eq_true_2 by done. destruct (held_worker b k i g d Hi Hm Hw) as [-> Hw'].
      unfold wind_up. rewrite (busy_workers k d' b g d Hw'), Hw'. by destruct d, d'.
    - rewrite bool_decide_eq_false_2, Hother by done. done. }
  destruct e as [k'|k'|k'|k' i|i|k' i|k' i|s2]; cbn [occur is_pick is_rest] in *; rewrite ?Hm in Ho; try done.
  - destruct (decide _) as [E|]; [|done]. congruence.
  - destruct (s_workers (svc k' b) !! i) as [[g []]|] eqn:Hw; try done. destruct (decide _); [done|]. injection Ho as <- <-.
    split; [apply Hmu|]. specialize (Hbusy k' i g false true Hw). rewrite andb_true_r, andb_false_r in Hbusy. exact Hbusy.
  - destruct (s_workers (chunkUpload b) !! i) as [[g []]|] eqn:Hw; try done. destruct (uploadTriggered _); [|done]. injection Ho as <- <-.
    split; [apply (Hmu Uploader)|]. specialize (Hbusy Uploader i g false true Hw). rewrite andb_true_r, andb_false_r in Hbusy.
    rewrite (bool_decide_ext (k = Uploader) (Uploader = k)) by done. exact Hbusy.
  - destruct (s_workers (svc k' b) !! i) as [[g []]|] eqn:Hw; try done. injection Ho as <- <-.
    split; [apply Hmu|]. specialize (Hbusy k' i g true false Hw). rewrite andb_true_r, andb_false_r in Hbusy. exact Hbusy.
  - destruct (s_workers (svc k' b) !! i) as [[g []]|] eqn:Hw; try done. destruct (decide _); [|done]. injection Ho as Eb Es.
    assert (wind_up k b1 = wind_up k (set_svc k' (leave i g (svc k' b)) b)) as -> by (rewrite <-Eb; by destruct k).
    assert (bgMu b1 = bgMu (set_svc k' (leave i g (svc k' b)) b)) as -> by (rewrite <-Eb; by destruct k).
    split; [exact (Hmu k' _)|]. rewrite Nat.add_0_r.
    destruct (decide (k' = k)) as [->|Hk].
    + destruct (held_worker b k i g false Hi Hm Hw) as [-> Hw']. rewrite bool_decide_eq_true_2 by done.
      unfold wind_up. rewrite svc_set, decide_True by done.
      change (s_workers (leave 0 g (svc k b))) with (delete 0%nat (s_workers (svc k b))). by rewrite Hw'.
    + rewrite bool_decide_eq_false_2, Hother by done. by rewrite Nat.add_0_r.
  - injection Ho as <- <-. by rewrite Hm.
Qed.

Lemma waiting_run sc k es : forall b s b1 s1, bg_inv b -> bgMu b = Some k -> EStopped k ∉ es -> occur_all sc es b s = Some (b1, s1) ->
  bgMu b1 = Some k /\ (length (wind_up k b1) + steps k es = length (wind_up k b) + 2 * picks k es)%nat.
Proof.
  induction es as [|e es IH]; intros b s b1 s1 Hi Hm Hn; cbn [occur_all]; [intros [= <- <-]; cbn; split; [done|lia]|].
  destruct (occur sc e b s) as [[b' s']|] eqn:Eo; [|done]. intros Hr. apply not_elem_of_cons in Hn as [Hne Hn].
  destruct (waiting_step sc e k b s b' s' Hi Hm (not_eq_sym Hne) Eo) as [Hm' Hl].
  destruct (IH b' s' b1 s1 (occur_inv sc e b s b' s' Hi Eo) Hm' Hn Hr) as [Hm1 Hl1]. split; [done|].
  unfold steps, picks in *. rewrite !filter_cons.
  assert (is_pick k e && is_rest k e = false) as Hx by (destruct e; cbn; by rewrite ?andb_false_r).
  revert Hl Hx. destruct (is_pick k e), (is_rest k e); cbn; intros Hl Hx; try done; repeat case_decide; cbn; try done; lia.
Qed.
End stopping.

(** C17. A Stop that waits completes. From any reachable state in which a Stop
    holds the mutex and waits, take any run, of any callers, requests and
    goroutines, in which it has not returned yet: it still holds the mutex; the
    goroutine it waits for has made at most two steps for every time its select
    took the ticker or the trigger although the stop channel was closed (Go
    chooses freely among ready cases), and two more, so it cannot run on
    without choosing them again and again; and at most three steps, of that
    goroutine and of the Stop alone, lead from there to the mutex released and
    the goroutine gone, so nothing is deadlocked. When the goroutine that
    leaves is the log syncer and the disk works, its last sync leaves no
    unsynced record. *)
Theorem stop_completes {A : AEAD} {S : StateJSON} {P : ProbeJSON} sc es wi ci gi s b s' k es' b1 s1 :
  occur_all sc es (bg0 wi ci gi) s = Some (b, s') -> bgMu b = Some k ->
  occur_all sc es' b s' = Some (b1, s1) -> EStopped k ∉ es' ->
  bgMu b1 = Some k /\ (steps k es' <= 2 * picks k es' + 2)%nat /\
  (exists es2 b2 s2, Forall (own_event k) es2 /\ (length es2 <= 3)%nat /\
     occur_all sc es2 b1 s1 = Some (b2, s2) /\ bgMu b2 = None /\ s_workers (svc k b2) = []) /\
  (forall i b2 s2, k = Syncer -> occur sc (EExit k i) b1 s1 = Some (b2, s2) ->
     UseShardedWAL (vb s1) = false -> calm s1 -> wal_closed (vb_WAL (vb s1)) = false -> wal_dirty (vb_WAL (vb s2)) = false).
Proof.
  intros He Hm Hr Hn. pose proof (occur_all_inv sc es _ _ _ _ (bg0_inv wi ci gi) He) as Hi.
  destruct (waiting_run sc k es' b s' b1 s1 Hi Hm Hn Hr) as [Hm1 Hl]. pose proof (occur_all_inv sc es' _ _ _ _ Hi Hr) as Hi1.
  destruct (wind_up_own k b) as [_ Hb]. destruct (wind_up_own k b1) as [Hown Hb1].
  split; [done|]. split; [lia|]. split.
  - destruct (wind_up_stops sc k b1 s1 Hi1 Hm1) as (b2 & E & Hm2 & Hw2).
    exists (wind_up k b1), b2, (wind_up_work sc k b1 s1).2. split; [done|]. split; [lia|]. done.
  - intros i b2 s2 -> Ho Hs Hc Hop. by eapply exit_syncs.
Qed.

#[local] Existing Instance toy_aead.
#[local] Existing Instance toy_state_json.
#[local] Existing Instance toy_probe_json.

(** Everything started; two callers stop the uploader while it drains. *)
Definition bg_events : list event :=
  [EStart Syncer; EStart Uploader; EStart Collector; EStart Uploader; ETick Uploader 0; ETick Syncer 0; EStop Uploader].
Definition bg_now : option (BG * St) := occur_all serial bg_events (bg0 1 1 1) dev_1.

Lemma bg_now_eq : exists b, bg_now = Some (b, dev_1) /\ bgMu b = Some Uploader /\
  s_workers (svc Uploader b) = [mkWorker 0 true].
Proof. unfold bg_now. eexists. split; [cbn; reflexivity|]. split; reflexivity. Qed.

Lemma background_exclusive_witness :
  exists b, bg_now = Some (b, dev_1) /\ bgMu b = Some Uploader /\ panicked b = false /\
    forall k, (length (s_workers (svc k b)) <= 1)%nat.
Proof.
  destruct bg_now_eq as (b & E & Hm & _). exists b. split; [exact E|]. split; [exact Hm|].
  destruct (background_exclusive serial bg_events 1 1 1 dev_1 b dev_1 E) as (H1 & H2 & _). split; [exact H1|exact H2].
Defined.

(** A log with unsynced records, and its syncer stopped while it is idle. *)
Definition dirty_st : St := mkSt (set_wal_dirty true dev_vb) (world dev_st).

Lemma stopping_syncer : exists b, occur_all serial [EStart Syncer; EStop Syncer] (bg0 1 1 1) dirty_st = Some (b, dirty_st) /\
  bgMu b = Some Syncer /\ exists b1 s1, occur_all serial [ETick Syncer 0; EWork Syncer 0] b dirty_st = Some (b1, s1).
Proof. eexists. split; [cbn; reflexivity|]. split; [reflexivity|]. do 2 eexists. cbn. reflexivity. Qed.

(** The syncer takes its ticker once more after the stop channel is closed. *)
Definition lingering : list event := [ETick Syncer 0; EWork Syncer 0].

Lemma stop_completes_witness :
  exists b b1 s1, occur_all serial [EStart Syncer; EStop Syncer] (bg0 1 1 1) dirty_st = Some (b, dirty_st) /\
    occur_all serial lingering b dirty_st = Some (b1, s1) /\
    bgMu b1 = Some Syncer /\ (steps Syncer lingering <= 2 * picks Syncer lingering + 2)%nat.
Proof.
  destruct stopping_syncer as (b & E & Hm & b1 & s1 & E1).
  exists b, b1, s1. split; [exact E|]. split; [exact E1|].
  destruct (stop_completes serial [EStart Syncer; EStop Syncer] 1 1 1 dirty_st b dirty_st Syncer lingering b1 s1 E Hm E1)
    as (H1 & H2 & _); [apply not_elem_of_cons; split; [discriminate|]; apply not_elem_of_cons; split; [discriminate|]; apply not_elem_of_nil|].
  split; [exact H1|exact H2].
Defined.
