(* ===== verification/ImportImage.v ===== *)
(** * What an import leaves in the volume

    Copying an image block by block into a volume that reads as zeros, with
    nothing failing, makes the volume read as the image. *)

From S2P Require Import Prelude Words BlockMap Extents BlockStore BlockStoreFacts Crypto Paths Volume WAL Chunk ChunkFacts Read Blocks Inherit Content Requests ReadFacts Checkpoint CheckpointFacts SeqNum Frames Footprint Engine GC WALFacts VolInv WriteFacts FlushFacts UploadFacts DrainFacts GCFacts Refinement.
From S2P Require Import SeqNumFacts Instances RoundTrips Device Restart Recovery Backpressure Import.

Section copy.
Context {A : AEAD} (HA : AEADLaws A) {S : StateJSON}.

(** ** A write on a machine where nothing fails *)

Lemma reserve_calm s :
  calm s -> (EncryptionEnabled (vb s) = true -> VolumeUUID (vb s) <> zeros 4) -> 0 <= SeqNum (vb s) < MaxSeqNum ->
  post (reserveSeqNum 1) s (fun r s' => (exists x, r = Ok x) /\ calm s').
Proof.
  intros Hc Hu Hs. apply post_reserve. unfold reserve_alone. do 4 mstep. cbn [vb].
  assert (u64 (SeqNum (vb s) + 1) = SeqNum (vb s) + 1) as E by (apply u64_small; change MaxSeqNum with (2 ^ 56 - 1) in Hs; wsolve).
  change (SeqNum ((vb s) <| SeqNum := _ |>)) with (u64 (SeqNum (vb s) + 1)).
  change (EncryptionEnabled ((vb s) <| SeqNum := _ |>)) with (EncryptionEnabled (vb s)). rewrite E.
  destruct (EncryptionEnabled (vb s)); cbn [negb]; [|mgo; split; [by eexists|exact Hc]].
  destruct (Z.ltb_spec MaxSeqNum (SeqNum (vb s) + 1)); [lia|].
  destruct (_ <=? _); [mgo; split; [by eexists|exact Hc]|].
  unfold mintVolumeUUID. do 3 mstep. cbn [vb]. change (VolumeUUID ((vb s) <| SeqNum := _ |>)) with (VolumeUUID (vb s)).
  rewrite bool_decide_false by auto. cbn [negb]. do 2 mstep. unfold persistStateLocal. do 4 mstep.
  apply post_bind. eapply post_mono; [apply writeFileAtomic_calm; exact Hc|]. intros r s1 [-> Hc1]. cbn beta iota. do 2 mstep.
  mgo. apply post_backend_Write.
  intros r s2 _ _ H2 _ _. destruct (H2 Hc1) as [Hc2 ->]. cbn beta iota. mgo. split; [by eexists|done].
Qed.

(** What writing a block leaves alone. *)
Definition ledger (v : VB) :=
  (PendingBackendWrites v, backendFull v, ObjectNum v, WallNum (vb_WAL v), MaxPendingBytes v, VolumeSize v).

(** Writing into a block that is inside the volume. *)
Lemma write_block_calm s seg offset data b :
  vol_inv s seg -> calm s -> 0 <= offset -> 0 < blen data -> offset + blen data <= VolumeSize (vb s) ->
  offset / BlockSize (vb s) <= b <= (offset + blen data - 1) / BlockSize (vb s) ->
  (b + 1) * BlockSize (vb s) <= VolumeSize (vb s) -> SeqNum (vb s) < MaxSeqNum ->
  post (write_block offset (offset + blen data) (BlockSize (vb s)) data b) s (fun r s' => r = Ok tt /\ calm s' /\
    ledger (vb s') = ledger (vb s) /\ pendingBytes (vb s') = pendingBytes (vb s) /\ SeqNum (vb s') = SeqNum (vb s) + 1 /\ exists blk, Writes (vb s') = Writes (vb s) ++ [blk]).
Proof.
  intros Hi Hc Ho Hd Hend Hb Hfit Hs. pose proof (vi_seqpos _ _ Hi) as Hs0. assert (SeqNum (vb s) + 1 < 2 ^ 64) as Hs64.
  { change MaxSeqNum with (2 ^ 56 - 1) in Hs. lia. }
  pose proof (block_bounds s seg Hi offset data b Ho Hd Hend Hb) as (Hbs & Hb0 & Hbb & _). pose proof (go_size _ (vi_geo _ _ Hi)) as Hsz.
  unfold write_block. destruct (write_range _ _ _ _) as [ws we]. cbv zeta. unfold writeOneBlockLocked. do 2 mstep.
  apply (post_mono _ _ (fun r s1 => (exists ex, r = Ok ex) /\ calm s1 /\ reads_same s s1)).
  { destruct ((0 <? ws) || (we <? BlockSize (vb s))); [|mgo; split; [by eexists|split; [done|apply reads_same_refl]]].
    rewrite u64_small by (unfold_widths; lia). apply post_bind.
    eapply post_mono; [apply (ReadAt_spec s (vi_store _ _ Hi) (b * BlockSize (vb s)) (BlockSize (vb s))); try lia|].
    - replace (b * BlockSize (vb s) + BlockSize (vb s) - 1) with (BlockSize (vb s) - 1 + b * BlockSize (vb s)) by lia.
      rewrite Z.div_add, Z.div_small, Z.div_mul by lia. unfold_widths. lia.
    - intros r s1 (Hr & Hok & _). destruct (Hok Hc) as [Hc1 [d ->]]. cbn beta iota. mgo. split; [by eexists|done]. }
  intros r s1 ([ex ->] & Hc1 & Hr). cbn beta iota. pose proof (reads_inv s s1 seg Hr Hi) as Hi1.
  destruct Hr as [(u & c & E1 & _) _]. assert (SeqNum (vb s1) = SeqNum (vb s)) as Esq by (by rewrite E1).
  assert (EncryptionEnabled (vb s1) = true -> VolumeUUID (vb s1) <> zeros 4) as Hu by apply (go_uuid _ (vi_geo _ _ Hi1)).
  apply post_bind. eapply post_mono; [apply post_and; [apply (reserve_calm s1 Hc1 Hu); lia|apply (reserve_frame 1 s1 Hu); lia]|].
  intros r s2 [[[x ->] Hc2] (Hf2 & Hsq2 & _)]. cbn beta iota. mgo. destruct (sf_vb _ _ Hf2) as (a & b' & h & E2).
  split; [done|]. split; [exact Hc2|]. split; [|split; [|split; [change (SeqNum (vb s2) = SeqNum (vb s) + 1); lia|]]].
  - change (ledger (vb s2) = ledger (vb s)). by rewrite E2, E1.
  - change (pendingBytes (vb s2) = pendingBytes (vb s)). by rewrite E2, E1.
  - assert (Writes (vb s2) = Writes (vb s)) as <- by (by rewrite E2, E1). by eexists.
Qed.

Lemma WriteAt_calm sc fuel s seg b data :
  vol_inv s seg -> calm s -> backendFull (vb s) = false -> 0 < blen data <= BlockSize (vb s) -> 0 <= b ->
  (b + 1) * BlockSize (vb s) <= VolumeSize (vb s) -> SeqNum (vb s) < MaxSeqNum -> 0 <= pendingBytes (vb s) ->
  pendingBytes (vb s) + BlockSize (vb s) <= maxPendingBytes (vb s) < 2 ^ 64 ->
  post (WriteAtCtx sc fuel false (b * BlockSize (vb s)) data) s (fun r s' => r = Ok true /\ calm s' /\
    ledger (vb s') = ledger (vb s) /\ pendingBytes (vb s') = pendingBytes (vb s) + BlockSize (vb s) /\
    SeqNum (vb s') = SeqNum (vb s) + 1 /\ exists blk, Writes (vb s') = Writes (vb s) ++ [blk]).
Proof.
  intros Hi Hc Hnf [Hd0 Hd] Hb Hfit Hs Hp0 Hp. pose proof (bs_pos s (vi_store _ _ Hi)) as Hbs.
  pose proof (go_size _ (vi_geo _ _ Hi)) as Hsz. set (bs := BlockSize (vb s)) in *.
  unfold WriteAtCtx. do 2 mstep. rewrite Hnf. cbn [orb]. unfold GetVolumeSize. fold bs.
  destruct (Z.ltb_spec (VolumeSize (vb s)) (b * bs)); [lia|].
  rewrite (u64_small (b * bs + blen data)) by (unfold_widths; lia).
  destruct (Z.ltb_spec (VolumeSize (vb s)) (b * bs + blen data)); [lia|]. destruct (Z.eqb_spec (blen data) 0); [lia|].
  rewrite (u64_small (b * bs + blen data - 1)) by (unfold_widths; lia).
  assert (b * bs / bs = b) as E0 by (apply Z.div_mul; lia).
  assert ((b * bs + blen data - 1) / bs = b) as E1.
  { replace (b * bs + blen data - 1) with (blen data - 1 + b * bs) by lia. rewrite Z.div_add, Z.div_small by lia. lia. }
  rewrite E0, E1, Z.sub_diag. change (seqZ b (0 + 1)) with [b]. cbn [mfor length]. do 2 apply post_bind.
  eapply post_mono; [apply (write_block_calm s seg (b * bs) data b); fold bs; try done; lia|].
  intros r s1 (-> & Hc1 & El & Epb & Esq & Ew). cbn beta iota. mgo.
  destruct (trigger_eq (vb s1) (pendingBytes (vb s1) + Z.of_nat 1 * bs)) as [tr ->].
  unfold awaitBackpressure. mgo. cbn [vb]. unfold ledger in El. injection El as E2 E3 E4 E5 E6 Evs.
  assert (PendingBytes (set_pending (pendingBytes (vb s1) + Z.of_nat 1 * bs) tr (vb s1)) = pendingBytes (vb s) + bs) as ->.
  { change (u64 (pendingBytes (vb s1) + Z.of_nat 1 * bs) = pendingBytes (vb s) + bs). rewrite Epb, u64_small by (unfold_widths; lia). lia. }
  assert (maxPendingBytes (set_pending (pendingBytes (vb s1) + Z.of_nat 1 * bs) tr (vb s1)) = maxPendingBytes (vb s)) as ->.
  { unfold maxPendingBytes. change (MaxPendingBytes (set_pending _ tr (vb s1))) with (MaxPendingBytes (vb s1)). by rewrite E6. }
  destruct (Z.leb_spec (pendingBytes (vb s) + bs) (maxPendingBytes (vb s))); [|lia]. mgo.
  split; [done|]. split; [exact Hc1|]. split; [|split; [|split; [exact Esq|exact Ew]]].
  - change (ledger (vb s1) = ledger (vb s)). unfold ledger. by rewrite E2, E3, E4, E5, E6, Evs.
  - change (pendingBytes (vb s1) + Z.of_nat 1 * bs = pendingBytes (vb s) + bs). lia.
Qed.

(** ** The copy *)

(** A volume with room for [n] more blocks. *)
Record importing (s : St) (seg : list Block) (n : Z) : Prop := {
  ig_inv : vol_inv s seg;
  ig_calm : calm s;
  ig_full : backendFull (vb s) = false;
  ig_all : all_in_segment (vb s) seg;
  ig_acct : 0 <= acct (vb s);
  ig_seq : SeqNum (vb s) + n <= MaxSeqNum;
  ig_mem : pendingBytes (vb s) + n * BlockSize (vb s) <= maxPendingBytes (vb s) < 2 ^ 64;
  ig_wal : WallNum (vb_WAL (vb s)) + n < 2 ^ 64;
  ig_obj : ObjectNum (vb s) + Z.of_nat (length (seg ++ Writes (vb s))) + n < 2 ^ 64
}.

Lemma acct_pending v : 0 <= acct v -> acct v <= pendingBytes v.
Proof.
  assert (forall l : list Block, 0 <= sumZ ((fun b => blen (b_Data b)) <$> l)) as H.
  { induction l as [|x l IH]; [done|]. change (0 <= blen (b_Data x) + sumZ ((fun b => blen (b_Data b)) <$> l)).
    assert (0 <= blen (b_Data x)) by (unfold blen; lia). lia. }
  intros _. unfold acct. pose proof (H (Writes v)). pose proof (H (PendingBackendWrites v)). lia.
Qed.

Lemma checkpoint_calm sc bs block s seg n :
  importing s seg n -> 0 <= n -> WallNum (vb_WAL (vb s)) + 1 + n < 2 ^ 64 -> sched_ok sc ->
  post (import_checkpoint sc bs block) s (fun r s' => r = Ok tt /\ (exists seg', importing s' seg' n) /\
    BlockSize (vb s') = BlockSize (vb s) /\ VolumeSize (vb s') = VolumeSize (vb s) /\ forall b, vol_block s' b = vol_block s b).
Proof.
  intros Hig Hn Hwn Hsc. unfold import_checkpoint. destruct (_ =? _); [|mgo; split; [done|]; split; [by exists seg|done]].
  destruct Hig as [Hi Hc Hnf Hall Hac Hsq [Hm1 Hm2] Hw Ho]. apply post_bind.
  eapply post_mono; [apply (Flush_works 6 [] s seg Hi (works_calm _ s Hc))|].
  intros r s1 (-> & Hw1 & Hi1 & (u & wd & Ev1) & Hp1 & Hm & Hb1). cbn beta iota.
  assert (calm s1) as Hc1 by (by apply (works_calm_iff _ _ _ Hw1)).
  eapply post_mono; [apply (WriteWALToChunk_works HA [] s1 (seg ++ Writes (vb s)) sc Hi1); try done; [split; [by rewrite Ev1|done]|rewrite Ev1..]|].
  { change (WallNum (vb_WAL (vb s)) + 1 < 2 ^ 64). lia. }
  { change (ObjectNum (vb s) + Z.of_nat (length (seg ++ Writes (vb s))) < 2 ^ 64). lia. }
  intros r s2 Hco. pose proof (flush_consolidate s s1 s2 [] seg u wd _ Ev1 (fun _ => Hc1) Hb1 Hm Hco) as Hdr.
  destruct (dr_calm _ _ _ _ Hdr Hc) as [Hc2 ->]. destruct (drained_clear s s2 seg _ Hdr eq_refl Hall) as [Hp Hz].
  pose proof (dr_fixed _ _ _ _ Hdr) as Efx. unfold fixed_part in Efx. injection Efx as E1 E2 E3 E4 _ _.
  pose proof (acct_pending _ Hac). split; [done|]. split; [|split; [done|split; [done|apply Hdr]]].
  exists []. constructor; try done.
  - apply Hdr.
  - destruct (co_rot _ _ _ _ _ Hco) as (sr & [Er _ _ _ _ _] & Hpr). destruct (pr_vb _ _ Hpr) as (m & g & u' & pbw & pb & d & k & E5).
    rewrite E5, Er, Ev1. exact Hnf.
  - intros x. rewrite Hp. intros Hx. inversion Hx.
  - by rewrite (dr_acct _ _ _ _ Hdr).
  - lia.
  - unfold maxPendingBytes. rewrite Hz, E1, E4. fold (maxPendingBytes (vb s)). lia.
  - rewrite (dr_wal _ _ _ _ Hdr). lia.
  - pose proof (dr_num _ _ _ _ Hdr). rewrite (dr_W _ _ _ _ Hdr). cbn [length app]. lia.
Qed.

(** One block of the image. *)
Lemma import_write_calm sc fuel s seg n b data :
  importing s seg (n + 1) -> 0 <= n -> sched_ok sc -> 0 < blen data <= BlockSize (vb s) -> 0 <= b ->
  (b + 1) * BlockSize (vb s) <= VolumeSize (vb s) ->
  post (do _ <- WriteAtCtx sc fuel false (b * BlockSize (vb s)) data; import_checkpoint sc (BlockSize (vb s)) (b + 1)) s (fun r s' =>
    r = Ok tt /\ (exists seg', importing s' seg' n) /\ BlockSize (vb s') = BlockSize (vb s) /\ VolumeSize (vb s') = VolumeSize (vb s) /\
    bytes_set s s' (b * BlockSize (vb s)) data (b * BlockSize (vb s)) (b * BlockSize (vb s) + blen data)).
Proof.
  intros [Hi Hc Hnf Hall Hac Hsq [Hm1 Hm2] Hw Ho] Hn Hsc Hd Hb Hfit. pose proof (bs_pos s (vi_store _ _ Hi)) as Hbs.
  pose proof (vi_seqpos _ _ Hi) as Hs0. pose proof (acct_pending _ Hac) as Hap. set (bs := BlockSize (vb s)) in *.
  assert (0 <= n * bs) as Hnb by lia. assert (blocks_touched (vb s) (b * bs) data = 1) as Hone.
  { unfold blocks_touched. fold bs. replace (b * bs + blen data - 1) with (blen data - 1 + b * bs) by lia.
    rewrite Z.div_add, Z.div_small, Z.div_mul by lia. lia. }
  apply post_bind. eapply post_mono; [apply post_and;
    [apply (WriteAt_calm sc fuel s seg b data); fold bs; try done; lia|apply (WriteAt_spec sc fuel (b * bs) data s seg); fold bs; rewrite ?Hone; try done; try lia]|].
  { change MaxSeqNum with (2 ^ 56 - 1) in Hsq. lia. }
  intros r s1 [(-> & Hc1 & El & Epb & Esq & (blk & Ew)) (Hi1 & [Ebs [Hfp _]] & hi & _ & Hset & [_ ->])]. cbn beta iota.
  unfold ledger in El. injection El as E2 E3 E4 E5 E6 Evs.
  assert (importing s1 seg n) as Hig.
  { assert (blen (b_Data blk) = bs) as Hblk.
    { pose proof (vi_bufs _ _ Hi1) as Hf. rewrite Ew, Forall_forall in Hf. destruct (Hf blk) as [[] _ _ _]; [|unfold bs; congruence].
      apply elem_of_app. left. apply elem_of_app. right. by left. }
    constructor; try done.
    - by rewrite E3.
    - intros x. rewrite E2. apply Hall.
    - unfold acct in *. rewrite Epb, Ew, E2, sum_app. change (sumZ (_ <$> [blk])) with (blen (b_Data blk) + 0). lia.
    - lia.
    - unfold maxPendingBytes. rewrite Epb, Ebs, E6. fold (maxPendingBytes (vb s)) bs. lia.
    - lia.
    - rewrite E4, Ew, !length_app in *. cbn [length]. lia. }
  eapply post_mono; [apply (checkpoint_calm sc bs (b + 1) s1 seg n Hig Hn); [lia|done]|].
  intros r s2 (-> & Hs2 & Eb2 & Ev2 & Hb2). split; [done|]. split; [done|]. split; [by etrans|]. split; [by etrans|].
  intros o Ho0. rewrite <-(Hset o Ho0). unfold byte_at. by rewrite Eb2, Hb2.
Qed.

(** What the reads of a regular file return: full blocks, perhaps a short one
    at the end, then the end of the file. *)
Inductive reads_file (bs : Z) : list file_read -> bytes -> Prop :=
| rf_end : reads_file bs [([], ReadEOF)] []
| rf_last d : 0 < blen d < bs -> reads_file bs [(d, ReadOk); ([], ReadEOF)] d
| rf_block d reads img : blen d = bs -> reads_file bs reads img -> reads_file bs ((d, ReadOk) :: reads) (d ++ img).

Definition blocks_of (bs : Z) (img : bytes) : Z := (blen img + bs - 1) / bs.

Lemma blocks_of_app bs d img : 0 < bs -> blen d = bs -> blocks_of bs (d ++ img) = 1 + blocks_of bs img.
Proof.
  intros Hbs Hd. unfold blocks_of. unfold blen in *. rewrite length_app.
  replace (Z.of_nat (length d + length img) + bs - 1) with (Z.of_nat (length img) + bs - 1 + 1 * bs) by lia. rewrite Z.div_add by lia. lia.
Qed.

Lemma blocks_of_nonneg bs img : 0 < bs -> 0 <= blocks_of bs img.
Proof. intros. unfold blocks_of, blen. apply Z.div_pos; lia. Qed.

Lemma import_loop_unfold sc fuel bs d st reads block current p :
  import_loop sc fuel bs ((d, st) :: reads) block current p =
  if bool_decide (d = zeros bs) then
    import_loop sc fuel bs reads (u64 (block + 1)) (u64 (current + blen d)) (report p (u64 (current + blen d)))
  else match st with
       | ReadEOF => ret p
       | ReadFailed => throw plain
       | ReadOk => do _ <- WriteAtCtx sc fuel false (u64 (block * bs)) d; run import_checkpoint sc bs (u64 (block + 1));
           import_loop sc fuel bs reads (u64 (block + 1)) (u64 (current + blen d)) (report p (u64 (current + blen d)))
       end.
Proof. by destruct st. Qed.

(** Writing the first block of what is left of the image, then the rest. *)
Lemma set_block s s1 s2 lo d img :
  bytes_set s s1 lo d lo (lo + blen d) -> bytes_set s1 s2 (lo + blen d) img (lo + blen d) (lo + blen d + blen img) ->
  bytes_set s s2 lo (d ++ img) lo (lo + blen (d ++ img)).
Proof.
  intros H1 H2 o Ho. rewrite (H2 o Ho). assert (blen (d ++ img) = blen d + blen img) as E by (unfold blen; rewrite length_app; lia).
  rewrite E. assert (0 <= blen d /\ 0 <= blen img) as [? ?] by (unfold blen; lia). unfold data_at.
  destruct (decide (lo + blen d <= o < lo + blen d + blen img)) as [Hi|Hi].
  - rewrite decide_True by lia. rewrite lookup_app_r by (unfold blen in *; lia). do 2 f_equal. unfold blen in *. lia.
  - rewrite (H1 o Ho). destruct (decide (lo <= o < lo + blen d)) as [Hj|Hj].
    + rewrite decide_True by lia. rewrite lookup_app_l by (unfold blen in *; lia). done.
    + by rewrite decide_False by lia.
Qed.

Lemma post_assoc {X Y Z'} (m : M X) (k : X -> M Y) (h : Y -> M Z') s Q :
  post (do y <- (do x <- m; k x); h y) s Q -> post (do x <- m; do y <- k x; h y) s Q.
Proof. unfold post, bind. by destruct (m s) as [[x|e] s1]. Qed.

(** A block that is not skipped. *)
Lemma import_block_calm sc fuel bs s seg n b data current p reads Q :
  importing s seg (n + 1) -> BlockSize (vb s) = bs -> 0 <= n -> sched_ok sc -> 0 < blen data <= bs -> data <> zeros bs -> 0 <= b ->
  (b + 1) * bs <= VolumeSize (vb s) ->
  (forall s' seg' current' p', importing s' seg' n -> BlockSize (vb s') = bs -> VolumeSize (vb s') = VolumeSize (vb s) ->
     bytes_set s s' (b * bs) data (b * bs) (b * bs + blen data) ->
     post (import_loop sc fuel bs reads (b + 1) current' p') s' Q) ->
  post (import_loop sc fuel bs ((data, ReadOk) :: reads) b current p) s Q.
Proof.
  intros Hig <- Hn Hsc Hd Hnz Hb Hfit H. pose proof (bs_pos s (vi_store _ _ (ig_inv _ _ _ Hig))) as Hbs.
  pose proof (go_size _ (vi_geo _ _ (ig_inv _ _ _ Hig))) as Hsz.
  rewrite import_loop_unfold, bool_decide_false by done. rewrite (u64_small (b * _)) by (unfold_widths; lia).
  rewrite (u64_small (b + 1)) by (unfold_widths; nia). apply post_assoc, post_bind.
  eapply post_mono; [by apply (import_write_calm sc fuel s seg n b data)|].
  intros r s1 (-> & [seg' Hig'] & E1 & E2 & Hset). cbn beta iota. by apply (H s1 seg').
Qed.

Lemma import_loop_calm sc fuel bs reads img : reads_file bs reads img -> sched_ok sc -> forall b current p s seg,
  importing s seg (blocks_of bs img) -> BlockSize (vb s) = bs -> 0 <= b -> (b + blocks_of bs img) * bs <= VolumeSize (vb s) ->
  (forall o, b * bs <= o < b * bs + blen img -> byte_at s o = Byte.x00) ->
  post (import_loop sc fuel bs reads b current p) s (fun r s' => (exists p', r = Ok p') /\ calm s' /\ (exists seg', vol_inv s' seg') /\
    bytes_set s s' (b * bs) img (b * bs) (b * bs + blen img)).
Proof.
  intros Hrf Hsc. induction Hrf as [|d Hd|d reads img Hd Hrf IH]; intros b current p s seg Hig Ebs Hb Hfit Hz.
  all: pose proof (bs_pos s (vi_store _ _ (ig_inv _ _ _ Hig))) as Hbs; rewrite Ebs in Hbs.
  all: pose proof (go_size _ (vi_geo _ _ (ig_inv _ _ _ Hig))) as Hsz; rewrite Ebs in Hsz.
  all: assert (forall d : bytes, blen d <> bs -> d <> zeros bs) as Hnz
    by (intros x Hx ->; apply Hx; unfold blen; rewrite length_zeros; lia).
  - rewrite import_loop_unfold, bool_decide_false by (apply Hnz; unfold blen; cbn; lia). mgo. split; [by eexists|]. split; [apply Hig|]. split; [eexists; apply Hig|].
    intros o Ho. by rewrite decide_False by (unfold blen; cbn; lia).
  - assert (blocks_of bs d = 0 + 1) as E1.
    { unfold blocks_of. replace (blen d + bs - 1) with (blen d - 1 + 1 * bs) by lia. rewrite Z.div_add, Z.div_small by lia. lia. }
    rewrite E1 in *. apply (import_block_calm sc fuel bs s seg 0 b d); try done; [lia|apply Hnz; lia|].
    intros s1 seg1 c1 p1 Hig1 E2 E3 Hset. rewrite import_loop_unfold, bool_decide_false by (apply Hnz; unfold blen; cbn; lia). mgo.
    split; [by eexists|]. split; [apply Hig1|]. split; [eexists; apply Hig1|done].
  - rewrite blocks_of_app, (Z.add_comm 1) in * by done. pose proof (blocks_of_nonneg bs img Hbs) as Hn.
    assert (blen (d ++ img) = bs + blen img) as El by (unfold blen in *; rewrite length_app; lia).
    assert ((b + 1) * bs = b * bs + blen d) as Eoff by lia. assert (0 <= b * bs) as Hb0 by lia.
    assert (forall s1 seg1 c1 p1, importing s1 seg1 (blocks_of bs img) -> BlockSize (vb s1) = bs -> VolumeSize (vb s1) = VolumeSize (vb s) ->
      bytes_set s s1 (b * bs) d (b * bs) (b * bs + blen d) ->
      post (import_loop sc fuel bs reads (b + 1) c1 p1) s1 (fun r s' => (exists p', r = Ok p') /\ calm s' /\ (exists seg', vol_inv s' seg') /\
        bytes_set s s' (b * bs) (d ++ img) (b * bs) (b * bs + blen (d ++ img)))) as Hrest.
    { intros s1 seg1 c1 p1 Hig1 E2 E3 Hset.
      eapply post_mono; [apply (IH (b + 1) c1 p1 s1 seg1 Hig1 E2 ltac:(lia)); [rewrite E3; lia|]|].
      { intros o Ho. rewrite (Hset o), decide_False by lia. apply Hz. lia. }
      intros r s2 (Hr & Hc2 & Hi2 & Hset2). do 3 (split; [done|]). rewrite Eoff in Hset2. by eapply set_block. }
    destruct (decide (d = zeros bs)) as [Ed|Hne].
    + rewrite import_loop_unfold, bool_decide_true by done. rewrite (u64_small (b + 1)) by (unfold_widths; nia). apply (Hrest s seg); try done.
      * destruct Hig. constructor; try done; lia.
      * intros o Ho. destruct (decide _) as [Hin|]; [|done]. assert (0 <= blen img) by (unfold blen; lia). rewrite Hz by lia. unfold data_at. rewrite Ed. unfold zeros.
        destruct (replicate _ _ !! _) as [x|] eqn:E; [|done]. by apply lookup_replicate in E as [-> _].
    + apply (import_block_calm sc fuel bs s seg (blocks_of bs img) b d); try done; lia.
Qed.
End copy.

(** C14. An import copies the image. Reading a file block by block into a
    volume that reads as zeros over the file's length, with room for it below
    the backpressure mark and nothing failing, the copy loop of
    [ImportDiskImage] (blocks of zeros skipped, the rest written, flushed and
    consolidated from time to time) succeeds, the volume then reads as the
    file, the other bytes are as before, and its invariant holds. *)
Theorem import_copies_image {A : AEAD} {S : StateJSON} sc fuel reads img enabled s seg :
  AEADLaws A -> sched_ok sc -> reads_file (BlockSize (vb s)) reads img -> importing s seg (blocks_of (BlockSize (vb s)) img) ->
  blocks_of (BlockSize (vb s)) img * BlockSize (vb s) <= VolumeSize (vb s) ->
  (forall o, 0 <= o < blen img -> byte_at s o = Byte.x00) ->
  exists p s', import_loop sc fuel (BlockSize (vb s)) reads 0 0 (newProgressReporter enabled (blen img)) s = (Ok p, s') /\
    (exists seg', vol_inv s' seg') /\ (forall o, 0 <= o < blen img -> img !! Z.to_nat o = Some (byte_at s' o)) /\
    (forall o, blen img <= o -> byte_at s' o = byte_at s o).
Proof.
  intros HA Hsc Hrf Hig Hfit Hz.
  pose proof (import_loop_calm HA sc fuel _ reads img Hrf Hsc 0 0 (newProgressReporter enabled (blen img)) s seg Hig eq_refl) as H.
  destruct H as ([p Hp] & _ & Hi & Hset); [lia|lia|intros o Ho; apply Hz; lia|].
  destruct (import_loop _ _ _ _ _ _ _ s) as [r s'] eqn:E. cbn [fst snd] in *. exists p, s'. split; [by rewrite Hp|]. split; [done|].
  rewrite Z.mul_0_l, Z.add_0_l in Hset. split.
  - intros o Ho. rewrite (Hset o), decide_True by lia. unfold data_at. rewrite Z.sub_0_r.
    destruct (img !! Z.to_nat o) eqn:El; [done|]. apply lookup_ge_None in El. unfold blen in *. lia.
  - intros o Ho. rewrite (Hset o), decide_False; [done|lia|unfold blen in *; lia].
Qed.

#[local] Existing Instance toy_aead.
#[local] Existing Instance toy_state_json.

(** A block, a block of zeros, and two bytes. *)
Definition small_image : bytes := [Byte.x61; Byte.x62; Byte.x63; Byte.x64] ++ zeros 4 ++ [Byte.x65; Byte.x66].
Definition small_reads : list file_read :=
  [([Byte.x61; Byte.x62; Byte.x63; Byte.x64], ReadOk); (zeros 4, ReadOk); ([Byte.x65; Byte.x66], ReadOk); ([], ReadEOF)].

Lemma import_copies_image_witness :
  exists p s', import_loop serial 0 4 small_reads 0 0 (newProgressReporter true (blen small_image)) dev_st = (Ok p, s') /\
    (exists seg', vol_inv s' seg') /\ (forall o, 0 <= o < blen small_image -> small_image !! Z.to_nat o = Some (byte_at s' o)) /\
    (forall o, blen small_image <= o -> byte_at s' o = byte_at dev_st o).
Proof.
  apply (import_copies_image serial 0 small_reads small_image true dev_st []).
  - exact toy_aead_laws.
  - by intros ?.
  - unfold small_reads, small_image. do 2 (apply rf_block; [reflexivity|]). apply rf_last. split; vm_compute; reflexivity.
  - constructor.
    + exact (proj1 (fresh_inv _ _ _ dev_fresh)).
    + exact (Forall_nil_2 _).
    + reflexivity.
    + intros x Hx. inversion Hx.
    + vm_compute. discriminate.
    + vm_compute. discriminate.
    + split; [vm_compute; discriminate|vm_compute; reflexivity].
    + vm_compute. reflexivity.
    + vm_compute. reflexivity.
  - vm_compute. discriminate.
  - intros o _. apply (fresh_inv _ _ _ dev_fresh).
Defined.
